(* ===== verification/_CoqProject ===== *)
-Q . S2P
Prelude.v
GoStrings.v
GoParse.v
Base64.v
Sha256.v
Ordering.v
Schema.v
Invariant.v
Samples.v
OutboxStore.v
OrderedStore.v
PartitionStore.v
Presence.v
Tx.v
Outbox.v
Pages.v
AdminTypes.v
AdminStore.v
OrderingAdmin.v
Float64.v
RelayConfig.v
Retry.v
Relay.v
PgStore.v
InboxStore.v
InboxSystem.v
InboxAdmin.v
AdminService.v
System.v
Durability.v
Ecommerce.v
AdminListing.v
Integrity.v
IntegrityProps.v
StreamInspect.v
Http.v
Migrate.v
Consumer.v
KafkaSecurity.v
Kafka.v
GoNet.v
ConfigLoad.v
Soak.v
SoakRun.v
Lifecycle.v
Telemetry.v
Notify.v
ConsumerRun.v
GoFlag.v
Cli.v
Daemon.v
Doctor.v
Compare.v
