(* ===== verification/Prelude.v ===== *)
(** * A verification of EmitLane

    EmitLane is a transactional outbox for PostgreSQL and Kafka. A producer
    writes events into [outbox_events] inside its own transaction
    ([outbox/writer.go]); relay processes claim them, publish them and record
    the outcome ([relay/], [storage/postgres/], [broker/kafka/]); consumers keep
    an inbox so that effects happen once ([inbox/], [consumer/]); operators look
    and intervene through a service, an HTTP API and a command line
    ([internal/admin/], [cmd/emitlane/]); a verifier audits the database
    ([integrity/]); a soak test audits the whole ([cmd/emitlane-soak/]). Ordered
    streams are spread over 64 virtual partitions that relays lease from each
    other ([internal/ordering/], [storage/postgres/ordering.go]).

    This file also holds what every other file shares: the result monad with its
    notations (scope [emitlane_scope]), machine integers, the hint database
    [emitlane], case-analysis tactics, and lemmas on sorting, limits and counting.

    ** Reading order

    Each file models the part named, with the names of the source, and proves
    its lemmas and theorems at its end; the concrete runs that witness the
    hypotheses come last.

    - Language and standard library: [GoStrings] (strings, UTF-8, trimming),
      [GoParse] and [GoNet] (numbers, booleans, durations, addresses), [GoFlag]
      (flag sets), [Base64], [Sha256], [Float64] (binary64 rounding).
    - Durable state: [Schema] is the tables of [migrations/] with their CHECK
      constraints, unique indexes and triggers, as a record of maps; [Invariant]
      is the invariant of the whole database; [Samples] are concrete states;
      [Tx] is a caller's transaction with notifications and abort;
      [Migrate] is [storage/postgres/migrate.go], the migrations as lists of
      statements, roles and what the catalog shows them, and the schema checks of
      the doctor.
    - Producer: [Outbox] ([outbox/event.go], [outbox/writer.go]).
    - Delivery store: [OutboxStore] ([store.go], unordered claims and lifecycle),
      [OrderedStore] ([ordered_delivery.go]), [Ordering] (hashing and rendezvous
      ownership), [PartitionStore] ([ordering.go], leases and handoff barriers),
      [Presence] ([presence.go]).
    - Relay: [RelayConfig] ([relay/config.go]), [Retry] ([relay/retry.go]),
      [Relay] (scheduler, claiming and the handler of one event, as programs over
      the store interface, the class [DeliveryStore] with its laws), [PgStore]
      (the PostgreSQL store is an instance of that class, and the end-to-end
      results that follow), [Lifecycle] ([Run] with its loops, shutdown and
      [relay/ordering.go]), [Notify] ([notify.go]), [System] (any number of
      relays, producers and operators interleaved with a broker), [Durability]
      (what those steps do to the rows of the outbox), [Daemon]
      ([cmd/emitlane/run.go]: start-up, the group of servers and relay, probes).
    - Consumers: [InboxStore] ([storage/postgres/inbox.go], [inbox/]),
      [InboxSystem] (interleavings of everything that touches the inbox),
      [Consumer] ([consumer/]), [ConsumerRun] ([Runtime.Run] of
      [consumer/runtime.go] and the gauges of blocked partitions).
    - A client: [Ecommerce] ([examples/ecommerce/main.go]), a service that
      writes its rows and its events in one transaction, beside [System].
    - Administration: [Pages] (keyset pagination), [AdminTypes], [AdminStore],
      [OrderingAdmin], [InboxAdmin], [AdminService], [AdminListing], [Http]
      ([internal/admin/], the admin files of [storage/postgres/]), [Cli]
      ([cmd/emitlane/]), [Doctor] ([cmd/emitlane/doctor.go] with its probes and
      privilege queries).
    - Verifier: [Integrity], [IntegrityProps], [StreamInspect] ([integrity/]).
    - Kafka, configuration and measurement: [KafkaSecurity], [Kafka]
      ([broker/kafka/]), [ConfigLoad] ([config/]), [Telemetry] ([telemetry/]).
    - Soak test: [Soak] ([cmd/emitlane-soak/verifier.go], [audit.go], [model.go]
      and the verdict of [runner.go]), [SoakRun] (the producer, recovery and
      stages of [runner.go], [provenance.go], the relays of [relay_process.go]).
    - Benchmarks: [Compare] ([benchmarks/cmd/emitlane-bench/compare.go]).

    State is passed explicitly: an operation takes the database and the time of
    its transaction and returns the new database and a result; one transaction
    is one step. Code that awaits several calls is a free program ([Relay.prog])
    or a step relation. Go integers are [Z] with the wrap-around written out
    where it can occur; times are nanoseconds, rounded to microseconds where
    PostgreSQL stores them.

    ** What the theorems show

    - Ordering ([System], [OrderedStore], [PartitionStore]): in every reachable
      interleaving the log of a stream only repeats or continues; one publisher
      per stream; claims, fences, acknowledgements, barriers and convergence of
      ownership, each with its error branches.
    - Delivery ([Relay], [PgStore], [OutboxStore], [Outbox]): the handler is safe
      and terminates for every store that satisfies the interface; the PostgreSQL
      store satisfies it; claims are exclusive and fenced; admission by [Enqueue]
      is characterised exactly; a claimed event is delivered when nothing fails.
    - At least once ([Durability], [Ecommerce]): no committed event disappears
      before it was delivered, an ordered one not before its record is in the
      log; and what a service committed is what the broker's log can show.
    - Process ([Lifecycle], [Daemon], [ConsumerRun], [Retry], [Notify],
      [Relay]): bounded working set, backoff within its caps in float
      arithmetic, shutdown gives partitions back and terminates, what was opened
      is closed, gauges count what they name.
    - Exactly once ([InboxStore], [InboxSystem], [Consumer]): one effect per
      message, token fencing, no record lost below a committed offset.
    - Operators ([AdminService], [AdminListing], [Http], [Cli], [Migrate]): every
      mutation is audited or has no effect, from the service, the API and the
      command line; listings are complete; payloads stay hidden; migrations
      reach the schema the verifier demands and do not destroy live state.
    - Diagnosis ([Doctor]): the doctor passes exactly for a usable installation
      and role, and after it passed the relay starts; the relay role of
      [docs/QUICKSTART.md] cannot see the migration history and is refused.
    - Auditing ([IntegrityProps], [StreamInspect], [Soak]): a clean report means
      exactly the stated consistency; the operator's and the verifier's views
      agree; the soak audit accepts what the protocol delivers, its exit status
      is exact, and a run whose queue drained has lost nothing ([SoakRun]); a
      comparison calls environments compatible exactly when they are ([Compare]).
    - Edges ([Kafka], [KafkaSecurity], [ConfigLoad], [Telemetry]): records
      round-trip, credentials only over TLS, accepted configurations are usable,
      metric series are bounded.

    ** Assumptions

    Transactions are atomic and see one [NOW()]; rows other transactions lock are
    an argument of the claiming queries ([SKIP LOCKED]); text order is bytewise.
    Except in [Doctor] and the version checks, roles may do what they ask for.
    [System] assumes that a publication that has passed its database fence
    reaches the broker, if at all, within the publish timeout plus the safety
    margin less the commit lag, and that one client keeps the order of its own
    records. [Lifecycle] assumes that a store call has taken its effect, if any,
    when it returns, and that no two processes share an instance identity.
    Third-party code is an argument: UUID, JSON, RFC 3339 and trace codecs, the
    Kafka client and its error table, the Prometheus registry, TLS files and PEM
    parsing, random words. Floats have no NaN and no exponent limits.

    ** Bounds

    Recursions are structural except for the runs of programs and the page-wise
    listing, which take fuel; [handle_terminates] and [listing_complete] prove
    the fuel sufficient (five calls of a handler, one request more than there are
    rows). Step relations are unbounded.

    ** Not modelled

    [telemetry/tracing.go] (calls of the OpenTelemetry propagator), the text a
    command prints, test-only hooks, the containers, detached processes, fault
    schedule and report files of the soak environment, and the load generation
    of the benchmarks: they are calls of third-party clients and of the
    operating system around the modelled parts. *)
From stdpp Require Import base gmap strings list sorting fin_maps.
From Stdlib Require Import ZArith.

(** ** Results of fallible Go functions *)

(** A Go function that returns [(T, error)] is a function into [result E T]:
    the value on a nil error, the error otherwise. *)
Inductive result (E A : Type) : Type :=
| Ok (a : A)
| Err (e : E).
Arguments Ok {E A} a.
Arguments Err {E A} e.

Definition result_bind {E A B : Type} (r : result E A) (f : A -> result E B)
  : result E B :=
  match r with
  | Ok a => f a
  | Err e => Err e
  end.

Definition is_ok {E A : Type} (r : result E A) : bool :=
  match r with Ok _ => true | Err _ => false end.

Declare Scope emitlane_scope.
Delimit Scope emitlane_scope with emitlane.
Notation "'let!' x := r 'in' k" := (result_bind r (fun x => k))
  (at level 10, x pattern, r at level 100, k at level 200) : emitlane_scope.
(** A guard of the form [if cond { return err }]. *)
Notation "'fail_if' b 'with' e ';' k" := (if b then Err e else k)
  (at level 10, b at level 100, e at level 100, k at level 200) : emitlane_scope.

#[global] Instance result_eq_dec {E A} `{EqDecision E, EqDecision A} :
  EqDecision (result E A).
Proof. solve_decision. Defined.

(** ** Machine integers *)

Open Scope Z_scope.

Definition wrap64 (z : Z) : Z := (z + 2 ^ 63) mod 2 ^ 64 - 2 ^ 63.
Definition int64_ok (z : Z) : bool := (- 2 ^ 63 <=? z) && (z <? 2 ^ 63).
Definition int64_add (a b : Z) : Z := wrap64 (a + b).
Definition int64_mul (a b : Z) : Z := wrap64 (a * b).

(** Durations are Go's [time.Duration]: 64-bit counts of nanoseconds.
    Instants (PostgreSQL timestamps and Go times) are integers on the same
    scale. *)
Abbreviation duration := Z (only parsing).
Abbreviation time := Z (only parsing).
Definition Nanosecond : duration := 1.
Definition Millisecond : duration := 1000000.
Definition Second : duration := 1000 * Millisecond.
Definition Minute : duration := 60 * Second.
Definition Hour : duration := 60 * Minute.

(** A Go time sent as a TIMESTAMPTZ parameter keeps its microseconds. *)
Definition pg_time (t : time) : time := t / 1000 * 1000.

(** UUIDs are their 128-bit values; PostgreSQL orders them bytewise, which is
    the numeric order. [uuid.Nil] is zero. *)
Abbreviation uuid := N (only parsing).
Definition uuid_Nil : uuid := 0%N.

(** ** SQL comparisons with NULL *)

(** [col <= x] and friends, false when the column is NULL. *)
Definition sql_le (a : option Z) (b : Z) : bool :=
  match a with Some x => x <=? b | None => false end.
Definition sql_lt (a : option Z) (b : Z) : bool :=
  match a with Some x => x <? b | None => false end.
Definition sql_ge (a : option Z) (b : Z) : bool :=
  match a with Some x => b <=? x | None => false end.
Definition sql_gt (a : option Z) (b : Z) : bool :=
  match a with Some x => b <? x | None => false end.
(** [col = x], false when the column is NULL. *)
Definition sql_eq {A} `{EqDecision A} (a : option A) (b : A) : bool :=
  bool_decide (a = Some b).
Definition is_null {A} (a : option A) : bool :=
  match a with None => true | Some _ => false end.
Definition not_null {A} (a : option A) : bool := negb (is_null a).
(** [COALESCE(col, '-infinity') <= x]. *)
Definition sql_coalesce_le (a : option Z) (b : Z) : bool :=
  match a with Some x => x <=? b | None => true end.

(** ** Automation *)

Create HintDb emitlane.

Ltac bool_to_prop :=
  repeat match goal with
  | H : _ && _ = true |- _ => apply andb_true_iff in H; destruct H
  | H : _ || _ = false |- _ => apply orb_false_iff in H; destruct H
  | H : negb _ = true |- _ => apply negb_true_iff in H
  | H : negb _ = false |- _ => apply negb_false_iff in H
  | H : bool_decide _ = true |- _ => apply bool_decide_eq_true in H
  | H : bool_decide _ = false |- _ => apply bool_decide_eq_false in H
  | H : (_ <=? _) = true |- _ => apply Z.leb_le in H
  | H : (_ <=? _) = false |- _ => apply Z.leb_gt in H
  | H : (_ <? _) = true |- _ => apply Z.ltb_lt in H
  | H : (_ <? _) = false |- _ => apply Z.ltb_ge in H
  | H : (_ =? _) = true |- _ => apply Z.eqb_eq in H
  | H : (_ =? _) = false |- _ => apply Z.eqb_neq in H
  end.

(** Case analysis on the innermost [if] or [match] of a hypothesis. *)
Ltac destruct_match H :=
  match type of H with
  | context [match ?x with _ => _ end] =>
      lazymatch x with
      | context [match _ with _ => _ end] => fail
      | _ => destruct x eqn:?
      end
  end.
Ltac destruct_match_goal :=
  match goal with
  | |- context [match ?x with _ => _ end] =>
      lazymatch x with
      | context [match _ with _ => _ end] => fail
      | _ => destruct x eqn:?
      end
  end.

(** ** Generic lemmas *)

Lemma result_bind_ok {E A B} (r : result E A) (f : A -> result E B) b :
  result_bind r f = Ok b <-> exists a, r = Ok a /\ f a = Ok b.
Proof. destruct r; simpl; naive_solver. Qed.

Lemma wrap64_small z : - 2 ^ 63 <= z < 2 ^ 63 -> wrap64 z = z.
Proof. intros H. unfold wrap64. rewrite Z.mod_small; lia. Qed.

Lemma wrap64_range z : - 2 ^ 63 <= wrap64 z < 2 ^ 63.
Proof. unfold wrap64. pose proof (Z.mod_pos_bound (z + 2 ^ 63) (2 ^ 64)). lia. Qed.

Lemma int64_ok_spec z : int64_ok z = true <-> - 2 ^ 63 <= z < 2 ^ 63.
Proof. unfold int64_ok. rewrite andb_true_iff, Z.leb_le, Z.ltb_lt. lia. Qed.

Lemma sql_le_true a b : sql_le a b = true <-> exists x, a = Some x /\ x <= b.
Proof. destruct a; simpl; rewrite ?Z.leb_le; naive_solver. Qed.
Lemma sql_gt_true a b : sql_gt a b = true <-> exists x, a = Some x /\ b < x.
Proof. destruct a; simpl; rewrite ?Z.ltb_lt; naive_solver. Qed.
Lemma sql_ge_true a b : sql_ge a b = true <-> exists x, a = Some x /\ b <= x.
Proof. destruct a; simpl; rewrite ?Z.leb_le; naive_solver. Qed.
Lemma sql_eq_true {A} `{EqDecision A} (a : option A) b :
  sql_eq a b = true <-> a = Some b.
Proof. unfold sql_eq. apply bool_decide_eq_true. Qed.
Lemma sql_coalesce_le_true a b :
  sql_coalesce_le a b = true <-> (forall x, a = Some x -> x <= b).
Proof. destruct a; simpl; rewrite ?Z.leb_le; naive_solver. Qed.

(** ** Sorting and LIMIT

    [ORDER BY k LIMIT n] over a table is [take n (merge_sort R rows)]. *)
Section sort_limit.
Context {A : Type} (R : relation A) `{!forall x y, Decision (R x y)}.
Context `{!Transitive R, !Total R}.

Definition sort_limit (n : nat) (l : list A) : list A :=
  take n (merge_sort R l).

Lemma sort_limit_nil n : sort_limit n [] = [].
Proof. unfold sort_limit. apply take_nil. Qed.

Lemma StronglySorted_merge_sort l : StronglySorted R (merge_sort R l).
Proof. apply Sorted_StronglySorted; [done|]. apply Sorted_merge_sort; done. Qed.

Lemma elem_of_merge_sort x l : x ∈ merge_sort R l <-> x ∈ l.
Proof. by rewrite merge_sort_Permutation. Qed.

Lemma elem_of_sort_limit x n l : x ∈ sort_limit n l -> x ∈ l.
Proof.
  unfold sort_limit. intros Hx. apply elem_of_merge_sort.
  rewrite <- (take_drop n). apply elem_of_app. by left.
Qed.

Lemma length_sort_limit n l : length (sort_limit n l) = (n `min` length l)%nat.
Proof. unfold sort_limit. by rewrite length_take, merge_sort_Permutation. Qed.

(** If at least [n] elements of a sorted list are below [y], so are its first
    [n] elements. *)
Lemma sorted_take_below n l y :
  StronglySorted R l ->
  (n <= length (filter (fun x => R x y) l))%nat ->
  Forall (fun x => R x y) (take n l).
Proof.
  intros Hs. revert n. induction Hs as [|x l Hs IH Hx]; intros n Hn.
  - rewrite take_nil. constructor.
  - destruct n as [|n]; [constructor|]. simpl.
    rewrite filter_cons in Hn. case_decide as Hxy.
    + constructor; [done|]. apply IH. simpl in Hn. lia.
    + exfalso. assert (filter (fun x0 => R x0 y) l = []) as Hnil.
      { destruct (filter (fun x0 => R x0 y) l) as [|z l'] eqn:E; [done|].
        assert (z ∈ filter (fun x0 => R x0 y) l) as Hz by (rewrite E; left).
        apply list_elem_of_filter in Hz as [Hzy Hzl].
        rewrite Forall_forall in Hx. specialize (Hx z Hzl).
        destruct Hxy. by etrans. }
      rewrite Hnil in Hn. simpl in Hn. lia.
Qed.

Lemma filter_all_length (P : A -> Prop) `{!forall x, Decision (P x)} l :
  Forall P l -> filter P l = l.
Proof.
  induction 1 as [|x l Hx _ IH]; [done|].
  rewrite filter_cons_True by done. by rewrite IH.
Qed.

(** Everything cut off one branch is above the first [n] of the merge. *)
Lemma cut_above n SA X y :
  StronglySorted R SA ->
  (exists Z, X ≡ₚ take n SA ++ Z) ->
  y ∈ drop n SA ->
  Forall (fun x => R x y) (take n (merge_sort R X)).
Proof.
  intros HSA [Z HZ] Hy. apply sorted_take_below; [apply StronglySorted_merge_sort|].
  rewrite <- (take_drop n SA), StronglySorted_app in HSA.
  destruct HSA as (Hab & _ & _).
  assert (n <= length (take n SA))%nat as Hlen.
  { rewrite length_take. assert (n < length SA)%nat; [|lia].
    destruct (decide (n < length SA)%nat); [done|].
    rewrite drop_ge in Hy by lia. by apply elem_of_nil in Hy. }
  etrans; [exact Hlen|].
  assert (filter (fun x => R x y) (merge_sort R X)
          ≡ₚ filter (fun x => R x y) (take n SA ++ Z)) as ->.
  { by rewrite merge_sort_Permutation, HZ. }
  rewrite filter_app, length_app.
  rewrite (filter_all_length _ (take n SA)); [lia|].
  apply Forall_forall. intros x Hx. by apply Hab.
Qed.

Context `{!AntiSymm (=) R}.

(** The first [n] of a sorted prefix [X] are the first of the whole when every
    element of the rest is above them. *)
Lemma merge_sort_prefix n (X Y l : list A) :
  l ≡ₚ X ++ Y -> (forall y, y ∈ Y -> Forall (fun x => R x y) (take n (merge_sort R X))) ->
  merge_sort R l = take n (merge_sort R X) ++ merge_sort R (drop n (merge_sort R X) ++ Y).
Proof.
  intros Hperm Hcut. apply (StronglySorted_unique R).
  - apply StronglySorted_merge_sort.
  - pose proof (StronglySorted_merge_sort X) as HX.
    rewrite <- (take_drop n (merge_sort R X)), StronglySorted_app in HX.
    destruct HX as (Hab & HT & _).
    apply StronglySorted_app_2; [|done|apply StronglySorted_merge_sort].
    intros x1 x2 Hx1 Hx2. rewrite elem_of_merge_sort in Hx2.
    apply elem_of_app in Hx2 as [Hx2|Hx2]; [by apply Hab|].
    specialize (Hcut x2 Hx2). rewrite Forall_forall in Hcut. by apply Hcut.
  - rewrite merge_sort_Permutation, Hperm.
    transitivity (take n (merge_sort R X) ++ (drop n (merge_sort R X) ++ Y));
      [|apply Permutation_app_head; symmetry; apply merge_sort_Permutation].
    rewrite (assoc (++)), take_drop.
    apply Permutation_app_tail. symmetry. apply merge_sort_Permutation.
Qed.

(** Taking [n] from each of two sorted branches and [n] of their merge selects
    the same rows as [ORDER BY ... LIMIT n] over the union. *)
Lemma sort_limit_union n (la lb : list A) :
  sort_limit n (sort_limit n la ++ sort_limit n lb) = sort_limit n (la ++ lb).
Proof.
  unfold sort_limit.
  set (SA := merge_sort R la). set (SB := merge_sort R lb).
  set (X := take n SA ++ take n SB). set (Y := drop n SA ++ drop n SB).
  assert (StronglySorted R SA) as HSA by apply StronglySorted_merge_sort.
  assert (StronglySorted R SB) as HSB by apply StronglySorted_merge_sort.
  rewrite (merge_sort_prefix n X Y (la ++ lb)).
  2: { rewrite <- (merge_sort_Permutation R la), <- (merge_sort_Permutation R lb).
       fold SA SB. rewrite <- (take_drop n SA) at 1. rewrite <- (take_drop n SB) at 1.
       unfold X, Y. solve_Permutation. }
  2: { intros y [Hy|Hy]%elem_of_app.
       - apply (cut_above n SA); [done| |done]. by exists (take n SB).
       - apply (cut_above n SB); [done| |done].
         exists (take n SA). unfold X. by rewrite Permutation_app_comm. }
  destruct (decide (n <= length X)%nat) as [Hn|Hn].
  - rewrite take_app_length'; [done|]. rewrite length_take, merge_sort_Permutation. lia.
  - assert (length X = length (take n SA) + length (take n SB))%nat as HX
      by (unfold X; by rewrite length_app).
    rewrite !length_take in HX.
    assert (Y = []) as HY by (unfold Y; by rewrite !drop_ge by lia).
    rewrite HY, app_nil_r.
    rewrite (drop_ge (merge_sort R X)) by (rewrite merge_sort_Permutation; lia).
    change (merge_sort R []) with (@nil A). rewrite app_nil_r, take_take. f_equal. lia.
Qed.

Lemma sort_limit_perm n l l' : l ≡ₚ l' -> sort_limit n l = sort_limit n l'.
Proof.
  intros Hp. unfold sort_limit. f_equal. apply (StronglySorted_unique R).
  - apply StronglySorted_merge_sort.
  - apply StronglySorted_merge_sort.
  - by rewrite !merge_sort_Permutation.
Qed.

(** What [LIMIT] leaves out comes after everything it keeps, and only when
    the limit is reached. *)
Lemma sort_limit_rest n l x :
  x ∈ l -> x ∉ sort_limit n l ->
  length (sort_limit n l) = n /\ forall y, y ∈ sort_limit n l -> R y x.
Proof.
  intros Hx Hnx. assert (x ∈ drop n (merge_sort R l)) as Hd.
  { apply elem_of_merge_sort in Hx. rewrite <- (take_drop n) in Hx.
    apply elem_of_app in Hx as [|]; done. }
  split.
  - rewrite length_sort_limit. destruct (decide (n <= length l)%nat); [lia|].
    rewrite drop_ge in Hd; [by apply elem_of_nil in Hd|].
    rewrite merge_sort_Permutation. lia.
  - intros y Hy. pose proof (StronglySorted_merge_sort l) as HS.
    rewrite <- (take_drop n) in HS. by eapply StronglySorted_app_1_elem_of.
Qed.

End sort_limit.
