(* ===== verification/GoStrings.v ===== *)
(** * Go strings, UTF-8 and the helpers of the standard library the sources use

    Go strings are byte sequences, modelled by [string] (8-bit characters).
    This file models [strings.TrimSpace], [strings.ToLower] and
    [strings.EqualFold] as the sources use them, [utf8.ValidString],
    [strings.ToValidUTF8], [strings.ReplaceAll] of the NUL byte, PostgreSQL's
    [BTRIM], and the two functions of [storage/postgres/store.go] built on
    them: [sanitizeError] and [intervalMS]. *)
From Stdlib Require Import ZArith Ascii String.
From stdpp Require Import base list strings pretty.
From S2P Require Import Prelude.

Open Scope Z_scope.

(** ** Bytes *)

Definition bytes (s : string) : list N := map N_of_ascii (list_ascii_of_string s).
Definition of_bytes (l : list N) : string :=
  string_of_list_ascii (map ascii_of_N l).

(** [len(s)] *)
Definition go_len (s : string) : Z := Z.of_nat (String.length s).

(** [strings.ContainsRune(s, '\x00')] *)
Definition has_nul (s : string) : bool := existsb (N.eqb 0) (bytes s).

(** [strconv.Itoa] and [strconv.FormatInt(_, 10)] *)
Definition Itoa (z : Z) : string := pretty z.

(** ** UTF-8 *)

Definition between (lo hi b : N) : bool := (lo <=? b)%N && (b <=? hi)%N.
Definition cont (b : N) : bool := between 0x80 0xBF b.
Definition utf8_1 (b0 : N) : bool := (b0 <? 0x80)%N.
Definition utf8_2 (b0 b1 : N) : bool := between 0xC2 0xDF b0 && cont b1.
Definition utf8_3 (b0 b1 b2 : N) : bool :=
  ((N.eqb b0 0xE0 && between 0xA0 0xBF b1)
   || (N.eqb b0 0xED && between 0x80 0x9F b1)
   || ((between 0xE1 0xEC b0 || between 0xEE 0xEF b0) && cont b1))
  && cont b2.
Definition utf8_4 (b0 b1 b2 b3 : N) : bool :=
  ((N.eqb b0 0xF0 && between 0x90 0xBF b1)
   || (N.eqb b0 0xF4 && between 0x80 0x8F b1)
   || (between 0xF1 0xF3 b0 && cont b1))
  && cont b2 && cont b3.

(** The number of bytes of the valid encoding at the head of [l], zero when
    the head is not the start of one ([utf8.DecodeRune] returning
    [RuneError, 1]). *)
Definition rune_len (l : list N) : nat :=
  match l with
  | [] => 0
  | b0 :: l1 =>
      if utf8_1 b0 then 1 else
      match l1 with
      | [] => 0
      | b1 :: l2 =>
          if utf8_2 b0 b1 then 2 else
          match l2 with
          | [] => 0
          | b2 :: l3 =>
              if utf8_3 b0 b1 b2 then 3 else
              match l3 with
              | [] => 0
              | b3 :: _ => if utf8_4 b0 b1 b2 b3 then 4 else 0
              end
          end
      end
  end%nat.

(** [utf8.Valid] *)
Fixpoint valid_utf8 (fuel : nat) (l : list N) : bool :=
  match fuel with
  | O => true
  | S fuel =>
      match l with
      | [] => true
      | _ :: _ =>
          match rune_len l with
          | O => false
          | n => valid_utf8 fuel (drop n l)
          end
      end
  end.
Definition ValidBytes (l : list N) : bool := valid_utf8 (length l) l.
Definition ValidString (s : string) : bool := ValidBytes (bytes s).

(** U+FFFD, the replacement character. *)
Definition replacement : list N := [0xEF; 0xBF; 0xBD]%N.

(** [strings.ToValidUTF8(s, "\uFFFD")]: each run of invalid bytes becomes one
    replacement character; [inv] says whether the previous byte was invalid. *)
Fixpoint to_valid (fuel : nat) (inv : bool) (l : list N) : list N :=
  match fuel with
  | O => []
  | S fuel =>
      match l with
      | [] => []
      | _ :: t =>
          match rune_len l with
          | O => (if inv then [] else replacement) ++ to_valid fuel true t
          | n => take n l ++ to_valid fuel false (drop n l)
          end
      end
  end.
Definition ToValidUTF8 (l : list N) : list N := to_valid (length l) false l.

(** [strings.ReplaceAll(msg, "\x00", "\uFFFD")] *)
Definition replace_nul (l : list N) : list N :=
  l ≫= (fun b => if N.eqb b 0 then replacement else [b]).

(** ** [sanitizeError] *)

Definition maxErrorBytes : nat := 4096.

(** [for end > 0 && !utf8.ValidString(msg[:end]) { end-- }] *)
Fixpoint back_off (msg : list N) (end_ : nat) : nat :=
  match end_ with
  | O => O
  | S end' => if ValidBytes (take end_ msg) then end_ else back_off msg end'
  end.

Definition sanitizeBytes (msg : list N) : list N :=
  let msg := ToValidUTF8 (replace_nul msg) in
  if (length msg <=? maxErrorBytes)%nat then msg
  else take (back_off msg maxErrorBytes) msg.

Definition sanitizeError (msg : string) : string :=
  of_bytes (sanitizeBytes (bytes msg)).

(** ** [intervalMS] *)

Definition intervalMS (d : duration) : Z :=
  if d <=? 0 then 0 else
  let ms := Z.quot d Millisecond in
  if Z.rem d Millisecond =? 0 then ms else ms + 1.

(** ** White space *)

(** Bytes of the Unicode white-space character at the head, zero if none. *)
Definition space_len (l : list N) : nat :=
  match l with
  | b0 :: l1 =>
      if between 9 13 b0 || N.eqb b0 32 then 1 else
      match l1 with
      | b1 :: l2 =>
          if N.eqb b0 0xC2 && (N.eqb b1 0x85 || N.eqb b1 0xA0) then 2 else
          match l2 with
          | b2 :: _ =>
              if (N.eqb b0 0xE1 && N.eqb b1 0x9A && N.eqb b2 0x80)
                 || (N.eqb b0 0xE2 && N.eqb b1 0x80
                     && (between 0x80 0x8A b2 || between 0xA8 0xA9 b2 || N.eqb b2 0xAF))
                 || (N.eqb b0 0xE2 && N.eqb b1 0x81 && N.eqb b2 0x9F)
                 || (N.eqb b0 0xE3 && N.eqb b1 0x80 && N.eqb b2 0x80)
              then 3 else 0
          | [] => 0
          end
      | [] => 0
      end
  | [] => 0
  end%nat.

(** Bytes of the white-space character at the end; [l] is reversed. *)
Definition space_len_rev (l : list N) : nat :=
  if (0 <? space_len (take 1 l))%nat then 1 else
  if (space_len (reverse (take 2 l)) =? 2)%nat then 2 else
  if (space_len (reverse (take 3 l)) =? 3)%nat then 3 else 0%nat.

Fixpoint trim_with (f : list N -> nat) (fuel : nat) (l : list N) : list N :=
  match fuel with
  | O => l
  | S fuel =>
      match f l with
      | O => l
      | n => trim_with f fuel (drop n l)
      end
  end.

Definition trim_left (l : list N) : list N := trim_with space_len (length l) l.
Definition trim_right (l : list N) : list N :=
  reverse (trim_with space_len_rev (length l) (reverse l)).

(** [strings.TrimSpace] *)
Definition TrimSpace (s : string) : string :=
  of_bytes (trim_right (trim_left (bytes s))).

(** PostgreSQL's [BTRIM(s) <> ''], which strips U+0020 only. *)
Definition btrim_nonempty (s : string) : bool :=
  existsb (fun b => negb (N.eqb b 32)) (bytes s).

(** What a TEXT column accepts: UTF-8 without NUL. *)
Definition pg_text_ok (s : string) : bool := ValidString s && negb (has_nul s).

(** ** Case folding *)

Definition lower_byte (b : N) : N := if between 65 90 b then (b + 32)%N else b.

(** [strings.ToLower] as the sources use it, to compare with ASCII constants:
    ASCII letters are lowered, and so are the two non-ASCII characters whose
    lower case is ASCII, U+0130 and U+212A. Every other character keeps its
    bytes here; its lower case is not ASCII in Go either. *)
Fixpoint lower_bytes (fuel : nat) (l : list N) : list N :=
  match fuel with
  | O => []
  | S fuel =>
      match l with
      | [] => []
      | 0xC4%N :: 0xB0%N :: t => 0x69%N :: lower_bytes fuel t
      | 0xE2%N :: 0x84%N :: 0xAA%N :: t => 0x6B%N :: lower_bytes fuel t
      | b :: t => lower_byte b :: lower_bytes fuel t
      end
  end.
Definition ToLower (s : string) : string :=
  of_bytes (lower_bytes (String.length s) (bytes s)).

(** [strings.EqualFold(s, t)] for a constant [t] of ASCII characters other
    than [k] and [s], the two letters with non-ASCII simple foldings. *)
Definition EqualFold (s t : string) : bool :=
  bool_decide (map lower_byte (bytes s) = map lower_byte (bytes t)).

(** * Lemmas *)

(** ** Bytes of strings *)

Lemma N_of_ascii_lt c : (N_of_ascii c < 256)%N.
Proof. apply N_ascii_bounded. Qed.

Lemma bytes_lt s : Forall (fun b => (b < 256)%N) (bytes s).
Proof.
  unfold bytes. induction (list_ascii_of_string s); simpl; constructor; [|done].
  apply N_of_ascii_lt.
Qed.

Lemma bytes_of_bytes l : Forall (fun b => (b < 256)%N) l -> bytes (of_bytes l) = l.
Proof.
  intros H. unfold bytes, of_bytes. rewrite list_ascii_of_string_of_list_ascii.
  induction H as [|b l Hb _ IH]; simpl; [done|].
  by rewrite N_ascii_embedding, IH.
Qed.

Lemma of_bytes_bytes s : of_bytes (bytes s) = s.
Proof.
  unfold of_bytes, bytes. rewrite map_map.
  assert (map (fun x => ascii_of_N (N_of_ascii x)) (list_ascii_of_string s)
          = list_ascii_of_string s) as ->.
  { induction (list_ascii_of_string s); simpl; [done|].
    by rewrite ascii_N_embedding, IHl. }
  apply string_of_list_ascii_of_string.
Qed.

Lemma bytes_inj s t : bytes s = bytes t -> s = t.
Proof. intros H. by rewrite <- (of_bytes_bytes s), H, of_bytes_bytes. Qed.

Lemma length_bytes s : length (bytes s) = String.length s.
Proof. unfold bytes. rewrite length_map. induction s; simpl; congruence. Qed.

(** ** UTF-8 validity as an inductive predicate *)

Inductive utf8 : list N -> Prop :=
| utf8_nil : utf8 []
| utf8_rune l n : rune_len l = S n -> utf8 (drop (S n) l) -> utf8 l.

Ltac rune_cases :=
  repeat first
    [ progress simpl in *
    | progress simplify_eq
    | match goal with
      | H : context [if ?b then _ else _] |- _ => destruct b eqn:?
      | |- context [if ?b then _ else _] => destruct b eqn:?
      end ].

Lemma rune_len_app l r : rune_len l <> O -> rune_len (l ++ r) = rune_len l.
Proof.
  destruct l as [|b0 [|b1 [|b2 [|b3 l]]]]; simpl; intros H; rune_cases; done.
Qed.

Lemma rune_len_take l n : rune_len l = S n -> rune_len (take (S n) l) = S n.
Proof.
  destruct l as [|b0 [|b1 [|b2 [|b3 l]]]]; simpl; intros H; rune_cases; done.
Qed.

Lemma rune_len_bounds l : (rune_len l <= 4 /\ rune_len l <= length l)%nat.
Proof.
  destruct l as [|b0 [|b1 [|b2 [|b3 l]]]]; simpl; rune_cases; lia.
Qed.

Lemma utf8_rune_app l r n :
  rune_len l = S n -> utf8 r -> utf8 (take (S n) l ++ r).
Proof.
  intros Hl Hr. pose proof (rune_len_bounds l) as [_ Hb].
  assert (length (take (S n) l) = S n) as Hlen by (rewrite length_take; lia).
  apply (utf8_rune _ n).
  - rewrite rune_len_app; rewrite rune_len_take; done.
  - by rewrite drop_app_length' by done.
Qed.

Lemma valid_utf8_spec fuel l :
  (length l <= fuel)%nat -> valid_utf8 fuel l = true <-> utf8 l.
Proof.
  revert l. induction fuel as [|fuel IH]; intros l Hf.
  { destruct l; simpl in Hf; [|lia]. split; [constructor|done]. }
  destruct l as [|b l]; [split; [constructor|done]|].
  cbn [valid_utf8]. pose proof (rune_len_bounds (b :: l)) as [_ Hb].
  destruct (rune_len (b :: l)) as [|n] eqn:E.
  - split; [done|]. inversion 1; congruence.
  - rewrite IH by (rewrite length_drop; simpl in *; lia).
    split; [by apply utf8_rune|]. inversion 1; subst. congruence.
Qed.

Lemma ValidBytes_spec l : ValidBytes l = true <-> utf8 l.
Proof. apply valid_utf8_spec. lia. Qed.

(** ** The sanitizing functions *)

Lemma to_valid_utf8 fuel inv l : utf8 (to_valid fuel inv l).
Proof.
  revert inv l. induction fuel as [|fuel IH]; intros inv l; [constructor|].
  destruct l as [|b l]; [constructor|]. cbn [to_valid].
  destruct (rune_len (b :: l)) as [|n] eqn:E.
  - destruct inv; simpl; [apply IH|].
    by apply (utf8_rune_app replacement _ 2).
  - by apply utf8_rune_app.
Qed.

Lemma to_valid_Forall (P : N -> Prop) fuel inv l :
  Forall P replacement -> Forall P l -> Forall P (to_valid fuel inv l).
Proof.
  intros HR. revert inv l. induction fuel as [|fuel IH]; intros inv l Hl; [constructor|].
  destruct l as [|b l]; [constructor|]. cbn [to_valid].
  destruct (rune_len (b :: l)) as [|n].
  - apply Forall_app. split; [by destruct inv|]. apply IH. by inversion Hl.
  - apply Forall_app. split; [by apply Forall_take|]. by apply IH, Forall_drop.
Qed.

Lemma to_valid_id fuel inv l : (length l <= fuel)%nat -> utf8 l -> to_valid fuel inv l = l.
Proof.
  revert inv l. induction fuel as [|fuel IH]; intros inv l Hf Hl.
  { by destruct l; simpl in *; [|lia]. }
  destruct Hl as [|l n Hn Hr]; [done|].
  pose proof (rune_len_bounds l) as [_ Hb].
  destruct l as [|b l]; [done|]. cbn [to_valid]. rewrite Hn.
  rewrite IH, take_drop; [done| |done]. rewrite length_drop. simpl in *. lia.
Qed.

Lemma replace_nul_Forall (P : N -> Prop) l :
  Forall P replacement -> Forall (fun b => b <> 0%N -> P b) l ->
  Forall P (replace_nul l).
Proof.
  intros HR. induction 1 as [|b l Hb _ IH]; simpl; [constructor|].
  apply Forall_app. split; [|done].
  destruct (N.eqb_spec b 0); [done|]. repeat constructor. by apply Hb.
Qed.

Lemma replace_nul_id l : Forall (fun b => b <> 0%N) l -> replace_nul l = l.
Proof.
  induction 1 as [|b l Hb _ IH]; [done|]. simpl. rewrite IH.
  by destruct (N.eqb_spec b 0).
Qed.

(** A valid text cut anywhere is valid again within three bytes. *)
Lemma utf8_cut l n :
  utf8 l -> (n <= length l)%nat ->
  exists k, (n - 3 <= k <= n)%nat /\ utf8 (take k l).
Proof.
  intros Hl. revert n. induction Hl as [|l m Hm Hr IH]; intros n Hn.
  { exists 0%nat. simpl in Hn. split; [lia|constructor]. }
  pose proof (rune_len_bounds l) as [Hb4 Hb].
  destruct (decide (S m <= n)%nat) as [Hmn|Hmn].
  - destruct (IH (n - S m)%nat) as (k & Hk & Hu).
    { rewrite length_drop. lia. }
    exists (S m + k)%nat. split; [lia|].
    rewrite <- (take_drop (S m) l), take_app_add'; [by apply utf8_rune_app|].
    rewrite length_take. lia.
  - exists 0%nat. split; [lia|]. rewrite take_0. constructor.
Qed.

Lemma back_off_spec msg n :
  let k := back_off msg n in
  (k <= n)%nat /\ utf8 (take k msg) /\
  (forall j, (k < j <= n)%nat -> ~ utf8 (take j msg)).
Proof.
  induction n as [|n IH].
  { simpl. split_and!; [lia| rewrite take_0; constructor | intros; lia]. }
  cbn [back_off]. destruct (ValidBytes (take (S n) msg)) eqn:E.
  - apply ValidBytes_spec in E. split_and!; [lia|done|intros; lia].
  - destruct IH as (H1 & H2 & H3). split_and!; [lia|done|].
    intros j Hj. destruct (decide (j = S n)) as [->|]; [|apply H3; lia].
    rewrite <- ValidBytes_spec. congruence.
Qed.

Lemma sanitizeBytes_utf8 msg : utf8 (sanitizeBytes msg).
Proof.
  unfold sanitizeBytes. case_match; [apply to_valid_utf8|].
  apply (back_off_spec _ maxErrorBytes).
Qed.

Lemma sanitizeBytes_Forall (P : N -> Prop) msg :
  Forall P replacement -> Forall (fun b => b <> 0%N -> P b) msg ->
  Forall P (sanitizeBytes msg).
Proof.
  intros HR Hm. unfold sanitizeBytes.
  assert (Forall P (ToValidUTF8 (replace_nul msg))).
  { by apply to_valid_Forall, replace_nul_Forall. }
  case_match; [done|]. by apply Forall_take.
Qed.

Lemma sanitizeBytes_length msg : (length (sanitizeBytes msg) <= maxErrorBytes)%nat.
Proof.
  unfold sanitizeBytes. case_match; [by apply Nat.leb_le|].
  rewrite length_take.
  pose proof (back_off_spec (ToValidUTF8 (replace_nul msg)) maxErrorBytes) as (? & _).
  lia.
Qed.

Lemma has_nul_false s : has_nul s = false <-> Forall (fun b => b <> 0%N) (bytes s).
Proof.
  unfold has_nul. rewrite <- not_true_iff_false, existsb_exists, Forall_forall.
  setoid_rewrite list_elem_of_In. setoid_rewrite N.eqb_eq. naive_solver.
Qed.

Lemma sanitizeBytes_lt s : Forall (fun b => (b < 256)%N) (sanitizeBytes (bytes s)).
Proof.
  apply sanitizeBytes_Forall; [by repeat constructor|].
  eapply Forall_impl; [apply bytes_lt|]. auto.
Qed.

(** ** White space *)

Lemma space_len_bounds l : (space_len l <= length l)%nat.
Proof. destruct l as [|b0 [|b1 [|b2 l]]]; simpl; repeat case_match; simpl; lia. Qed.

Lemma space_len_prefix l r : space_len l <> O -> space_len (l ++ r) <> O.
Proof.
  destruct l as [|b0 [|b1 [|b2 l]]]; simpl; intros H; repeat case_match; done.
Qed.

Lemma space_len_rev_bounds l : (space_len_rev l <= length l)%nat.
Proof.
  unfold space_len_rev. destruct l as [|b0 [|b1 [|b2 l]]]; simpl;
    repeat case_match; simpl in *; bool_to_prop; try lia.
  all: try (apply Nat.eqb_eq in H0; simpl in H0; repeat case_match; lia).
  all: try (apply Nat.eqb_eq in H1; simpl in H1; repeat case_match; lia).
Qed.

Lemma trim_with_fix f fuel l :
  (forall l, f l <= length l)%nat -> (length l <= fuel)%nat ->
  f (trim_with f fuel l) = O.
Proof.
  intros Hf. revert l. induction fuel as [|fuel IH]; intros l Hl; simpl.
  { specialize (Hf l). lia. }
  destruct (f l) eqn:E; [done|]. apply IH. rewrite length_drop.
  specialize (Hf l). lia.
Qed.

Lemma trim_with_id f fuel l : f l = O -> trim_with f fuel l = l.
Proof. intros H. destruct fuel; simpl; [done|]. by rewrite H. Qed.

Lemma trim_with_suffix f fuel l : exists p, l = p ++ trim_with f fuel l.
Proof.
  revert l. induction fuel as [|fuel IH]; intros l; simpl; [by exists []|].
  destruct (f l) as [|n]; [by exists []|].
  destruct (IH (drop (S n) l)) as [p Hp]. exists (take (S n) l ++ p).
  by rewrite <- (assoc (++)), <- Hp, take_drop.
Qed.

Lemma trim_right_prefix l : exists r, l = trim_right l ++ r.
Proof.
  unfold trim_right.
  destruct (trim_with_suffix space_len_rev (length l) (reverse l)) as [p Hp].
  exists (reverse p). rewrite <- reverse_app, <- Hp. by rewrite reverse_involutive.
Qed.

Lemma trim_fix l :
  let t := trim_right (trim_left l) in space_len t = O /\ space_len_rev (reverse t) = O.
Proof.
  split.
  - destruct (trim_right_prefix (trim_left l)) as [r Hr].
    assert (space_len (trim_left l) = O) as Hl.
    { apply trim_with_fix; [apply space_len_bounds|done]. }
    destruct (space_len (trim_right (trim_left l))) eqn:E; [done|].
    exfalso. assert (space_len (trim_right (trim_left l)) <> O) as HE by lia.
    apply (space_len_prefix _ r) in HE. by rewrite <- Hr in HE.
  - unfold trim_right. rewrite reverse_involutive.
    apply trim_with_fix; [apply space_len_rev_bounds|]. by rewrite length_reverse.
Qed.

Lemma trim_bytes_lt s : Forall (fun b => (b < 256)%N) (trim_right (trim_left (bytes s))).
Proof.
  destruct (trim_right_prefix (trim_left (bytes s))) as [r Hr].
  destruct (trim_with_suffix space_len (length (bytes s)) (bytes s)) as [p Hp].
  fold (trim_left (bytes s)) in Hp.
  pose proof (bytes_lt s) as H. rewrite Hp, Hr in H.
  rewrite !Forall_app in H. apply H.
Qed.

Lemma bytes_TrimSpace s : bytes (TrimSpace s) = trim_right (trim_left (bytes s)).
Proof. apply bytes_of_bytes, trim_bytes_lt. Qed.

Lemma TrimSpace_fixed s :
  space_len (bytes s) = O -> space_len_rev (reverse (bytes s)) = O -> TrimSpace s = s.
Proof.
  intros H1 H2. unfold TrimSpace, trim_left, trim_right.
  rewrite (trim_with_id space_len), trim_with_id by done.
  by rewrite reverse_involutive, of_bytes_bytes.
Qed.

Lemma TrimSpace_idemp s : TrimSpace (TrimSpace s) = TrimSpace s.
Proof.
  apply TrimSpace_fixed; rewrite bytes_TrimSpace; apply (trim_fix (bytes s)).
Qed.

(** A text that is its own trimming and is not empty has a byte that is not a
    space, so PostgreSQL's [BTRIM] checks accept it. *)
Lemma trimmed_btrim s : s = TrimSpace s -> s <> ""%string -> btrim_nonempty s = true.
Proof.
  intros Ht Hs. assert (space_len (bytes s) = O) as H0.
  { rewrite Ht, bytes_TrimSpace. apply (trim_fix (bytes s)). }
  unfold btrim_nonempty. destruct (bytes s) as [|b l] eqn:E.
  { destruct Hs. by apply bytes_inj. }
  simpl. apply orb_true_iff. left. apply negb_true_iff, N.eqb_neq. intros ->.
  done.
Qed.

(** A text that trims to something has a byte that is not a space. *)
Lemma trim_spaces fuel l :
  (length l <= fuel)%nat -> Forall (eq 32%N) l -> trim_with space_len fuel l = [].
Proof.
  revert l. induction fuel as [|fuel IH]; intros l Hl Hall; destruct l as [|b l]; try done; simpl in Hl.
  - lia.
  - apply Forall_cons in Hall as [<- Hall]. simpl.
    rewrite drop_0. apply IH; [lia|done].
Qed.

Lemma not_blank_btrim s : TrimSpace s <> ""%string -> btrim_nonempty s = true.
Proof.
  intros Hs. destruct (btrim_nonempty s) eqn:E; [done|]. destruct Hs. apply bytes_inj.
  rewrite bytes_TrimSpace.
  assert (trim_left (bytes s) = []) as ->; [|done].
  apply trim_spaces; [done|]. unfold btrim_nonempty in E.
  induction (bytes s) as [|b l IH]; [constructor|]. simpl in E. apply orb_false_iff in E as [Hb Hl].
  constructor; [|by apply IH]. apply negb_false_iff, N.eqb_eq in Hb. done.
Qed.

Lemma intervalMS_nonneg d : 0 <= intervalMS d.
Proof.
  unfold intervalMS, Millisecond. case_match; [lia|]. bool_to_prop.
  pose proof (Z.quot_pos d 1000000). case_match; lia.
Qed.

Lemma intervalMS_bounds d :
  0 < d -> d <= intervalMS d * Millisecond < d + Millisecond.
Proof.
  intros Hd. unfold intervalMS, Millisecond.
  assert ((d <=? 0) = false) as -> by (apply Z.leb_gt; lia).
  rewrite Z.quot_div_nonneg, Z.rem_mod_nonneg by lia.
  pose proof (Z.div_mod d 1000000). pose proof (Z.mod_pos_bound d 1000000).
  case_match; bool_to_prop; lia.
Qed.

Lemma intervalMS_mono a b : a <= b -> intervalMS a <= intervalMS b.
Proof.
  intros Hab. destruct (decide (0 < a)) as [Ha|Ha].
  - pose proof (intervalMS_bounds a Ha). pose proof (intervalMS_bounds b).
    unfold Millisecond in *. lia.
  - unfold intervalMS at 1. assert ((a <=? 0) = true) as -> by (apply Z.leb_le; lia).
    apply intervalMS_nonneg.
Qed.

(** * Theorems *)

(** An error text stored in [last_error] is always acceptable to a
    PostgreSQL TEXT column (valid UTF-8, no NUL) and at most 4096 bytes, so the
    statement that records a failure never fails because of the text of the
    failure. *)
Theorem sanitizeError_storable msg :
  pg_text_ok (sanitizeError msg) = true /\ go_len (sanitizeError msg) <= 4096.
Proof.
  assert (bytes (sanitizeError msg) = sanitizeBytes (bytes msg)) as Hb
    by apply bytes_of_bytes, sanitizeBytes_lt.
  unfold pg_text_ok. rewrite andb_true_iff, negb_true_iff. split_and!.
  - unfold ValidString. rewrite Hb. apply ValidBytes_spec, sanitizeBytes_utf8.
  - apply has_nul_false. rewrite Hb. apply sanitizeBytes_Forall; [by repeat constructor|].
    apply Forall_true. auto.
  - unfold go_len. rewrite <- length_bytes, Hb.
    pose proof (sanitizeBytes_length (bytes msg)) as Hl.
    unfold maxErrorBytes in Hl. lia.
Qed.

(** [sanitizeError] stores a clean error text of at most 4096 bytes as it
    is, and cuts a longer one to a prefix of the sanitized text that is at most
    three bytes short of the limit (never in the middle of a character). *)
Theorem sanitizeError_faithful msg :
  let full := ToValidUTF8 (replace_nul (bytes msg)) in
  (pg_text_ok msg = true -> go_len msg <= 4096 -> sanitizeError msg = msg) /\
  ((length full <= 4096)%nat -> bytes (sanitizeError msg) = full) /\
  ((4096 < length full)%nat ->
    (4093 <= length (bytes (sanitizeError msg)))%nat /\
    bytes (sanitizeError msg) `prefix_of` full).
Proof.
  intros full.
  assert (bytes (sanitizeError msg) = sanitizeBytes (bytes msg)) as Hb
    by apply bytes_of_bytes, sanitizeBytes_lt.
  split_and!.
  - intros Hok Hlen. apply bytes_inj. rewrite Hb. unfold pg_text_ok in Hok. bool_to_prop.
    assert (ToValidUTF8 (replace_nul (bytes msg)) = bytes msg) as Hid.
    { rewrite replace_nul_id by by apply has_nul_false.
      apply to_valid_id; [done|]. by apply ValidBytes_spec. }
    unfold sanitizeBytes. rewrite Hid. unfold go_len in Hlen. rewrite <- length_bytes in Hlen.
    case_match eqn:E; [done|]. apply Nat.leb_gt in E. unfold maxErrorBytes in E. lia.
  - intros Hlen. rewrite Hb. unfold sanitizeBytes. fold full.
    by rewrite (proj2 (Nat.leb_le _ maxErrorBytes) Hlen).
  - intros Hlen. rewrite Hb. unfold sanitizeBytes. fold full.
    rewrite (proj2 (Nat.leb_gt _ maxErrorBytes) Hlen).
    destruct (back_off_spec full maxErrorBytes) as (H1 & _ & H3).
    destruct (utf8_cut full maxErrorBytes) as (k & Hk & Hu);
      [apply to_valid_utf8|unfold maxErrorBytes; lia|].
    split.
    + rewrite length_take. destruct (decide (k <= back_off full maxErrorBytes)%nat);
        [unfold maxErrorBytes in *; lia|].
      exfalso. apply (H3 k); [lia|done].
    + apply prefix_take.
Qed.
