(* ===== verification/GoParse.v ===== *)
(** * Parsing helpers of the Go standard library

    The parts of [strings] and [strconv] the administrative API and the
    migration runner use: substring tests, splitting, decimal integers of a
    given width and booleans. *)
From Stdlib Require Import ZArith String Ascii.
From stdpp Require Import base strings list pretty.
From S2P Require Import Prelude GoStrings.

Open Scope Z_scope.

(** ** [strings] *)

(** [s[len(prefix):]] when [strings.HasPrefix(s, prefix)] *)
Fixpoint CutPrefix (s prefix : string) {struct prefix} : option string :=
  match prefix, s with
  | EmptyString, _ => Some s
  | String c p, String c' s' => if Ascii.eqb c c' then CutPrefix s' p else None
  | String _ _, EmptyString => None
  end.

Definition HasSuffix (s suffix : string) : bool :=
  String.prefix (String.rev suffix) (String.rev s).

Fixpoint Contains (s sub : string) : bool :=
  String.prefix sub s || match s with EmptyString => false | String _ s' => Contains s' sub end.

(** [strings.Split(s, sep)] for a one-byte separator. *)
Fixpoint Split (sep : ascii) (s : string) : list string :=
  match s with
  | EmptyString => [""%string]
  | String c s' =>
      if Ascii.eqb c sep then ""%string :: Split sep s' else
      match Split sep s' with
      | part :: parts => String c part :: parts
      | [] => [String c ""]
      end
  end.

(** [strings.SplitN(s, sep, 2)]: [None] when the separator does not occur. *)
Fixpoint Cut (sep : ascii) (s : string) : option (string * string) :=
  match s with
  | EmptyString => None
  | String c s' =>
      if Ascii.eqb c sep then Some (""%string, s') else
      match Cut sep s' with
      | Some (before, after) => Some (String c before, after)
      | None => None
      end
  end.

(** ** [strconv] *)

Definition digit (b : N) : option Z := if between 48 57 b then Some (Z.of_N b - 48) else None.

Fixpoint digits (acc : Z) (l : list N) : option Z :=
  match l with
  | [] => Some acc
  | b :: l => match digit b with Some n => digits (10 * acc + n) l | None => None end
  end.

Definition unsigned (l : list N) : option Z := match l with [] => None | _ => digits 0 l end.

Definition signed (l : list N) : option Z :=
  match l with
  | 43%N :: l => unsigned l
  | 45%N :: l => Z.opp <$> unsigned l
  | l => unsigned l
  end.

(** [strconv.ParseInt(s, 10, bits)], [None] on a syntax or range error. *)
Definition ParseInt (s : string) (bits : Z) : option Z :=
  match signed (bytes s) with
  | Some z => if (- 2 ^ (bits - 1) <=? z) && (z <? 2 ^ (bits - 1)) then Some z else None
  | None => None
  end.

(** [strconv.Atoi] on a 64-bit platform *)
Definition Atoi (s : string) : option Z := ParseInt s 64.

Definition ParseBool (s : string) : option bool :=
  if bool_decide (s ∈ ["1"; "t"; "T"; "true"; "TRUE"; "True"]%string) then Some true
  else if bool_decide (s ∈ ["0"; "f"; "F"; "false"; "FALSE"; "False"]%string) then Some false
  else None.

Example Atoi_samples :
  Atoi "42" = Some 42 /\ Atoi "-7" = Some (-7) /\ Atoi "000004" = Some 4 /\ Atoi "" = None /\
  Atoi "1_0" = None /\ Atoi "9223372036854775808" = None /\
  Atoi "-9223372036854775808" = Some (-9223372036854775808) /\ ParseInt "40000" 16 = None /\
  Split "," "a,,b" = ["a"; ""; "b"]%string /\ Cut "_" "000001_init" = Some ("000001", "init")%string /\
  HasSuffix "x.up.sql" ".up.sql" = true /\ Contains "a conflict exceeds" "exceeds" = true.
Proof. by vm_compute. Qed.

(** ** Lemmas *)

Lemma ParseInt_bounds s bits z : ParseInt s bits = Some z -> - 2 ^ (bits - 1) <= z < 2 ^ (bits - 1).
Proof.
  unfold ParseInt. intros H. destruct_match H; [|done]. destruct_match H; [|done].
  bool_to_prop. simplify_eq. lia.
Qed.

Lemma CutPrefix_spec s p rest : CutPrefix s p = Some rest <-> s = (p +:+ rest)%string.
Proof.
  revert s. induction p as [|c p IH]; intros s; cbn.
  - split; [by intros [= ->]|by intros ->].
  - destruct s as [|c' s]; [done|]. destruct (Ascii.eqb c c') eqn:E.
    + apply Ascii.eqb_eq in E as ->. rewrite IH. split; [by intros ->|by intros [= ->]].
    + apply Ascii.eqb_neq in E. split; [done|]. intros [= -> _]. done.
Qed.
