(* ===== verification/Base64.v ===== *)
(** * Base64 ([encoding/base64])

    The two encodings the administrative API uses: [StdEncoding], with padding,
    for keys and payloads, and [RawURLEncoding], without, for page cursors. The
    decoder skips line breaks as Go's does. *)
From Stdlib Require Import ZArith String Ascii.
From stdpp Require Import base strings list.
From S2P Require Import Prelude GoStrings.

Open Scope N_scope.

(** ** Alphabets *)

Definition std_alphabet : string :=
  "ABCDEFGHIJKLMNOPQRSTUVWXYZabcdefghijklmnopqrstuvwxyz0123456789+/".
Definition url_alphabet : string :=
  "ABCDEFGHIJKLMNOPQRSTUVWXYZabcdefghijklmnopqrstuvwxyz0123456789-_".

Definition encode_char (alphabet : string) (v : N) : N :=
  default 0 (bytes alphabet !! N.to_nat v).

Definition decode_char (alphabet : string) (c : N) : option N :=
  (fun p => N.of_nat p.1) <$> list_find (fun a => a = c) (bytes alphabet).

(** ** Encoding *)

(** [=] characters that complete a last quantum of [n] missing characters. *)
Definition padding (padded : bool) (n : nat) : list N :=
  if padded then replicate n 61 else [].

Fixpoint encode_bytes (alphabet : string) (padded : bool) (l : list N) : list N :=
  match l with
  | a :: b :: c :: l =>
      encode_char alphabet (a / 4) :: encode_char alphabet (a mod 4 * 16 + b / 16)
      :: encode_char alphabet (b mod 16 * 4 + c / 64) :: encode_char alphabet (c mod 64)
      :: encode_bytes alphabet padded l
  | [a; b] =>
      [encode_char alphabet (a / 4); encode_char alphabet (a mod 4 * 16 + b / 16);
       encode_char alphabet (b mod 16 * 4)] ++ padding padded 1
  | [a] => [encode_char alphabet (a / 4); encode_char alphabet (a mod 4 * 16)] ++ padding padded 2
  | [] => []
  end.

Definition StdEncoding_EncodeToString (s : string) : string :=
  of_bytes (encode_bytes std_alphabet true (bytes s)).
Definition RawURLEncoding_EncodeToString (s : string) : string :=
  of_bytes (encode_bytes url_alphabet false (bytes s)).

(** ** Decoding without padding *)

(** Quanta of four six-bit values; the last may have two or three. *)
Fixpoint decode_quanta (l : list N) : option (list N) :=
  match l with
  | a :: b :: c :: d :: l =>
      match decode_quanta l with
      | Some r => Some (a * 4 + b / 16 :: b mod 16 * 16 + c / 4 :: c mod 4 * 64 + d :: r)
      | None => None
      end
  | [a; b; c] => Some [a * 4 + b / 16; b mod 16 * 16 + c / 4]
  | [a; b] => Some [a * 4 + b / 16]
  | [_] => None
  | [] => Some []
  end.

Definition line_break (c : N) : bool := (c =? 10) || (c =? 13).

Definition decode_bytes (alphabet : string) (l : list N) : option (list N) :=
  mapM (decode_char alphabet) (filter (fun c => negb (line_break c) = true) l) ≫= decode_quanta.

(** [None] is [base64.CorruptInputError]. *)
Definition RawURLEncoding_DecodeString (s : string) : option string :=
  of_bytes <$> decode_bytes url_alphabet (bytes s).

(** * Lemmas *)

Lemma decode_encode_char v :
  v < 64 -> decode_char url_alphabet (encode_char url_alphabet v) = Some v /\
            line_break (encode_char url_alphabet v) = false /\ encode_char url_alphabet v < 256.
Proof.
  intros Hv.
  assert (forallb (fun v => bool_decide (decode_char url_alphabet (encode_char url_alphabet v) = Some v)
                            && negb (line_break (encode_char url_alphabet v))
                            && (encode_char url_alphabet v <? 256)%N)
            (N.of_nat <$> seq 0 64) = true) as H by (vm_compute; reflexivity).
  rewrite forallb_forall in H. specialize (H v).
  assert (In v (N.of_nat <$> seq 0 64)) as Hin.
  { apply list_elem_of_In, list_elem_of_fmap. exists (N.to_nat v). split; [lia|].
    apply elem_of_seq. lia. }
  specialize (H Hin). bool_to_prop. split_and!; [done..|]. by apply N.ltb_lt.
Qed.

(** Six-bit values survive the alphabet, whatever follows. *)
Lemma decode_sextets (vs : list N) :
  Forall (fun v => v < 64) vs ->
  mapM (decode_char url_alphabet)
    (filter (fun c => negb (line_break c) = true) (encode_char url_alphabet <$> vs)) = Some vs /\
  Forall (fun c => c < 256) (encode_char url_alphabet <$> vs).
Proof.
  induction 1 as [|v vs Hv _ [IH1 IH2]]; [done|].
  destruct (decode_encode_char v Hv) as (H1 & H2 & H3). rewrite fmap_cons, filter_cons_True
    by by rewrite H2. split; [|by constructor]. cbn [mapM]. rewrite H1. cbn. by rewrite IH1.
Qed.

(** The sextets of a byte string. *)
Fixpoint sextets (l : list N) : list N :=
  match l with
  | a :: b :: c :: l =>
      a / 4 :: a mod 4 * 16 + b / 16 :: b mod 16 * 4 + c / 64 :: c mod 64 :: sextets l
  | [a; b] => [a / 4; a mod 4 * 16 + b / 16; b mod 16 * 4]
  | [a] => [a / 4; a mod 4 * 16]
  | [] => []
  end.

(** Induction three bytes at a time. *)
Lemma list_ind3 (P : list N -> Prop) :
  P [] -> (forall a, P [a]) -> (forall a b, P [a; b]) ->
  (forall a b c l, P l -> P (a :: b :: c :: l)) -> forall l, P l.
Proof.
  intros H0 H1 H2 H3. fix IH 1. intros [|a [|b [|c l]]]; [done..|]. apply H3, IH.
Qed.

Lemma encode_bytes_sextets alphabet l :
  encode_bytes alphabet false l = encode_char alphabet <$> sextets l.
Proof. induction l as [|a|a b|a b c l IH] using list_ind3; cbn; by rewrite ?IH. Qed.

Lemma sextets_ok l :
  Forall (fun b => b < 256) l ->
  Forall (fun v => v < 64) (sextets l) /\ decode_quanta (sextets l) = Some l.
Proof.
  induction l as [|a|a b|a b c l IH] using list_ind3; intros H.
  - by split.
  - inversion H as [|? ? Ha _]; subst. cbn. split.
    + repeat constructor; zify; Z.to_euclidean_division_equations; lia.
    + do 2 f_equal. zify. Z.to_euclidean_division_equations. lia.
  - inversion H as [|? ? Ha H']; subst. inversion H' as [|? ? Hb _]; subst. cbn. split.
    + repeat constructor; zify; Z.to_euclidean_division_equations; lia.
    + f_equal. f_equal; [|f_equal]; zify; Z.to_euclidean_division_equations; lia.
  - inversion H as [|? ? Ha H']; subst. inversion H' as [|? ? Hb H'']; subst.
    inversion H'' as [|? ? Hc Hl]; subst. destruct (IH Hl) as [IH1 IH2]. cbn. split.
    + repeat constructor; try done; zify; Z.to_euclidean_division_equations; lia.
    + rewrite IH2. f_equal. f_equal; [|f_equal; [|f_equal]];
        zify; Z.to_euclidean_division_equations; lia.
Qed.

(** Decoding inverts the unpadded encoding. *)
Lemma RawURL_round_trip s :
  RawURLEncoding_DecodeString (RawURLEncoding_EncodeToString s) = Some s.
Proof.
  unfold RawURLEncoding_DecodeString, RawURLEncoding_EncodeToString.
  rewrite encode_bytes_sextets. destruct (sextets_ok (bytes s) (bytes_lt s)) as [H1 H2].
  destruct (decode_sextets _ H1) as [H3 H4].
  rewrite bytes_of_bytes by done. unfold decode_bytes. rewrite H3. cbn. rewrite H2. cbn.
  by rewrite of_bytes_bytes.
Qed.

(** Four characters for every three bytes. *)
Lemma RawURL_length s :
  (Z.of_nat (String.length (RawURLEncoding_EncodeToString s))
   = (Z.of_nat (String.length s) * 4 + 2) / 3)%Z.
Proof.
  unfold RawURLEncoding_EncodeToString. rewrite encode_bytes_sextets.
  destruct (sextets_ok (bytes s) (bytes_lt s)) as [H1 _].
  rewrite <- length_bytes, bytes_of_bytes by apply (decode_sextets _ H1).
  rewrite length_fmap, <- length_bytes. generalize (bytes s). clear.
  induction l as [|a|a b|a b c l IH] using list_ind3; try done.
  cbn [sextets length]. rewrite !Nat2Z.inj_succ, IH. Z.to_euclidean_division_equations. lia.
Qed.

(** Encoded text has no white space to trim. *)
Lemma encode_char_graphic v : v < 64 -> 33 <= encode_char url_alphabet v < 127.
Proof.
  intros Hv.
  assert (forallb (fun v => (33 <=? encode_char url_alphabet v) && (encode_char url_alphabet v <? 127))
            (N.of_nat <$> seq 0 64) = true) as H by (vm_compute; reflexivity).
  rewrite forallb_forall in H. specialize (H v).
  assert (In v (N.of_nat <$> seq 0 64)) as Hin.
  { apply list_elem_of_In, list_elem_of_fmap. exists (N.to_nat v). split; [lia|].
    apply elem_of_seq. lia. }
  specialize (H Hin). bool_to_prop. by rewrite <- N.leb_le, <- N.ltb_lt.
Qed.

Lemma graphic_no_space l : Forall (fun b => 33 <= b < 127) l -> space_len l = O.
Proof.
  intros H. destruct l as [|b0 l1]; [done|]. inversion H as [|? ? Hb H1]; subst.
  unfold space_len, between.
  assert ((9 <=? b0) && (b0 <=? 13) || (b0 =? 32) = false) as ->.
  { apply orb_false_iff. rewrite andb_false_iff, N.leb_gt, N.leb_gt, N.eqb_neq. lia. }
  assert (forall k, 127 <= k -> (b0 =? k) = false) as Hk by (intros; apply N.eqb_neq; lia).
  destruct l1 as [|b1 [|b2 l2]]; rewrite ?Hk by lia; done.
Qed.

Lemma RawURL_no_space s :
  TrimSpace (RawURLEncoding_EncodeToString s) = RawURLEncoding_EncodeToString s.
Proof.
  unfold RawURLEncoding_EncodeToString. rewrite encode_bytes_sextets.
  destruct (sextets_ok (bytes s) (bytes_lt s)) as [H1 _].
  assert (Forall (fun b => 33 <= b < 127) (encode_char url_alphabet <$> sextets (bytes s))) as Hg.
  { apply Forall_fmap. eapply Forall_impl; [exact H1|]. apply encode_char_graphic. }
  apply TrimSpace_fixed; rewrite bytes_of_bytes by apply (decode_sextets _ H1).
  - by apply graphic_no_space.
  - apply Forall_reverse in Hg. unfold space_len_rev.
    rewrite (graphic_no_space (take 1 _)) by by apply Forall_take.
    rewrite !graphic_no_space; [done|..]; by apply Forall_reverse, Forall_take.
Qed.
