(* ===== verification/Sha256.v ===== *)
(** * SHA-256

    [crypto/sha256.Sum256] as specified in FIPS 180-4, on the bytes of a string.
    The administrative API compares bearer tokens by their digests. *)
From Stdlib Require Import ZArith String.
From stdpp Require Import base strings list.
From S2P Require Import Prelude GoStrings.

Open Scope Z_scope.

Definition w32 (x : Z) : Z := x mod 2 ^ 32.
Definition rotr (n x : Z) : Z := Z.lor (Z.shiftr x n) (w32 (Z.shiftl x (32 - n))).
Definition Ch (x y z : Z) : Z := Z.lxor (Z.land x y) (Z.land (Z.lxor x (2 ^ 32 - 1)) z).
Definition Maj (x y z : Z) : Z := Z.lxor (Z.lxor (Z.land x y) (Z.land x z)) (Z.land y z).
Definition Sigma0 (x : Z) : Z := Z.lxor (Z.lxor (rotr 2 x) (rotr 13 x)) (rotr 22 x).
Definition Sigma1 (x : Z) : Z := Z.lxor (Z.lxor (rotr 6 x) (rotr 11 x)) (rotr 25 x).
Definition sigma0 (x : Z) : Z := Z.lxor (Z.lxor (rotr 7 x) (rotr 18 x)) (Z.shiftr x 3).
Definition sigma1 (x : Z) : Z := Z.lxor (Z.lxor (rotr 17 x) (rotr 19 x)) (Z.shiftr x 10).

(** The constants are the first 32 bits of the fractional parts of the roots of
    the first primes: cube roots for the rounds, square roots for the start. *)
Definition is_prime (n : Z) : bool :=
  forallb (fun d => negb (n mod d =? 0)) (Z.of_nat <$> seq 2 (Z.to_nat (Z.sqrt n) - 1)).
Definition primes : list Z :=
  List.filter is_prime (Z.of_nat <$> seq 2 310).

(** The integer cube root of a number below [2^105], bit by bit. *)
Definition cbrt (n : Z) : Z :=
  foldl (fun root bit => let grown := root + 2 ^ bit in if grown ^ 3 <=? n then grown else root)
        0 (reverse (Z.of_nat <$> seq 0 35)).

Definition sha_K : list Z := Eval vm_compute in (fun p => w32 (cbrt (p * 2 ^ 96))) <$> primes.

Definition sha_state : Type := (Z * Z * Z * Z) * (Z * Z * Z * Z).

Definition sha_init : sha_state := Eval vm_compute in
  let h i := w32 (Z.sqrt (nth i primes 0 * 2 ^ 64)) in
  ((h 0, h 1, h 2, h 3), (h 4, h 5, h 6, h 7))%nat.

(** Big-endian words. *)
Definition be_word (l : list N) : Z :=
  foldl (fun acc b => acc * 256 + Z.of_N b) 0 l.

Fixpoint words (fuel : nat) (l : list N) : list Z :=
  match fuel with
  | O => []
  | S fuel => match l with [] => [] | _ => be_word (take 4 l) :: words fuel (drop 4 l) end
  end.

(** The message schedule, kept newest word first. *)
Fixpoint schedule (fuel : nat) (rev_w : list Z) : list Z :=
  match fuel with
  | O => rev_w
  | S fuel =>
      let w i := nth i rev_w 0 in
      schedule fuel (w32 (sigma1 (w 1%nat) + w 6%nat + sigma0 (w 14%nat) + w 15%nat) :: rev_w)
  end.

Definition sha_round (st : sha_state) (kw : Z * Z) : sha_state :=
  let '((a, b, c, d), (e, f, g, h)) := st in
  let t1 := h + Sigma1 e + Ch e f g + kw.1 + kw.2 in
  let t2 := Sigma0 a + Maj a b c in
  ((w32 (t1 + t2), a, b, c), (w32 (d + t1), e, f, g)).

Definition sha_block (st : sha_state) (block : list N) : sha_state :=
  let w := reverse (schedule 48 (reverse (words 16 block))) in
  let '((a, b, c, d), (e, f, g, h)) := st in
  let '((a', b', c', d'), (e', f', g', h')) := foldl sha_round st (zip sha_K w) in
  ((w32 (a + a'), w32 (b + b'), w32 (c + c'), w32 (d + d')),
   (w32 (e + e'), w32 (f + f'), w32 (g + g'), w32 (h + h'))).

Definition be_bytes (n : nat) (z : Z) : list N :=
  reverse ((fun i => Z.to_N (Z.shiftr z (8 * Z.of_nat i) mod 256)) <$> seq 0 n).

(** One bit, zeros to eight bytes short of a block boundary, the length in bits. *)
Definition sha_pad (l : list N) : list N :=
  let n := length l in
  let zeros := Z.to_nat ((55 - Z.of_nat n) mod 64) in
  l ++ [0x80%N] ++ replicate zeros 0%N ++ be_bytes 8 (8 * Z.of_nat n).

Fixpoint sha_blocks (fuel : nat) (st : sha_state) (l : list N) : sha_state :=
  match fuel with
  | O => st
  | S fuel => match l with [] => st | _ => sha_blocks fuel (sha_block st (take 64 l)) (drop 64 l) end
  end.

Definition sha_digest (st : sha_state) : list N :=
  let '((a, b, c, d), (e, f, g, h)) := st in
  [a; b; c; d; e; f; g; h] ≫= be_bytes 4.

(** Every block consumes 64 bytes, so that one step per byte is enough. *)
Definition Sum256 (s : string) : list N :=
  let l := sha_pad (bytes s) in sha_digest (sha_blocks (length l) sha_init l).

(** The FIPS 180-4 test vectors. *)
Example Sum256_abc :
  Sum256 "abc" =
  [0xba; 0x78; 0x16; 0xbf; 0x8f; 0x01; 0xcf; 0xea; 0x41; 0x41; 0x40; 0xde; 0x5d; 0xae; 0x22; 0x23;
   0xb0; 0x03; 0x61; 0xa3; 0x96; 0x17; 0x7a; 0x9c; 0xb4; 0x10; 0xff; 0x61; 0xf2; 0x00; 0x15; 0xad]%N.
Proof. by vm_compute. Qed.

Example Sum256_two_blocks :
  take 4 (Sum256 "abcdbcdecdefdefgefghfghighijhijkijkljklmklmnlmnomnopnopq") =
  [0x24; 0x8d; 0x6a; 0x61]%N.
Proof. by vm_compute. Qed.

(** A digest has 32 bytes. *)
Lemma Sum256_length s : length (Sum256 s) = 32%nat.
Proof.
  unfold Sum256, sha_digest. destruct (sha_blocks _ _ _) as [[[[a b] c] d] [[[e f] g] h]]. reflexivity.
Qed.
