(* ===== verification/Ordering.v ===== *)
(** * The virtual-partition protocol ([internal/ordering/ordering.go])

    FNV-1a hashing of streams onto 64 virtual partitions and the rendezvous
    hashing that names the desired owner of each partition. *)
From Stdlib Require Import ZArith String.
From stdpp Require Import base list sets strings.
From S2P Require Import Prelude GoStrings.

Open Scope Z_scope.

Definition PartitionCount : N := 64.
Definition membershipHashVersion : string := "emitlane-owner-v1".

(** [hash/fnv]: the 64-bit FNV-1a offset basis, prime and update. *)
Definition fnv_offset64 : N := 14695981039346656037.
Definition fnv_prime64 : N := 1099511628211.
Definition fnv_step (h b : N) : N := (N.lxor h b * fnv_prime64) mod 2 ^ 64.
Definition fnv_write (h : N) (l : list N) : N := foldl fnv_step h l.

(** The bytes [Partition] hashes: destination, NUL, key. *)
Definition partition_input (destination key : string) : list N :=
  bytes destination ++ [0%N] ++ bytes key.

Definition Partition (destination key : string) : Z :=
  Z.of_N (fnv_write fnv_offset64 (partition_input destination key) mod PartitionCount).

(** [binary.BigEndian.PutUint16(_, uint16(partition))] *)
Definition put_uint16 (partition : Z) : list N :=
  let u := Z.to_N (partition mod 65536) in [(u / 256)%N; (u mod 256)%N].

Definition ownerScore (partition : Z) (member : string) : N :=
  fnv_write fnv_offset64
    (bytes membershipHashVersion ++ [0%N] ++ put_uint16 partition ++ [0%N] ++ bytes member).

(** One iteration of the loop of [DesiredOwner]. *)
Definition owner_step (partition : Z) (acc : string * N) (member : string) : string * N :=
  let '(winner, winningScore) := acc in
  let score := ownerScore partition member in
  if String.eqb winner "" || (winningScore <? score)%N
     || (N.eqb score winningScore && String.ltb member winner)
  then (member, score) else (winner, winningScore).

Definition DesiredOwner (partition : Z) (members : list string) : string :=
  fst (foldl (owner_step partition) (""%string, 0%N) members).

(** Reference order: [beats p a b] when [a] is preferred to [b] as owner of
    [p]: the higher score, the smaller name on a tie. *)
Definition beats (partition : Z) (a b : string) : bool :=
  (ownerScore partition b <? ownerScore partition a)%N
  || (N.eqb (ownerScore partition a) (ownerScore partition b) && String.ltb a b).

(** * Lemmas *)

(** ** The order of strings *)

Lemma string_ltb_irrefl s : String.ltb s s = false.
Proof.
  unfold String.ltb. destruct (String.compare s s) eqn:E; try done.
  pose proof (String.compare_antisym s s) as H. rewrite E in H. done.
Qed.

Lemma ascii_compare_N a b : Ascii.compare a b = N.compare (Ascii.N_of_ascii a) (Ascii.N_of_ascii b).
Proof. done. Qed.

Lemma string_compare_lt_trans r s t :
  String.compare r s = Lt -> String.compare s t = Lt -> String.compare r t = Lt.
Proof.
  revert s t. induction r as [|a r IH]; intros [|b s] [|c t]; simpl; try done.
  rewrite !ascii_compare_N.
  destruct (N.compare_spec (Ascii.N_of_ascii a) (Ascii.N_of_ascii b)) as [Hab|Hab|Hab];
  destruct (N.compare_spec (Ascii.N_of_ascii b) (Ascii.N_of_ascii c)) as [Hbc|Hbc|Hbc];
  destruct (N.compare_spec (Ascii.N_of_ascii a) (Ascii.N_of_ascii c)) as [Hac|Hac|Hac];
  try done; try lia. apply IH.
Qed.

Lemma string_ltb_trans r s t :
  String.ltb r s = true -> String.ltb s t = true -> String.ltb r t = true.
Proof.
  unfold String.ltb. intros H1 H2.
  destruct (String.compare r s) eqn:E1; try done.
  destruct (String.compare s t) eqn:E2; try done.
  by rewrite (string_compare_lt_trans r s t).
Qed.

Lemma string_ltb_total s t : s = t \/ String.ltb s t = true \/ String.ltb t s = true.
Proof.
  unfold String.ltb. rewrite (String.compare_antisym t s).
  destruct (String.compare s t) eqn:E; simpl; auto.
  left. by apply String.compare_eq_iff.
Qed.

(** ** [beats] is a strict total order *)

Lemma beats_true p a b :
  beats p a b = true <->
  (ownerScore p b < ownerScore p a)%N \/
  (ownerScore p a = ownerScore p b /\ String.ltb a b = true).
Proof.
  unfold beats. by rewrite orb_true_iff, andb_true_iff, N.ltb_lt, N.eqb_eq.
Qed.

Lemma beats_irrefl p a : beats p a a = false.
Proof.
  apply not_true_iff_false. rewrite beats_true, string_ltb_irrefl.
  intros [?|[_ ?]]; [lia|done].
Qed.

Lemma beats_trans p a b c : beats p a b = true -> beats p b c = true -> beats p a c = true.
Proof.
  rewrite !beats_true. intros [Hab|[Hab Hs]] [Hbc|[Hbc Ht]]; try (left; lia).
  right. split; [congruence|]. by apply (string_ltb_trans _ b).
Qed.

Lemma beats_total p a b : a = b \/ beats p a b = true \/ beats p b a = true.
Proof.
  rewrite !beats_true.
  destruct (N.lt_trichotomy (ownerScore p a) (ownerScore p b)) as [?|[E|?]]; auto.
  destruct (string_ltb_total a b) as [?|[?|?]]; auto.
Qed.

Lemma beats_asym p a b : beats p a b = true -> beats p b a = true -> False.
Proof.
  intros H1 H2. pose proof (beats_trans p a b a H1 H2) as H.
  by rewrite beats_irrefl in H.
Qed.

(** ** The loop of [DesiredOwner] *)

(** [w] wins among [ms]. *)
Definition wins (p : Z) (ms : list string) (w : string) : Prop :=
  w ∈ ms /\ forall m, m ∈ ms -> m = w \/ beats p w m = true.

Lemma wins_unique p ms w w' : wins p ms w -> wins p ms w' -> w = w'.
Proof.
  intros [H1 H2] [H1' H2']. destruct (H2 _ H1') as [|H]; [done|].
  destruct (H2' _ H1) as [|H']; [done|]. destruct (beats_asym _ _ _ H H').
Qed.

Lemma wins_perm p ms ms' w : ms ≡ₚ ms' -> wins p ms w -> wins p ms' w.
Proof.
  intros Hp [H1 H2]. split; [by rewrite <- Hp|].
  intros m Hm. apply H2. by rewrite Hp.
Qed.

Lemma owner_step_wins p w m :
  w <> ""%string ->
  owner_step p (w, ownerScore p w) m =
    if beats p m w then (m, ownerScore p m) else (w, ownerScore p w).
Proof.
  intros Hw. unfold owner_step, beats.
  assert (String.eqb w "" = false) as -> by by apply String.eqb_neq.
  done.
Qed.

Lemma owner_loop_wins p done_ w rest :
  wins p done_ w -> w <> ""%string -> (forall m, m ∈ rest -> m <> ""%string) ->
  exists w', foldl (owner_step p) (w, ownerScore p w) rest = (w', ownerScore p w') /\
             wins p (done_ ++ rest) w'.
Proof.
  revert done_ w. induction rest as [|m rest IH]; intros ms w Hw Hne Hrest.
  { exists w. by rewrite app_nil_r. }
  cbn [foldl]. rewrite owner_step_wins by done.
  assert (ms ++ m :: rest = (ms ++ [m]) ++ rest) as Happ by by rewrite <- (assoc (++)).
  destruct (beats p m w) eqn:E.
  - destruct (IH (ms ++ [m]) m) as (w' & Hf & Hw'); try done.
    + split; [set_solver|]. intros x Hx. destruct Hw as [_ Hall].
      apply elem_of_app in Hx as [Hx|Hx%list_elem_of_singleton]; [|auto].
      right. destruct (Hall x Hx) as [->|Hb]; [done|]. by apply (beats_trans _ _ w).
    + apply Hrest. left.
    + intros x Hx. apply Hrest. by right.
    + exists w'. split; [done|]. by rewrite Happ.
  - destruct (IH (ms ++ [m]) w) as (w' & Hf & Hw'); try done.
    + destruct Hw as [Hin Hall]. split; [set_solver|]. intros x Hx.
      apply elem_of_app in Hx as [Hx|Hx%list_elem_of_singleton]; [auto|]. subst.
      destruct (beats_total p m w) as [?|[?|?]]; auto. congruence.
    + intros x Hx. apply Hrest. by right.
    + exists w'. split; [done|]. by rewrite Happ.
Qed.

Lemma DesiredOwner_wins p ms :
  ms <> [] -> ""%string ∉ ms -> wins p ms (DesiredOwner p ms).
Proof.
  destruct ms as [|m ms]; [done|]. intros _ Hne. unfold DesiredOwner. cbn [foldl].
  assert (owner_step p (""%string, 0%N) m = (m, ownerScore p m)) as -> by done.
  destruct (owner_loop_wins p [m] m ms) as (w' & -> & Hw).
  - split; [left|]. intros x ->%list_elem_of_singleton. by left.
  - intros ->. apply Hne. left.
  - intros x Hx ->. apply Hne. by right.
  - done.
Qed.

Lemma DesiredOwner_nil p : DesiredOwner p [] = ""%string.
Proof. done. Qed.

(** ** Partitions *)

Lemma Partition_range d k : 0 <= Partition d k < 64.
Proof.
  unfold Partition, PartitionCount.
  pose proof (N.mod_lt (fnv_write fnv_offset64 (partition_input d k)) 64 ltac:(done)).
  generalize dependent (fnv_write fnv_offset64 (partition_input d k) mod 64)%N.
  intros n Hn. lia.
Qed.

Lemma app_sep_inj (l1 l2 r1 r2 : list N) :
  0%N ∉ l1 -> 0%N ∉ l2 -> l1 ++ 0%N :: r1 = l2 ++ 0%N :: r2 -> l1 = l2 /\ r1 = r2.
Proof.
  revert l2. induction l1 as [|a l1 IH]; intros [|b l2] H1 H2 H; simpl in H; simplify_eq.
  - done.
  - set_solver.
  - set_solver.
  - destruct (IH l2) as [-> ->]; [set_solver..|done|done].
Qed.

Lemma bytes_no_nul s : has_nul s = false -> 0%N ∉ bytes s.
Proof. rewrite has_nul_false, Forall_forall. intros H Hin. by apply (H _ Hin). Qed.

(** ** The vectors of [ordering_test.go] *)
Example Partition_vectors :
  (Partition "orders.events" "order:123", Partition "orders.events" "order:124",
   Partition "payments.events" "order:123", Partition "a" "bc", Partition "ab" "c")
  = (61, 24, 11, 35, 39).
Proof. vm_compute. reflexivity. Qed.

(** * Theorems *)

(** The hash input of a stream determines the stream: for destinations
    without NUL bytes (the only ones PostgreSQL stores), two streams with the
    same input have the same destination and the same key, and every stream is
    mapped into the 64 seeded partitions. *)
Theorem Partition_input_injective d1 k1 d2 k2
  (H1 : has_nul d1 = false) (H2 : has_nul d2 = false) :
  (partition_input d1 k1 = partition_input d2 k2 -> d1 = d2 /\ k1 = k2) /\
  0 <= Partition d1 k1 < 64.
Proof.
  split; [|apply Partition_range]. unfold partition_input. intros H.
  apply app_sep_inj in H as [H H']; [|by apply bytes_no_nul..].
  split; by apply bytes_inj.
Qed.

Lemma Partition_input_injective_witness :
  (partition_input "a" "bc" = partition_input "ab" "c" -> "a" = "ab" /\ "bc" = "c")%string /\
  0 <= Partition "a" "bc" < 64.
Proof. apply (Partition_input_injective "a" "bc" "ab" "c"); reflexivity. Defined.

(** [DesiredOwner] returns a member of a non-empty membership (no member is
    the empty string), the one no other member beats, and its choice does not
    depend on the order in which the members are listed. *)
Theorem DesiredOwner_spec p members members'
  (Hne : members <> []) (Hblank : ""%string ∉ members) (Hperm : members ≡ₚ members') :
  let w := DesiredOwner p members in
  w ∈ members /\ (forall m, m ∈ members -> m <> w -> beats p w m = true) /\
  DesiredOwner p members' = w.
Proof.
  pose proof (DesiredOwner_wins p members Hne Hblank) as Hw.
  split_and!.
  - apply Hw.
  - intros m Hm Hmw. destruct Hw as [_ Hall]. by destruct (Hall m Hm).
  - apply (wins_unique p members'); [|by apply (wins_perm p members)].
    apply DesiredOwner_wins; [|by rewrite <- Hperm].
    intros ->. by apply Hne, Permutation_nil_r.
Qed.

Lemma DesiredOwner_spec_witness :
  DesiredOwner 7 ["relay-c"; "relay-a"; "relay-b"]%string
  = DesiredOwner 7 ["relay-b"; "relay-c"; "relay-a"]%string.
Proof.
  destruct (DesiredOwner_spec 7 ["relay-b"; "relay-c"; "relay-a"]%string
              ["relay-c"; "relay-a"; "relay-b"]%string) as (_ & _ & H).
  - discriminate.
  - apply (bool_decide_unpack _). vm_compute. exact I.
  - apply Permutation_cons_app with (l1 := ["relay-c"; "relay-a"]%string) (l2 := []).
    reflexivity.
  - exact H.
Defined.

(** Rendezvous stability: a relay that joins takes over partitions only for
    itself, and a relay that leaves changes the desired owner only of the
    partitions it owned. *)
Theorem DesiredOwner_minimal_disruption p members m
  (Hne : members <> []) (Hblank : ""%string ∉ m :: members) :
  let before := DesiredOwner p members in
  let after := DesiredOwner p (m :: members) in
  (after = m \/ after = before) /\ (before <> after -> after = m).
Proof.
  pose proof (DesiredOwner_wins p members Hne) as Hb.
  pose proof (DesiredOwner_wins p (m :: members)) as Ha.
  assert (DesiredOwner p (m :: members) = m
          \/ DesiredOwner p (m :: members) = DesiredOwner p members) as H.
  { destruct Ha as [Hin Hall]; [done|done|].
    apply elem_of_cons in Hin as [->|Hin]; [by left|]. right.
    apply (wins_unique p members); [|apply Hb; set_solver].
    split; [done|]. intros x Hx. apply Hall. by right. }
  split; [done|]. intros Hneq. destruct H; [done|]. congruence.
Qed.

Lemma DesiredOwner_minimal_disruption_witness :
  let after := DesiredOwner 3 ["relay-c"; "relay-a"; "relay-b"]%string in
  after = "relay-c"%string \/ after = DesiredOwner 3 ["relay-a"; "relay-b"]%string.
Proof.
  apply (DesiredOwner_minimal_disruption 3 ["relay-a"; "relay-b"]%string "relay-c"%string).
  - discriminate.
  - apply (bool_decide_unpack _). vm_compute. exact I.
Defined.
