(* ===== verification/Schema.v ===== *)
(** * The durable state: tables, constraints and triggers ([migrations/])

    One record per table of schema version 4, the [CHECK] constraints as
    boolean functions, the claim-guard trigger, and the whole database as the
    record [db] on which every store operation acts. *)
From Stdlib Require Import ZArith String.
From stdpp Require Import base gmap strings list fin_maps.
From S2P Require Import Prelude GoStrings Ordering.

Open Scope Z_scope.

(** ** Errors

    The sentinel errors of the packages [outbox], [inbox], [relay] and
    [internal/admin], the driver's [pgx.ErrNoRows], and the failures of the
    database itself. A wrapped error ([%w]) is its sentinel. *)
Inductive sql_error : Type :=
| InvalidText                      (* 22021: invalid byte sequence *)
| OutOfRange                       (* 22003: numeric value out of range *)
| UniqueViolation (index : string) (* 23505 *)
| CheckViolation (name : string)   (* 23514 *)
| TriggerError (name : string)     (* 55000 raised by a trigger *)
| TxAborted                        (* 25P02 *)
| ConnectionFailure.

Inductive error : Type :=
| ErrInvalidEvent (msg : string)
| ErrDuplicateSequence
| ErrOrderingConflict
| ErrSequenceAlreadyPassed
| ErrInvalidRequest (msg : string)
| ErrAlreadyProcessed
| ErrLifecycleConflict
| ErrLeaseLost
| ErrInboxNotFound
| ErrFenced
| ErrNoRows
| ErrNoMatchingRow
| ErrAdminInvalid (msg : string)
| ErrAdminNotFound
| ErrAdminConflict (msg : string)
| ErrGenerateID
| ErrCallback
| ErrSQL (e : sql_error)
| ErrOther (msg : string).

Abbreviation res := (result error).

(** ** [emitlane.outbox_events] *)

Inductive outbox_status : Type := Pending | Inflight | Delivered | Dead.

#[global] Instance outbox_status_eq_dec : EqDecision outbox_status.
Proof. solve_decision. Defined.

(** The columns no statement of the store updates. *)
Record event_data : Type := EventData {
  ed_id : uuid;
  ed_destination : string;
  ed_event_type : string;
  ed_message_key : option string;
  ed_payload : string;
  ed_content_type : string;
  ed_headers : gmap string string;
  ed_schema_version : Z;
  ed_correlation_id : option string;
  ed_causation_id : option string;
  ed_traceparent : option string;
  ed_tracestate : option string;
  ed_created_at : time;
  ed_replayed_from_event_id : option uuid;
  ed_replay_batch_id : option uuid;
  ed_ordering_key : option string;
  ed_ordering_sequence : option Z;
  ed_ordering_partition : option Z;
}.

Record event_row : Type := EventRow {
  er_data : event_data;
  er_status : outbox_status;
  er_attempts : Z;
  er_available_at : time;
  er_lease_owner : option string;
  er_lease_until : option time;
  er_last_error : option string;
  er_delivered_at : option time;
}.

Definition outbox_lease_state_check (r : event_row) : bool :=
  if bool_decide (er_status r = Inflight)
  then not_null (er_lease_owner r) && not_null (er_lease_until r)
  else is_null (er_lease_owner r) && is_null (er_lease_until r).

Definition outbox_delivery_state_check (r : event_row) : bool :=
  Bool.eqb (bool_decide (er_status r = Delivered)) (not_null (er_delivered_at r)).

Definition outbox_ordering_state_check (e : event_data) : bool :=
  match ed_ordering_key e, ed_ordering_sequence e, ed_ordering_partition e with
  | None, None, None => true
  | Some k, Some n, Some p => btrim_nonempty k && (0 <? n) && (0 <=? p) && (p <=? 63)
  | _, _, _ => false
  end.

Definition event_data_ok (e : event_data) : bool :=
  btrim_nonempty (ed_destination e) && btrim_nonempty (ed_event_type e)
  && btrim_nonempty (ed_content_type e) && (0 <? ed_schema_version e)
  && outbox_ordering_state_check e.

Definition event_row_ok (r : event_row) : bool :=
  event_data_ok (er_data r) && (0 <=? er_attempts r)
  && outbox_lease_state_check r && outbox_delivery_state_check r.

(** ** [emitlane.ordering_streams], keyed by destination and ordering key *)

Record stream_row : Type := StreamRow {
  sr_partition_id : Z;
  sr_start_sequence : Z;
  sr_next_sequence : Z;
  sr_created_at : time;
  sr_updated_at : time;
}.

Definition stream_row_ok (s : stream_row) : bool :=
  (0 <=? sr_partition_id s) && (sr_partition_id s <=? 63)
  && (0 <? sr_start_sequence s) && (sr_start_sequence s <=? sr_next_sequence s).

(** ** [emitlane.ordering_partitions], keyed by partition *)

Record partition_row : Type := PartitionRow {
  pr_lease_owner : option string;
  pr_lease_until : option time;
  pr_epoch : Z;
  pr_handoff_not_before : option time;
  pr_publish_timeout_ms : option Z;
  pr_updated_at : time;
}.

Definition partition_row_ok (p : partition_row) : bool :=
  (0 <=? pr_epoch p)
  && match pr_publish_timeout_ms p with None => true | Some ms => 0 <? ms end
  && match pr_lease_owner p, pr_lease_until p with
     | None, None => true
     | Some o, Some _ => btrim_nonempty o
     | _, _ => false
     end.

(** ** [emitlane.relay_instances], keyed by instance *)

Record relay_row : Type := RelayRow {
  rr_hostname : string;
  rr_version : string;
  rr_started_at : time;
  rr_last_heartbeat_at : time;
  rr_stopped_at : option time;
  rr_ordering_capable : bool;
}.

(** ** [emitlane.runtime_control], the singleton row *)

Record control_row : Type := ControlRow {
  cr_paused : bool;
  cr_reason : option string;
  cr_updated_at : time;
  cr_updated_by : string;
}.

(** ** [emitlane.inbox_events], keyed by consumer and event *)

Inductive inbox_status : Type :=
| IPending | IInflight | IRetryWait | IProcessed | IDead.

#[global] Instance inbox_status_eq_dec : EqDecision inbox_status.
Proof. solve_decision. Defined.

Record inbox_source : Type := InboxSource {
  is_topic : string;
  is_partition : Z;
  is_offset : Z;
  is_timestamp : option time;
}.

#[global] Instance inbox_source_eq_dec : EqDecision inbox_source.
Proof. solve_decision. Defined.

Record inbox_row : Type := InboxRow {
  ir_status : inbox_status;
  ir_attempts : Z;
  ir_available_at : time;
  ir_lease_owner : option string;
  ir_lease_token : option uuid;
  ir_lease_until : option time;
  ir_last_error : option string;
  ir_first_seen_at : time;
  ir_updated_at : time;
  ir_processed_at : option time;
  ir_source : option inbox_source;
}.

Definition inbox_lease_state_check (r : inbox_row) : bool :=
  if bool_decide (ir_status r = IInflight)
  then match ir_lease_owner r with Some o => btrim_nonempty o | None => false end
       && not_null (ir_lease_token r) && not_null (ir_lease_until r)
  else is_null (ir_lease_owner r) && is_null (ir_lease_token r)
       && is_null (ir_lease_until r).

Definition inbox_processed_state_check (r : inbox_row) : bool :=
  Bool.eqb (bool_decide (ir_status r = IProcessed)) (not_null (ir_processed_at r)).

Definition inbox_source_metadata_check (r : inbox_row) : bool :=
  match ir_source r with
  | None => bool_decide (ir_status r = IProcessed)
  | Some s => btrim_nonempty (is_topic s) && (0 <=? is_partition s) && (0 <=? is_offset s)
  end.

Definition inbox_row_ok (r : inbox_row) : bool :=
  (0 <=? ir_attempts r) && inbox_lease_state_check r
  && inbox_processed_state_check r && inbox_source_metadata_check r.

(** ** [emitlane.admin_audit_log] *)

(** The JSON values the audit details hold. *)
Inductive json : Type :=
| JBool (b : bool)
| JInt (n : Z)
| JString (s : string)
| JStrings (l : list string).

#[global] Instance json_eq_dec : EqDecision json.
Proof. solve_decision. Defined.

Record audit_row : Type := AuditRow {
  au_id : uuid;
  au_action : string;
  au_actor : string;
  au_reason : option string;
  au_request_id : option string;
  au_target_event_id : option uuid;
  au_replay_batch_id : option uuid;
  au_details : gmap string json;
  au_created_at : time;
}.

(** ** The database *)

Record db : Type := DB {
  db_outbox : gmap uuid event_row;
  db_streams : gmap (string * string) stream_row;
  db_partitions : gmap Z partition_row;
  db_relays : gmap string relay_row;
  db_control : option control_row;
  db_inbox : gmap (string * uuid) inbox_row;
  db_audit : list audit_row;
}.

Definition with_outbox (d : db) (t : gmap uuid event_row) : db :=
  {| db_outbox := t; db_streams := db_streams d; db_partitions := db_partitions d;
     db_relays := db_relays d; db_control := db_control d; db_inbox := db_inbox d;
     db_audit := db_audit d |}.
Definition with_streams (d : db) (t : gmap (string * string) stream_row) : db :=
  {| db_outbox := db_outbox d; db_streams := t; db_partitions := db_partitions d;
     db_relays := db_relays d; db_control := db_control d; db_inbox := db_inbox d;
     db_audit := db_audit d |}.
Definition with_partitions (d : db) (t : gmap Z partition_row) : db :=
  {| db_outbox := db_outbox d; db_streams := db_streams d; db_partitions := t;
     db_relays := db_relays d; db_control := db_control d; db_inbox := db_inbox d;
     db_audit := db_audit d |}.
Definition with_relays (d : db) (t : gmap string relay_row) : db :=
  {| db_outbox := db_outbox d; db_streams := db_streams d; db_partitions := db_partitions d;
     db_relays := t; db_control := db_control d; db_inbox := db_inbox d;
     db_audit := db_audit d |}.
Definition with_control (d : db) (c : option control_row) : db :=
  {| db_outbox := db_outbox d; db_streams := db_streams d; db_partitions := db_partitions d;
     db_relays := db_relays d; db_control := c; db_inbox := db_inbox d;
     db_audit := db_audit d |}.
Definition with_inbox (d : db) (t : gmap (string * uuid) inbox_row) : db :=
  {| db_outbox := db_outbox d; db_streams := db_streams d; db_partitions := db_partitions d;
     db_relays := db_relays d; db_control := db_control d; db_inbox := t;
     db_audit := db_audit d |}.
Definition with_audit (d : db) (l : list audit_row) : db :=
  {| db_outbox := db_outbox d; db_streams := db_streams d; db_partitions := db_partitions d;
     db_relays := db_relays d; db_control := db_control d; db_inbox := db_inbox d;
     db_audit := l |}.

(** The state after the four migrations: 64 unowned partitions and the
    control row. *)
Definition seed_partition (now : time) : partition_row :=
  {| pr_lease_owner := None; pr_lease_until := None; pr_epoch := 0;
     pr_handoff_not_before := None; pr_publish_timeout_ms := None;
     pr_updated_at := now |}.
Definition partition_ids : list Z := seqZ 0 64.
Definition migrated (now : time) : db :=
  {| db_outbox := ∅; db_streams := ∅;
     db_partitions := list_to_map ((fun p => (p, seed_partition now)) <$> partition_ids);
     db_relays := ∅;
     db_control := Some {| cr_paused := false; cr_reason := None; cr_updated_at := now;
                           cr_updated_by := "migration" |};
     db_inbox := ∅; db_audit := [] |}.

(** ** The trigger [outbox_ordered_claim_guard] *)

(** The partition [p] is leased to [owner], unexpired and past its handoff
    barrier. *)
Definition partition_authority (d : db) (now : time) (p : option Z) (owner : option string)
  : bool :=
  match p, owner with
  | Some p, Some o =>
      match db_partitions d !! p with
      | Some pr => sql_eq (pr_lease_owner pr) o && sql_gt (pr_lease_until pr) now
                   && sql_coalesce_le (pr_handoff_not_before pr) now
      | None => false
      end
  | _, _ => false
  end.

Definition relay_capable (d : db) (owner : option string) : bool :=
  match owner with
  | Some o => match db_relays d !! o with
              | Some rr => rr_ordering_capable rr && is_null (rr_stopped_at rr)
              | None => false
              end
  | None => false
  end.

(** [true] when the trigger returns NEW, [false] when it returns NULL and the
    row is silently left alone. *)
Definition guard_ordered_event_claim (d : db) (now : time) (old new : event_row) : bool :=
  if is_null (ed_ordering_key (er_data old)) then true else
  negb (bool_decide (er_status new = Inflight)
        && (negb (bool_decide (er_status old = Inflight))
            || negb (bool_decide (er_lease_owner new = er_lease_owner old)))
        && negb (relay_capable d (er_lease_owner new)
                 && partition_authority d now (ed_ordering_partition (er_data old))
                      (er_lease_owner new))).

(** [UPDATE emitlane.outbox_events SET ... WHERE id = $1 AND cond RETURNING]:
    the updated row when one row was affected. *)
Definition update_event (d : db) (now : time) (id : uuid)
    (cond : event_row -> bool) (upd : event_row -> event_row) : db * option event_row :=
  match db_outbox d !! id with
  | Some r =>
      if cond r && guard_ordered_event_claim d now r (upd r)
      then (with_outbox d (<[id := upd r]> (db_outbox d)), Some (upd r))
      else (d, None)
  | None => (d, None)
  end.

(** [EXISTS (SELECT 1 FROM runtime_control WHERE singleton AND NOT paused)] *)
Definition not_paused (d : db) : bool :=
  match db_control d with Some c => negb (cr_paused c) | None => false end.

(** ** INSERT into [outbox_events] *)

Definition opt_text_ok (s : option string) : bool :=
  match s with Some s => pg_text_ok s | None => true end.

(** Text parameters the driver sends to TEXT columns, and the headers object. *)
Definition event_text_ok (e : event_data) : bool :=
  pg_text_ok (ed_destination e) && pg_text_ok (ed_event_type e)
  && pg_text_ok (ed_content_type e)
  && opt_text_ok (ed_correlation_id e) && opt_text_ok (ed_causation_id e)
  && opt_text_ok (ed_traceparent e) && opt_text_ok (ed_tracestate e)
  && opt_text_ok (ed_ordering_key e)
  && forallb (fun kv => pg_text_ok kv.1 && pg_text_ok kv.2) (map_to_list (ed_headers e)).

Definition event_int_ok (e : event_data) : bool := ed_schema_version e <? 2 ^ 31.

(** The stream position an ordered event occupies. *)
Definition stream_position (e : event_data) : option (string * string * Z) :=
  match ed_ordering_key e, ed_ordering_sequence e with
  | Some k, Some n => Some (ed_destination e, k, n)
  | _, _ => None
  end.

(** The unique index [outbox_ordering_sequence_unique_idx] has an entry for the
    stream position of [e]. *)
Definition position_taken (d : db) (e : event_data) : bool :=
  match stream_position e with
  | Some pos =>
      existsb (fun kr => bool_decide (stream_position (er_data kr.2) = Some pos))
        (map_to_list (db_outbox d))
  | None => false
  end.

Definition insert_event (d : db) (r : event_row) : res db :=
  let e := er_data r in
  if negb (event_text_ok e) then Err (ErrSQL InvalidText) else
  if negb (event_int_ok e) then Err (ErrSQL OutOfRange) else
  if negb (event_row_ok r) then Err (ErrSQL (CheckViolation "outbox_events")) else
  if not_null (db_outbox d !! ed_id e)
  then Err (ErrSQL (UniqueViolation "outbox_events_pkey")) else
  if position_taken d e
  then Err (ErrSQL (UniqueViolation "outbox_ordering_sequence_unique_idx")) else
  Ok (with_outbox d (<[ed_id e := r]> (db_outbox d))).

(** ** INSERT into [admin_audit_log] *)

Definition json_text_ok (j : json) : bool :=
  match j with
  | JBool _ | JInt _ => true
  | JString s => pg_text_ok s
  | JStrings l => forallb pg_text_ok l
  end.

Definition audit_text_ok (a : audit_row) : bool :=
  pg_text_ok (au_action a) && pg_text_ok (au_actor a) && opt_text_ok (au_reason a)
  && opt_text_ok (au_request_id a)
  && forallb (fun kv => pg_text_ok kv.1 && json_text_ok kv.2) (map_to_list (au_details a)).

Definition insert_audit_row (d : db) (a : audit_row) : res db :=
  if negb (audit_text_ok a) then Err (ErrSQL InvalidText) else
  if negb (btrim_nonempty (au_action a)) then Err (ErrSQL (CheckViolation "admin_audit_action_check")) else
  if negb (btrim_nonempty (au_actor a)) then Err (ErrSQL (CheckViolation "admin_audit_actor_check")) else
  if existsb (fun b => bool_decide (au_id b = au_id a)) (db_audit d)
  then Err (ErrSQL (UniqueViolation "admin_audit_log_pkey")) else
  Ok (with_audit d (db_audit d ++ [a])).
