(* ===== verification/Invariant.v ===== *)
(** * The invariants of the durable state

    [outbox_inv] collects what the outbox and stream tables promise: row
    constraints, the unique stream positions, and the cursor invariant that
    ties the status of every ordered event to its stream's [next_sequence].
    The lemmas reduce preservation by a statement to facts about the rows the
    statement touches. *)
From Stdlib Require Import ZArith String.
From stdpp Require Import base gmap strings list fin_maps.
From S2P Require Import Prelude GoStrings Ordering Schema.

Open Scope Z_scope.

(** A delivered event is behind the cursor, an event in flight is at the
    cursor, and every other one is at or above it. *)
Definition cursor_ok (st : outbox_status) (n next : Z) : Prop :=
  match st with
  | Delivered => n < next
  | Inflight => n = next
  | Pending | Dead => next <= n
  end.

Record outbox_inv (d : db) : Prop := {
  inv_id : forall id r, db_outbox d !! id = Some r -> ed_id (er_data r) = id;
  inv_row : forall id r, db_outbox d !! id = Some r -> event_row_ok r = true;
  inv_position : forall id1 r1 id2 r2 pos,
    db_outbox d !! id1 = Some r1 -> db_outbox d !! id2 = Some r2 ->
    stream_position (er_data r1) = Some pos -> stream_position (er_data r2) = Some pos ->
    id1 = id2;
  inv_stream : forall dest key s, db_streams d !! (dest, key) = Some s ->
    stream_row_ok s = true /\ sr_partition_id s = Partition dest key;
  inv_cursor : forall id r dest key n,
    db_outbox d !! id = Some r -> stream_position (er_data r) = Some (dest, key, n) ->
    exists s, db_streams d !! (dest, key) = Some s /\
              ed_ordering_partition (er_data r) = Some (sr_partition_id s) /\
              sr_start_sequence s <= n /\
              cursor_ok (er_status r) n (sr_next_sequence s);
}.

(** The 64 partition rows are there, well formed, and every relay is named. *)
Record partition_inv (d : db) : Prop := {
  inv_partition_ids : forall p, is_Some (db_partitions d !! p) <-> 0 <= p < 64;
  inv_partition_row : forall p pr, db_partitions d !! p = Some pr -> partition_row_ok pr = true;
  inv_relay_id : forall o rr, db_relays d !! o = Some rr -> btrim_nonempty o = true;
}.

(** Inbox rows satisfy their constraints and no two rows of one consumer have
    the same Kafka coordinates. *)
Record inbox_inv (d : db) : Prop := {
  inv_inbox_row : forall k r, db_inbox d !! k = Some r -> inbox_row_ok r = true;
  inv_inbox_source : forall c e1 e2 r1 r2 s1 s2,
    db_inbox d !! (c, e1) = Some r1 -> db_inbox d !! (c, e2) = Some r2 ->
    ir_source r1 = Some s1 -> ir_source r2 = Some s2 ->
    is_topic s1 = is_topic s2 -> is_partition s1 = is_partition s2 ->
    is_offset s1 = is_offset s2 -> e1 = e2;
}.

Record db_inv (d : db) : Prop := {
  inv_outbox : outbox_inv d;
  inv_partitions : partition_inv d;
  inv_inbox : inbox_inv d;
}.

(** * Lemmas *)

(** ** The migrated database *)

Lemma lookup_seed now p pr :
  db_partitions (migrated now) !! p = Some pr -> pr = seed_partition now /\ 0 <= p < 64.
Proof.
  intros H. apply elem_of_list_to_map_2 in H.
  apply list_elem_of_fmap in H as (q & Hq & Hin). simplify_eq.
  split; [done|]. apply elem_of_seqZ in Hin. lia.
Qed.

Lemma migrated_partitions now p : is_Some (db_partitions (migrated now) !! p) <-> 0 <= p < 64.
Proof.
  split; [intros [pr H]; by apply lookup_seed in H as [_ ?]|].
  intros Hp. exists (seed_partition now). unfold migrated. cbn [db_partitions].
  apply elem_of_list_to_map_1'.
  - intros y Hy. apply list_elem_of_fmap in Hy as (q & Hq & _). by simplify_eq.
  - apply list_elem_of_fmap. exists p. split; [done|]. apply elem_of_seqZ. lia.
Qed.

Lemma migrated_inv now : db_inv (migrated now).
Proof.
  split; split;
    try (intros *; cbn [migrated db_outbox db_streams db_relays db_inbox];
         rewrite ?lookup_empty; discriminate).
  - apply migrated_partitions.
  - intros p pr H. by apply lookup_seed in H as [-> _].
Qed.

(** ** Frames: the invariants mention only their own tables *)

Lemma outbox_inv_frame d d' :
  db_outbox d' = db_outbox d -> db_streams d' = db_streams d ->
  outbox_inv d -> outbox_inv d'.
Proof. intros H1 H2 []. split; rewrite ?H1, ?H2; done. Qed.

Lemma partition_inv_frame d d' :
  db_partitions d' = db_partitions d -> db_relays d' = db_relays d ->
  partition_inv d -> partition_inv d'.
Proof. intros H1 H2 []. split; rewrite ?H1, ?H2; done. Qed.

Lemma inbox_inv_frame d d' :
  db_inbox d' = db_inbox d -> inbox_inv d -> inbox_inv d'.
Proof. intros H []. split; rewrite ?H; done. Qed.

#[export] Hint Resolve inv_outbox inv_partitions inv_inbox : emitlane.

(** Tables other than the outbox are untouched. *)
Definition same_but_outbox (d d' : db) : Prop :=
  db_streams d' = db_streams d /\ db_partitions d' = db_partitions d /\
  db_relays d' = db_relays d /\ db_control d' = db_control d /\
  db_inbox d' = db_inbox d /\ db_audit d' = db_audit d.

#[global] Instance same_but_outbox_refl : Reflexive same_but_outbox.
Proof. intros d. repeat split. Qed.
#[global] Instance same_but_outbox_trans : Transitive same_but_outbox.
Proof.
  intros a b c (?&?&?&?&?&?) (?&?&?&?&?&?). unfold same_but_outbox.
  split_and!; congruence.
Qed.
Lemma same_but_outbox_with d t : same_but_outbox d (with_outbox d t).
Proof. repeat split. Qed.
#[export] Hint Resolve same_but_outbox_with : emitlane.

Lemma db_inv_outbox d d' :
  same_but_outbox d d' -> db_inv d -> outbox_inv d' -> db_inv d'.
Proof.
  intros (?&?&?&?&?&?) [] ?. split; [done|..];
    eauto using partition_inv_frame, inbox_inv_frame.
Qed.

Lemma guard_frame d d' now r r' :
  same_but_outbox d d' ->
  guard_ordered_event_claim d' now r r' = guard_ordered_event_claim d now r r'.
Proof.
  intros (_&Hp&Hr&_). unfold guard_ordered_event_claim, relay_capable, partition_authority.
  by rewrite Hp, Hr.
Qed.

(** The trigger interferes only with updates that lease an ordered event. *)
Lemma guard_unordered d now r r' :
  ed_ordering_key (er_data r) = None -> guard_ordered_event_claim d now r r' = true.
Proof. unfold guard_ordered_event_claim. by intros ->. Qed.

Lemma guard_not_leasing d now r r' :
  er_status r' <> Inflight -> guard_ordered_event_claim d now r r' = true.
Proof.
  intros H. unfold guard_ordered_event_claim. case_match; [done|].
  by rewrite bool_decide_false.
Qed.

Lemma guard_same_lease d now r r' :
  er_status r = Inflight -> er_lease_owner r' = er_lease_owner r ->
  guard_ordered_event_claim d now r r' = true.
Proof.
  intros H1 H2. unfold guard_ordered_event_claim. case_match; [done|].
  rewrite (bool_decide_true (er_status r = Inflight)) by done.
  rewrite (bool_decide_true (er_lease_owner r' = er_lease_owner r)) by done.
  simpl. by rewrite andb_false_r.
Qed.

(** ** One-row updates *)

Lemma update_event_some d now id cond upd d' r' :
  update_event d now id cond upd = (d', Some r') ->
  exists r, db_outbox d !! id = Some r /\ cond r = true /\ r' = upd r /\
            guard_ordered_event_claim d now r (upd r) = true /\
            d' = with_outbox d (<[id := upd r]> (db_outbox d)).
Proof.
  unfold update_event. intros H. destruct (db_outbox d !! id) as [r|]; [|done].
  destruct_match H; [|done]. bool_to_prop. simplify_eq. eauto 10.
Qed.

Lemma update_event_none d now id cond upd d' :
  update_event d now id cond upd = (d', None) ->
  d' = d /\ forall r, db_outbox d !! id = Some r ->
                cond r = false \/ guard_ordered_event_claim d now r (upd r) = false.
Proof.
  unfold update_event. intros H. destruct (db_outbox d !! id) as [r|]; [|naive_solver].
  destruct_match H; [done|]. simplify_eq. split; [done|]. intros ? [= <-].
  by apply andb_false_iff.
Qed.

Lemma update_event_same d now id cond upd d' o :
  update_event d now id cond upd = (d', o) -> same_but_outbox d d'.
Proof.
  destruct o as [r'|]; intros H.
  - apply update_event_some in H as (r & _ & _ & _ & _ & ->). auto with emitlane.
  - by apply update_event_none in H as [-> _].
Qed.

(** What a row of the table looks like after a one-row update. *)
Lemma update_event_lookup d now id cond upd d' o i r :
  update_event d now id cond upd = (d', o) -> db_outbox d' !! i = Some r ->
  db_outbox d !! i = Some r \/
  (i = id /\ o = Some r /\ exists r0, db_outbox d !! i = Some r0 /\ cond r0 = true /\ r = upd r0).
Proof.
  destruct o as [r'|]; intros H Hi.
  - apply update_event_some in H as (r0 & H0 & Hc & -> & _ & ->). simpl in Hi.
    rewrite lookup_insert in Hi. case_decide as E; simplify_eq; [|by left].
    right. naive_solver.
  - apply update_event_none in H as [-> _]. by left.
Qed.

Lemma update_event_ne d now id cond upd d' o i :
  update_event d now id cond upd = (d', o) -> i <> id -> db_outbox d' !! i = db_outbox d !! i.
Proof.
  destruct o as [r'|]; intros H Hi.
  - apply update_event_some in H as (r0 & _ & _ & _ & _ & ->). simpl.
    by rewrite lookup_insert_ne.
  - by apply update_event_none in H as [-> _].
Qed.

(** Replacing the row [r] by [r'] keeps the invariant when the immutable
    columns stay, the constraints hold and the new status fits the cursor. *)
Lemma outbox_inv_replace d id r r' :
  outbox_inv d -> db_outbox d !! id = Some r -> er_data r' = er_data r ->
  event_row_ok r' = true ->
  (forall dest key n s, stream_position (er_data r) = Some (dest, key, n) ->
     db_streams d !! (dest, key) = Some s ->
     cursor_ok (er_status r) n (sr_next_sequence s) ->
     cursor_ok (er_status r') n (sr_next_sequence s)) ->
  outbox_inv (with_outbox d (<[id := r']> (db_outbox d))).
Proof.
  intros [Hid Hrow Hpos Hst Hcur] Hr Hdata Hok Hcu. split; simpl; try done.
  - intros i x. rewrite lookup_insert. case_decide; intros; simplify_eq; [|eauto].
    rewrite Hdata. eauto.
  - intros i x. rewrite lookup_insert. case_decide; intros; simplify_eq; eauto.
  - intros i1 x1 i2 x2 pos. rewrite !lookup_insert.
    repeat case_decide; intros; simplify_eq; rewrite ?Hdata in *; eauto.
  - intros i x dest key n. rewrite lookup_insert. case_decide; intros; simplify_eq; [|eauto].
    rewrite Hdata in *. destruct (Hcur i r dest key n) as (s & ? & ? & ? & ?); [done..|].
    exists s. split_and!; eauto.
Qed.

Lemma update_event_inv d now id cond upd d' o :
  outbox_inv d -> update_event d now id cond upd = (d', o) ->
  (forall r, db_outbox d !! id = Some r -> cond r = true ->
     er_data (upd r) = er_data r /\ event_row_ok (upd r) = true /\
     (forall dest key n s, stream_position (er_data r) = Some (dest, key, n) ->
        db_streams d !! (dest, key) = Some s ->
        cursor_ok (er_status r) n (sr_next_sequence s) ->
        cursor_ok (er_status (upd r)) n (sr_next_sequence s))) ->
  outbox_inv d'.
Proof.
  intros Hinv H Hupd. destruct o as [r'|].
  - apply update_event_some in H as (r & Hr & Hc & -> & _ & ->).
    destruct (Hupd r Hr Hc) as (? & ? & ?). by apply (outbox_inv_replace _ _ r).
  - by apply update_event_none in H as [-> _].
Qed.

(** Deleting rows keeps the invariant. *)
Lemma outbox_inv_subseteq d t :
  outbox_inv d -> t ⊆ db_outbox d -> outbox_inv (with_outbox d t).
Proof.
  intros [Hid Hrow Hpos Hst Hcur] Hsub.
  assert (forall i x, t !! i = Some x -> db_outbox d !! i = Some x) as Hl
    by (intros; by eapply lookup_weaken).
  split; simpl; eauto.
Qed.

(** ** Row constraints of the new rows *)

Lemma event_row_ok_spec r :
  event_row_ok r = true <->
  event_data_ok (er_data r) = true /\ 0 <= er_attempts r /\
  outbox_lease_state_check r = true /\ outbox_delivery_state_check r = true.
Proof.
  unfold event_row_ok. rewrite !andb_true_iff, Z.leb_le. tauto.
Qed.

Lemma row_delivered_at r :
  event_row_ok r = true -> er_status r <> Delivered -> er_delivered_at r = None.
Proof.
  intros Hok Hs. apply event_row_ok_spec in Hok as (_ & _ & _ & H).
  unfold outbox_delivery_state_check in H. rewrite bool_decide_false in H by done.
  by destruct (er_delivered_at r).
Qed.

Lemma row_inflight_lease r :
  event_row_ok r = true -> er_status r = Inflight ->
  exists o u, er_lease_owner r = Some o /\ er_lease_until r = Some u.
Proof.
  intros Hok Hs. apply event_row_ok_spec in Hok as (_ & _ & H & _).
  unfold outbox_lease_state_check in H. rewrite bool_decide_true in H by done.
  destruct (er_lease_owner r), (er_lease_until r); try done. eauto.
Qed.

Lemma stream_position_unordered r :
  ed_ordering_key r = None -> stream_position r = None.
Proof. unfold stream_position. by intros ->. Qed.

(** ** Inserting an event *)

Lemma position_taken_false d e pos id r :
  position_taken d e = false -> stream_position e = Some pos ->
  db_outbox d !! id = Some r -> stream_position (er_data r) <> Some pos.
Proof.
  unfold position_taken. intros H He Hr Heq. rewrite He in H.
  assert (existsb (fun kr => bool_decide (stream_position (er_data kr.2) = Some pos))
            (map_to_list (db_outbox d)) = true) as Ht; [|congruence].
  apply existsb_exists. exists (id, r). split.
  - apply list_elem_of_In. by apply elem_of_map_to_list.
  - by apply bool_decide_eq_true.
Qed.

(** A successful insertion passed every constraint and both unique indexes. *)
Lemma insert_event_ok d r d' :
  insert_event d r = Ok d' ->
  event_text_ok (er_data r) = true /\ event_int_ok (er_data r) = true /\
  event_row_ok r = true /\ db_outbox d !! ed_id (er_data r) = None /\
  position_taken d (er_data r) = false /\
  d' = with_outbox d (<[ed_id (er_data r) := r]> (db_outbox d)).
Proof.
  unfold insert_event. intros H.
  repeat (destruct_match H; [done|]). bool_to_prop.
  destruct (db_outbox d !! ed_id (er_data r)) eqn:E; [done|]. simplify_eq. by split_and!.
Qed.

Lemma insert_event_inv d r d' :
  outbox_inv d -> insert_event d r = Ok d' ->
  (forall dest key n, stream_position (er_data r) = Some (dest, key, n) ->
     exists s, db_streams d !! (dest, key) = Some s /\
               ed_ordering_partition (er_data r) = Some (sr_partition_id s) /\
               sr_start_sequence s <= n /\ cursor_ok (er_status r) n (sr_next_sequence s)) ->
  outbox_inv d'.
Proof.
  intros [Hid Hrow Hpos Hst Hcur] H Hs.
  apply insert_event_ok in H as (_ & _ & Hok & Hn & Ht & ->).
  split; cbn [with_outbox db_outbox db_streams]; try done.
  - intros i x. rewrite lookup_insert. case_decide; naive_solver.
  - intros i x. rewrite lookup_insert. case_decide; naive_solver.
  - intros i1 x1 i2 x2 pos. rewrite !lookup_insert.
    repeat case_decide; intros; simplify_eq; eauto; exfalso;
      eapply position_taken_false; eauto.
  - intros i x dest key n. rewrite lookup_insert. case_decide; intros; simplify_eq; eauto.
Qed.
