(* ===== verification/Samples.v ===== *)
(** * Sample states

    Small concrete databases, built by the model's own insertions, on which the
    theorems of the later files are applied. *)
From Stdlib Require Import ZArith String.
From stdpp Require Import base gmap strings list fin_maps.
From S2P Require Import Prelude GoStrings Ordering Schema Invariant.

Open Scope Z_scope.

(** An event for [orders], ordered when [key] is given. *)
Definition sample_data (id : uuid) (key : option (string * Z)) : event_data :=
  {| ed_id := id; ed_destination := "orders"; ed_event_type := "order.created";
     ed_message_key := None; ed_payload := "{}"; ed_content_type := "application/json";
     ed_headers := ∅; ed_schema_version := 1; ed_correlation_id := None;
     ed_causation_id := None; ed_traceparent := None; ed_tracestate := None;
     ed_created_at := 0; ed_replayed_from_event_id := None; ed_replay_batch_id := None;
     ed_ordering_key := fst <$> key; ed_ordering_sequence := snd <$> key;
     ed_ordering_partition := Partition "orders" ∘ fst <$> key |}.

Definition sample_pending (id : uuid) (key : option (string * Z)) : event_row :=
  {| er_data := sample_data id key; er_status := Pending; er_attempts := 0;
     er_available_at := 0; er_lease_owner := None; er_lease_until := None;
     er_last_error := None; er_delivered_at := None |}.

Definition sample_delivered (id : uuid) (at_ : time) : event_row :=
  {| er_data := sample_data id None; er_status := Delivered; er_attempts := 1;
     er_available_at := 0; er_lease_owner := None; er_lease_until := None;
     er_last_error := None; er_delivered_at := Some at_ |}.

Definition sample_dead (id : uuid) : event_row :=
  {| er_data := sample_data id None; er_status := Dead; er_attempts := 3;
     er_available_at := 0; er_lease_owner := None; er_lease_until := None;
     er_last_error := Some "rejected"%string; er_delivered_at := None |}.

Fixpoint insert_all (d : db) (rows : list event_row) : res db :=
  match rows with
  | [] => Ok d
  | r :: rows => let! d1 := insert_event d r in insert_all d1 rows
  end%emitlane.

(** Two pending events, one delivered and one dead, all unordered. *)
Definition sample_rows : list event_row :=
  [sample_pending 1 None; sample_pending 2 None; sample_delivered 3 10; sample_dead 4].
Definition sample_db : db :=
  match insert_all (migrated 0) sample_rows with Ok d => d | Err _ => migrated 0 end.

Lemma insert_all_same d rows d' : insert_all d rows = Ok d' -> same_but_outbox d d'.
Proof.
  revert d. induction rows as [|r rows IH]; simpl; intros d H; [by simplify_eq|].
  apply result_bind_ok in H as (d1 & H1 & H2).
  apply insert_event_ok in H1 as (_ & _ & _ & _ & _ & ->). apply IH in H2.
  etrans; [|exact H2]. apply same_but_outbox_with.
Qed.

(** The stream of an ordered row exists and its cursor fits the row. *)
Definition row_fits (streams : gmap (string * string) stream_row) (r : event_row) : Prop :=
  forall dest key n, stream_position (er_data r) = Some (dest, key, n) ->
    exists s, streams !! (dest, key) = Some s /\
              ed_ordering_partition (er_data r) = Some (sr_partition_id s) /\
              sr_start_sequence s <= n /\ cursor_ok (er_status r) n (sr_next_sequence s).

Lemma row_fits_unordered streams r : ed_ordering_key (er_data r) = None -> row_fits streams r.
Proof. intros H dest key n. by rewrite stream_position_unordered. Qed.

Lemma insert_all_inv d rows d' :
  Forall (row_fits (db_streams d)) rows ->
  outbox_inv d -> insert_all d rows = Ok d' -> outbox_inv d'.
Proof.
  intros Hall. revert d Hall. induction rows as [|r rows IH]; simpl; intros d Hall Hinv H;
    [by simplify_eq|].
  apply Forall_cons in Hall as [Hr Hall].
  apply result_bind_ok in H as (d1 & H1 & H2). eapply IH; [|by eapply insert_event_inv|exact H2].
  by apply insert_event_ok in H1 as (_ & _ & _ & _ & _ & ->).
Qed.

Lemma sample_db_eq : insert_all (migrated 0) sample_rows = Ok sample_db.
Proof. vm_compute. reflexivity. Qed.

Lemma sample_db_inv : outbox_inv sample_db.
Proof.
  eapply insert_all_inv; [|apply (inv_outbox _ (migrated_inv 0))|exact sample_db_eq].
  repeat constructor; by apply row_fits_unordered.
Qed.

Lemma sample_db_db_inv : db_inv sample_db.
Proof.
  eapply db_inv_outbox; [|apply (migrated_inv 0)|apply sample_db_inv].
  exact (insert_all_same _ _ _ sample_db_eq).
Qed.

(** A stream [orders]/[k] whose first event is expected, its partition leased to
    [relay-1] under epoch 1, and two ordered events waiting. *)
Definition sample_stream : stream_row :=
  {| sr_partition_id := Partition "orders" "k"; sr_start_sequence := 1; sr_next_sequence := 1;
     sr_created_at := 0; sr_updated_at := 0 |}.
Definition sample_lease : partition_row :=
  {| pr_lease_owner := Some "relay-1"%string; pr_lease_until := Some (30 * Second); pr_epoch := 1;
     pr_handoff_not_before := None; pr_publish_timeout_ms := Some 10000; pr_updated_at := 0 |}.
Definition sample_relay : relay_row :=
  {| rr_hostname := "host"; rr_version := "v1"; rr_started_at := 0; rr_last_heartbeat_at := 0;
     rr_stopped_at := None; rr_ordering_capable := true |}.
Definition sample_ordered_base : db :=
  {| db_outbox := ∅; db_streams := {[ ("orders", "k")%string := sample_stream ]};
     db_partitions := <[Partition "orders" "k" := sample_lease]> (db_partitions (migrated 0));
     db_relays := {[ "relay-1"%string := sample_relay ]}; db_control := db_control (migrated 0);
     db_inbox := ∅; db_audit := [] |}.
Definition sample_ordered_rows : list event_row :=
  [sample_pending 11 (Some ("k"%string, 1)); sample_pending 12 (Some ("k"%string, 2))].
Definition sample_ordered : db :=
  match insert_all sample_ordered_base sample_ordered_rows with
  | Ok d => d | Err _ => sample_ordered_base
  end.

Lemma sample_ordered_eq : insert_all sample_ordered_base sample_ordered_rows = Ok sample_ordered.
Proof. vm_compute. reflexivity. Qed.

Lemma sample_ordered_base_inv : outbox_inv sample_ordered_base.
Proof.
  split; cbn [sample_ordered_base db_outbox db_streams]; try (intros *; by rewrite lookup_empty).
  intros dest key s [Hk <-]%lookup_singleton_Some. injection Hk as <- <-.
  split; [vm_compute; reflexivity|done].
Qed.

Lemma sample_ordered_inv : outbox_inv sample_ordered.
Proof.
  eapply insert_all_inv; [|apply sample_ordered_base_inv|exact sample_ordered_eq].
  repeat constructor; intros dest key n [= <- <- <-]; exists sample_stream;
    cbn [sample_ordered_base db_streams]; rewrite lookup_singleton_eq; split_and!; simpl; done || lia.
Qed.
