(* ===== verification/OutboxStore.v ===== *)
(** * The unordered outbox store ([storage/postgres/store.go])

    Each method of [Store] is one PostgreSQL transaction: a function of the
    database, the transaction's [NOW()] and the method's arguments. Rows that
    another open transaction holds locked, which [SKIP LOCKED] leaves out, are
    an argument of the claims and of the cleanup. *)
From Stdlib Require Import ZArith String.
From stdpp Require Import base gmap strings list sorting fin_maps.
From S2P Require Import Prelude GoStrings Ordering Schema Invariant Samples.

Open Scope Z_scope.

(** ** [relay.Event], the claimed event, and [scanEvent] *)

Record Event : Type := MkEvent {
  ID : uuid;
  Destination : string;
  EventType : string;
  Key : option string;
  Payload : string;
  ContentType : string;
  Headers : gmap string string;
  SchemaVersion : Z;
  CorrelationID : string;
  CausationID : string;
  Traceparent : string;
  Tracestate : string;
  Status : outbox_status;
  Attempts : Z;
  AvailableAt : time;
  LeaseOwner : string;
  LeaseUntil : option time;
  LastError : string;
  CreatedAt : time;
  DeliveredAt : option time;
  ReplayedFromEventID : option uuid;
  ReplayBatchID : option uuid;
  OrderingKey : string;
  OrderingSequence : Z;
  OrderingPartition : option Z;
  OrderingEpoch : Z;
}.

Definition deref (s : option string) : string := default ""%string s.

Definition scanEvent (r : event_row) (orderingEpoch : option Z) : Event :=
  let e := er_data r in
  {| ID := ed_id e;
     Destination := ed_destination e;
     EventType := ed_event_type e;
     Key := ed_message_key e;
     Payload := ed_payload e;
     ContentType := ed_content_type e;
     Headers := ed_headers e;
     SchemaVersion := ed_schema_version e;
     CorrelationID := deref (ed_correlation_id e);
     CausationID := deref (ed_causation_id e);
     Traceparent := deref (ed_traceparent e);
     Tracestate := deref (ed_tracestate e);
     Status := er_status r;
     Attempts := er_attempts r;
     AvailableAt := er_available_at r;
     LeaseOwner := deref (er_lease_owner r);
     LeaseUntil := er_lease_until r;
     LastError := deref (er_last_error r);
     CreatedAt := ed_created_at e;
     DeliveredAt := er_delivered_at r;
     ReplayedFromEventID := ed_replayed_from_event_id e;
     ReplayBatchID := ed_replay_batch_id e;
     OrderingKey := deref (ed_ordering_key e);
     OrderingSequence := default 0 (ed_ordering_sequence e);
     OrderingPartition := ed_ordering_partition e;
     OrderingEpoch := default 0 orderingEpoch |}.

(** ** [ORDER BY available_at, created_at, id] *)

Abbreviation claim_sort_key := (Z * Z * N)%type.

Definition claim_key (r : event_row) : claim_sort_key :=
  (er_available_at r, ed_created_at (er_data r), ed_id (er_data r)).

Definition claim_leb (a b : claim_sort_key) : bool :=
  let '(a1, a2, a3) := a in let '(b1, b2, b3) := b in
  (a1 <? b1) || ((a1 =? b1) && ((a2 <? b2) || ((a2 =? b2) && (a3 <=? b3)%N))).
Definition claim_le (a b : claim_sort_key) : Prop := claim_leb a b = true.

#[global] Instance claim_le_dec a b : Decision (claim_le a b).
Proof. unfold claim_le. apply _. Defined.

Definition outbox_rows (d : db) : list event_row := (map_to_list (db_outbox d)).*2.

(** Rows that satisfy [P] and are not locked by another transaction. *)
Definition scan (d : db) (locked : gset uuid) (P : event_row -> bool) : list claim_sort_key :=
  claim_key <$> filter (fun r => P r = true /\ ed_id (er_data r) ∉ locked) (outbox_rows d).

(** ** [Claim] *)

Definition claim_pending (now : time) (r : event_row) : bool :=
  (er_available_at r <=? now) && is_null (ed_ordering_key (er_data r))
  && bool_decide (er_status r = Pending).

Definition claim_expired (now : time) (r : event_row) : bool :=
  (er_available_at r <=? now) && is_null (ed_ordering_key (er_data r))
  && bool_decide (er_status r = Inflight) && not_null (er_lease_until r)
  && sql_le (er_lease_until r) now.

(** [SET status='inflight', lease_owner=$2, lease_until=NOW()+$3 ms] *)
Definition lease_row (owner : string) (until : time) (r : event_row) : event_row :=
  {| er_data := er_data r; er_status := Inflight; er_attempts := er_attempts r;
     er_available_at := er_available_at r; er_lease_owner := Some owner;
     er_lease_until := Some until; er_last_error := er_last_error r;
     er_delivered_at := er_delivered_at r |}.

(** The [UPDATE ... FROM picked ... RETURNING] of a claim. [epoch] is the
    column [ordering_epoch] of the result. *)
Fixpoint claim_rows (d : db) (now : time) (owner : string) (until : time)
    (picked : list (uuid * option Z)) : db * list Event :=
  match picked with
  | [] => (d, [])
  | (id, epoch) :: picked =>
      let '(d1, r) := update_event d now id (fun _ => true) (lease_row owner until) in
      let '(d2, events) := claim_rows d1 now owner until picked in
      (d2, match r with Some r => scanEvent r epoch :: events | None => events end)
  end.

Definition Claim (d : db) (locked : gset uuid) (now : time)
    (owner : string) (limit : Z) (lease : duration) : db * list Event :=
  if limit <=? 0 then (d, []) else
  let n := Z.to_nat limit in
  let pending := if not_paused d
                 then sort_limit claim_le n (scan d locked (claim_pending now)) else [] in
  let expired := if not_paused d
                 then sort_limit claim_le n (scan d locked (claim_expired now)) else [] in
  let picked := sort_limit claim_le n (pending ++ expired) in
  claim_rows d now owner (now + intervalMS lease * Millisecond)
    ((fun k => (k.2, None)) <$> picked).

(** Reference: the single query [WHERE pending OR expired ... LIMIT n]. *)
Definition claim_due (now : time) (r : event_row) : bool :=
  claim_pending now r || claim_expired now r.

Definition ClaimReference (d : db) (locked : gset uuid) (now : time)
    (owner : string) (limit : Z) (lease : duration) : db * list Event :=
  if limit <=? 0 then (d, []) else
  let picked := if not_paused d
                then sort_limit claim_le (Z.to_nat limit) (scan d locked (claim_due now))
                else [] in
  claim_rows d now owner (now + intervalMS lease * Millisecond)
    ((fun k => (k.2, None)) <$> picked).

(** ** Transitions of one leased event *)

Definition owned_inflight (owner : string) (r : event_row) : bool :=
  sql_eq (er_lease_owner r) owner && bool_decide (er_status r = Inflight).

Definition attempt_row (r : event_row) : event_row :=
  {| er_data := er_data r; er_status := er_status r; er_attempts := er_attempts r + 1;
     er_available_at := er_available_at r; er_lease_owner := er_lease_owner r;
     er_lease_until := er_lease_until r; er_last_error := er_last_error r;
     er_delivered_at := er_delivered_at r |}.

Definition delivered_row (now : time) (r : event_row) : event_row :=
  {| er_data := er_data r; er_status := Delivered; er_attempts := er_attempts r;
     er_available_at := er_available_at r; er_lease_owner := None;
     er_lease_until := None; er_last_error := None; er_delivered_at := Some now |}.

Definition retry_row (available : time) (lastError : string) (r : event_row) : event_row :=
  {| er_data := er_data r; er_status := Pending; er_attempts := er_attempts r;
     er_available_at := available; er_lease_owner := None; er_lease_until := None;
     er_last_error := Some lastError; er_delivered_at := er_delivered_at r |}.

Definition dead_row (lastError : string) (r : event_row) : event_row :=
  {| er_data := er_data r; er_status := Dead; er_attempts := er_attempts r;
     er_available_at := er_available_at r; er_lease_owner := None; er_lease_until := None;
     er_last_error := Some lastError; er_delivered_at := er_delivered_at r |}.

Definition revived_row (now : time) (r : event_row) : event_row :=
  {| er_data := er_data r; er_status := Pending; er_attempts := 0;
     er_available_at := now; er_lease_owner := None; er_lease_until := None;
     er_last_error := er_last_error r; er_delivered_at := er_delivered_at r |}.

(** [attempts + 1] in an INTEGER column. *)
Definition attempt_overflows (d : db) (id : uuid) (cond : event_row -> bool) : bool :=
  match db_outbox d !! id with
  | Some r => cond r && (2 ^ 31 <=? er_attempts r + 1)
  | None => false
  end.

Definition BeginAttempt (d : db) (now : time) (id : uuid) (owner : string)
    (maxAttempts : Z) : db * res Z :=
  let cond r := owned_inflight owner r && (er_attempts r <? maxAttempts) in
  if attempt_overflows d id cond then (d, Err (ErrSQL OutOfRange)) else
  match update_event d now id cond attempt_row with
  | (d', Some r) => (d', Ok (er_attempts r))
  | (d', None) => (d', Err ErrNoRows)
  end.

(** [if tag.RowsAffected() == 0 { return error }] *)
Definition require_row (u : db * option event_row) : db * res unit :=
  match u with
  | (d, Some _) => (d, Ok tt)
  | (d, None) => (d, Err ErrNoMatchingRow)
  end.

Definition MarkDelivered (d : db) (now : time) (id : uuid) (owner : string) : db * res unit :=
  require_row (update_event d now id (owned_inflight owner) (delivered_row now)).

Definition MarkRetry (d : db) (now : time) (id : uuid) (owner : string)
    (delay : duration) (lastError : string) : db * res unit :=
  require_row (update_event d now id (owned_inflight owner)
    (retry_row (now + intervalMS delay * Millisecond) (sanitizeError lastError))).

Definition MarkDead (d : db) (now : time) (id : uuid) (owner : string)
    (lastError : string) : db * res unit :=
  require_row (update_event d now id (owned_inflight owner)
    (dead_row (sanitizeError lastError))).

Definition RetryDead (d : db) (now : time) (id : uuid) : db * res unit :=
  require_row (update_event d now id (fun r => bool_decide (er_status r = Dead))
    (revived_row now)).

(** ** Reads *)

Definition Get (d : db) (id : uuid) : res Event :=
  match db_outbox d !! id with
  | Some r => Ok (scanEvent r None)
  | None => Err ErrNoRows
  end.

(** [ListDead]: the payload column is replaced by NULL. Rows with equal
    [created_at] may come in any order; here they come by descending id. *)
Definition without_payload (e : Event) : Event :=
  {| ID := ID e; Destination := Destination e; EventType := EventType e; Key := Key e;
     Payload := ""; ContentType := ContentType e; Headers := Headers e;
     SchemaVersion := SchemaVersion e; CorrelationID := CorrelationID e;
     CausationID := CausationID e; Traceparent := Traceparent e; Tracestate := Tracestate e;
     Status := Status e; Attempts := Attempts e; AvailableAt := AvailableAt e;
     LeaseOwner := LeaseOwner e; LeaseUntil := LeaseUntil e; LastError := LastError e;
     CreatedAt := CreatedAt e; DeliveredAt := DeliveredAt e;
     ReplayedFromEventID := ReplayedFromEventID e; ReplayBatchID := ReplayBatchID e;
     OrderingKey := OrderingKey e; OrderingSequence := OrderingSequence e;
     OrderingPartition := OrderingPartition e; OrderingEpoch := OrderingEpoch e |}.

Definition time_id_le (a b : Z * N) : Prop :=
  (a.1 <? b.1) || ((a.1 =? b.1) && (a.2 <=? b.2)%N) = true.
#[global] Instance time_id_le_dec a b : Decision (time_id_le a b).
Proof. unfold time_id_le. apply _. Defined.

Definition events_at (d : db) (ids : list uuid) : list Event :=
  omap (fun id => (fun r => scanEvent r None) <$> db_outbox d !! id) ids.

Definition ListDead (d : db) (limit : Z) : list Event :=
  let limit := if limit <=? 0 then 50 else limit in
  let dead := filter (fun r => er_status r = Dead) (outbox_rows d) in
  let keys := sort_limit (flip time_id_le) (Z.to_nat limit)
                ((fun r => (ed_created_at (er_data r), ed_id (er_data r))) <$> dead) in
  without_payload <$> events_at d keys.*2.

Definition RelayPaused (d : db) : res bool :=
  match db_control d with Some c => Ok (cr_paused c) | None => Err ErrNoRows end.

(** ** [CleanupDelivered] *)

Definition doomed (now : time) (retention : duration) (r : event_row) : bool :=
  bool_decide (er_status r = Delivered)
  && sql_lt (er_delivered_at r) (now - intervalMS retention * Millisecond).

Definition CleanupDelivered (d : db) (locked : gset uuid) (now : time)
    (retention : duration) (limit : Z) : db * Z :=
  if (retention <=? 0) || (limit <=? 0) then (d, 0) else
  let rows := filter (fun r => doomed now retention r = true /\ ed_id (er_data r) ∉ locked)
                (outbox_rows d) in
  let keys := sort_limit time_id_le (Z.to_nat limit)
                ((fun r => (default 0 (er_delivered_at r), ed_id (er_data r))) <$> rows) in
  (with_outbox d (foldr delete (db_outbox d) keys.*2), Z.of_nat (length keys)).

(** * Lemmas *)

(** ** The order of claims *)

Lemma claim_le_spec a1 a2 a3 b1 b2 b3 :
  claim_le (a1, a2, a3) (b1, b2, b3) <->
  a1 < b1 \/ (a1 = b1 /\ (a2 < b2 \/ (a2 = b2 /\ (a3 <= b3)%N))).
Proof.
  unfold claim_le, claim_leb.
  rewrite !orb_true_iff, !andb_true_iff, !orb_true_iff, !andb_true_iff,
    !Z.ltb_lt, !Z.eqb_eq, N.leb_le. done.
Qed.

#[global] Instance claim_le_trans : Transitive claim_le.
Proof. intros [[??]?] [[??]?] [[??]?]. rewrite !claim_le_spec. lia. Qed.
#[global] Instance claim_le_total : Total claim_le.
Proof. intros [[??]?] [[??]?]. rewrite !claim_le_spec. lia. Qed.
#[global] Instance claim_le_antisymm : AntiSymm (=) claim_le.
Proof.
  intros [[??]?] [[??]?]. rewrite !claim_le_spec. intros ??.
  f_equal; [f_equal|]; lia.
Qed.

(** ** Scans *)

Lemma elem_of_outbox_rows d r : r ∈ outbox_rows d <-> exists id, db_outbox d !! id = Some r.
Proof.
  unfold outbox_rows. rewrite list_elem_of_fmap. split.
  - intros ([id r'] & -> & H). exists id. by apply elem_of_map_to_list in H.
  - intros [id H]. exists (id, r). split; [done|]. by apply elem_of_map_to_list.
Qed.

Lemma elem_of_scan d locked P k :
  k ∈ scan d locked P <->
  exists id r, db_outbox d !! id = Some r /\ P r = true /\ ed_id (er_data r) ∉ locked /\
               k = claim_key r.
Proof.
  unfold scan. rewrite list_elem_of_fmap. setoid_rewrite list_elem_of_filter.
  setoid_rewrite elem_of_outbox_rows. naive_solver.
Qed.

Lemma filter_or_disjoint {A} (P Q : A -> bool) (L : A -> Prop) `{!forall x, Decision (L x)}
    (l : list A) :
  (forall x, P x = true -> Q x = true -> False) ->
  filter (fun x => P x = true /\ L x) l ++ filter (fun x => Q x = true /\ L x) l
  ≡ₚ filter (fun x => P x || Q x = true /\ L x) l.
Proof.
  intros Hd. induction l as [|x l IH]; [done|]. rewrite !filter_cons.
  specialize (Hd x). destruct (P x) eqn:EP, (Q x) eqn:EQ; simpl;
    repeat case_decide; try tauto; try (exfalso; naive_solver).
  - simpl. by rewrite IH.
  - rewrite <- Permutation_middle. by rewrite IH.
Qed.

Lemma scan_or d locked P Q :
  (forall r, P r = true -> Q r = true -> False) ->
  scan d locked P ++ scan d locked Q ≡ₚ scan d locked (fun r => P r || Q r).
Proof.
  intros Hd. unfold scan. rewrite <- fmap_app. apply fmap_Permutation.
  by apply filter_or_disjoint.
Qed.

Lemma claim_pending_expired_disjoint now r :
  claim_pending now r = true -> claim_expired now r = true -> False.
Proof.
  unfold claim_pending, claim_expired. intros H1 H2. bool_to_prop. congruence.
Qed.

(** ** [claim_rows] *)

Lemma lease_row_idemp o u r : lease_row o u (lease_row o u r) = lease_row o u r.
Proof. done. Qed.

Lemma lease_row_ok o u r :
  event_row_ok r = true -> er_status r <> Delivered -> event_row_ok (lease_row o u r) = true.
Proof.
  intros Hok Hs. pose proof (row_delivered_at r Hok Hs) as Hd.
  apply event_row_ok_spec in Hok as (? & ? & _ & _). apply event_row_ok_spec.
  split_and!; try done. unfold outbox_delivery_state_check. simpl. by rewrite Hd.
Qed.

(** The row a claim leaves behind, when the trigger lets the update through. *)
Definition leased (d : db) (now : time) (o : string) (u : time) (r : event_row)
  : option event_row :=
  if guard_ordered_event_claim d now r (lease_row o u r) then Some (lease_row o u r) else None.

Lemma leased_frame d d' now o u r :
  same_but_outbox d d' -> leased d' now o u r = leased d now o u r.
Proof. intros H. unfold leased. by rewrite (guard_frame d). Qed.

Lemma leased_idemp d now o u r :
  leased d now o u (default r (leased d now o u r)) = leased d now o u r.
Proof.
  unfold leased. destruct (guard_ordered_event_claim d now r _) eqn:E; simpl.
  - by rewrite lease_row_idemp, guard_same_lease.
  - by rewrite E.
Qed.

Lemma update_event_lease d now id o u :
  update_event d now id (fun _ => true) (lease_row o u) =
  match db_outbox d !! id ≫= leased d now o u with
  | Some r => (with_outbox d (<[id := r]> (db_outbox d)), Some r)
  | None => (d, None)
  end.
Proof.
  unfold update_event, leased. destruct (db_outbox d !! id) as [r|]; simpl; [|done].
  by destruct (guard_ordered_event_claim _ _ _ _).
Qed.

Lemma claim_rows_same d now o u picked : same_but_outbox d (claim_rows d now o u picked).1.
Proof.
  revert d. induction picked as [|[id ep] picked IH]; intros d; simpl; [done|].
  destruct (update_event _ _ _ _ _) as [d1 r] eqn:E1.
  specialize (IH d1). destruct (claim_rows d1 now o u picked). simpl in *.
  etrans; [by eapply update_event_same|done].
Qed.

Lemma update_lease_lookup d d1 now id o u r i :
  update_event d now id (fun _ => true) (lease_row o u) = (d1, r) ->
  db_outbox d1 !! i =
    if decide (i = id) then (fun r => default r (leased d now o u r)) <$> db_outbox d !! i
    else db_outbox d !! i.
Proof.
  rewrite update_event_lease. intros H. case_decide as Hi; [subst i|].
  - destruct (db_outbox d !! id) as [r0|] eqn:E; simpl in H; simplify_eq; [|by rewrite E].
    destruct (leased d now o u r0) eqn:El; simplify_eq; simpl.
    + by rewrite lookup_insert_eq, El.
    + by rewrite E, El.
  - case_match; simplify_eq; simpl; [by rewrite lookup_insert_ne|done].
Qed.

(** The table after a claim: the picked rows are leased where the trigger
    permits, the others are untouched. *)
Lemma claim_rows_lookup d now o u picked i :
  db_outbox (claim_rows d now o u picked).1 !! i =
    if decide (i ∈ picked.*1)
    then (fun r => default r (leased d now o u r)) <$> db_outbox d !! i
    else db_outbox d !! i.
Proof.
  revert d. induction picked as [|[id ep] picked IH]; intros d.
  { rewrite decide_False; [done|apply not_elem_of_nil]. }
  cbn [claim_rows]. destruct (update_event _ _ _ _ _) as [d1 r] eqn:E1.
  pose proof (update_event_same _ _ _ _ _ _ _ E1) as Hs.
  specialize (IH d1). destruct (claim_rows d1 now o u picked) as [d2 evs].
  cbn [fst] in *. rewrite IH, (update_lease_lookup _ _ _ _ _ _ _ i E1), fmap_cons.
  destruct (decide (i = id)) as [->|Hi].
  - rewrite (decide_True (P := id ∈ _ :: picked.*1)) by left.
    case_decide; [|done]. rewrite <- option_fmap_compose. apply option_fmap_ext.
    intros r0. simpl. rewrite (leased_frame d d1) by done. rewrite leased_idemp.
    by destruct (leased d now o u r0).
  - repeat case_decide; try done; try (exfalso; set_solver).
    apply option_fmap_ext. intros r0. by rewrite (leased_frame d d1).
Qed.

Lemma claim_rows_events d now o u picked :
  (claim_rows d now o u picked).2 =
  omap (fun p => (fun r => scanEvent r p.2) <$> (db_outbox d !! p.1 ≫= leased d now o u)) picked.
Proof.
  revert d. induction picked as [|[id ep] picked IH]; intros d; simpl; [done|].
  destruct (update_event _ _ _ _ _) as [d1 r] eqn:E1.
  pose proof (update_event_same _ _ _ _ _ _ _ E1) as Hs.
  specialize (IH d1). destruct (claim_rows d1 now o u picked) as [d2 evs]. simpl in *.
  assert (evs = omap (fun p => (fun r => scanEvent r p.2) <$>
                       (db_outbox d !! p.1 ≫= leased d now o u)) picked) as ->.
  { rewrite IH. apply list_omap_ext, Forall_Forall2_diag, Forall_true.
    intros [i ep']. simpl. f_equal.
    rewrite (update_lease_lookup _ _ _ _ _ _ _ i E1).
    case_decide; destruct (db_outbox d !! i); simpl;
      rewrite ?(leased_frame d d1) by done; rewrite ?leased_idemp; done. }
  rewrite update_event_lease in E1.
  destruct (db_outbox d !! id ≫= leased d now o u); by simplify_eq.
Qed.

(** ** [Claim] selects what the single query selects *)

Lemma Claim_eq_reference d locked now owner limit lease :
  Claim d locked now owner limit lease = ClaimReference d locked now owner limit lease.
Proof.
  unfold Claim, ClaimReference. case_match; [done|].
  destruct (not_paused d); [do 2 f_equal|by rewrite (sort_limit_nil claim_le)].
  rewrite (sort_limit_union claim_le). apply (sort_limit_perm claim_le), scan_or.
  apply claim_pending_expired_disjoint.
Qed.

Lemma leased_unordered d now o u r :
  ed_ordering_key (er_data r) = None -> leased d now o u r = Some (lease_row o u r).
Proof. intros H. unfold leased. by rewrite guard_unordered. Qed.

Lemma claim_due_inv now r :
  claim_due now r = true ->
  ed_ordering_key (er_data r) = None /\ er_status r <> Delivered /\ er_status r <> Dead /\
  er_available_at r <= now /\
  (er_status r = Inflight -> sql_le (er_lease_until r) now = true).
Proof.
  unfold claim_due, claim_pending, claim_expired. intros H.
  apply orb_true_iff in H as [H|H]; bool_to_prop;
    destruct (ed_ordering_key (er_data r)); try done; split_and!; congruence.
Qed.

(** The rows a claim picks, as the reference query orders them. *)
Definition claim_picked (d : db) (locked : gset uuid) (now : time) (limit : Z)
  : list claim_sort_key :=
  if (limit <=? 0) || negb (not_paused d) then []
  else sort_limit claim_le (Z.to_nat limit) (scan d locked (claim_due now)).

Lemma Claim_picked d locked now owner limit lease :
  Claim d locked now owner limit lease =
  claim_rows d now owner (now + intervalMS lease * Millisecond)
    ((fun k => (k.2, None)) <$> claim_picked d locked now limit).
Proof.
  rewrite Claim_eq_reference. unfold ClaimReference, claim_picked.
  destruct (limit <=? 0); [done|]. by destruct (not_paused d).
Qed.

Lemma elem_of_claim_picked d locked now limit k :
  outbox_inv d -> k ∈ claim_picked d locked now limit ->
  exists r, db_outbox d !! k.2 = Some r /\ claim_due now r = true /\ k.2 ∉ locked /\
            k = claim_key r /\ not_paused d = true /\ 0 < limit.
Proof.
  intros Hinv Hk. unfold claim_picked in Hk. case_match eqn:E.
  { by apply elem_of_nil in Hk. }
  apply elem_of_sort_limit in Hk. apply elem_of_scan in Hk as (id & r & Hr & Hd & Hl & ->).
  simpl. rewrite (inv_id _ Hinv _ _ Hr) in *. bool_to_prop. eauto 10.
Qed.

Lemma picked_ids (ks : list claim_sort_key) :
  ((fun k : claim_sort_key => (k.2, None (A := Z))) <$> ks).*1 = ks.*2.
Proof. by rewrite <- list_fmap_compose. Qed.

(** Exactly one event per picked row is returned. *)
Lemma claim_events_picked d locked now owner limit lease :
  outbox_inv d ->
  (Claim d locked now owner limit lease).2 =
  omap (fun k => (fun r => scanEvent (lease_row owner (now + intervalMS lease * Millisecond) r) None)
                 <$> (db_outbox d !! k.2)) (claim_picked d locked now limit) /\
  ID <$> (Claim d locked now owner limit lease).2 = (claim_picked d locked now limit).*2.
Proof.
  intros Hinv. rewrite Claim_picked, claim_rows_events.
  assert (forall k, k ∈ claim_picked d locked now limit -> exists r,
            db_outbox d !! k.2 = Some r /\ ed_id (er_data r) = k.2 /\
            leased d now owner (now + intervalMS lease * Millisecond) r
            = Some (lease_row owner (now + intervalMS lease * Millisecond) r)) as Hall.
  { intros k Hk. apply elem_of_claim_picked in Hk as (r & Hr & Hd & _); [|done].
    exists r. split_and!; [done|exact (inv_id _ Hinv _ _ Hr)|].
    apply leased_unordered. by destruct (claim_due_inv _ _ Hd) as (? & ? & ?). }
  revert Hall. generalize (claim_picked d locked now limit) as ks.
  induction ks as [|k ks IH]; intros Hall; [done|].
  destruct IH as [IH1 IH2].
  { intros k1 Hk1. apply Hall. by right. }
  destruct (Hall k) as (r & Hr & Hid & Hl); [left|]. csimpl. rewrite Hr. csimpl.
  rewrite Hl. csimpl. rewrite IH1, <- IH1, IH2, Hid. by split.
Qed.

Lemma claim_lookup d locked now owner limit lease i :
  outbox_inv d ->
  db_outbox (Claim d locked now owner limit lease).1 !! i =
    if decide (i ∈ (claim_picked d locked now limit).*2)
    then lease_row owner (now + intervalMS lease * Millisecond) <$> db_outbox d !! i
    else db_outbox d !! i.
Proof.
  intros Hinv. rewrite Claim_picked, claim_rows_lookup, picked_ids.
  case_decide as Hi; [|done]. apply list_elem_of_fmap in Hi as (k & -> & Hk).
  apply elem_of_claim_picked in Hk as (r & Hr & Hd & _); [|done]. rewrite Hr. simpl.
  rewrite leased_unordered; [done|]. by destruct (claim_due_inv _ _ Hd) as (? & ? & ?).
Qed.

(** Rows that are not delivered and, when ordered, are at their cursor can be
    leased without breaking the invariant. *)
Definition leasable (d : db) (i : uuid) : Prop :=
  forall r, db_outbox d !! i = Some r -> er_status r <> Delivered /\
    forall dest key n s, stream_position (er_data r) = Some (dest, key, n) ->
      db_streams d !! (dest, key) = Some s -> cursor_ok (er_status r) n (sr_next_sequence s) ->
      n = sr_next_sequence s.

Lemma claim_rows_inv d now o u picked :
  outbox_inv d -> (forall i, i ∈ picked.*1 -> leasable d i) ->
  outbox_inv (claim_rows d now o u picked).1.
Proof.
  revert d. induction picked as [|[id ep] picked IH]; intros d Hinv Hl; [done|].
  cbn [claim_rows]. destruct (update_event _ _ _ _ _) as [d1 r] eqn:E1.
  assert (outbox_inv d1 /\ forall i, i ∈ picked.*1 -> leasable d1 i) as [Hinv1 Hl1].
  { split.
    - eapply update_event_inv; [done|exact E1|]. intros r0 Hr0 _.
      destruct (Hl id (list_elem_of_here _ _) r0 Hr0) as [Hnd Hcur].
      split_and!; [done| |exact Hcur]. apply lease_row_ok; [by eapply inv_row|done].
    - intros i Hi r0 Hr0. destruct (update_event_same _ _ _ _ _ _ _ E1) as (-> & _).
      destruct (update_event_lookup _ _ _ _ _ _ _ _ _ E1 Hr0)
        as [Hr|(-> & _ & r1 & Hr1 & _ & ->)]; [|done].
      exact (Hl i (list_elem_of_further _ _ _ Hi) r0 Hr). }
  specialize (IH d1 Hinv1 Hl1). by destruct (claim_rows d1 now o u picked).
Qed.

Lemma Claim_inv d locked now owner limit lease :
  outbox_inv d -> outbox_inv (Claim d locked now owner limit lease).1.
Proof.
  intros Hinv. rewrite Claim_picked. apply claim_rows_inv; [done|]. rewrite picked_ids.
  intros i (k & -> & Hk)%list_elem_of_fmap r Hr.
  apply elem_of_claim_picked in Hk as (r' & Hr' & Hd & _); [|done]. simplify_eq.
  destruct (claim_due_inv _ _ Hd) as (Hk & ? & _). split; [done|].
  intros *. by rewrite stream_position_unordered.
Qed.

(** ** The transitions keep the row constraints *)

Lemma attempt_row_ok r : event_row_ok r = true -> event_row_ok (attempt_row r) = true.
Proof. rewrite !event_row_ok_spec. simpl. intros (?&?&?&?). split_and!; try done; lia. Qed.

Lemma delivered_row_ok now r : event_row_ok r = true -> event_row_ok (delivered_row now r) = true.
Proof. rewrite !event_row_ok_spec. simpl. intros (?&?&_&_). by split_and!. Qed.

Lemma released_row_ok r r' :
  event_row_ok r = true -> er_status r <> Delivered ->
  er_data r' = er_data r -> 0 <= er_attempts r' -> er_status r' <> Inflight ->
  er_status r' <> Delivered -> er_lease_owner r' = None -> er_lease_until r' = None ->
  er_delivered_at r' = er_delivered_at r -> event_row_ok r' = true.
Proof.
  intros Hok Hs Hd Ha H1 H2 H3 H4 H5. pose proof (row_delivered_at r Hok Hs) as Hn.
  apply event_row_ok_spec in Hok as (? & ? & _ & _). apply event_row_ok_spec.
  unfold outbox_lease_state_check, outbox_delivery_state_check.
  rewrite Hd, H3, H4, H5, Hn, !bool_decide_false by done. by split_and!.
Qed.

Lemma retry_row_ok a m r :
  event_row_ok r = true -> er_status r <> Delivered -> event_row_ok (retry_row a m r) = true.
Proof.
  intros H1 H2. pose proof (proj1 (event_row_ok_spec r) H1) as (_ & ? & _).
  by apply (released_row_ok r).
Qed.
Lemma dead_row_ok m r :
  event_row_ok r = true -> er_status r <> Delivered -> event_row_ok (dead_row m r) = true.
Proof.
  intros H1 H2. pose proof (proj1 (event_row_ok_spec r) H1) as (_ & ? & _).
  by apply (released_row_ok r).
Qed.
Lemma revived_row_ok now r :
  event_row_ok r = true -> er_status r <> Delivered -> event_row_ok (revived_row now r) = true.
Proof. intros H1 H2. by apply (released_row_ok r). Qed.

#[export] Hint Resolve attempt_row_ok delivered_row_ok retry_row_ok dead_row_ok revived_row_ok
  : emitlane.

Lemma owned_inflight_true owner r :
  owned_inflight owner r = true <-> er_lease_owner r = Some owner /\ er_status r = Inflight.
Proof.
  unfold owned_inflight. by rewrite andb_true_iff, sql_eq_true, bool_decide_eq_true.
Qed.

Lemma require_row_inv u d res : require_row u = (d, res) -> u.1 = d /\ (is_ok res = true <-> is_Some u.2).
Proof. destruct u as [d0 [r|]]; simpl; intros; simplify_eq; naive_solver. Qed.

(** ** Every transition keeps the invariant *)

Lemma BeginAttempt_inv d now id owner m :
  outbox_inv d -> outbox_inv (BeginAttempt d now id owner m).1.
Proof.
  intros Hinv. unfold BeginAttempt. case_match; [done|].
  destruct (update_event _ _ _ _ _) as [d' o] eqn:E.
  assert (outbox_inv d'); [|by destruct o].
  eapply update_event_inv; [done|exact E|]. intros r Hr Hc. simpl.
  split_and!; [done| |done]. apply attempt_row_ok. by eapply inv_row.
Qed.

Lemma MarkDelivered_inv d now id owner :
  outbox_inv d ->
  (forall r, db_outbox d !! id = Some r -> ed_ordering_key (er_data r) = None) ->
  outbox_inv (MarkDelivered d now id owner).1.
Proof.
  intros Hinv Hun. unfold MarkDelivered.
  destruct (update_event _ _ _ _ _) as [d' o] eqn:E.
  assert (outbox_inv d'); [|by destruct o].
  eapply update_event_inv; [done|exact E|]. intros r Hr _. split_and!; [done| |].
  - apply delivered_row_ok. by eapply inv_row.
  - intros *. rewrite (stream_position_unordered (er_data r)) by eauto. done.
Qed.

Lemma MarkRetry_inv d now id owner delay msg :
  outbox_inv d -> outbox_inv (MarkRetry d now id owner delay msg).1.
Proof.
  intros Hinv. unfold MarkRetry. destruct (update_event _ _ _ _ _) as [d' o] eqn:E.
  assert (outbox_inv d'); [|by destruct o].
  eapply update_event_inv; [done|exact E|]. intros r Hr [_ Hi]%owned_inflight_true.
  split_and!; [done| |].
  - apply retry_row_ok; [by eapply inv_row|congruence].
  - intros * _ _. rewrite Hi. simpl. lia.
Qed.

Lemma MarkDead_inv d now id owner msg :
  outbox_inv d -> outbox_inv (MarkDead d now id owner msg).1.
Proof.
  intros Hinv. unfold MarkDead. destruct (update_event _ _ _ _ _) as [d' o] eqn:E.
  assert (outbox_inv d'); [|by destruct o].
  eapply update_event_inv; [done|exact E|]. intros r Hr [_ Hi]%owned_inflight_true.
  split_and!; [done| |].
  - apply dead_row_ok; [by eapply inv_row|congruence].
  - intros * _ _. rewrite Hi. simpl. lia.
Qed.

Lemma RetryDead_inv d now id : outbox_inv d -> outbox_inv (RetryDead d now id).1.
Proof.
  intros Hinv. unfold RetryDead. destruct (update_event _ _ _ _ _) as [d' o] eqn:E.
  assert (outbox_inv d'); [|by destruct o].
  eapply update_event_inv; [done|exact E|]. intros r Hr Hi%bool_decide_eq_true.
  split_and!; [done| |].
  - apply revived_row_ok; [by eapply inv_row|congruence].
  - intros * _ _. rewrite Hi. done.
Qed.

Lemma foldr_delete_lookup {A} (t : gmap uuid A) ids i :
  foldr delete t ids !! i = if decide (i ∈ ids) then None else t !! i.
Proof.
  induction ids as [|j ids IH].
  { by rewrite decide_False by apply not_elem_of_nil. }
  cbn [foldr]. destruct (decide (j = i)) as [->|Hj].
  - rewrite lookup_delete_eq, decide_True; [done|]. apply elem_of_cons. by left.
  - rewrite lookup_delete_ne, IH by done. repeat case_decide; set_solver.
Qed.

Lemma CleanupDelivered_inv d locked now ret lim :
  outbox_inv d -> outbox_inv (CleanupDelivered d locked now ret lim).1.
Proof.
  intros Hinv. unfold CleanupDelivered. case_match; [done|]. simpl.
  apply outbox_inv_subseteq; [done|]. apply map_subseteq_spec. intros i x.
  rewrite foldr_delete_lookup. by case_decide.
Qed.

#[export] Hint Resolve Claim_inv BeginAttempt_inv MarkDelivered_inv MarkRetry_inv MarkDead_inv
  RetryDead_inv CleanupDelivered_inv : emitlane.

(** ** What a claim returns *)

Lemma outbox_rows_ids d : outbox_inv d -> NoDup ((fun r => ed_id (er_data r)) <$> outbox_rows d).
Proof.
  intros Hinv. unfold outbox_rows. rewrite <- list_fmap_compose.
  rewrite (list_fmap_ext _ fst (map_to_list (db_outbox d))); [apply NoDup_fst_map_to_list|].
  intros k [id r] Hk. simpl. apply (inv_id _ Hinv). apply elem_of_map_to_list.
  by eapply list_elem_of_lookup_2.
Qed.

Lemma fmap_sublist {A B} (f : A -> B) l1 l2 :
  l1 `sublist_of` l2 -> (f <$> l1) `sublist_of` (f <$> l2).
Proof. induction 1; simpl; by constructor. Qed.

Lemma NoDup_fmap_filter {A B} (f : A -> B) (P : A -> Prop) `{!forall x, Decision (P x)} l :
  NoDup (f <$> l) -> NoDup (f <$> filter P l).
Proof. intros Hn. eapply sublist_NoDup; [exact Hn|]. apply fmap_sublist, sublist_filter. Qed.

Lemma NoDup_fmap_sort_limit {A B} (R : relation A) `{!forall x y, Decision (R x y)}
    (f : A -> B) n l :
  NoDup (f <$> l) -> NoDup (f <$> sort_limit R n l).
Proof.
  intros Hn. eapply (sublist_NoDup _ (f <$> merge_sort R l)).
  - by rewrite merge_sort_Permutation.
  - apply fmap_sublist, sublist_take.
Qed.

Lemma claim_picked_NoDup d locked now limit :
  outbox_inv d -> NoDup (claim_picked d locked now limit).*2.
Proof.
  intros Hinv. unfold claim_picked. case_match; [constructor|].
  apply NoDup_fmap_sort_limit. unfold scan. rewrite <- list_fmap_compose.
  by apply (NoDup_fmap_filter (fun r => ed_id (er_data r))), outbox_rows_ids.
Qed.

Lemma claim_picked_length d locked now limit :
  Z.of_nat (length (claim_picked d locked now limit)) <= Z.max 0 limit.
Proof.
  unfold claim_picked. case_match; simpl; [lia|]. rewrite length_sort_limit. lia.
Qed.

Lemma claim_events_length d locked now owner limit lease :
  outbox_inv d ->
  length (Claim d locked now owner limit lease).2 = length (claim_picked d locked now limit).
Proof.
  intros Hinv. rewrite <- (length_fmap ID).
  destruct (claim_events_picked d locked now owner limit lease Hinv) as [_ ->].
  apply length_fmap.
Qed.

Lemma claim_event_row d locked now owner limit lease e :
  outbox_inv d -> e ∈ (Claim d locked now owner limit lease).2 ->
  exists r, db_outbox d !! ID e = Some r /\ claim_key r ∈ claim_picked d locked now limit /\
            claim_due now r = true /\ ID e ∉ locked /\ not_paused d = true /\
            e = scanEvent (lease_row owner (now + intervalMS lease * Millisecond) r) None.
Proof.
  intros Hinv He.
  destruct (claim_events_picked d locked now owner limit lease Hinv) as [Heq _].
  rewrite Heq in He. apply list_elem_of_omap in He as (k & Hk & He).
  destruct (elem_of_claim_picked _ _ _ _ _ Hinv Hk) as (r & Hr & Hd & Hl & -> & Hp & _).
  rewrite Hr in He. simpl in He. simplify_eq. simpl in *.
  exists r. by split_and!.
Qed.

(** * Properties *)

(** The claim query, which reads pending and expired rows in two ordered
    and limited branches and merges them, leases the same rows and returns the
    same events in the same order as one query over the disjunction. *)
Theorem Claim_matches_reference d locked now owner limit lease :
  Claim d locked now owner limit lease = ClaimReference d locked now owner limit lease.
Proof. apply Claim_eq_reference. Qed.

(** C12: Soundness of a claim. It returns at most [limit] distinct events, each
    of them due (pending, or in flight with an expired lease), unordered and
    not locked, and nothing while the relay is paused; the stored row of each
    is the old row leased to the claimant; no other row and no other table
    changes; the invariant is kept. *)
Theorem Claim_spec d locked now owner limit lease d' events :
  outbox_inv d -> Claim d locked now owner limit lease = (d', events) ->
  outbox_inv d' /\ same_but_outbox d d' /\
  Z.of_nat (length events) <= Z.max 0 limit /\ NoDup (ID <$> events) /\
  (forall e, e ∈ events -> exists r,
     db_outbox d !! ID e = Some r /\ claim_due now r = true /\
     ed_ordering_key (er_data r) = None /\ ID e ∉ locked /\ not_paused d = true /\
     e = scanEvent (lease_row owner (now + intervalMS lease * Millisecond) r) None /\
     db_outbox d' !! ID e = Some (lease_row owner (now + intervalMS lease * Millisecond) r)) /\
  (forall i, i ∉ ID <$> events -> db_outbox d' !! i = db_outbox d !! i).
Proof.
  intros Hinv H.
  assert (d' = (Claim d locked now owner limit lease).1) as -> by (by rewrite H).
  assert (events = (Claim d locked now owner limit lease).2) as -> by (by rewrite H).
  pose proof (claim_events_picked d locked now owner limit lease Hinv) as [_ Hids].
  split_and!.
  - by apply Claim_inv.
  - rewrite Claim_picked. apply claim_rows_same.
  - rewrite claim_events_length by done. apply claim_picked_length.
  - rewrite Hids. by apply claim_picked_NoDup.
  - intros e He. pose proof (list_elem_of_fmap_2 ID _ _ He) as Hi.
    destruct (claim_event_row _ _ _ _ _ _ _ Hinv He) as (r & Hr & Hk & Hd & Hl & Hp & Heq).
    exists r. split_and!; try done; [by destruct (claim_due_inv _ _ Hd)|].
    rewrite claim_lookup, decide_True, Hr by (done || by rewrite <- Hids). done.
  - intros i Hi. rewrite Hids in Hi. by rewrite claim_lookup, decide_False.
Qed.

(** Completeness of a claim. A due, unlocked row that an unpaused claim
    leaves behind is left behind only because the limit was reached, and every
    claimed event precedes it in (available_at, created_at, id) order. *)
Theorem Claim_complete d locked now owner limit lease d' events i r :
  outbox_inv d -> Claim d locked now owner limit lease = (d', events) ->
  not_paused d = true -> 0 < limit ->
  db_outbox d !! i = Some r -> claim_due now r = true -> i ∉ locked ->
  i ∉ ID <$> events ->
  Z.of_nat (length events) = limit /\
  forall e r0, e ∈ events -> db_outbox d !! ID e = Some r0 -> claim_le (claim_key r0) (claim_key r).
Proof.
  intros Hinv H Hp Hlim Hr Hd Hl Hi.
  assert (events = (Claim d locked now owner limit lease).2) as -> by (by rewrite H). clear H.
  rewrite claim_events_length by done.
  destruct (claim_events_picked d locked now owner limit lease Hinv) as [_ Hids].
  rewrite Hids in Hi.
  pose proof (inv_id _ Hinv _ _ Hr) as Hid.
  assert (claim_key r ∈ scan d locked (claim_due now)) as Hin.
  { apply elem_of_scan. exists i, r. by rewrite Hid. }
  assert (claim_key r ∉ claim_picked d locked now limit) as Hni.
  { intros Hk. apply Hi, list_elem_of_fmap. exists (claim_key r). by rewrite <- Hid. }
  pose proof (claim_event_row d locked now owner limit lease) as Hrow.
  unfold claim_picked in *.
  rewrite (proj2 (Z.leb_gt _ _) Hlim), Hp in *. cbn [orb negb] in *.
  destruct (sort_limit_rest claim_le _ _ _ Hin Hni) as [Hlen Hle].
  split; [rewrite Hlen; lia|]. intros e r0 He Hr0.
  destruct (Hrow e Hinv He) as (r1 & Hr1 & Hk & _). simplify_eq. by apply Hle.
Qed.

(** Mutual exclusion. Two claims, by the same or by different relays, the
    second before the first lease ends, never return the same event. *)
Theorem Claim_exclusive d locked1 locked2 now1 now2 owner1 owner2 limit1 limit2 lease1 lease2
    d1 d2 events1 events2 :
  outbox_inv d ->
  Claim d locked1 now1 owner1 limit1 lease1 = (d1, events1) ->
  Claim d1 locked2 now2 owner2 limit2 lease2 = (d2, events2) ->
  now2 < now1 + intervalMS lease1 * Millisecond ->
  forall e1 e2, e1 ∈ events1 -> e2 ∈ events2 -> ID e1 <> ID e2.
Proof.
  intros Hinv H1 H2 Hnow e1 e2 He1 He2 Heq.
  assert (d1 = (Claim d locked1 now1 owner1 limit1 lease1).1) as -> by (by rewrite H1).
  assert (events1 = (Claim d locked1 now1 owner1 limit1 lease1).2) as -> by (by rewrite H1).
  pose proof (claim_events_picked d locked1 now1 owner1 limit1 lease1 Hinv) as [_ Hids].
  pose proof (list_elem_of_fmap_2 ID _ _ He1) as Hi. rewrite Hids, Heq in Hi.
  replace events2 with (Claim (Claim d locked1 now1 owner1 limit1 lease1).1 locked2 now2 owner2
    limit2 lease2).2 in He2 by (by rewrite H2).
  apply claim_event_row in He2 as (r & Hr & _ & Hd & _); [|by apply Claim_inv].
  rewrite claim_lookup, decide_True in Hr by done.
  destruct (db_outbox d !! ID e2) as [r0|]; simplify_eq/=.
  destruct (claim_due_inv _ _ Hd) as (_ & _ & _ & _ & Hx).
  specialize (Hx eq_refl). simpl in Hx. bool_to_prop. lia.
Qed.

(** The transitions of a leased event, as a family. *)
Inductive transition : Type :=
| TAttempt (maxAttempts : Z)
| TDelivered
| TRetry (delay : duration) (lastError : string)
| TDead (lastError : string).

Definition apply_transition (d : db) (now : time) (id : uuid) (owner : string)
    (t : transition) : db * res unit :=
  match t with
  | TAttempt m => let '(d', r) := BeginAttempt d now id owner m in
                  (d', let! _ := r in Ok tt)
  | TDelivered => MarkDelivered d now id owner
  | TRetry delay msg => MarkRetry d now id owner delay msg
  | TDead msg => MarkDead d now id owner msg
  end%emitlane.

(** The row a successful transition leaves. *)
Definition transition_row (now : time) (t : transition) (r : event_row) : event_row :=
  match t with
  | TAttempt _ => attempt_row r
  | TDelivered => delivered_row now r
  | TRetry delay msg =>
      retry_row (now + intervalMS delay * Millisecond) (sanitizeError msg) r
  | TDead msg => dead_row (sanitizeError msg) r
  end.

Definition transition_allowed (owner : string) (t : transition) (r : event_row) : bool :=
  owned_inflight owner r &&
  match t with
  | TAttempt m => (er_attempts r <? m) && (er_attempts r + 1 <? 2 ^ 31)
  | _ => true
  end.

Lemma owned_inflight_guard d now owner r r' :
  owned_inflight owner r = true -> er_lease_owner r' = er_lease_owner r \/ er_status r' <> Inflight ->
  guard_ordered_event_claim d now r r' = true.
Proof.
  intros [_ Hi]%owned_inflight_true [H|H]; [by apply guard_same_lease|by apply guard_not_leasing].
Qed.

Lemma update_event_owned d now id owner extra upd :
  (forall r, er_lease_owner (upd r) = er_lease_owner r \/ er_status (upd r) <> Inflight) ->
  update_event d now id (fun r => owned_inflight owner r && extra r) upd =
  match db_outbox d !! id with
  | Some r => if owned_inflight owner r && extra r
              then (with_outbox d (<[id := upd r]> (db_outbox d)), Some (upd r)) else (d, None)
  | None => (d, None)
  end.
Proof.
  intros Hu. unfold update_event. destruct (db_outbox d !! id) as [r|]; [|done].
  destruct (owned_inflight owner r && extra r) eqn:E; [|done].
  apply andb_true_iff in E as [E _]. by rewrite (owned_inflight_guard d now owner r (upd r)).
Qed.

Lemma update_event_ext d now id c1 c2 upd :
  (forall r, c1 r = c2 r) -> update_event d now id c1 upd = update_event d now id c2 upd.
Proof. intros H. unfold update_event. case_match; [|done]. by rewrite H. Qed.

Lemma apply_transition_eq d now id owner t :
  apply_transition d now id owner t =
  match db_outbox d !! id with
  | Some r => if transition_allowed owner t r
              then (with_outbox d (<[id := transition_row now t r]> (db_outbox d)), Ok tt)
              else (d, (apply_transition d now id owner t).2)
  | None => (d, (apply_transition d now id owner t).2)
  end /\
  ((forall r, db_outbox d !! id = Some r -> transition_allowed owner t r = false) ->
   is_ok (apply_transition d now id owner t).2 = false).
Proof.
  destruct t; cbn [apply_transition].
  1: unfold BeginAttempt, attempt_overflows; rewrite update_event_owned by (by left).
  2-4: unfold MarkDelivered, MarkRetry, MarkDead;
    rewrite (update_event_ext _ _ _ _ (fun r => owned_inflight owner r && true))
      by (intros; by rewrite andb_true_r);
    rewrite update_event_owned by (by right).
  all: unfold transition_allowed; destruct (db_outbox d !! id) as [r|]; [|done].
  1: destruct (owned_inflight owner r) eqn:E1; simpl; [|done];
    rewrite Z.leb_antisym; destruct (er_attempts r <? maxAttempts) eqn:E2; simpl; [|done];
    destruct (er_attempts r + 1 <? 2 ^ 31) eqn:E3; simpl; [|done].
  2-4: destruct (owned_inflight owner r) eqn:E1; simpl; [|done].
  all: split; [done|]; intros H; specialize (H r eq_refl);
    rewrite ?E1, ?E2, ?E3 in H; done.
Qed.

(** C13: Owner fencing. A transition (attempt, delivered, retry, dead) succeeds
    exactly when the event is in flight and leased to the caller (and, for an
    attempt, the attempt budget is not used up); then exactly that row changes,
    as the transition says. Otherwise it reports an error and the database is
    left as it was. *)
Theorem transition_fenced d now id owner t d' res :
  apply_transition d now id owner t = (d', res) ->
  (is_ok res = true <->
   exists r, db_outbox d !! id = Some r /\ transition_allowed owner t r = true) /\
  (is_ok res = true -> exists r, db_outbox d !! id = Some r /\
     d' = with_outbox d (<[id := transition_row now t r]> (db_outbox d))) /\
  (is_ok res = false -> d' = d).
Proof.
  intros H. destruct (apply_transition_eq d now id owner t) as [Heq Hno].
  rewrite H in Heq, Hno. simpl in *.
  destruct (db_outbox d !! id) as [r|]; [destruct (transition_allowed owner t r) eqn:E|];
    simplify_eq; simpl.
  - naive_solver.
  - rewrite Hno by naive_solver. naive_solver.
  - rewrite Hno by naive_solver. naive_solver.
Qed.

(** The attempt budget. [BeginAttempt] reports the attempt number it
    stored, which is one more than before and never above [maxAttempts]. *)
Theorem BeginAttempt_budget d now id owner maxAttempts d' n :
  BeginAttempt d now id owner maxAttempts = (d', Ok n) ->
  n <= maxAttempts /\ n < 2 ^ 31 /\
  exists r, db_outbox d !! id = Some r /\ n = er_attempts r + 1 /\
            db_outbox d' !! id = Some (attempt_row r).
Proof.
  unfold BeginAttempt, attempt_overflows. rewrite update_event_owned by (by left).
  destruct (db_outbox d !! id) as [r|]; [|done].
  destruct (_ && (2 ^ 31 <=? _)) eqn:E1; [done|].
  destruct (_ && (er_attempts r <? _)) eqn:E2; [|done].
  intros [= <- <-]. simpl in E1. bool_to_prop. simpl. split_and!; try lia.
  exists r. by rewrite lookup_insert_eq.
Qed.

Lemma foldr_delete_size {A} (t : gmap uuid A) ids :
  NoDup ids -> (forall i, i ∈ ids -> is_Some (t !! i)) ->
  (size (foldr delete t ids) + length ids = size t)%nat.
Proof.
  induction 1 as [|i ids Hi _ IH]; intros Hall; cbn [foldr length]; [lia|].
  rewrite map_size_delete, foldr_delete_lookup, decide_False by done.
  destruct (Hall i) as [x Hx]; [left|]. rewrite Hx.
  specialize (IH (fun j Hj => Hall j (list_elem_of_further _ _ _ Hj))).
  assert (size (foldr delete t ids) <> 0)%nat; [|lia].
  apply map_size_ne_0_lookup. exists i. by rewrite foldr_delete_lookup, decide_False, Hx.
Qed.

(** Retention cleanup. It deletes at most [limit] rows, every one of them
    delivered longer than the retention ago and not locked, reports exactly
    the number it deleted, and keeps every pending, in-flight and dead row, all
    other tables and the invariant. *)
Theorem CleanupDelivered_spec d locked now retention limit d' n :
  outbox_inv d -> CleanupDelivered d locked now retention limit = (d', n) ->
  outbox_inv d' /\ same_but_outbox d d' /\ 0 <= n <= Z.max 0 limit /\
  Z.of_nat (size (db_outbox d)) = Z.of_nat (size (db_outbox d')) + n /\
  forall i r, db_outbox d !! i = Some r ->
    db_outbox d' !! i = Some r \/
    (db_outbox d' !! i = None /\ er_status r = Delivered /\ i ∉ locked /\ 0 < retention /\
     exists t, er_delivered_at r = Some t /\ t < now - intervalMS retention * Millisecond).
Proof.
  intros Hinv H. pose proof (CleanupDelivered_inv d locked now retention limit Hinv) as Hinv'.
  rewrite H in Hinv'. split; [done|]. unfold CleanupDelivered in H. case_match eqn:E; simplify_eq.
  { split_and!; try lia; [done|]. eauto. }
  set (rows := filter _ _) in *. set (keys := sort_limit _ _ _) in *. bool_to_prop.
  assert (forall i, i ∈ keys.*2 -> exists r, db_outbox d !! i = Some r /\
            doomed now retention r = true /\ i ∉ locked) as Hk.
  { intros i (k & -> & Hk)%list_elem_of_fmap. unfold keys in Hk.
    apply elem_of_sort_limit in Hk. apply list_elem_of_fmap in Hk as (r & -> & Hr).
    apply list_elem_of_filter in Hr as [[? ?] (i & Hi)%elem_of_outbox_rows]. simpl.
    rewrite (inv_id _ Hinv _ _ Hi) in *. eauto. }
  assert (NoDup keys.*2) as Hnd.
  { apply NoDup_fmap_sort_limit. rewrite <- list_fmap_compose.
    by apply (NoDup_fmap_filter (fun r => ed_id (er_data r))), outbox_rows_ids. }
  assert (length keys <= Z.to_nat limit)%nat by (unfold keys; rewrite length_sort_limit; lia).
  split_and!; try lia; [apply same_but_outbox_with| |].
  - cbn [with_outbox db_outbox]. rewrite <- (foldr_delete_size (db_outbox d) keys.*2) by naive_solver.
    rewrite length_fmap. lia.
  - intros i r Hr. cbn [with_outbox db_outbox]. rewrite foldr_delete_lookup.
    case_decide as Hi; [right|by left]. destruct (Hk i Hi) as (r' & Hr' & Hd & Hl).
    simplify_eq. unfold doomed in Hd. bool_to_prop.
    destruct (er_delivered_at r) as [t|]; [|done]. simpl in *. bool_to_prop. eauto 10.
Qed.

(** * Witnesses *)

Definition sample_claim : db * list Event := Claim sample_db ∅ 5 "relay-1" 10 Second.

Lemma Claim_spec_witness :
  ID <$> sample_claim.2 = [1; 2]%N /\ outbox_inv sample_claim.1.
Proof.
  destruct (Claim_spec sample_db ∅ 5 "relay-1" 10 Second _ _ sample_db_inv (surjective_pairing _))
    as [H _].
  split; [vm_compute; reflexivity|exact H].
Defined.

Lemma Claim_complete_witness :
  Z.of_nat (length (Claim sample_db ∅ 5 "relay-1" 1 Second).2) = 1.
Proof.
  refine (proj1 (Claim_complete sample_db ∅ 5 "relay-1" 1 Second _ _ 2%N (sample_pending 2 None)
    sample_db_inv (surjective_pairing _) _ _ _ _ _ _));
    first [apply (bool_decide_unpack _); vm_compute; exact I|vm_compute; reflexivity].
Defined.

Lemma Claim_exclusive_witness :
  length sample_claim.2 = 2%nat /\
  (forall e1 e2, e1 ∈ sample_claim.2 ->
     e2 ∈ (Claim sample_claim.1 ∅ 6 "relay-2" 10 Second).2 -> ID e1 <> ID e2).
Proof.
  split; [vm_compute; reflexivity|].
  refine (Claim_exclusive sample_db ∅ ∅ 5 6 "relay-1" "relay-2" 10 10 Second Second _ _ _ _
    sample_db_inv (surjective_pairing _) (surjective_pairing _) _).
  vm_compute; reflexivity.
Defined.

Lemma transition_fenced_witness :
  let '(d', res) := apply_transition sample_claim.1 6 1 "relay-1" TDelivered in
  is_ok res = true /\ (exists r, db_outbox d' !! 1%N = Some r /\ er_status r = Delivered) /\
  apply_transition sample_claim.1 6 1 "relay-2" TDelivered = (sample_claim.1, Err ErrNoMatchingRow).
Proof.
  destruct (apply_transition sample_claim.1 6 1 "relay-1" TDelivered) as [d' res] eqn:E.
  destruct (transition_fenced sample_claim.1 6 1 "relay-1" TDelivered d' res E) as (H1 & H2 & _).
  assert (is_ok res = true) as Hok.
  { apply H1. eexists. split; [vm_compute; reflexivity|]. vm_compute. reflexivity. }
  split_and!; [exact Hok| |vm_compute; reflexivity].
  destruct (H2 Hok) as (r & _ & ->). exists (delivered_row 6 r).
  cbn [with_outbox db_outbox]. by rewrite lookup_insert_eq.
Defined.

Lemma BeginAttempt_budget_witness : 1 <= 3.
Proof.
  refine (proj1 (BeginAttempt_budget sample_claim.1 6 1 "relay-1" 3
    (BeginAttempt sample_claim.1 6 1 "relay-1" 3).1 1 _)).
  vm_compute. reflexivity.
Defined.

Lemma CleanupDelivered_spec_witness :
  let '(d', n) := CleanupDelivered sample_db ∅ Hour Second 10 in
  n = 1 /\ outbox_inv d' /\ db_outbox d' !! 3%N = None /\ is_Some (db_outbox d' !! 4%N).
Proof.
  destruct (CleanupDelivered sample_db ∅ Hour Second 10) as [d' n] eqn:E.
  destruct (CleanupDelivered_spec sample_db ∅ Hour Second 10 d' n sample_db_inv E) as [H _].
  vm_compute in E. injection E as <- <-. split_and!; [reflexivity|exact H|reflexivity|].
  eexists. vm_compute. reflexivity.
Defined.
