(* ===== verification/OrderedStore.v ===== *)
(** * Ordered delivery ([storage/postgres/ordered_delivery.go])

    The claims, the attempt fence and the acknowledgements of ordered events.
    Each statement joins the event with its stream cursor and with the
    authoritative lease of its partition; a statement whose join is empty
    reports [ErrFenced] and changes nothing. *)
From Stdlib Require Import ZArith String.
From stdpp Require Import base gmap strings list sorting fin_maps sets.
From S2P Require Import Prelude GoStrings Ordering Schema Invariant Samples OutboxStore.

Open Scope Z_scope.

(** [JOIN emitlane.ordering_partitions ON partition_id = e.ordering_partition] *)
Definition partition_of (d : db) (r : event_row) : option partition_row :=
  ed_ordering_partition (er_data r) ≫= fun p => db_partitions d !! p.

(** [JOIN emitlane.ordering_streams] on destination and key. *)
Definition stream_of (d : db) (r : event_row) : option stream_row :=
  ed_ordering_key (er_data r) ≫= fun k => db_streams d !! (ed_destination (er_data r), k).

(** [stream.next_sequence = e.ordering_sequence] *)
Definition at_cursor (d : db) (r : event_row) : bool :=
  match stream_of d r with
  | Some s => sql_eq (ed_ordering_sequence (er_data r)) (sr_next_sequence s)
  | None => false
  end.

(** [lease_owner = $2 AND lease_until >= NOW() + minimum AND
    COALESCE(handoff_not_before, '-infinity') <= NOW()] *)
Definition partition_held (now : time) (owner : string) (minimum : Z) (p : partition_row) : bool :=
  sql_eq (pr_lease_owner p) owner
  && sql_ge (pr_lease_until p) (now + minimum * Millisecond)
  && sql_coalesce_le (pr_handoff_not_before p) now.

(** ** [ClaimOrdered] *)

Definition ordered_due (d : db) (now : time) (owner : string) (minimum : Z) (r : event_row)
  : bool :=
  match partition_of d r with
  | Some p =>
      at_cursor d r && not_null (ed_ordering_key (er_data r)) && (er_available_at r <=? now)
      && (bool_decide (er_status r = Pending)
          || (bool_decide (er_status r = Inflight) && not_null (er_lease_until r)
              && sql_le (er_lease_until r) now))
      && partition_held now owner minimum p
  | None => false
  end.

(** [picked.epoch] *)
Definition claim_epoch (d : db) (id : uuid) : option Z :=
  r ← db_outbox d !! id; p ← partition_of d r; Some (pr_epoch p).

Definition ClaimOrdered (d : db) (locked : gset uuid) (now : time) (owner : string)
    (limit : Z) (eventLease minimumPartitionLease : duration) : db * list Event :=
  if limit <=? 0 then (d, []) else
  let picked := if not_paused d
                then sort_limit claim_le (Z.to_nat limit)
                       (scan d locked (ordered_due d now owner (intervalMS minimumPartitionLease)))
                else [] in
  claim_rows d now owner (now + intervalMS eventLease * Millisecond)
    ((fun k => (k.2, claim_epoch d k.2)) <$> picked).

(** ** The fence of the statements that follow a claim *)

(** The partition of the event is held by [owner] under [epoch]; [until] is the
    condition on its [lease_until]. *)
Definition ordered_fence (d : db) (now : time) (owner : string) (epoch : Z)
    (until : option time -> bool) (r : event_row) : bool :=
  match partition_of d r with
  | Some p => sql_eq (pr_lease_owner p) owner && (pr_epoch p =? epoch)
              && until (pr_lease_until p) && sql_coalesce_le (pr_handoff_not_before p) now
  | None => false
  end.

Definition attempt_allowed (d : db) (now : time) (owner : string) (epoch maxAttempts : Z)
    (minimum : Z) (r : event_row) : bool :=
  owned_inflight owner r && sql_gt (er_lease_until r) now && (er_attempts r <? maxAttempts)
  && ordered_fence d now owner epoch (fun u => sql_ge u (now + minimum * Millisecond)) r.

Definition BeginOrderedAttempt (d : db) (now : time) (id : uuid) (owner : string)
    (epoch maxAttempts : Z) (minimumPartitionLease : duration) : db * res Z :=
  let cond := attempt_allowed d now owner epoch maxAttempts (intervalMS minimumPartitionLease) in
  if attempt_overflows d id cond then (d, Err (ErrSQL OutOfRange)) else
  match update_event d now id cond attempt_row with
  | (d', Some r) => (d', Ok (er_attempts r))
  | (d', None) => (d', Err ErrFenced)
  end.

(** [if tag.RowsAffected() != 1 { return relay.ErrFenced }] *)
Definition require_fence (u : db * option event_row) : db * res unit :=
  match u with
  | (d, Some _) => (d, Ok tt)
  | (d, None) => (d, Err ErrFenced)
  end.

(** ** [MarkOrderedDelivered] *)

(** The CTE [authority]. *)
Definition delivery_authority (d : db) (now : time) (event : Event) (owner : string)
    (r : event_row) : bool :=
  owned_inflight owner r && sql_gt (er_lease_until r) now
  && sql_eq (ed_ordering_sequence (er_data r)) (OrderingSequence event)
  && ordered_fence d now owner (OrderingEpoch event) (fun u => sql_gt u now) r.

(** The row the CTE [advanced] updates. *)
Definition advance_target (d : db) (r : event_row) : option stream_row :=
  s ← stream_of d r;
  if sql_eq (ed_ordering_partition (er_data r)) (sr_partition_id s) && at_cursor d r
  then Some s else None.

Definition advanced_stream (now : time) (s : stream_row) (n : Z) : stream_row :=
  {| sr_partition_id := sr_partition_id s; sr_start_sequence := sr_start_sequence s;
     sr_next_sequence := n + 1; sr_created_at := sr_created_at s; sr_updated_at := now |}.

Definition MarkOrderedDelivered (d : db) (now : time) (event : Event) (owner : string)
  : db * res unit :=
  match db_outbox d !! ID event with
  | Some r =>
      if delivery_authority d now event owner r then
        match advance_target d r, ed_ordering_key (er_data r), ed_ordering_sequence (er_data r) with
        | Some s, Some k, Some n =>
            if 2 ^ 63 <=? n + 1 then (d, Err (ErrSQL OutOfRange)) else
            let d1 := with_streams d
              (<[(ed_destination (er_data r), k) := advanced_stream now s n]> (db_streams d)) in
            (with_outbox d1 (<[ID event := delivered_row now r]> (db_outbox d1)), Ok tt)
        | _, _, _ => (d, Err ErrFenced)
        end
      else (d, Err ErrFenced)
  | None => (d, Err ErrFenced)
  end.

(** ** [MarkOrderedRetry] and [MarkOrderedDead] *)

Definition mark_allowed (d : db) (now : time) (event : Event) (owner : string) (r : event_row)
  : bool :=
  owned_inflight owner r
  && ordered_fence d now owner (OrderingEpoch event) (fun u => sql_gt u now) r
  && sql_eq (ed_ordering_sequence (er_data r)) (OrderingSequence event).

Definition MarkOrderedRetry (d : db) (now : time) (event : Event) (owner : string)
    (delay : duration) (lastError : string) : db * res unit :=
  require_fence (update_event d now (ID event) (mark_allowed d now event owner)
    (retry_row (now + intervalMS delay * Millisecond) (sanitizeError lastError))).

Definition MarkOrderedDead (d : db) (now : time) (event : Event) (owner : string)
    (lastError : string) : db * res unit :=
  require_fence (update_event d now (ID event) (mark_allowed d now event owner)
    (dead_row (sanitizeError lastError))).

(** * Lemmas *)

Lemma length_omap_le {A B} (f : A -> option B) l : (length (omap f l) <= length l)%nat.
Proof. induction l as [|x l IH]; csimpl; [done|]. destruct (f x); csimpl; lia. Qed.

Lemma stream_position_of d r s n :
  stream_of d r = Some s -> ed_ordering_sequence (er_data r) = Some n ->
  exists k, ed_ordering_key (er_data r) = Some k /\
            db_streams d !! (ed_destination (er_data r), k) = Some s /\
            stream_position (er_data r) = Some (ed_destination (er_data r), k, n).
Proof.
  unfold stream_of, stream_position. intros H ->.
  destruct (ed_ordering_key (er_data r)) as [k|]; [|done]. eauto.
Qed.

Lemma at_cursor_true d r :
  at_cursor d r = true <->
  exists s k, ed_ordering_key (er_data r) = Some k /\
    db_streams d !! (ed_destination (er_data r), k) = Some s /\
    ed_ordering_sequence (er_data r) = Some (sr_next_sequence s).
Proof.
  unfold at_cursor, stream_of. split.
  - destruct (ed_ordering_key (er_data r)) as [k|]; simpl; [|done].
    destruct (db_streams d !! _) as [s|] eqn:E; [|done]. intros H%sql_eq_true. eauto.
  - intros (s & k & -> & Hs & Hn). simpl. rewrite Hs. by apply sql_eq_true.
Qed.

Lemma partition_held_true now owner m p :
  partition_held now owner m p = true <->
  pr_lease_owner p = Some owner /\ sql_ge (pr_lease_until p) (now + m * Millisecond) = true /\
  sql_coalesce_le (pr_handoff_not_before p) now = true.
Proof. unfold partition_held. rewrite !andb_true_iff, sql_eq_true. tauto. Qed.

Lemma ordered_due_true d now owner m r :
  ordered_due d now owner m r = true ->
  exists p, partition_of d r = Some p /\ partition_held now owner m p = true /\
    at_cursor d r = true /\ er_available_at r <= now /\
    er_status r <> Delivered /\ er_status r <> Dead /\
    (er_status r = Inflight -> sql_le (er_lease_until r) now = true).
Proof.
  unfold ordered_due. destruct (partition_of d r) as [p|]; [|done]. intros H.
  exists p. bool_to_prop. split_and!; try done;
    match goal with H : _ || _ = true |- _ => apply orb_true_iff in H as [H|H] end;
    bool_to_prop; congruence.
Qed.

Lemma ordered_fence_true d now owner epoch until r :
  ordered_fence d now owner epoch until r = true <->
  exists p, partition_of d r = Some p /\ pr_lease_owner p = Some owner /\ pr_epoch p = epoch /\
            until (pr_lease_until p) = true /\
            sql_coalesce_le (pr_handoff_not_before p) now = true.
Proof.
  unfold ordered_fence. destruct (partition_of d r) as [p|]; [|naive_solver].
  rewrite !andb_true_iff, sql_eq_true, Z.eqb_eq. naive_solver.
Qed.

(** ** Claims *)

Definition ordered_picked (d : db) (locked : gset uuid) (now : time) (owner : string) (limit : Z)
    (minimum : Z) : list claim_sort_key :=
  if (limit <=? 0) || negb (not_paused d) then []
  else sort_limit claim_le (Z.to_nat limit) (scan d locked (ordered_due d now owner minimum)).

Lemma ClaimOrdered_picked d locked now owner limit lease minimum :
  ClaimOrdered d locked now owner limit lease minimum =
  claim_rows d now owner (now + intervalMS lease * Millisecond)
    ((fun k => (k.2, claim_epoch d k.2)) <$>
     ordered_picked d locked now owner limit (intervalMS minimum)).
Proof.
  unfold ClaimOrdered, ordered_picked. destruct (limit <=? 0); [done|].
  by destruct (not_paused d).
Qed.

Lemma ordered_picked_ids d (ks : list claim_sort_key) :
  ((fun k => (k.2, claim_epoch d k.2)) <$> ks).*1 = ks.*2.
Proof. by rewrite <- list_fmap_compose. Qed.

Lemma elem_of_ordered_picked d locked now owner limit m k :
  outbox_inv d -> k ∈ ordered_picked d locked now owner limit m ->
  exists r, db_outbox d !! k.2 = Some r /\ ordered_due d now owner m r = true /\
            k.2 ∉ locked /\ k = claim_key r /\ not_paused d = true.
Proof.
  intros Hinv Hk. unfold ordered_picked in Hk. case_match eqn:E.
  { by apply elem_of_nil in Hk. }
  apply elem_of_sort_limit in Hk. apply elem_of_scan in Hk as (id & r & Hr & Hd & Hl & ->).
  simpl. rewrite (inv_id _ Hinv _ _ Hr) in *. bool_to_prop. eauto 10.
Qed.

Lemma ordered_picked_NoDup d locked now owner limit m :
  outbox_inv d -> NoDup (ordered_picked d locked now owner limit m).*2.
Proof.
  intros Hinv. unfold ordered_picked. case_match; [constructor|].
  apply NoDup_fmap_sort_limit. unfold scan. rewrite <- list_fmap_compose.
  by apply (NoDup_fmap_filter (fun r => ed_id (er_data r))), outbox_rows_ids.
Qed.

Lemma ordered_due_leasable d now owner m i :
  (forall r, db_outbox d !! i = Some r -> ordered_due d now owner m r = true) -> leasable d i.
Proof.
  intros H r Hr. destruct (ordered_due_true _ _ _ _ _ (H r Hr)) as (p & _ & _ & Hc & _ & ? & _).
  split; [done|]. intros dest key n s Hp Hs _.
  apply at_cursor_true in Hc as (s' & k & Hk & Hs' & Hn).
  unfold stream_position in Hp. rewrite Hk, Hn in Hp. by simplify_eq.
Qed.

Lemma ClaimOrdered_inv d locked now owner limit lease minimum :
  outbox_inv d -> outbox_inv (ClaimOrdered d locked now owner limit lease minimum).1.
Proof.
  intros Hinv. rewrite ClaimOrdered_picked. apply claim_rows_inv; [done|].
  rewrite ordered_picked_ids. intros i (k & -> & Hk)%list_elem_of_fmap.
  apply elem_of_ordered_picked in Hk as (r & Hr & Hd & _); [|done].
  eapply ordered_due_leasable. intros r' Hr'. simplify_eq. done.
Qed.

(** Every returned event was due, and its row is the old one leased. *)
Lemma ordered_event_row d locked now owner limit lease minimum e :
  outbox_inv d -> e ∈ (ClaimOrdered d locked now owner limit lease minimum).2 ->
  exists r p, db_outbox d !! ID e = Some r /\ ID e ∉ locked /\ not_paused d = true /\
    ordered_due d now owner (intervalMS minimum) r = true /\ partition_of d r = Some p /\
    guard_ordered_event_claim d now r
      (lease_row owner (now + intervalMS lease * Millisecond) r) = true /\
    e = scanEvent (lease_row owner (now + intervalMS lease * Millisecond) r) (Some (pr_epoch p)) /\
    db_outbox (ClaimOrdered d locked now owner limit lease minimum).1 !! ID e
      = Some (lease_row owner (now + intervalMS lease * Millisecond) r).
Proof.
  intros Hinv. rewrite ClaimOrdered_picked, claim_rows_events. intros He.
  apply list_elem_of_omap in He as ([i ep] & Hk & He).
  pose proof (list_elem_of_fmap_2 fst _ _ Hk) as Hi. rewrite ordered_picked_ids in Hi.
  apply list_elem_of_fmap in Hk as (k & [= -> ->] & Hk).
  destruct (elem_of_ordered_picked _ _ _ _ _ _ _ Hinv Hk) as (r & Hr & Hd & Hl & Hkey & Hp).
  destruct (ordered_due_true _ _ _ _ _ Hd) as (p & Hpo & _). cbn [fst snd] in *.
  unfold claim_epoch in He. rewrite Hr in He. cbn in He. rewrite Hpo in He. cbn in He.
  destruct (leased d now owner _ r) as [r'|] eqn:El; [|done]. cbn in He. simplify_eq.
  assert (r' = lease_row owner (now + intervalMS lease * Millisecond) r /\
          guard_ordered_event_claim d now r r' = true) as [-> Hg].
  { unfold leased in El. case_match; by simplify_eq. }
  cbn [scanEvent ID er_data lease_row]. rewrite (inv_id _ Hinv _ _ Hr).
  exists r, p. split_and!; try done.
  rewrite claim_rows_lookup, ordered_picked_ids, decide_True, Hr by done.
  simpl. by rewrite El.
Qed.

(** ** Acknowledgements *)

(** The state after a delivery: the cursor is one further and the row is
    delivered. *)
Definition deliver_at (d : db) (now : time) (id : uuid) (r : event_row) (k : string)
    (s : stream_row) : db :=
  let d1 := with_streams d
    (<[(ed_destination (er_data r), k) := advanced_stream now s (sr_next_sequence s)]>
       (db_streams d)) in
  with_outbox d1 (<[id := delivered_row now r]> (db_outbox d)).

Lemma MarkOrderedDelivered_ok d now e owner d' u :
  MarkOrderedDelivered d now e owner = (d', Ok u) ->
  exists r k s, db_outbox d !! ID e = Some r /\ delivery_authority d now e owner r = true /\
    ed_ordering_key (er_data r) = Some k /\
    ed_ordering_sequence (er_data r) = Some (sr_next_sequence s) /\
    OrderingSequence e = sr_next_sequence s /\
    db_streams d !! (ed_destination (er_data r), k) = Some s /\
    ed_ordering_partition (er_data r) = Some (sr_partition_id s) /\
    sr_next_sequence s + 1 < 2 ^ 63 /\ d' = deliver_at d now (ID e) r k s.
Proof.
  unfold MarkOrderedDelivered. intros H.
  destruct (db_outbox d !! ID e) as [r|] eqn:Er; [|done].
  destruct (delivery_authority d now e owner r) eqn:Ea; [|done].
  destruct (advance_target d r) as [s|] eqn:Et; [|done].
  destruct (ed_ordering_key (er_data r)) as [k|] eqn:Ek; [|done].
  destruct (ed_ordering_sequence (er_data r)) as [n|] eqn:En; [|done].
  case_match; [done|]. injection H as <- <-. bool_to_prop.
  unfold advance_target, stream_of in Et. rewrite Ek in Et. simpl in Et.
  destruct (db_streams d !! _) as [s'|] eqn:Es; [|done]. simpl in Et.
  destruct (sql_eq _ _ && _) eqn:Eq; [|done]. injection Et as ->.
  apply andb_true_iff in Eq as [Hpart%sql_eq_true Hcur].
  apply at_cursor_true in Hcur as (s2 & k2 & Hk2 & Hs2 & Hn2). rewrite Ek in Hk2.
  injection Hk2 as <-. rewrite Es in Hs2. injection Hs2 as <-. rewrite En in Hn2.
  injection Hn2 as ->. assert (OrderingSequence e = sr_next_sequence s) as Hseq.
  { unfold delivery_authority in Ea. bool_to_prop.
    match goal with H : sql_eq _ _ = true |- _ => apply sql_eq_true in H end. congruence. }
  exists r, k, s. by split_and!.
Qed.

Lemma MarkOrderedDelivered_err d now e owner d' err :
  MarkOrderedDelivered d now e owner = (d', Err err) -> d' = d.
Proof. unfold MarkOrderedDelivered. intros H. repeat case_match; by simplify_eq. Qed.

(** Advancing the cursor past the delivered event keeps every other event of
    the stream on its side of the cursor. *)
Lemma deliver_at_inv d now id r k s :
  outbox_inv d -> db_outbox d !! id = Some r ->
  ed_ordering_key (er_data r) = Some k ->
  ed_ordering_sequence (er_data r) = Some (sr_next_sequence s) ->
  db_streams d !! (ed_destination (er_data r), k) = Some s ->
  ed_ordering_partition (er_data r) = Some (sr_partition_id s) ->
  outbox_inv (deliver_at d now id r k s).
Proof.
  intros [Hid Hrow Hpos Hst Hcur] Hr Hk Hn Hs Hp.
  assert (stream_position (er_data r)
          = Some (ed_destination (er_data r), k, sr_next_sequence s)) as Hrp.
  { unfold stream_position. by rewrite Hk, Hn. }
  pose proof (Hst _ _ _ Hs) as [Hsok Hsp].
  assert (0 < sr_start_sequence s <= sr_next_sequence s) as Hle.
  { unfold stream_row_ok in Hsok. bool_to_prop. lia. }
  split; unfold deliver_at; cbn [with_outbox with_streams db_outbox db_streams].
  - intros i x. rewrite lookup_insert. case_decide; intros; simplify_eq; simpl; eauto.
  - intros i x. rewrite lookup_insert. case_decide; intros; simplify_eq; [|eauto].
    eapply delivered_row_ok, Hrow; eauto.
  - intros i1 x1 i2 x2 pos. rewrite !lookup_insert.
    repeat case_decide; intros; simplify_eq; simpl in *; eauto.
  - intros dest key s'. rewrite lookup_insert. case_decide; intros; simplify_eq; [|eauto].
    simpl. split; [|done]. unfold stream_row_ok in *. simpl. bool_to_prop.
    rewrite !andb_true_iff, !Z.leb_le, !Z.ltb_lt. lia.
  - intros i x dest key n Hx Hxp. rewrite lookup_insert.
    rewrite lookup_insert in Hx. destruct (decide (id = i)) as [Hi|Hi]; simplify_eq.
    + simpl in *. rewrite Hrp in Hxp. simplify_eq. rewrite decide_True by done.
      eexists. split; [done|]. simpl. split_and!; [done|lia|lia].
    + destruct (Hcur _ _ _ _ _ Hx Hxp) as (s' & Hs' & ? & ? & Hc).
      case_decide as Hd; [|by exists s']. simplify_eq.
      eexists. split; [done|]. simpl. split_and!; [done..|].
      assert (n <> sr_next_sequence s) by (intros ->; apply Hi; by eapply Hpos).
      unfold cursor_ok in *. destruct (er_status x); lia.
Qed.

Lemma MarkOrderedDelivered_inv d now e owner :
  outbox_inv d -> outbox_inv (MarkOrderedDelivered d now e owner).1.
Proof.
  intros Hinv. destruct (MarkOrderedDelivered d now e owner) as [d' [u|err]] eqn:E; simpl.
  - apply MarkOrderedDelivered_ok in E as (r & k & s & ? & ? & ? & ? & ? & ? & ? & ? & ->).
    by apply deliver_at_inv.
  - by apply MarkOrderedDelivered_err in E as ->.
Qed.

Lemma BeginOrderedAttempt_ok d now id owner epoch m minimum d' n :
  BeginOrderedAttempt d now id owner epoch m minimum = (d', Ok n) ->
  exists r, db_outbox d !! id = Some r /\
    attempt_allowed d now owner epoch m (intervalMS minimum) r = true /\
    n = er_attempts r + 1 /\ n < 2 ^ 31 /\
    d' = with_outbox d (<[id := attempt_row r]> (db_outbox d)).
Proof.
  unfold BeginOrderedAttempt, attempt_overflows. intros H.
  destruct (match db_outbox d !! id with Some r => _ | None => _ end) eqn:Eo; [done|].
  destruct (update_event _ _ _ _ _) as [d1 [r'|]] eqn:E; [|done].
  apply update_event_some in E as (r & Hr & Hc & -> & _ & ->). rewrite Hr, Hc in Eo.
  simpl in *. simplify_eq. bool_to_prop. exists r. by split_and!.
Qed.

Lemma BeginOrderedAttempt_err d now id owner epoch m minimum d' err :
  BeginOrderedAttempt d now id owner epoch m minimum = (d', Err err) -> d' = d.
Proof.
  unfold BeginOrderedAttempt. case_match; [naive_solver|].
  destruct (update_event _ _ _ _ _) as [d1 [r'|]] eqn:E; [done|].
  apply update_event_none in E as [-> _]. naive_solver.
Qed.

Lemma require_fence_ok u d x :
  require_fence u = (d, Ok x) -> exists r, u = (d, Some r).
Proof. destruct u as [d0 [r|]]; simpl; intros; simplify_eq; eauto. Qed.
Lemma require_fence_err u d err :
  require_fence u = (d, Err err) -> u = (d, None) /\ err = ErrFenced.
Proof. by destruct u as [d0 [r|]]; simpl; intros; simplify_eq. Qed.

Lemma mark_allowed_inflight d now e owner r :
  mark_allowed d now e owner r = true -> er_lease_owner r = Some owner /\ er_status r = Inflight.
Proof. unfold mark_allowed. intros H. bool_to_prop. by apply owned_inflight_true. Qed.

Lemma attempt_allowed_inflight d now owner epoch m minimum r :
  attempt_allowed d now owner epoch m minimum r = true ->
  er_lease_owner r = Some owner /\ er_status r = Inflight.
Proof. unfold attempt_allowed. intros H. bool_to_prop. by apply owned_inflight_true. Qed.

Lemma delivery_authority_inflight d now e owner r :
  delivery_authority d now e owner r = true ->
  er_lease_owner r = Some owner /\ er_status r = Inflight.
Proof. unfold delivery_authority. intros H. bool_to_prop. by apply owned_inflight_true. Qed.

Lemma BeginOrderedAttempt_inv d now id owner epoch m minimum :
  outbox_inv d -> outbox_inv (BeginOrderedAttempt d now id owner epoch m minimum).1.
Proof.
  intros Hinv. destruct (BeginOrderedAttempt _ _ _ _ _ _ _) as [d' [n|err]] eqn:E; simpl.
  - apply BeginOrderedAttempt_ok in E as (r & Hr & _ & _ & _ & ->).
    apply (outbox_inv_replace _ _ r); try done. apply attempt_row_ok. by eapply inv_row.
  - by apply BeginOrderedAttempt_err in E as ->.
Qed.

Lemma release_inflight_inv d now id cond upd d' o :
  outbox_inv d -> update_event d now id cond upd = (d', o) ->
  (forall r, cond r = true -> er_status r = Inflight) ->
  (forall r, event_row_ok r = true -> er_status r <> Delivered -> event_row_ok (upd r) = true) ->
  (forall r, er_data (upd r) = er_data r /\ (er_status (upd r) = Pending \/ er_status (upd r) = Dead)) ->
  outbox_inv d'.
Proof.
  intros Hinv E Hi Hok Hd. eapply update_event_inv; [done|exact E|].
  intros r Hr Hc. specialize (Hi r Hc). destruct (Hd r) as [? Hs]. split_and!; [done| |].
  - apply Hok; [by eapply inv_row|congruence].
  - intros * _ _. rewrite Hi. destruct Hs as [->| ->]; simpl; lia.
Qed.

Lemma MarkOrderedRetry_inv d now e owner delay msg :
  outbox_inv d -> outbox_inv (MarkOrderedRetry d now e owner delay msg).1.
Proof.
  intros Hinv. unfold MarkOrderedRetry. destruct (update_event _ _ _ _ _) as [d' o] eqn:E.
  assert (outbox_inv d'); [|by destruct o].
  eapply release_inflight_inv; [done|exact E|..]; eauto with emitlane.
  intros r Hr. by destruct (mark_allowed_inflight _ _ _ _ _ Hr).
Qed.

Lemma MarkOrderedDead_inv d now e owner msg :
  outbox_inv d -> outbox_inv (MarkOrderedDead d now e owner msg).1.
Proof.
  intros Hinv. unfold MarkOrderedDead. destruct (update_event _ _ _ _ _) as [d' o] eqn:E.
  assert (outbox_inv d'); [|by destruct o].
  eapply release_inflight_inv; [done|exact E|..]; eauto with emitlane.
  intros r Hr. by destruct (mark_allowed_inflight _ _ _ _ _ Hr).
Qed.

#[export] Hint Resolve ClaimOrdered_inv BeginOrderedAttempt_inv MarkOrderedDelivered_inv
  MarkOrderedRetry_inv MarkOrderedDead_inv : emitlane.

(** * Properties *)

Lemma guard_claim_capable d now owner u r :
  guard_ordered_event_claim d now r (lease_row owner u r) = true ->
  is_Some (ed_ordering_key (er_data r)) -> er_status r = Pending ->
  relay_capable d (Some owner) = true /\
  partition_authority d now (ed_ordering_partition (er_data r)) (Some owner) = true.
Proof.
  unfold guard_ordered_event_claim. intros H [k Hk] Hs. rewrite Hk, Hs in H.
  cbn [is_null lease_row er_status er_lease_owner] in H.
  rewrite (bool_decide_true (Inflight = Inflight)), (bool_decide_false (Pending = Inflight)) in H
    by done.
  cbn [negb orb andb] in H. bool_to_prop. by split.
Qed.

Lemma scanned_position r epoch k n :
  ed_ordering_key (er_data r) = Some k -> ed_ordering_sequence (er_data r) = Some n ->
  stream_position (er_data r)
  = Some (Destination (scanEvent r epoch), OrderingKey (scanEvent r epoch),
          OrderingSequence (scanEvent r epoch)).
Proof. intros H1 H2. unfold stream_position. simpl. by rewrite H1, H2. Qed.

(** What a claimed ordered event is: at the cursor of its stream, in a
    partition the claimant holds under the epoch the event carries. *)
Definition claimed_at_cursor (d : db) (now : time) (owner : string) (minimum : Z) (e : Event)
  : Prop :=
  exists r s p, db_outbox d !! ID e = Some r /\
    db_streams d !! (Destination e, OrderingKey e) = Some s /\
    OrderingSequence e = sr_next_sequence s /\
    stream_position (er_data r) = Some (Destination e, OrderingKey e, OrderingSequence e) /\
    er_available_at r <= now /\
    (er_status r = Pending \/ er_status r = Inflight /\ sql_le (er_lease_until r) now = true) /\
    OrderingPartition e = Some (sr_partition_id s) /\
    db_partitions d !! sr_partition_id s = Some p /\
    partition_held now owner minimum p = true /\ OrderingEpoch e = pr_epoch p /\
    (er_status r = Pending -> relay_capable d (Some owner) = true).

Lemma ordered_event_at_cursor d locked now owner limit lease minimum e :
  outbox_inv d -> e ∈ (ClaimOrdered d locked now owner limit lease minimum).2 ->
  claimed_at_cursor d now owner (intervalMS minimum) e.
Proof.
  intros Hinv He.
  destruct (ordered_event_row _ _ _ _ _ _ _ _ Hinv He)
    as (r & p & Hr & _ & _ & Hd & Hpo & Hg & -> & _).
  destruct (ordered_due_true _ _ _ _ _ Hd) as (p' & Hpo' & Hheld & Hc & Hav & Hnd & Hnx & Hexp).
  apply at_cursor_true in Hc as (s & k & Hk & Hs & Hn).
  rewrite Hpo in Hpo'. injection Hpo' as <-.
  pose proof (scanned_position (lease_row owner (now + intervalMS lease * Millisecond) r)
                (Some (pr_epoch p)) k _ Hk Hn) as Hpos.
  destruct (inv_cursor _ Hinv _ _ _ _ _ Hr Hpos) as (s' & Hs' & Hpart & _).
  cbn [scanEvent Destination OrderingKey OrderingSequence lease_row er_data OrderingPartition
       OrderingEpoch] in *.
  rewrite Hk in *. cbn [deref default from_option id] in *. rewrite Hs in Hs'.
  injection Hs' as <-. exists r, s, p. 
  cbn [ID scanEvent er_data lease_row Destination OrderingKey OrderingSequence OrderingPartition].
  rewrite Hpart, Hpos, Hk, Hn. cbn [deref default from_option id]. split_and!; try done.
  - destruct (er_status r); naive_solver.
  - unfold partition_of in Hpo. by rewrite Hpart in Hpo.
  - intros Hp. by destruct (guard_claim_capable _ _ _ _ _ Hg (mk_is_Some _ _ Hk) Hp).
Qed.

(** C7: Ordered claims. Every claimed event is the next expected one of its
    stream, is due, and lies in a partition whose lease the claimant holds for
    at least the requested time, past the handoff barrier; it carries that
    partition's epoch. At most one event of a stream is claimed, at most
    [limit] in all and none while paused; no other table changes and the
    invariant is kept. *)
Theorem ClaimOrdered_spec d locked now owner limit lease minimum d' events :
  outbox_inv d -> ClaimOrdered d locked now owner limit lease minimum = (d', events) ->
  outbox_inv d' /\ same_but_outbox d d' /\
  Z.of_nat (length events) <= Z.max 0 limit /\ (not_paused d = false -> events = []) /\
  (forall e, e ∈ events -> claimed_at_cursor d now owner (intervalMS minimum) e /\ ID e ∉ locked /\
     exists r, db_outbox d' !! ID e = Some r /\ er_status r = Inflight /\
       er_lease_owner r = Some owner /\
       er_lease_until r = Some (now + intervalMS lease * Millisecond)) /\
  (forall e1 e2, e1 ∈ events -> e2 ∈ events -> Destination e1 = Destination e2 ->
     OrderingKey e1 = OrderingKey e2 -> ID e1 = ID e2).
Proof.
  intros Hinv H. pose proof (ordered_event_at_cursor d locked now owner limit lease minimum) as Hcl.
  pose proof (ordered_event_row d locked now owner limit lease minimum) as Hrow.
  pose proof (ClaimOrdered_inv d locked now owner limit lease minimum Hinv) as Hinv'.
  rewrite H in *. cbn [fst snd] in *. rewrite ClaimOrdered_picked in H. split_and!.
  - done.
  - replace d' with (d', events).1 by done. rewrite <- H. apply claim_rows_same.
  - replace events with (d', events).2 by done. rewrite <- H, claim_rows_events.
    etrans; [apply inj_le, length_omap_le|]. rewrite length_fmap. unfold ordered_picked.
    case_match; simpl; [lia|]. rewrite length_sort_limit. lia.
  - intros Hp. unfold ordered_picked in H. rewrite Hp, orb_true_r in H. by injection H.
  - intros e He. destruct (Hrow e Hinv He) as (r & p & _ & Hl & _ & _ & _ & _ & _ & Hr').
    split_and!; [by apply Hcl|done|]. eauto 10.
  - intros e1 e2 He1 He2 Hd Hk.
    destruct (Hcl e1 Hinv He1) as (r1 & s1 & p1 & Hr1 & Hs1 & Hn1 & Hp1 & _).
    destruct (Hcl e2 Hinv He2) as (r2 & s2 & p2 & Hr2 & Hs2 & Hn2 & Hp2 & _).
    rewrite Hd, Hk, Hs2 in Hs1. simplify_eq. rewrite Hd, Hk, Hn1 in Hp1. rewrite Hn2 in Hp2.
    exact (inv_position _ Hinv _ _ _ _ _ Hr1 Hr2 Hp1 Hp2).
Qed.

(** A caller that does not hold the partition of [e] under the epoch [e] was
    claimed with, or holds it expired or behind its barrier. *)
Definition not_authorized (d : db) (now : time) (owner : string) (e : Event) : Prop :=
  forall r p, db_outbox d !! ID e = Some r -> partition_of d r = Some p ->
    pr_lease_owner p <> Some owner \/ pr_epoch p <> OrderingEpoch e \/
    sql_gt (pr_lease_until p) now = false \/ sql_coalesce_le (pr_handoff_not_before p) now = false.

Lemma not_authorized_fence d now owner e until r :
  not_authorized d now owner e -> db_outbox d !! ID e = Some r ->
  (forall u, until u = true -> sql_gt u now = true) ->
  ordered_fence d now owner (OrderingEpoch e) until r = false.
Proof.
  intros Hna Hr Hu. destruct (ordered_fence _ _ _ _ _ _) eqn:E; [|done].
  apply ordered_fence_true in E as (p & Hp & Ho & He & Hl & Hh).
  destruct (Hna r p Hr Hp) as [?|[?|[H|?]]]; try congruence.
  rewrite (Hu _ Hl) in H. done.
Qed.

Lemma update_event_denied d now id cond upd :
  (forall r, db_outbox d !! id = Some r -> cond r = false) ->
  update_event d now id cond upd = (d, None).
Proof.
  intros H. unfold update_event. destruct (db_outbox d !! id) as [r|]; [|done].
  by rewrite H.
Qed.

Lemma sql_ge_gt u now m : 0 < m -> sql_ge u (now + m) = true -> sql_gt u now = true.
Proof. destruct u; simpl; [|done]. rewrite Z.leb_le, Z.ltb_lt. lia. Qed.

(** C8: Fencing of stale owners. When the caller is not the current holder of
    the event's partition under the epoch of its claim (the partition moved, was
    released and re-acquired, expired, or is behind its handoff barrier), the
    attempt fence and all three acknowledgements report [ErrFenced] and the
    database does not change. *)
Theorem stale_owner_fenced d now owner e maxAttempts minimum delay msg :
  not_authorized d now owner e -> 0 < minimum ->
  BeginOrderedAttempt d now (ID e) owner (OrderingEpoch e) maxAttempts minimum
    = (d, Err ErrFenced) /\
  MarkOrderedDelivered d now e owner = (d, Err ErrFenced) /\
  MarkOrderedRetry d now e owner delay msg = (d, Err ErrFenced) /\
  MarkOrderedDead d now e owner msg = (d, Err ErrFenced).
Proof.
  intros Hna Hm.
  assert (0 < intervalMS minimum * Millisecond) as Hm'.
  { pose proof (intervalMS_bounds minimum Hm). lia. }
  assert (forall r, db_outbox d !! ID e = Some r ->
    attempt_allowed d now owner (OrderingEpoch e) maxAttempts (intervalMS minimum) r = false /\
    delivery_authority d now e owner r = false /\ mark_allowed d now e owner r = false) as Hr.
  { intros r Hr. unfold attempt_allowed, delivery_authority, mark_allowed.
    rewrite !(not_authorized_fence d now owner e) by (eauto using sql_ge_gt).
    by rewrite ?andb_false_r. }
  split_and!.
  - unfold BeginOrderedAttempt, attempt_overflows.
    rewrite update_event_denied by (intros; by apply Hr).
    destruct (db_outbox d !! ID e) as [r|]; [|done]. by destruct (Hr r eq_refl) as (-> & _).
  - unfold MarkOrderedDelivered. destruct (db_outbox d !! ID e) as [r|]; [|done].
    by destruct (Hr r eq_refl) as (_ & -> & _).
  - unfold MarkOrderedRetry. by rewrite update_event_denied by (intros; by apply Hr).
  - unfold MarkOrderedDead. by rewrite update_event_denied by (intros; by apply Hr).
Qed.

(** C9: An ordered acknowledgement. It succeeds only for the event at the
    cursor, marks exactly that event delivered, advances exactly its stream's
    cursor by one and keeps the invariant; acknowledging the same event again is
    fenced. *)
Theorem MarkOrderedDelivered_spec d now e owner d' u :
  outbox_inv d -> MarkOrderedDelivered d now e owner = (d', Ok u) ->
  outbox_inv d' /\
  (exists r k s, db_outbox d !! ID e = Some r /\ ed_ordering_key (er_data r) = Some k /\
     db_streams d !! (ed_destination (er_data r), k) = Some s /\
     OrderingSequence e = sr_next_sequence s /\
     db_outbox d' !! ID e = Some (delivered_row now r) /\
     (exists s', db_streams d' !! (ed_destination (er_data r), k) = Some s' /\
                 sr_next_sequence s' = sr_next_sequence s + 1 /\ sr_next_sequence s' < 2 ^ 63) /\
     (forall i, i <> ID e -> db_outbox d' !! i = db_outbox d !! i) /\
     (forall st, st <> (ed_destination (er_data r), k) -> db_streams d' !! st = db_streams d !! st)) /\
  (forall now', MarkOrderedDelivered d' now' e owner = (d', Err ErrFenced)).
Proof.
  intros Hinv H. pose proof (MarkOrderedDelivered_inv d now e owner Hinv) as Hinv'.
  rewrite H in Hinv'. split; [done|].
  apply MarkOrderedDelivered_ok in H as (r & k & s & Hr & Ha & Hk & Hn & Hseq & Hs & Hp & Hb & ->).
  split.
  - exists r, k, s. unfold deliver_at. cbn [with_outbox with_streams db_outbox db_streams].
    rewrite !lookup_insert_eq. split_and!; try done; [eauto| |];
      intros i Hi; by rewrite lookup_insert_ne.
  - intros now'. unfold MarkOrderedDelivered.
    replace (db_outbox (deliver_at d now (ID e) r k s) !! ID e) with (Some (delivered_row now r));
      [done|]. unfold deliver_at. cbn [with_outbox db_outbox]. by rewrite lookup_insert_eq.
Qed.

(** Head-of-line blocking. While the event at a stream's cursor is dead,
    no event of that stream is claimed by anyone. *)
Theorem dead_event_blocks_stream d locked now owner limit lease minimum d' events id r dest key s :
  outbox_inv d -> ClaimOrdered d locked now owner limit lease minimum = (d', events) ->
  db_outbox d !! id = Some r -> er_status r = Dead ->
  db_streams d !! (dest, key) = Some s ->
  stream_position (er_data r) = Some (dest, key, sr_next_sequence s) ->
  forall e, e ∈ events -> (Destination e, OrderingKey e) <> (dest, key).
Proof.
  intros Hinv H Hr Hdead Hs Hpos e He [= Hd Hk].
  assert (e ∈ (ClaimOrdered d locked now owner limit lease minimum).2) as He' by (by rewrite H).
  destruct (ordered_event_at_cursor _ _ _ _ _ _ _ _ Hinv He')
    as (r' & s' & p & Hr' & Hs' & Hn' & Hpos' & _ & Hst & _).
  rewrite Hd, Hk in *. rewrite Hs in Hs'. injection Hs' as <-. rewrite Hn' in Hpos'.
  pose proof (inv_position _ Hinv _ _ _ _ _ Hr Hr' Hpos Hpos') as ->.
  rewrite Hr in Hr'. injection Hr' as <-. rewrite Hdead in Hst. by destruct Hst as [|[? _]].
Qed.

(** * Witnesses *)

Definition sample_ordered_claim : db * list Event :=
  ClaimOrdered sample_ordered ∅ 5 "relay-1" 10 Second (11 * Second).
Definition sample_first : Event :=
  match sample_ordered_claim.2 with
  | e :: _ => e
  | [] => scanEvent (sample_pending 11 (Some ("k"%string, 1))) None
  end.

Lemma ClaimOrdered_spec_witness :
  (fun e => (ID e, OrderingSequence e, OrderingEpoch e)) <$> sample_ordered_claim.2
    = [(11%N, 1, 1)] /\
  outbox_inv sample_ordered_claim.1.
Proof.
  destruct (ClaimOrdered_spec sample_ordered ∅ 5 "relay-1" 10 Second (11 * Second) _ _
    sample_ordered_inv (surjective_pairing _)) as [H _].
  split; [vm_compute; reflexivity|exact H].
Defined.

Lemma stale_owner_fenced_witness :
  MarkOrderedDelivered sample_ordered_claim.1 6 sample_first "relay-2"
    = (sample_ordered_claim.1, Err ErrFenced).
Proof.
  refine (proj1 (proj2 (stale_owner_fenced sample_ordered_claim.1 6 "relay-2" sample_first 3
    Second Second "" _ _))); [|vm_compute; reflexivity].
  intros r p Hr Hp. left. vm_compute in Hr. injection Hr as <-. vm_compute in Hp.
  injection Hp as <-. discriminate.
Defined.

Lemma MarkOrderedDelivered_spec_witness :
  let d' := (MarkOrderedDelivered sample_ordered_claim.1 6 sample_first "relay-1").1 in
  outbox_inv d' /\ sr_next_sequence <$> db_streams d' !! ("orders", "k")%string = Some 2.
Proof.
  split; [|vm_compute; reflexivity].
  refine (proj1 (MarkOrderedDelivered_spec sample_ordered_claim.1 6 sample_first "relay-1" _ tt
    (ClaimOrdered_inv _ _ _ _ _ _ _ sample_ordered_inv) _)).
  vm_compute. reflexivity.
Defined.

Lemma dead_event_blocks_stream_witness :
  let d := (MarkOrderedDead sample_ordered_claim.1 6 sample_first "relay-1" "rejected").1 in
  er_status <$> db_outbox d !! 11%N = Some Dead /\
  (forall e, e ∈ (ClaimOrdered d ∅ 7 "relay-1" 10 Second Second).2 ->
     (Destination e, OrderingKey e) <> ("orders", "k")%string).
Proof.
  split; [vm_compute; reflexivity|].
  refine (dead_event_blocks_stream _ ∅ 7 "relay-1" 10 Second Second _ _ 11%N
    (dead_row "rejected" (sample_pending 11 (Some ("k"%string, 1)))) "orders" "k" sample_stream
    (MarkOrderedDead_inv _ _ _ _ _ (ClaimOrdered_inv _ _ _ _ _ _ _ sample_ordered_inv))
    (surjective_pairing _) _ _ _ _); vm_compute; reflexivity.
Defined.
