(* ===== verification/PartitionStore.v ===== *)
(** * Partition leases ([storage/postgres/ordering.go])

    Membership, the reconciliation of the 64 partition leases with the
    rendezvous owners, the handoff barrier and the graceful release. A failing
    statement rolls the whole transaction back. *)
From Stdlib Require Import ZArith String.
From stdpp Require Import base gmap strings list sorting fin_maps sets.
From S2P Require Import Prelude GoStrings Ordering Schema Invariant Samples OutboxStore.
From S2P Require Import OrderedStore.

Open Scope Z_scope.
Local Open Scope emitlane_scope.

(** ** [partitionRow], the row as the transaction holds it in memory *)

Record partitionRow : Type := MkPartitionRow {
  row_id : Z;
  row_leaseOwner : option string;
  row_leaseUntil : option time;
  row_epoch : Z;
  row_handoffNotBefore : option time;
  row_publishTimeoutMS : option Z;
}.

Definition scan_partition (p : Z) (r : partition_row) : partitionRow :=
  {| row_id := p; row_leaseOwner := pr_lease_owner r; row_leaseUntil := pr_lease_until r;
     row_epoch := pr_epoch r; row_handoffNotBefore := pr_handoff_not_before r;
     row_publishTimeoutMS := pr_publish_timeout_ms r |}.

(** [relay.OrderingPartition], one element of the result. *)
Record ordering_partition : Type := OrderingPartitionView {
  op_partition_id : Z;
  op_desired_owner : string;
  op_lease_owner : string;
  op_lease_until : option time;
  op_epoch : Z;
  op_handoff_not_before : option time;
}.

(** ** [activeOrderingMembers] *)

Definition string_le (a b : string) : Prop := String.ltb b a = false.
#[global] Instance string_le_dec a b : Decision (string_le a b).
Proof. unfold string_le. apply _. Defined.

Definition active_member (now : time) (staleAfter : duration) (rr : relay_row) : bool :=
  rr_ordering_capable rr && is_null (rr_stopped_at rr)
  && (now - intervalMS staleAfter * Millisecond <=? rr_last_heartbeat_at rr).

Definition activeOrderingMembers (d : db) (now : time) (staleAfter : duration) : list string :=
  merge_sort string_le
    (filter (fun kr => active_member now staleAfter kr.2 = true) (map_to_list (db_relays d))).*1.

(** ** [releaseBarrier] *)

Definition releaseBarrier (now : time) (existing : option time) (publishTimeoutMS : option Z)
    (safetyMargin : duration) : time :=
  let publishWindow := match publishTimeoutMS with
                       | Some ms => int64_mul ms Millisecond
                       | None => 0
                       end in
  let barrier := now + int64_add publishWindow safetyMargin in
  match existing with
  | Some e => if barrier <? e then e else barrier
  | None => barrier
  end.

(** ** One-row updates of [ordering_partitions] *)

Definition update_partition (d : db) (p : Z) (cond : partition_row -> bool)
    (upd : partition_row -> partition_row) : res db :=
  match db_partitions d !! p with
  | Some r =>
      if cond r then
        fail_if 2 ^ 63 <=? pr_epoch (upd r) with ErrSQL OutOfRange;
        fail_if negb (partition_row_ok (upd r)) with ErrSQL (CheckViolation "ordering_partitions");
        Ok (with_partitions d (<[p := upd r]> (db_partitions d)))
      else Ok d
  | None => Ok d
  end.

Definition released_partition (barrier now : time) (r : partition_row) : partition_row :=
  {| pr_lease_owner := None; pr_lease_until := None; pr_epoch := pr_epoch r + 1;
     pr_handoff_not_before := Some barrier; pr_publish_timeout_ms := pr_publish_timeout_ms r;
     pr_updated_at := now |}.

Definition renewed_partition (until : time) (publishMS : Z) (now : time) (r : partition_row)
  : partition_row :=
  {| pr_lease_owner := pr_lease_owner r; pr_lease_until := Some until; pr_epoch := pr_epoch r;
     pr_handoff_not_before := pr_handoff_not_before r; pr_publish_timeout_ms := Some publishMS;
     pr_updated_at := now |}.

Definition acquired_partition (owner : string) (until : time) (barrier : option time)
    (publishMS : Z) (now : time) (r : partition_row) : partition_row :=
  {| pr_lease_owner := Some owner; pr_lease_until := Some until; pr_epoch := pr_epoch r + 1;
     pr_handoff_not_before := barrier; pr_publish_timeout_ms := Some publishMS;
     pr_updated_at := now |}.

(** ** [ReconcileOrderingPartitions] *)

Section reconcile.
Context (now : time) (owner : string) (leaseEnd : time) (publishMS : Z)
        (safetyMargin : duration) (members : list string).

(** The body of the loop over the locked rows. *)
Definition reconcile_row (d : db) (row : partitionRow) : res (db * partitionRow) :=
  let desired := DesiredOwner (row_id row) members in
  let actual := default ""%string (row_leaseOwner row) in
  let valid := negb (bool_decide (actual = ""%string)) && sql_gt (row_leaseUntil row) now in
  if bool_decide (actual = owner) && negb (bool_decide (desired = owner)) then
    let barrier := releaseBarrier now (row_handoffNotBefore row) (row_publishTimeoutMS row) safetyMargin in
    let! d' := update_partition d (row_id row) (fun r => sql_eq (pr_lease_owner r) owner)
                 (released_partition (pg_time barrier) now) in
    Ok (d', {| row_id := row_id row; row_leaseOwner := None; row_leaseUntil := None; row_epoch := row_epoch row + 1;
               row_handoffNotBefore := Some barrier; row_publishTimeoutMS := row_publishTimeoutMS row |})
  else if bool_decide (desired = owner) && bool_decide (actual = owner) && valid then
    fail_if 2 ^ 31 <=? publishMS with ErrSQL OutOfRange;
    let! d' := update_partition d (row_id row)
                 (fun r => sql_eq (pr_lease_owner r) owner && (pr_epoch r =? row_epoch row))
                 (renewed_partition (pg_time leaseEnd) publishMS now) in
    Ok (d', {| row_id := row_id row; row_leaseOwner := row_leaseOwner row; row_leaseUntil := Some leaseEnd;
               row_epoch := row_epoch row; row_handoffNotBefore := row_handoffNotBefore row;
               row_publishTimeoutMS := Some publishMS |})
  else if bool_decide (desired = owner) && (bool_decide (actual = ""%string) || negb valid) then
    let barrier := if bool_decide (actual = ""%string) then row_handoffNotBefore row
                   else Some (releaseBarrier now (row_handoffNotBefore row) (row_publishTimeoutMS row)
                                safetyMargin) in
    fail_if 2 ^ 31 <=? publishMS with ErrSQL OutOfRange;
    let! d' := update_partition d (row_id row)
                 (fun r => is_null (pr_lease_owner r) || sql_le (pr_lease_until r) now)
                 (acquired_partition owner (pg_time leaseEnd) (pg_time <$> barrier) publishMS now) in
    Ok (d', {| row_id := row_id row; row_leaseOwner := Some owner; row_leaseUntil := Some leaseEnd;
               row_epoch := row_epoch row + 1; row_handoffNotBefore := barrier;
               row_publishTimeoutMS := Some publishMS |})
  else Ok (d, row).

Fixpoint reconcile_rows (d : db) (rows : list partitionRow) : res (db * list partitionRow) :=
  match rows with
  | [] => Ok (d, [])
  | row :: rows =>
      let! p := reconcile_row d row in
      let! q := reconcile_rows p.1 rows in
      Ok (q.1, p.2 :: q.2)
  end.

Definition partition_view (row : partitionRow) : ordering_partition :=
  {| op_partition_id := row_id row; op_desired_owner := DesiredOwner (row_id row) members;
     op_lease_owner := default ""%string (row_leaseOwner row); op_lease_until := row_leaseUntil row;
     op_epoch := row_epoch row; op_handoff_not_before := row_handoffNotBefore row |}.

End reconcile.

(** [SELECT ... ORDER BY partition_id FOR UPDATE]: the identifiers are
    constrained to 0..63. *)
Definition locked_partitions (d : db) : list partitionRow :=
  omap (fun p => scan_partition p <$> db_partitions d !! p) partition_ids.

Definition ReconcileOrderingPartitions (d : db) (now : time) (owner : string)
    (leaseDuration publishTimeout presenceStaleAfter safetyMargin : duration)
  : db * res (list ordering_partition) :=
  let members := activeOrderingMembers d now presenceStaleAfter in
  let locked := locked_partitions d in
  if negb (Nat.eqb (length locked) (N.to_nat PartitionCount))
  then (d, Err (ErrOther "ordering partition seed")) else
  match reconcile_rows now owner (now + leaseDuration) (intervalMS publishTimeout) safetyMargin
          members d locked with
  | Ok (d', rows) => (d', Ok (partition_view members <$> rows))
  | Err e => (d, Err e)
  end.

(** ** [ReleaseOrderingPartitions] *)

(** [GREATEST(COALESCE(h, '-infinity'), t)] *)
Definition greatest (h : option time) (t : time) : time :=
  match h with Some h => Z.max h t | None => t end.

Definition ReleaseOrderingPartitions (d : db) (now : time) (owner : string)
    (safetyMargin : duration) : db * res unit :=
  let margin := intervalMS safetyMargin in
  let held := filter (fun kr => sql_eq (pr_lease_owner kr.2) owner = true)
                (map_to_list (db_partitions d)) in
  let window r := default 0 (pr_publish_timeout_ms r) + margin in
  if (2 ^ 31 <=? margin)
     || existsb (fun kr => (2 ^ 31 <=? window kr.2) || (2 ^ 63 <=? pr_epoch kr.2 + 1)) held
  then (d, Err (ErrSQL OutOfRange)) else
  let release r :=
    if sql_eq (pr_lease_owner r) owner
    then released_partition
           (greatest (pr_handoff_not_before r) (now + window r * Millisecond)) now r
    else r in
  (with_partitions d (release <$> db_partitions d), Ok tt).

(** * Lemmas *)

(** Tables other than the partitions are untouched. *)
Definition same_but_partitions (d d' : db) : Prop :=
  exists t, d' = with_partitions d t.

#[global] Instance same_but_partitions_refl : Reflexive same_but_partitions.
Proof. intros d. exists (db_partitions d). by destruct d. Qed.
#[global] Instance same_but_partitions_trans : Transitive same_but_partitions.
Proof. intros a b c [t ->] [t' ->]. by exists t'. Qed.

Lemma partition_row_ok_spec p :
  partition_row_ok p = true <->
  0 <= pr_epoch p /\ (forall ms, pr_publish_timeout_ms p = Some ms -> 0 < ms) /\
  ((pr_lease_owner p = None /\ pr_lease_until p = None) \/
   exists o u, pr_lease_owner p = Some o /\ pr_lease_until p = Some u /\ btrim_nonempty o = true).
Proof.
  unfold partition_row_ok. rewrite !andb_true_iff, Z.leb_le.
  destruct (pr_publish_timeout_ms p), (pr_lease_owner p), (pr_lease_until p);
    rewrite ?Z.ltb_lt; naive_solver.
Qed.

Lemma btrim_nonempty_ne s : btrim_nonempty s = true -> s <> ""%string.
Proof. by intros H ->. Qed.

Lemma pg_time_bounds t : t - 1000 < pg_time t <= t.
Proof. unfold pg_time. pose proof (Z.div_mod t 1000). pose proof (Z.mod_pos_bound t 1000). lia. Qed.

Lemma releaseBarrier_existing now e ms m : e <= releaseBarrier now (Some e) ms m.
Proof. unfold releaseBarrier. case_match; bool_to_prop; lia. Qed.

Lemma releaseBarrier_window now h ms m :
  0 < ms -> ms * Millisecond + m < 2 ^ 63 -> 0 <= m ->
  now + ms * Millisecond + m <= releaseBarrier now h (Some ms) m.
Proof.
  intros H1 H2 H3. unfold releaseBarrier, int64_mul, int64_add, Millisecond in *.
  rewrite (wrap64_small (ms * 1000000)), wrap64_small by lia.
  destruct h as [e|]; [case_match; bool_to_prop; lia|lia].
Qed.

Lemma update_partition_ok d p cond upd d' r :
  db_partitions d !! p = Some r -> update_partition d p cond upd = Ok d' ->
  (cond r = true /\ partition_row_ok (upd r) = true /\
   d' = with_partitions d (<[p := upd r]> (db_partitions d))) \/ (cond r = false /\ d' = d).
Proof.
  unfold update_partition. intros ->. destruct (cond r); [|naive_solver].
  case_match; [done|]. destruct (partition_row_ok (upd r)); [|done]. naive_solver.
Qed.

Section reconcile_lemmas.
Context (now : time) (owner : string) (leaseEnd : time) (publishMS : Z)
        (safetyMargin : duration) (members : list string).
Context (Howner : btrim_nonempty owner = true).

(** What a reconciliation leaves of one partition row. *)
Definition reconciled (p : Z) (r : partition_row) : partition_row :=
  let mine := bool_decide (DesiredOwner p members = owner) in
  let takeover := Some (pg_time (releaseBarrier now (pr_handoff_not_before r)
                                   (pr_publish_timeout_ms r) safetyMargin)) in
  match pr_lease_owner r with
  | Some o =>
      if bool_decide (o = owner) then
        if negb mine then
          released_partition (pg_time (releaseBarrier now (pr_handoff_not_before r)
                                         (pr_publish_timeout_ms r) safetyMargin)) now r
        else if sql_gt (pr_lease_until r) now
        then renewed_partition (pg_time leaseEnd) publishMS now r
        else acquired_partition owner (pg_time leaseEnd) takeover publishMS now r
      else if mine && negb (sql_gt (pr_lease_until r) now)
      then acquired_partition owner (pg_time leaseEnd) takeover publishMS now r
      else r
  | None =>
      if mine then acquired_partition owner (pg_time leaseEnd)
                     (pg_time <$> pr_handoff_not_before r) publishMS now r
      else r
  end.

Abbreviation reconcile_row' := (reconcile_row now owner leaseEnd publishMS safetyMargin members).
Abbreviation reconcile_rows' := (reconcile_rows now owner leaseEnd publishMS safetyMargin members).

Lemma reconcile_row_ok d p r d' row' :
  db_partitions d !! p = Some r -> partition_row_ok r = true ->
  reconcile_row' d (scan_partition p r) = Ok (d', row') ->
  d' = with_partitions d (<[p := reconciled p r]> (db_partitions d)) /\
  partition_row_ok (reconciled p r) = true /\
  row_id row' = p /\ row_leaseOwner row' = pr_lease_owner (reconciled p r) /\
  row_epoch row' = pr_epoch (reconciled p r).
Proof.
  intros Hr Hok. pose proof (proj1 (partition_row_ok_spec r) Hok) as (_ & _ & Hlease).
  pose proof (btrim_nonempty_ne _ Howner) as Hne.
  assert (forall t, d = with_partitions d t <-> db_partitions d = t) as Hself.
  { intros t. destruct d; unfold with_partitions; simpl. naive_solver. }
  assert (<[p := r]> (db_partitions d) = db_partitions d) as Hsame by (by apply insert_id).
  unfold reconcile_row, reconciled. cbn [scan_partition row_id row_leaseOwner row_leaseUntil
    row_epoch row_handoffNotBefore row_publishTimeoutMS].
  destruct Hlease as [[Ho Hu]|(o & u & Ho & Hu & Hb)]; rewrite Ho, Hu;
    cbn [default from_option Datatypes.id sql_gt].
  - rewrite (bool_decide_false (""%string = owner)) by done. cbn [andb].
    rewrite (bool_decide_true (""%string = ""%string)) by done.
    rewrite andb_false_r. cbn [andb negb orb]. rewrite andb_true_r.
    destruct (bool_decide (DesiredOwner p members = owner)).
    + destruct (2 ^ 31 <=? publishMS); [done|]. intros (d1 & H1 & H2)%result_bind_ok.
      injection H2 as <- <-.
      destruct (update_partition_ok _ _ _ _ _ _ Hr H1) as [(_ & ? & ->)|[Hc _]]; [done|].
      by rewrite Ho in Hc.
    + intros [= <- <-]. rewrite Hsame. by destruct d.
  - pose proof (btrim_nonempty_ne _ Hb) as Hnb.
    rewrite (bool_decide_false (o = ""%string)) by done. cbn [negb andb orb].
    destruct (bool_decide (o = owner)) eqn:Eo; destruct (bool_decide (DesiredOwner p members = owner));
      cbn [andb negb]; destruct (now <? u) eqn:Ev; cbn [andb negb];
      try (intros [= <- <-]; rewrite Hsame; by destruct d);
      try (destruct (2 ^ 31 <=? publishMS); [done|]);
      intros (d1 & H1 & H2)%result_bind_ok; injection H2 as <- <-;
      bool_to_prop; subst;
      (destruct (update_partition_ok _ _ _ _ _ _ Hr H1) as [(_ & ? & ->)|[Hc _]];
       [split_and!; try done|
        exfalso; revert Hc; rewrite ?Ho, ?Hu; cbn [is_null sql_le orb];
        rewrite ?(proj2 (sql_eq_true _ _)) by done; rewrite ?Z.eqb_refl; simpl; try done;
        rewrite ?Z.leb_gt; lia]).
Qed.

Lemma reconcile_rows_ok d prs d' rows :
  NoDup prs.*1 ->
  (forall p r, (p, r) ∈ prs -> db_partitions d !! p = Some r /\ partition_row_ok r = true) ->
  reconcile_rows' d ((fun pr => scan_partition pr.1 pr.2) <$> prs) = Ok (d', rows) ->
  same_but_partitions d d' /\
  (forall p r, (p, r) ∈ prs -> db_partitions d' !! p = Some (reconciled p r) /\
                               partition_row_ok (reconciled p r) = true) /\
  (forall p, p ∉ prs.*1 -> db_partitions d' !! p = db_partitions d !! p) /\
  Forall2 (fun pr row => row_id row = pr.1 /\
             row_leaseOwner row = pr_lease_owner (reconciled pr.1 pr.2) /\
             row_epoch row = pr_epoch (reconciled pr.1 pr.2)) prs rows.
Proof.
  revert d rows. induction prs as [|[p r] prs IH]; intros d rows Hnd Hall H.
  { injection H as <- <-. split_and!; [done|set_solver|done|constructor]. }
  rewrite fmap_cons in Hnd. apply NoDup_cons in Hnd as [Hp Hnd].
  rewrite fmap_cons in H. cbn [reconcile_rows fst snd] in H.
  apply result_bind_ok in H as ([d1 row1] & H1 & H).
  apply result_bind_ok in H as ([d2 rows2] & H2 & [= <- <-]).
  destruct (Hall p r) as [Hr Hok]; [left|].
  destruct (reconcile_row_ok _ _ _ _ _ Hr Hok H1) as (-> & Hok' & Hrow).
  cbn [fst snd] in H2. apply IH in H2 as (Hs & Hin & Hout & HF); [|done|].
  - split_and!.
    + etrans; [|exact Hs]. by eexists.
    + intros p' r' [[= -> ->]|Hpr]%elem_of_cons; [|by apply Hin].
      rewrite Hout by done. cbn [with_partitions db_partitions]. by rewrite lookup_insert_eq.
    + intros p' Hp'. cbn [fst] in Hp'. rewrite fmap_cons in Hp'.
      apply not_elem_of_cons in Hp' as [Hne Hp']. rewrite Hout by done.
      cbn [with_partitions db_partitions]. by rewrite lookup_insert_ne.
    + by constructor.
  - intros p' r' Hpr. destruct (Hall p' r') as [Hr' Hok2]; [by right|]. split; [|done].
    cbn [with_partitions db_partitions]. rewrite lookup_insert_ne; [done|].
    intros ->. apply Hp. by apply (list_elem_of_fmap_2 fst _ (p', r')).
Qed.

End reconcile_lemmas.

Lemma NoDup_partition_ids : NoDup partition_ids.
Proof. apply NoDup_seqZ. Qed.

(** The locked rows are the 64 partition rows in order. *)
Lemma locked_partitions_rows d :
  partition_inv d ->
  exists prs, locked_partitions d = (fun pr => scan_partition pr.1 pr.2) <$> prs /\
    prs.*1 = partition_ids /\ forall p r, (p, r) ∈ prs <-> db_partitions d !! p = Some r.
Proof.
  intros Hinv. unfold locked_partitions.
  exists (omap (fun p => (fun r => (p, r)) <$> db_partitions d !! p) partition_ids).
  assert (forall p, p ∈ partition_ids <-> is_Some (db_partitions d !! p)) as Hids.
  { intros p. unfold partition_ids. rewrite elem_of_seqZ, (inv_partition_ids _ Hinv). lia. }
  split_and!.
  - rewrite list_fmap_omap. apply list_omap_ext, Forall_Forall2_diag, Forall_true.
    intros p. by destruct (db_partitions d !! p).
  - assert (forall p, p ∈ partition_ids -> is_Some (db_partitions d !! p)) as Hall
      by (intros; by apply Hids).
    revert Hall. clear Hids. induction partition_ids as [|p ps IH]; intros Hall; [done|].
    destruct (Hall p) as [r Hr]; [left|]. csimpl. rewrite Hr. csimpl. f_equal.
    apply IH. intros q Hq. apply Hall. by right.
  - intros p r. rewrite list_elem_of_omap. split.
    + intros (q & _ & H). destruct (db_partitions d !! q) eqn:E; simplify_eq/=. done.
    + intros H. exists p. rewrite H. split; [|done]. apply Hids. by eexists.
Qed.

(** The successful branch. *)
Lemma Reconcile_rows d now owner L P stale M d' views :
  ReconcileOrderingPartitions d now owner L P stale M = (d', Ok views) ->
  exists rows, reconcile_rows now owner (now + L) (intervalMS P) M
                 (activeOrderingMembers d now stale) d (locked_partitions d) = Ok (d', rows) /\
               views = partition_view (activeOrderingMembers d now stale) <$> rows.
Proof.
  unfold ReconcileOrderingPartitions. cbv zeta.
  destruct (negb (Nat.eqb _ _)); [done|].
  destruct (reconcile_rows _ _ _ _ _ _ _ _) as [[d1 rows]|]; [|done].
  intros [= <- <-]. by exists rows.
Qed.

Lemma Reconcile_ok d now owner L P stale M d' views :
  partition_inv d -> btrim_nonempty owner = true ->
  ReconcileOrderingPartitions d now owner L P stale M = (d', Ok views) ->
  let rec_ := reconciled now owner (now + L) (intervalMS P) M (activeOrderingMembers d now stale) in
  same_but_partitions d d' /\
  (forall p r, db_partitions d !! p = Some r ->
     db_partitions d' !! p = Some (rec_ p r) /\ partition_row_ok (rec_ p r) = true) /\
  (forall p, db_partitions d !! p = None -> db_partitions d' !! p = None).
Proof.
  intros Hinv Ho H rec_. destruct (locked_partitions_rows d Hinv) as (prs & Hl & Hids & Hprs).
  apply Reconcile_rows in H as (rows & E & _).
  rewrite Hl in E. apply reconcile_rows_ok in E as (Hs & Hin & Hout & _); [|done|..].
  - split_and!; [done| |].
    + intros p r Hr. by apply Hin, Hprs.
    + intros p Hp. rewrite Hout; [done|]. intros ([q r] & -> & Hq)%list_elem_of_fmap.
      apply Hprs in Hq. simpl in *. congruence.
  - rewrite Hids. apply NoDup_partition_ids.
  - intros p r Hpr%Hprs. split; [done|]. by eapply inv_partition_row.
Qed.

Lemma Reconcile_err d now owner L P stale M d' e :
  ReconcileOrderingPartitions d now owner L P stale M = (d', Err e) -> d' = d.
Proof.
  unfold ReconcileOrderingPartitions. cbv zeta. destruct (negb (Nat.eqb _ _)); [naive_solver|].
  destruct (reconcile_rows _ _ _ _ _ _ _ _) as [[d1 rows]|]; naive_solver.
Qed.

Lemma Reconcile_partition_inv d now owner L P stale M :
  partition_inv d -> btrim_nonempty owner = true ->
  partition_inv (ReconcileOrderingPartitions d now owner L P stale M).1.
Proof.
  intros Hinv Ho. destruct (ReconcileOrderingPartitions _ _ _ _ _ _ _) as [d' [v|e]] eqn:E; simpl.
  - destruct (Reconcile_ok _ _ _ _ _ _ _ _ _ Hinv Ho E) as ([t ->] & Hin & Hout).
    destruct Hinv as [Hids Hrow Hrel]. split; [|intros p r Hr|exact Hrel].
    + intros p. rewrite <- Hids. split; intros [x Hx].
      * destruct (db_partitions d !! p) eqn:Ep; [by eexists|]. by rewrite Hout in Hx.
      * apply Hin in Hx as [Hx _]. by eexists.
    + destruct (db_partitions d !! p) as [r0|] eqn:Ep; [|by rewrite Hout in Hr].
      destruct (Hin _ _ Ep) as [Hx ?]. by simplify_eq.
  - by apply Reconcile_err in E as ->.
Qed.

(** ** Membership *)

Lemma elem_of_activeOrderingMembers d now stale m :
  m ∈ activeOrderingMembers d now stale <->
  exists rr, db_relays d !! m = Some rr /\ active_member now stale rr = true.
Proof.
  unfold activeOrderingMembers. rewrite elem_of_merge_sort, list_elem_of_fmap.
  setoid_rewrite list_elem_of_filter. split.
  - intros ([k rr] & -> & Ha & Hin). apply elem_of_map_to_list in Hin. eauto.
  - intros (rr & Hr & Ha). exists (m, rr). split_and!; [done..|]. by apply elem_of_map_to_list.
Qed.

Lemma members_not_blank d now stale :
  partition_inv d -> ""%string ∉ activeOrderingMembers d now stale.
Proof.
  intros Hinv (rr & Hr & _)%elem_of_activeOrderingMembers.
  by apply (inv_relay_id _ Hinv) in Hr.
Qed.

Lemma DesiredOwner_active d now stale p owner :
  partition_inv d -> owner <> ""%string ->
  DesiredOwner p (activeOrderingMembers d now stale) = owner ->
  owner ∈ activeOrderingMembers d now stale.
Proof.
  intros Hinv Hne Hd. pose proof (members_not_blank d now stale Hinv) as Hb.
  destruct (decide (activeOrderingMembers d now stale = [])) as [E|E].
  - rewrite E, DesiredOwner_nil in Hd. congruence.
  - destruct (DesiredOwner_wins p _ E Hb) as [Hin _]. by rewrite Hd in Hin.
Qed.

(** ** Release *)

Definition release_row (now : time) (owner : string) (margin : Z) (r : partition_row)
  : partition_row :=
  if sql_eq (pr_lease_owner r) owner
  then released_partition
         (greatest (pr_handoff_not_before r)
            (now + (default 0 (pr_publish_timeout_ms r) + margin) * Millisecond)) now r
  else r.

Lemma Release_ok d now owner M d' u :
  ReleaseOrderingPartitions d now owner M = (d', Ok u) ->
  d' = with_partitions d (release_row now owner (intervalMS M) <$> db_partitions d).
Proof. unfold ReleaseOrderingPartitions, release_row. intros H. case_match; by simplify_eq. Qed.

Lemma Release_err d now owner M d' e :
  ReleaseOrderingPartitions d now owner M = (d', Err e) -> d' = d.
Proof. unfold ReleaseOrderingPartitions. intros H. case_match; by simplify_eq. Qed.

Lemma release_row_ok now owner m r :
  partition_row_ok r = true -> partition_row_ok (release_row now owner m r) = true.
Proof.
  intros H. unfold release_row. case_match; [|done]. apply partition_row_ok_spec in H as (?&?&_).
  apply partition_row_ok_spec. simpl. split_and!; [lia|done|by left].
Qed.

Lemma Release_partition_inv d now owner M :
  partition_inv d -> partition_inv (ReleaseOrderingPartitions d now owner M).1.
Proof.
  intros [Hids Hrow Hrel].
  destruct (ReleaseOrderingPartitions d now owner M) as [d' [u|e]] eqn:E; simpl.
  - apply Release_ok in E as ->. split; cbn [with_partitions db_partitions db_relays]; [| |done].
    + intros p. by rewrite <- Hids, lookup_fmap, fmap_is_Some.
    + intros p r. rewrite lookup_fmap, fmap_Some. intros (r0 & Hr0 & ->).
      eauto using release_row_ok.
  - by apply Release_err in E as ->.
Qed.

#[export] Hint Resolve Reconcile_partition_inv Release_partition_inv : emitlane.

(** * Properties *)

(** Leases of others are respected. A reconciliation never touches a
    partition that another relay holds under an unexpired lease; it never lowers
    an epoch, and whenever the holder of a partition changes the epoch grows by
    one. Only the partitions change, and their constraints keep holding. *)
Theorem Reconcile_respects_leases d now owner L P stale M d' views :
  partition_inv d -> btrim_nonempty owner = true ->
  ReconcileOrderingPartitions d now owner L P stale M = (d', Ok views) ->
  partition_inv d' /\ same_but_partitions d d' /\
  forall p r, db_partitions d !! p = Some r -> exists r', db_partitions d' !! p = Some r' /\
    (forall o, pr_lease_owner r = Some o -> o <> owner ->
       sql_gt (pr_lease_until r) now = true -> r' = r) /\
    pr_epoch r <= pr_epoch r' <= pr_epoch r + 1 /\
    (pr_lease_owner r' <> pr_lease_owner r -> pr_epoch r' = pr_epoch r + 1).
Proof.
  intros Hinv Ho H. pose proof (Reconcile_partition_inv d now owner L P stale M Hinv Ho) as Hinv'.
  rewrite H in Hinv'. destruct (Reconcile_ok _ _ _ _ _ _ _ _ _ Hinv Ho H) as (Hs & Hin & _).
  split_and!; [done..|]. intros p r Hr. destruct (Hin p r Hr) as [Hr' _].
  eexists. split; [exact Hr'|]. clear Hr'. unfold reconciled.
  destruct (pr_lease_owner r) as [o|] eqn:Eo; repeat case_match; bool_to_prop;
    simpl; split_and!; try lia; try done; congruence.
Qed.

(** C11: Convergence. After a successful reconciliation a relay holds no
    partition that rendezvous hashing over the active members assigns to another
    relay (and none at all when it is not an active member itself); it holds
    every partition assigned to it until [now + L], except those another relay
    still holds under an unexpired lease. *)
Theorem Reconcile_converges d now owner L P stale M d' views p :
  partition_inv d -> btrim_nonempty owner = true -> 0 <= p < 64 ->
  ReconcileOrderingPartitions d now owner L P stale M = (d', Ok views) ->
  exists r', db_partitions d' !! p = Some r' /\
    (DesiredOwner p (activeOrderingMembers d now stale) <> owner -> pr_lease_owner r' <> Some owner) /\
    (owner ∉ activeOrderingMembers d now stale -> pr_lease_owner r' <> Some owner) /\
    (DesiredOwner p (activeOrderingMembers d now stale) = owner ->
       (pr_lease_owner r' = Some owner /\ pr_lease_until r' = Some (pg_time (now + L)) /\
        pr_publish_timeout_ms r' = Some (intervalMS P)) \/
       (exists o, pr_lease_owner r' = Some o /\ o <> owner /\
                  sql_gt (pr_lease_until r') now = true)).
Proof.
  intros Hinv Ho Hp H. pose proof (btrim_nonempty_ne _ Ho) as Hne.
  apply (inv_partition_ids _ Hinv) in Hp as [r Hr].
  destruct (Reconcile_ok _ _ _ _ _ _ _ _ _ Hinv Ho H) as (_ & Hin & _).
  destruct (Hin p r Hr) as [Hr' _]. eexists. split; [exact Hr'|].
  assert (forall x, DesiredOwner p (activeOrderingMembers d now stale) <> owner ->
            pr_lease_owner (reconciled now owner (now + L) (intervalMS P) M x p r) = Some owner ->
            x = activeOrderingMembers d now stale -> False) as Hrel.
  { intros x Hd Hl ->. unfold reconciled in Hl. rewrite bool_decide_false in Hl by done.
    destruct (pr_lease_owner r) as [o|] eqn:Eo; simpl in Hl; [|congruence].
    destruct (bool_decide (o = owner)) eqn:E; [done|]. bool_to_prop. congruence. }
  split_and!.
  - intros Hd Hl. by eapply Hrel.
  - intros Hn Hl. eapply Hrel; [|done|done]. intros Hd. apply Hn. by eapply DesiredOwner_active.
  - intros Hd. unfold reconciled. rewrite bool_decide_true by done.
    destruct (pr_lease_owner r) as [o|] eqn:Eo; [|by left].
    repeat (case_match; simpl); bool_to_prop; subst; try (by left).
    right. exists o. rewrite Eo. destruct (sql_gt (pr_lease_until r) now); by try congruence.
Qed.

Lemma pg_time_mono a b : a <= b -> pg_time a <= pg_time b.
Proof. intros H. unfold pg_time. pose proof (Z.div_le_mono a b 1000). lia. Qed.

Lemma partition_held_barrier now owner m r h :
  pr_handoff_not_before r = Some h -> now < h -> partition_held now owner m r = false.
Proof.
  intros Hh Hn. destruct (partition_held now owner m r) eqn:E; [|done].
  apply partition_held_true in E as (_ & _ & Hc). rewrite Hh in Hc. simpl in Hc. bool_to_prop. lia.
Qed.

(** The barrier of the row a reconciliation leaves. *)
Lemma reconciled_barrier now owner leaseEnd publishMS M members p r :
  let r' := reconciled now owner leaseEnd publishMS M members p r in
  (forall h, pr_handoff_not_before r = Some h ->
     exists h', pr_handoff_not_before r' = Some h' /\ pg_time h <= h') /\
  (forall o, pr_lease_owner r = Some o -> pr_epoch r' <> pr_epoch r ->
     exists h', pr_handoff_not_before r' = Some h' /\
       pg_time (releaseBarrier now (pr_handoff_not_before r) (pr_publish_timeout_ms r) M) <= h').
Proof.
  intros r'. assert (forall h, pg_time h <= h) as Hle by (intros; apply pg_time_bounds). split.
  - intros h Hh.
    assert (pg_time h <= pg_time (releaseBarrier now (Some h) (pr_publish_timeout_ms r) M))
      by (apply pg_time_mono, releaseBarrier_existing).
    unfold r', reconciled. rewrite Hh.
    destruct (pr_lease_owner r); repeat case_match; simpl; rewrite ?Hh;
      (eexists; split; [reflexivity|]); auto; lia.
  - intros o Ho. unfold r', reconciled. rewrite Ho. repeat case_match; simpl; intros Hep;
      try lia; (eexists; split; [reflexivity|lia]).
Qed.

(** C10: The handoff barrier. When a partition changes hands (the holder
    released it, or its lease expired and was taken over), nobody can use it
    (neither claim nor pass the attempt fence) until the publish window
    persisted by the previous holder plus the safety margin has passed; and no
    reconciliation ever shortens a barrier. *)
Theorem Reconcile_barrier d now owner L P stale M d' views p r r' :
  partition_inv d -> btrim_nonempty owner = true ->
  ReconcileOrderingPartitions d now owner L P stale M = (d', Ok views) ->
  db_partitions d !! p = Some r -> db_partitions d' !! p = Some r' ->
  (forall h, pr_handoff_not_before r = Some h ->
     exists h', pr_handoff_not_before r' = Some h' /\ pg_time h <= h') /\
  (forall o ms, pr_lease_owner r = Some o -> pr_epoch r' <> pr_epoch r ->
     pr_publish_timeout_ms r = Some ms -> 0 <= M -> ms * Millisecond + M < 2 ^ 63 ->
     forall now' owner' m, now' <= now + ms * Millisecond + M - 1000 ->
       partition_held now' owner' m r' = false).
Proof.
  intros Hinv Ho H Hr Hr'.
  destruct (Reconcile_ok _ _ _ _ _ _ _ _ _ Hinv Ho H) as (_ & Hin & _).
  destruct (Hin p r Hr) as [Hx _]. rewrite Hx in Hr'. injection Hr' as <-.
  destruct (reconciled_barrier now owner (now + L) (intervalMS P) M
              (activeOrderingMembers d now stale) p r) as [H1 H2].
  split; [exact H1|]. intros o ms Hlo Hep Hms HM Hov now' owner' m Hn.
  destruct (H2 o Hlo Hep) as (h' & Hh' & Hb). eapply partition_held_barrier; [done|].
  rewrite Hms in Hb.
  assert (0 < ms) by (by eapply (proj1 (partition_row_ok_spec r) (inv_partition_row _ Hinv _ _ Hr))).
  pose proof (releaseBarrier_window now (pr_handoff_not_before r) ms M).
  pose proof (pg_time_bounds (releaseBarrier now (pr_handoff_not_before r) (Some ms) M)). lia.
Qed.

(** Graceful release. Afterwards the relay holds nothing; every partition
    it held has a new epoch and a barrier no earlier than its publish window
    plus the margin and no earlier than the old barrier; the others are
    untouched. *)
Theorem Release_spec d now owner M d' u :
  partition_inv d -> ReleaseOrderingPartitions d now owner M = (d', Ok u) ->
  partition_inv d' /\ same_but_partitions d d' /\
  forall p r, db_partitions d !! p = Some r -> exists r', db_partitions d' !! p = Some r' /\
    pr_lease_owner r' <> Some owner /\
    (pr_lease_owner r <> Some owner -> r' = r) /\
    (pr_lease_owner r = Some owner -> pr_lease_owner r' = None /\ pr_epoch r' = pr_epoch r + 1 /\
       exists h, pr_handoff_not_before r' = Some h /\
         now + default 0 (pr_publish_timeout_ms r) * Millisecond + M <= h /\
         (forall h0, pr_handoff_not_before r = Some h0 -> h0 <= h)).
Proof.
  intros Hinv H. pose proof (Release_partition_inv d now owner M Hinv) as Hinv'.
  rewrite H in Hinv'. split; [done|]. apply Release_ok in H as ->. split; [by eexists|].
  intros p r Hr. exists (release_row now owner (intervalMS M) r).
  cbn [with_partitions db_partitions]. rewrite lookup_fmap, Hr. split; [done|].
  unfold release_row. destruct (sql_eq (pr_lease_owner r) owner) eqn:E.
  - apply sql_eq_true in E. rewrite E. cbn [released_partition pr_lease_owner pr_epoch
      pr_handoff_not_before]. split_and!; try done. intros _. split_and!; try done.
    eexists. split; [done|].
    assert (M <= intervalMS M * Millisecond).
    { destruct (Z.leb_spec M 0); [|by apply intervalMS_bounds].
      pose proof (intervalMS_nonneg M). unfold Millisecond. lia. }
    unfold greatest. split.
    + case_match; lia.
    + intros h0 Hh0. rewrite Hh0. lia.
  - assert (pr_lease_owner r <> Some owner) by (intros Hx%sql_eq_true; congruence).
    split_and!; try done.
Qed.

(** * Witnesses *)

Lemma partition_ids_insert (t : gmap Z partition_row) q r :
  (forall p, is_Some (t !! p) <-> 0 <= p < 64) -> 0 <= q < 64 ->
  forall p, is_Some (<[q := r]> t !! p) <-> 0 <= p < 64.
Proof.
  intros Hids Hq p. rewrite lookup_insert_is_Some, Hids.
  destruct (decide (q = p)); naive_solver.
Qed.

Lemma sample_ordered_partition_inv : partition_inv sample_ordered.
Proof.
  destruct (insert_all_same _ _ _ sample_ordered_eq) as (_ & Hp & Hr & _).
  apply (partition_inv_frame sample_ordered_base); [exact Hp|exact Hr|].
  destruct (inv_partitions _ (migrated_inv 0)) as [Hids Hrow _].
  split; cbn [sample_ordered_base db_partitions db_relays].
  - apply partition_ids_insert; [exact Hids|apply Partition_range].
  - intros p r. rewrite lookup_insert. case_decide; [intros [= <-]; reflexivity|apply Hrow].
  - intros o rr [<- _]%lookup_singleton_Some. reflexivity.
Qed.

(** [relay-1], the only member, renews its partition and acquires all others. *)
Definition sample_reconciled : db * res (list ordering_partition) :=
  ReconcileOrderingPartitions sample_ordered Second "relay-1" (30 * Second) (10 * Second)
    (30 * Second) Second.
Definition sample_views : list ordering_partition :=
  match sample_reconciled.2 with Ok v => v | Err _ => [] end.

Lemma sample_reconciled_eq :
  ReconcileOrderingPartitions sample_ordered Second "relay-1" (30 * Second) (10 * Second)
    (30 * Second) Second = (sample_reconciled.1, Ok sample_views).
Proof. vm_compute. reflexivity. Qed.

Lemma Reconcile_respects_leases_witness :
  partition_inv sample_reconciled.1.
Proof.
  exact (proj1 (Reconcile_respects_leases sample_ordered Second "relay-1" (30 * Second)
    (10 * Second) (30 * Second) Second _ _ sample_ordered_partition_inv eq_refl
    sample_reconciled_eq)).
Defined.

Lemma Reconcile_converges_witness :
  exists r', db_partitions sample_reconciled.1 !! 5 = Some r' /\
             pr_lease_owner r' = Some "relay-1"%string.
Proof.
  destruct (Reconcile_converges sample_ordered Second "relay-1" (30 * Second) (10 * Second)
    (30 * Second) Second _ _ 5 sample_ordered_partition_inv eq_refl
    ltac:(split; vm_compute; congruence) sample_reconciled_eq) as (r' & Hr' & _).
  exists r'. split; [exact Hr'|]. vm_compute in Hr'. injection Hr' as <-. reflexivity.
Defined.

Lemma Reconcile_barrier_witness :
  let d := ReconcileOrderingPartitions sample_ordered (31 * Second) "relay-1" (30 * Second)
             (10 * Second) (60 * Second) Second in
  match db_partitions d.1 !! Partition "orders" "k" with
  | Some r' => forall now', now' <= 41 * Second -> partition_held now' "relay-1" 0 r' = false
  | None => False
  end.
Proof.
  intros d. destruct (db_partitions d.1 !! Partition "orders" "k") as [r'|] eqn:Hr'.
  - intros now' Hn.
    refine (proj2 (Reconcile_barrier sample_ordered (31 * Second) "relay-1" (30 * Second)
      (10 * Second) (60 * Second) Second d.1 (match d.2 with Ok v => v | Err _ => [] end)
      (Partition "orders" "k") sample_lease r' sample_ordered_partition_inv eq_refl _ _ Hr')
      "relay-1"%string 10000 _ _ _ _ _ now' "relay-1"%string 0 _).
    + vm_compute. reflexivity.
    + vm_compute. reflexivity.
    + reflexivity.
    + vm_compute in Hr'. injection Hr' as <-. vm_compute. discriminate.
    + reflexivity.
    + vm_compute. congruence.
    + vm_compute. reflexivity.
    + etransitivity; [exact Hn|]. vm_compute. congruence.
  - vm_compute in Hr'. discriminate.
Defined.

Lemma Release_spec_witness :
  partition_inv (ReleaseOrderingPartitions sample_ordered Second "relay-1" Second).1.
Proof.
  refine (proj1 (Release_spec sample_ordered Second "relay-1" Second _ tt
    sample_ordered_partition_inv _)).
  vm_compute. reflexivity.
Defined.
