(* ===== verification/Presence.v ===== *)
(** * Relay presence ([storage/postgres/presence.go])

    Registration, heartbeat and stop of relay instances, and the state the
    operator sees, which agrees with the membership the partition leases are
    computed from. *)
From Stdlib Require Import ZArith String.
From stdpp Require Import base gmap strings list sorting fin_maps sets.
From S2P Require Import Prelude GoStrings Ordering Schema Invariant Samples OutboxStore.
From S2P Require Import OrderedStore PartitionStore.

Open Scope Z_scope.
Local Open Scope emitlane_scope.

(** [relay.RelayPresence] *)
Record RelayPresence : Type := MkPresence {
  rp_InstanceID : string;
  rp_Hostname : string;
  rp_Version : string;
  rp_StartedAt : time;
  rp_OrderingCapable : bool;
}.

(** [adminapi.RelayInstance] *)
Record RelayInstance : Type := MkRelayInstance {
  ri_InstanceID : string;
  ri_Hostname : string;
  ri_Version : string;
  ri_StartedAt : time;
  ri_LastHeartbeatAt : time;
  ri_StoppedAt : option time;
  ri_State : string;
  ri_OrderingCapable : bool;
}.

Definition RegisterRelay (d : db) (now : time) (presence : RelayPresence) : res db :=
  fail_if negb (pg_text_ok (rp_InstanceID presence) && pg_text_ok (rp_Hostname presence)
                && pg_text_ok (rp_Version presence)) with ErrSQL InvalidText;
  fail_if negb (btrim_nonempty (rp_InstanceID presence) && btrim_nonempty (rp_Hostname presence)
                && btrim_nonempty (rp_Version presence))
    with ErrSQL (CheckViolation "relay_instances");
  Ok (with_relays d (<[rp_InstanceID presence :=
        {| rr_hostname := rp_Hostname presence; rr_version := rp_Version presence;
           rr_started_at := pg_time (rp_StartedAt presence); rr_last_heartbeat_at := now;
           rr_stopped_at := None; rr_ordering_capable := rp_OrderingCapable presence |}]>
        (db_relays d))).

Definition touch_relay (d : db) (now : time) (stopped : option time) (instanceID : string) : res db :=
  match db_relays d !! instanceID with
  | Some r => Ok (with_relays d (<[instanceID :=
      {| rr_hostname := rr_hostname r; rr_version := rr_version r; rr_started_at := rr_started_at r;
         rr_last_heartbeat_at := now; rr_stopped_at := stopped;
         rr_ordering_capable := rr_ordering_capable r |}]> (db_relays d)))
  | None => Err ErrNoMatchingRow
  end.

Definition HeartbeatRelay (d : db) (now : time) (instanceID : string) : res db :=
  touch_relay d now None instanceID.

Definition MarkRelayStopped (d : db) (now : time) (instanceID : string) : res db :=
  touch_relay d now (Some now) instanceID.

(** [CASE WHEN stopped_at IS NOT NULL THEN 'stopped' WHEN last_heartbeat_at <
    NOW() - stale THEN 'stale' ELSE 'active' END] *)
Definition relay_state (now : time) (staleAfter : duration) (r : relay_row) : string :=
  if not_null (rr_stopped_at r) then "stopped"
  else if rr_last_heartbeat_at r <? now - intervalMS staleAfter * Millisecond then "stale"
  else "active".

Definition relay_instance (now : time) (staleAfter : duration) (instanceID : string) (r : relay_row)
  : RelayInstance :=
  {| ri_InstanceID := instanceID; ri_Hostname := rr_hostname r; ri_Version := rr_version r;
     ri_StartedAt := rr_started_at r; ri_LastHeartbeatAt := rr_last_heartbeat_at r;
     ri_StoppedAt := rr_stopped_at r; ri_State := relay_state now staleAfter r;
     ri_OrderingCapable := rr_ordering_capable r |}.

(** [ORDER BY instance_id], bytewise. *)
Definition ListRelays (d : db) (now : time) (staleAfter : duration) : list RelayInstance :=
  omap (fun o => relay_instance now staleAfter o <$> db_relays d !! o)
    (merge_sort string_le (map_to_list (db_relays d)).*1).

Definition GetRelay (d : db) (now : time) (id : string) (staleAfter : duration)
  : res RelayInstance :=
  match db_relays d !! id with
  | Some r => Ok (relay_instance now staleAfter id r)
  | None => Err ErrAdminNotFound
  end.

(** * Lemmas *)

Lemma relay_row_inv_insert d o r :
  partition_inv d -> btrim_nonempty o = true ->
  partition_inv (with_relays d (<[o := r]> (db_relays d))).
Proof.
  intros [Hids Hrow Hrel] Ho. split; cbn [with_relays db_partitions db_relays]; try done.
  intros o' r'. rewrite lookup_insert. case_decide; naive_solver.
Qed.

Lemma RegisterRelay_inv d now presence d' :
  partition_inv d -> RegisterRelay d now presence = Ok d' -> partition_inv d'.
Proof.
  unfold RegisterRelay. intros Hinv H. repeat (destruct_match H; [done|]). simplify_eq.
  bool_to_prop. by apply relay_row_inv_insert.
Qed.

Lemma touch_relay_inv d now st o d' :
  partition_inv d -> touch_relay d now st o = Ok d' -> partition_inv d'.
Proof.
  unfold touch_relay. intros Hinv H. destruct (db_relays d !! o) eqn:E; simplify_eq.
  apply relay_row_inv_insert; [done|]. by eapply inv_relay_id.
Qed.

Lemma relay_state_active now stale r :
  relay_state now stale r = "active"%string /\ rr_ordering_capable r = true <->
  active_member now stale r = true.
Proof.
  unfold relay_state, active_member. destruct (rr_stopped_at r); simpl.
  { rewrite andb_false_r. naive_solver. }
  rewrite andb_true_r, Z.leb_antisym, andb_true_iff, negb_true_iff.
  case_match; naive_solver.
Qed.

(** * Properties *)

(** Operator view and membership agree. A relay takes part in partition
    assignment exactly when the relay listing shows it as active and ordering
    capable, with the same staleness bound. *)
Theorem active_relays_are_members d now stale o :
  o ∈ activeOrderingMembers d now stale <->
  exists i, GetRelay d now o stale = Ok i /\ ri_State i = "active"%string /\
            ri_OrderingCapable i = true.
Proof.
  rewrite elem_of_activeOrderingMembers. unfold GetRelay. split.
  - intros (rr & Hr & Ha). rewrite Hr. apply relay_state_active in Ha as [? ?]. eauto.
  - intros (i & Hi & Hs & Hc). destruct (db_relays d !! o) as [rr|]; simplify_eq.
    exists rr. split; [done|]. by apply relay_state_active.
Qed.

(** Presence lifecycle. A registered ordering-capable relay is a member
    until its last registration or heartbeat is older than the staleness bound,
    and a stopped relay is not a member until it registers or beats again; other
    relays are unaffected. *)
Theorem presence_lifecycle d now presence d1 :
  RegisterRelay d now presence = Ok d1 ->
  let o := rp_InstanceID presence in
  (forall now' stale, o ∈ activeOrderingMembers d1 now' stale <->
     rp_OrderingCapable presence = true /\ now' <= now + intervalMS stale * Millisecond) /\
  (exists d2, HeartbeatRelay d1 (now + Second) o = Ok d2 /\
     forall now' stale, o ∈ activeOrderingMembers d2 now' stale <->
       rp_OrderingCapable presence = true /\ now' <= now + Second + intervalMS stale * Millisecond) /\
  (forall t, exists d3, MarkRelayStopped d1 t o = Ok d3 /\
     (forall now' stale, o ∉ activeOrderingMembers d3 now' stale) /\
     (forall o' now' stale, o' <> o ->
        (o' ∈ activeOrderingMembers d3 now' stale <-> o' ∈ activeOrderingMembers d now' stale))).
Proof.
  intros H o. unfold RegisterRelay in H. repeat (destruct_match H; [done|]). simplify_eq.
  unfold HeartbeatRelay, MarkRelayStopped, touch_relay.
  cbn [with_relays db_relays]. fold o. rewrite lookup_insert_eq.
  assert (forall d r now' stale, o ∈ activeOrderingMembers (with_relays d (<[o := r]> (db_relays d)))
            now' stale <-> active_member now' stale r = true) as Hin.
  { intros d0 r now' stale. rewrite elem_of_activeOrderingMembers. cbn [with_relays db_relays].
    rewrite lookup_insert_eq. naive_solver. }
  split_and!.
  - intros now' stale. rewrite Hin. unfold active_member. simpl.
    rewrite andb_true_r, andb_true_iff, Z.leb_le. intuition lia.
  - eexists. split; [reflexivity|]. intros now' stale. rewrite (Hin (with_relays d _)).
    unfold active_member. simpl. rewrite andb_true_r, andb_true_iff, Z.leb_le. intuition lia.
  - intros t. eexists. split; [reflexivity|]. split.
    + intros now' stale. rewrite (Hin (with_relays d _)). unfold active_member. simpl.
      by rewrite andb_false_r.
    + intros o' now' stale Ho'. rewrite !elem_of_activeOrderingMembers. cbn [with_relays db_relays].
      by rewrite !lookup_insert_ne.
Qed.

(** * Witnesses *)

Definition sample_presence : RelayPresence :=
  {| rp_InstanceID := "relay-1"; rp_Hostname := "host"; rp_Version := "v1"; rp_StartedAt := 0;
     rp_OrderingCapable := true |}.

Lemma presence_lifecycle_witness :
  exists d1, RegisterRelay (migrated 0) 5 sample_presence = Ok d1 /\
             "relay-1"%string ∈ activeOrderingMembers d1 6 Second.
Proof.
  eexists. split; [reflexivity|].
  apply (proj1 (presence_lifecycle (migrated 0) 5 sample_presence _ eq_refl)).
  split; [reflexivity|]. vm_compute. congruence.
Defined.
