(* ===== verification/Tx.v ===== *)
(** * Transactions

    Code that runs inside a caller-owned [pgx.Tx] is written in a state and
    error monad over the transaction: its private view of the database, its
    fixed [NOW()], whether a failed statement has aborted it, and the
    notifications it will send when it commits. *)
From Stdlib Require Import ZArith String.
From stdpp Require Import base gmap strings list.
From S2P Require Import Prelude Schema.

Open Scope Z_scope.

Record tx : Type := MkTx {
  tx_db : db;
  tx_now : time;
  tx_aborted : bool;
  tx_notified : list (string * string);
}.

Definition begin_tx (d : db) (now : time) : tx :=
  {| tx_db := d; tx_now := now; tx_aborted := false; tx_notified := [] |}.

(** [COMMIT]: an aborted transaction rolls back. *)
Definition commit_tx (d0 : db) (t : tx) : db :=
  if tx_aborted t then d0 else tx_db t.

Definition txM (A : Type) : Type := tx -> tx * res A.

Definition tx_ret {A} (a : A) : txM A := fun t => (t, Ok a).
Definition tx_fail {A} (e : error) : txM A := fun t => (t, Err e).
Definition tx_lift {A} (r : res A) : txM A := fun t => (t, r).
Definition tx_bind {A B} (m : txM A) (f : A -> txM B) : txM B :=
  fun t => match m t with
           | (t', Ok a) => f a t'
           | (t', Err e) => (t', Err e)
           end.

Notation "'do' x <- m ';' k" := (tx_bind m (fun x => k))
  (at level 10, x pattern, m at level 100, k at level 200) : emitlane_scope.
(** A guard of the form [if cond { return err }] between statements. *)
Notation "'do_fail_if' b 'with' e ';' k" := (if b then tx_fail e else k)
  (at level 10, b at level 100, e at level 100, k at level 200) : emitlane_scope.

Definition set_db (t : tx) (d : db) : tx :=
  {| tx_db := d; tx_now := tx_now t; tx_aborted := tx_aborted t; tx_notified := tx_notified t |}.
Definition set_aborted (t : tx) : tx :=
  {| tx_db := tx_db t; tx_now := tx_now t; tx_aborted := true; tx_notified := tx_notified t |}.

(** One statement. A failing statement aborts the transaction, and every
    later statement fails. *)
Definition exec_sql {A} (f : db -> time -> res (db * A)) : txM A :=
  fun t =>
    if tx_aborted t then (t, Err (ErrSQL TxAborted)) else
    match f (tx_db t) (tx_now t) with
    | Ok (d, a) => (set_db t d, Ok a)
    | Err e => (set_aborted t, Err e)
    end.

(** [SELECT pg_notify(channel, payload)] *)
Definition pg_notify (channel payload : string) : txM unit :=
  fun t =>
    if tx_aborted t then (t, Err (ErrSQL TxAborted)) else
    ({| tx_db := tx_db t; tx_now := tx_now t; tx_aborted := false;
        tx_notified := tx_notified t ++ [(channel, payload)] |}, Ok tt).

(** A store method: [Begin], the body, [Commit], and [Rollback] on every error.
    The result is the database, the notifications sent and the outcome. *)
Definition run_tx {A} (d : db) (now : time) (m : txM A) : db * list (string * string) * res A :=
  match m (begin_tx d now) with
  | (t, Ok a) => (commit_tx d t, tx_notified t, Ok a)
  | (t, Err e) => (d, [], Err e)
  end.

(** ** A statement logic

    [tx_safe I m]: running [m] keeps the property [I] of the database. *)
Definition tx_safe {A} (I : db -> Prop) (m : txM A) : Prop :=
  forall t, I (tx_db t) -> I (tx_db (m t).1).

Lemma tx_safe_ret {A} (I : db -> Prop) (a : A) : tx_safe I (tx_ret a).
Proof. by intros t. Qed.
Lemma tx_safe_fail {A} (I : db -> Prop) e : tx_safe I (tx_fail (A := A) e).
Proof. by intros t. Qed.
Lemma tx_safe_lift {A} (I : db -> Prop) (r : res A) : tx_safe I (tx_lift r).
Proof. by intros t. Qed.
Lemma tx_safe_bind {A B} (I : db -> Prop) (m : txM A) (f : A -> txM B) :
  tx_safe I m -> (forall a, tx_safe I (f a)) -> tx_safe I (tx_bind m f).
Proof.
  intros Hm Hf t Ht. unfold tx_bind. specialize (Hm t Ht).
  destruct (m t) as [t' [a|e]]; [by apply Hf|done].
Qed.
Lemma tx_safe_exec {A} (I : db -> Prop) (f : db -> time -> res (db * A)) :
  (forall d now d' a, I d -> f d now = Ok (d', a) -> I d') -> tx_safe I (exec_sql f).
Proof.
  intros Hf t Ht. unfold exec_sql. destruct (tx_aborted t); [done|].
  destruct (f (tx_db t) (tx_now t)) as [[d a]|e] eqn:E; [by eapply Hf|done].
Qed.
Lemma tx_safe_notify (I : db -> Prop) c p : tx_safe I (pg_notify c p).
Proof. intros t Ht. unfold pg_notify. by destruct (tx_aborted t). Qed.

#[export] Hint Resolve tx_safe_ret tx_safe_fail tx_safe_lift tx_safe_notify : emitlane.

Lemma tx_bind_ok {A B} (m : txM A) (f : A -> txM B) t t' b :
  tx_bind m f t = (t', Ok b) -> exists t1 a, m t = (t1, Ok a) /\ f a t1 = (t', Ok b).
Proof. unfold tx_bind. destruct (m t) as [t1 [a|e]]; [eauto|done]. Qed.

Lemma exec_sql_ok {A} (f : db -> time -> res (db * A)) t t' a :
  exec_sql f t = (t', Ok a) ->
  tx_aborted t = false /\ exists d, f (tx_db t) (tx_now t) = Ok (d, a) /\ t' = set_db t d.
Proof.
  unfold exec_sql. destruct (tx_aborted t); [done|].
  destruct (f (tx_db t) (tx_now t)) as [[d a']|e]; [|done]. intros [= <- <-]. eauto.
Qed.

Lemma pg_notify_ok c p t t' u :
  pg_notify c p t = (t', Ok u) ->
  tx_aborted t = false /\ t' = {| tx_db := tx_db t; tx_now := tx_now t; tx_aborted := false;
                                  tx_notified := tx_notified t ++ [(c, p)] |}.
Proof. unfold pg_notify. destruct (tx_aborted t); [done|]. intros [= <- <-]. done. Qed.

(** A transaction that fails leaves the database and the channels alone. *)
Lemma run_tx_err {A} d now (m : txM A) d' ns e :
  run_tx d now m = (d', ns, Err e) -> d' = d /\ ns = [].
Proof. unfold run_tx. destruct (m (begin_tx d now)) as [t [a|e']]; intros H; by simplify_eq. Qed.

Lemma run_tx_ok {A} d now (m : txM A) d' ns a :
  run_tx d now m = (d', ns, Ok a) ->
  exists t, m (begin_tx d now) = (t, Ok a) /\ d' = commit_tx d t /\ ns = tx_notified t.
Proof. unfold run_tx. destruct (m (begin_tx d now)) as [t [b|e']]; intros H; simplify_eq. eauto. Qed.

Lemma tx_bind_step {A B} (m : txM A) (f : A -> txM B) t t' a :
  m t = (t', Ok a) -> tx_bind m f t = f a t'.
Proof. intros H. unfold tx_bind. by rewrite H. Qed.

(** A query leaves the transaction as it is. *)
Lemma exec_sql_query {A} (f : db -> time -> res (db * A)) t a :
  tx_aborted t = false -> f (tx_db t) (tx_now t) = Ok (tx_db t, a) -> exec_sql f t = (t, Ok a).
Proof. intros H1 H2. unfold exec_sql. rewrite H1, H2. by destruct t. Qed.
