(* ===== verification/Outbox.v ===== *)
(** * The outbox writer ([outbox/event.go], [outbox/writer.go])

    Validation and insertion of an event inside the caller's transaction,
    with the initialization of its ordering stream. The UUID package and the
    trace propagator are parameters. *)
From Stdlib Require Import ZArith String.
From stdpp Require Import base gmap strings list sorting fin_maps sets.
From S2P Require Import Prelude GoStrings Ordering Schema Invariant Samples OutboxStore.
From S2P Require Import OrderedStore PartitionStore Tx.

Open Scope Z_scope.
Local Open Scope emitlane_scope.

Definition DefaultContentType : string := "application/json".
Definition DefaultSchemaVersion : Z := 1.
Definition kafkaTopicMaxLen : Z := 249.
Definition notifyChannel : string := "emitlane_events".

(** ** JSON text of the headers *)

(** [encoding/json] writes every invalid byte as U+FFFD. *)
Fixpoint json_bytes (fuel : nat) (l : list N) : list N :=
  match fuel with
  | O => []
  | S fuel =>
      match l with
      | [] => []
      | _ :: t =>
          match rune_len l with
          | O => replacement ++ json_bytes fuel t
          | n => take n l ++ json_bytes fuel (drop n l)
          end
      end
  end.
Definition json_string (s : string) : string :=
  of_bytes (json_bytes (String.length s) (bytes s)).

(** [json.Marshal(headers)] sorts the keys; in the stored object the last of
    two equal keys wins. *)
Definition headers_json (headers : gmap string string) : gmap string string :=
  foldl (fun m k => match headers !! k with
                    | Some v => <[json_string k := json_string v]> m
                    | None => m
                    end) ∅ (merge_sort string_le (map_to_list headers).*1).

Module Writer.

(** [outbox.Event]. A nil [Key] is [None]; a zero [AvailableAt] is [None]. *)
Record Event : Type := MkEvent {
  ID : string;
  Destination : string;
  Type_ : string;
  Key : option string;
  Payload : string;
  ContentType : string;
  Headers : gmap string string;
  SchemaVersion : Z;
  CorrelationID : string;
  CausationID : string;
  AvailableAt : option time;
  OrderingKey : string;
  Sequence : Z;
  OrderingStartSequence : Z;
}.

Record Writer : Type := MkWriter { notify : bool }.
Definition NewWriter : Writer := {| notify := true |}.
Definition WithoutNotify (w : Writer) : Writer := {| notify := false |}.

Definition is_empty (s : string) : bool := bool_decide (s = ""%string).
(** [s != strings.TrimSpace(s)] *)
Definition untrimmed (s : string) : bool := negb (bool_decide (s = TrimSpace s)).
Definition key_len (k : option string) : Z := go_len (default ""%string k).

Section writer.
(** [uuid.Parse], [uuid.UUID.String] and the context's trace headers. *)
Context (uuid_Parse : string -> option uuid) (uuid_String : uuid -> string).
Context (InjectTrace : string * string).

Definition validate (e : Event) : res unit :=
  fail_if is_empty (TrimSpace (Destination e)) with ErrInvalidEvent "destination is required";
  fail_if untrimmed (Destination e)
    with ErrInvalidEvent "destination must not have surrounding whitespace";
  fail_if kafkaTopicMaxLen <? go_len (Destination e)
    with ErrInvalidEvent "destination exceeds 249 characters";
  fail_if is_empty (TrimSpace (Type_ e)) with ErrInvalidEvent "type is required";
  fail_if untrimmed (Type_ e) with ErrInvalidEvent "type must not have surrounding whitespace";
  fail_if negb (is_empty (ID e)) && is_null (uuid_Parse (ID e))
    with ErrInvalidEvent "id must be a UUID";
  fail_if SchemaVersion e <? 0 with ErrInvalidEvent "schema version must be >= 0";
  fail_if negb (is_empty (ContentType e)) && untrimmed (ContentType e)
    with ErrInvalidEvent "content type must not have surrounding whitespace";
  fail_if not_null (Headers e !! ""%string) with ErrInvalidEvent "header name must not be empty";
  if is_empty (OrderingKey e) then
    fail_if negb (Sequence e =? 0) with ErrInvalidEvent "sequence requires an ordering key";
    fail_if negb (OrderingStartSequence e =? 0)
      with ErrInvalidEvent "ordering start sequence requires an ordering key";
    Ok tt
  else
    fail_if is_empty (TrimSpace (OrderingKey e))
      with ErrInvalidEvent "ordering key must not be blank";
    fail_if untrimmed (OrderingKey e)
      with ErrInvalidEvent "ordering key must not have surrounding whitespace";
    fail_if Sequence e <=? 0 with ErrInvalidEvent "ordered sequence must be > 0";
    fail_if OrderingStartSequence e <? 0
      with ErrInvalidEvent "ordering start sequence must be >= 0";
    fail_if Sequence e <? OrderingStartSequence e
      with ErrInvalidEvent "ordering start sequence must not exceed sequence";
    fail_if (0 <? key_len (Key e)) && negb (bool_decide (Key e = Some (OrderingKey e)))
      with ErrInvalidEvent "message key must equal ordering key for ordered events";
    Ok tt.

(** ** [initializeOrderingStream] *)

(** [INSERT INTO ordering_streams ... ON CONFLICT DO NOTHING] *)
Definition insert_stream (dest key : string) (partition start : Z) (d : db) (now : time)
  : res (db * unit) :=
  fail_if negb (pg_text_ok dest && pg_text_ok key) with ErrSQL InvalidText;
  let s := {| sr_partition_id := partition; sr_start_sequence := start;
              sr_next_sequence := start; sr_created_at := now; sr_updated_at := now |} in
  fail_if negb (btrim_nonempty dest && btrim_nonempty key && stream_row_ok s)
    with ErrSQL (CheckViolation "ordering_streams");
  match db_streams d !! (dest, key) with
  | Some _ => Ok (d, tt)
  | None => Ok (with_streams d (<[(dest, key) := s]> (db_streams d)), tt)
  end.

(** [SELECT ... FOR UPDATE] *)
Definition inspect_stream (dest key : string) (d : db) (now : time)
  : res (db * option stream_row) :=
  Ok (d, db_streams d !! (dest, key)).

Definition initializeOrderingStream (e : Event) (partition start : Z) : txM unit :=
  do _ <- exec_sql (insert_stream (Destination e) (OrderingKey e) partition start);
  do found <- exec_sql (inspect_stream (Destination e) (OrderingKey e));
  match found with
  | None => tx_fail ErrNoRows
  | Some s =>
      do_fail_if negb (sr_partition_id s =? partition) with ErrOrderingConflict;
      do_fail_if (0 <? OrderingStartSequence e)
                 && negb (sr_start_sequence s =? OrderingStartSequence e) with ErrOrderingConflict;
      do_fail_if Sequence e <? sr_next_sequence s with ErrSequenceAlreadyPassed;
      tx_ret tt
  end.

Definition nullString (s : string) : option string := if is_empty s then None else Some s.

Definition duplicateOrderingSequence (e : error) : bool :=
  match e with
  | ErrSQL (UniqueViolation c) => bool_decide (c = "outbox_ordering_sequence_unique_idx"%string)
  | _ => false
  end.

(** The row of the [INSERT]: columns not listed take their defaults. *)
Definition new_row (e : Event) (id : uuid) (ordering : option (Z * Z)) (now : time) : event_row :=
  {| er_data :=
       {| ed_id := id; ed_destination := Destination e; ed_event_type := Type_ e;
          ed_message_key := Key e; ed_payload := Payload e;
          ed_content_type := if is_empty (ContentType e) then DefaultContentType else ContentType e;
          ed_headers := headers_json (Headers e);
          ed_schema_version := if SchemaVersion e =? 0 then DefaultSchemaVersion
                               else SchemaVersion e;
          ed_correlation_id := nullString (CorrelationID e);
          ed_causation_id := nullString (CausationID e);
          ed_traceparent := nullString InjectTrace.1;
          ed_tracestate := nullString InjectTrace.2;
          ed_created_at := now; ed_replayed_from_event_id := None; ed_replay_batch_id := None;
          ed_ordering_key := nullString (OrderingKey e);
          ed_ordering_sequence := snd <$> ordering; ed_ordering_partition := fst <$> ordering |};
     er_status := Pending; er_attempts := 0;
     er_available_at := match AvailableAt e with Some t => pg_time t | None => now end;
     er_lease_owner := None; er_lease_until := None; er_last_error := None;
     er_delivered_at := None |}.

Definition insert_new_event (e : Event) (id : uuid) (ordering : option (Z * Z)) (d : db) (now : time)
  : res (db * unit) :=
  let! d' := insert_event d (new_row e id ordering now) in Ok (d', tt).

(** The error of the insertion, with the duplicate sequence recognised. *)
Definition map_insert_error (m : txM unit) : txM unit :=
  fun t => match m t with
           | (t', Err err) =>
               (t', Err (if duplicateOrderingSequence err then ErrDuplicateSequence else err))
           | ok => ok
           end.

Definition with_key (e : Event) (k : option string) : Event :=
  {| ID := ID e; Destination := Destination e; Type_ := Type_ e; Key := k; Payload := Payload e;
     ContentType := ContentType e; Headers := Headers e; SchemaVersion := SchemaVersion e;
     CorrelationID := CorrelationID e; CausationID := CausationID e; AvailableAt := AvailableAt e;
     OrderingKey := OrderingKey e; Sequence := Sequence e;
     OrderingStartSequence := OrderingStartSequence e |}.

(** The part of [Enqueue] that an ordering key switches on: the stream is
    initialized and an empty message key becomes the ordering key. *)
Definition enqueue_ordering (e : Event) : txM (Event * option (Z * Z)) :=
  if is_empty (OrderingKey e) then tx_ret (e, None) else
  let partition := Partition (Destination e) (OrderingKey e) in
  let start := if OrderingStartSequence e =? 0 then 1 else OrderingStartSequence e in
  do _ <- initializeOrderingStream e partition start;
  let e' := if key_len (Key e) =? 0 then with_key e (Some (OrderingKey e)) else e in
  tx_ret (e', Some (partition, Sequence e)).

(** [idFn] is what the writer's generator returns for this call. *)
Definition Enqueue (w : Writer) (idFn : option uuid) (e : Event) : txM string :=
  do _ <- tx_lift (validate e);
  do p <- enqueue_ordering e;
  let '(e, ordering) := p in
  do id <- tx_lift (if is_empty (ID e)
                    then match idFn with Some id => Ok id | None => Err ErrGenerateID end
                    else match uuid_Parse (ID e) with Some id => Ok id | None => Ok uuid_Nil end);
  do _ <- map_insert_error (exec_sql (insert_new_event e id ordering));
  do _ <- (if notify w then pg_notify notifyChannel (uuid_String id) else tx_ret tt);
  tx_ret (uuid_String id).

(** * Lemmas *)

(** What validation establishes. *)
Record valid_event (e : Event) : Prop := {
  valid_destination : Destination e = TrimSpace (Destination e) /\ Destination e <> ""%string;
  valid_destination_length : go_len (Destination e) <= kafkaTopicMaxLen;
  valid_type : Type_ e = TrimSpace (Type_ e) /\ Type_ e <> ""%string;
  valid_id : ID e <> ""%string -> is_Some (uuid_Parse (ID e));
  valid_schema : 0 <= SchemaVersion e;
  valid_content_type : ContentType e <> ""%string -> ContentType e = TrimSpace (ContentType e);
  valid_headers : Headers e !! ""%string = None;
  valid_ordering :
    if is_empty (OrderingKey e) then Sequence e = 0 /\ OrderingStartSequence e = 0 else
    OrderingKey e = TrimSpace (OrderingKey e) /\ OrderingKey e <> ""%string /\
    0 < Sequence e /\ 0 <= OrderingStartSequence e <= Sequence e /\
    (key_len (Key e) = 0 \/ Key e = Some (OrderingKey e));
}.

Lemma is_empty_true s : is_empty s = true <-> s = ""%string.
Proof. apply bool_decide_eq_true. Qed.
Lemma is_empty_false s : is_empty s = false <-> s <> ""%string.
Proof. apply bool_decide_eq_false. Qed.
Lemma untrimmed_false s : untrimmed s = false <-> s = TrimSpace s.
Proof. unfold untrimmed. by rewrite negb_false_iff, bool_decide_eq_true. Qed.

Lemma key_len_nonneg k : 0 <= key_len k.
Proof. unfold key_len, go_len. lia. Qed.

Lemma trimmed_empty s : TrimSpace s <> ""%string -> s <> ""%string.
Proof. by intros H ->. Qed.

Lemma validate_ok e : validate e = Ok tt -> valid_event e.
Proof.
  unfold validate. intros H.
  destruct (is_empty (TrimSpace (Destination e))) eqn:E1; [done|].
  destruct (untrimmed (Destination e)) eqn:E2; [done|].
  destruct (kafkaTopicMaxLen <? go_len (Destination e)) eqn:E3; [done|].
  destruct (is_empty (TrimSpace (Type_ e))) eqn:E4; [done|].
  destruct (untrimmed (Type_ e)) eqn:E5; [done|].
  destruct (negb (is_empty (ID e)) && is_null (uuid_Parse (ID e))) eqn:E6; [done|].
  destruct (SchemaVersion e <? 0) eqn:E7; [done|].
  destruct (negb (is_empty (ContentType e)) && untrimmed (ContentType e)) eqn:E8; [done|].
  destruct (not_null (Headers e !! ""%string)) eqn:E9; [done|].
  rewrite ?is_empty_false, ?untrimmed_false in *. bool_to_prop.
  split; try done; try (split; [done|]; by apply trimmed_empty).
  - intros Hid. apply is_empty_false in Hid. rewrite Hid in E6.
    by destruct (uuid_Parse (ID e)).
  - intros Hc. apply is_empty_false in Hc. rewrite Hc in E8. by apply untrimmed_false.
  - by destruct (Headers e !! ""%string).
  - destruct (is_empty (OrderingKey e)) eqn:E10.
    { repeat (destruct_match H; [done|]). by bool_to_prop. }
    apply is_empty_false in E10.
    destruct (is_empty (TrimSpace (OrderingKey e))) eqn:E11; [done|].
    destruct (untrimmed (OrderingKey e)) eqn:E12; [done|].
    destruct (Sequence e <=? 0) eqn:E13; [done|].
    destruct (OrderingStartSequence e <? 0) eqn:E14; [done|].
    destruct (Sequence e <? OrderingStartSequence e) eqn:E15; [done|].
    destruct ((0 <? key_len (Key e)) && _) eqn:E16; [done|].
    apply untrimmed_false in E12. bool_to_prop. split_and!; try done.
    apply andb_false_iff in E16 as [E16|E16]; bool_to_prop; [left|by right].
    pose proof (key_len_nonneg (Key e)). lia.
Qed.

Lemma valid_event_key e k : valid_event e -> valid_event (with_key e k) \/
  (is_empty (OrderingKey e) = false /\ k <> Some (OrderingKey e)).
Proof.
  intros []. destruct (is_empty (OrderingKey e)) eqn:E.
  - left. split; simpl; try done. by rewrite E.
  - destruct (decide (k = Some (OrderingKey e))) as [->|]; [left|by right].
    split; simpl; try done. rewrite E in *. naive_solver.
Qed.

Lemma btrim_valid s : s = TrimSpace s /\ s <> ""%string -> btrim_nonempty s = true.
Proof. intros [? ?]. by apply trimmed_btrim. Qed.

(** The inserted row satisfies every CHECK constraint. *)
Lemma new_row_ok e id ordering now :
  valid_event e ->
  (if is_empty (OrderingKey e) then ordering = None
   else ordering = Some (Partition (Destination e) (OrderingKey e), Sequence e)) ->
  event_row_ok (new_row e id ordering now) = true.
Proof.
  intros [Hd _ Ht _ Hs Hc _ Ho] Hord. apply event_row_ok_spec.
  cbn [new_row er_data er_attempts er_status]. split_and!; [|done..].
  unfold event_data_ok. cbn [ed_destination ed_event_type ed_content_type ed_schema_version].
  rewrite (btrim_valid _ Hd), (btrim_valid _ Ht). cbn [andb].
  assert (btrim_nonempty (if is_empty (ContentType e) then DefaultContentType else ContentType e)
          = true) as ->.
  { destruct (is_empty (ContentType e)) eqn:E; [done|]. apply is_empty_false in E.
    apply trimmed_btrim; [by apply Hc|done]. }
  assert ((0 <? (if SchemaVersion e =? 0 then DefaultSchemaVersion else SchemaVersion e)) = true)
    as ->. { destruct (SchemaVersion e =? 0) eqn:E; bool_to_prop; [done|]. apply Z.ltb_lt. lia. }
  cbn [andb]. unfold outbox_ordering_state_check, nullString.
  cbn [ed_ordering_key ed_ordering_sequence ed_ordering_partition].
  destruct (is_empty (OrderingKey e)) eqn:E; subst ordering; [done|].
  destruct Ho as (Hk & Hne & Hseq & _). cbn [fmap option_fmap option_map fst snd].
  rewrite (trimmed_btrim _ Hk Hne). pose proof (Partition_range (Destination e) (OrderingKey e)).
  rewrite !andb_true_iff, Z.ltb_lt, !Z.leb_le. lia.
Qed.

(** ** The stream of an ordered event *)

(** The stream after initialization: the stored one, or a fresh one at [start]. *)
Definition initialized (e : Event) (start : Z) (d : db) (now : time) (d' : db) (s : stream_row)
  : Prop :=
  db_streams d' !! (Destination e, OrderingKey e) = Some s /\
  ((db_streams d !! (Destination e, OrderingKey e) = Some s /\ d' = d) \/
   (db_streams d !! (Destination e, OrderingKey e) = None /\
    s = {| sr_partition_id := Partition (Destination e) (OrderingKey e);
           sr_start_sequence := start; sr_next_sequence := start; sr_created_at := now;
           sr_updated_at := now |} /\ 0 < start /\
    d' = with_streams d (<[(Destination e, OrderingKey e) := s]> (db_streams d)))).

Lemma insert_stream_ok e start d now d' u :
  insert_stream (Destination e) (OrderingKey e) (Partition (Destination e) (OrderingKey e)) start
    d now = Ok (d', u) -> exists s, initialized e start d now d' s.
Proof.
  unfold insert_stream, initialized. intros H.
  destruct (negb (pg_text_ok _ && _)); [done|].
  destruct (negb (btrim_nonempty _ && _ && _)) eqn:E; [done|]. bool_to_prop.
  unfold stream_row_ok in *. cbn [sr_start_sequence sr_next_sequence sr_partition_id] in *.
  bool_to_prop. destruct (db_streams d !! _) as [s|] eqn:Es; simplify_eq.
  { exists s. split; [done|]. by left. }
  eexists. cbn [with_streams db_streams]. rewrite lookup_insert_eq. split; [done|]. by right.
Qed.

Lemma initialized_inv e start d now d' s :
  outbox_inv d -> initialized e start d now d' s -> outbox_inv d'.
Proof.
  intros Hinv (_ & [(_ & ->)|(Hnone & -> & Hst & ->)]); [done|].
  destruct Hinv as [Hid Hrow Hpos Hstr Hcur].
  split; cbn [with_streams db_outbox db_streams]; try done.
  - intros dest key s. rewrite lookup_insert. case_decide as E; [|apply Hstr].
    injection E as <- <-. intros [= <-]. simpl. split; [|done].
    unfold stream_row_ok. simpl. pose proof (Partition_range (Destination e) (OrderingKey e)).
    rewrite !andb_true_iff, !Z.leb_le, Z.ltb_lt. lia.
  - intros i r dest key n Hr Hp. destruct (Hcur _ _ _ _ _ Hr Hp) as (s & Hs & Hrest).
    exists s. split; [|done]. rewrite lookup_insert_ne; [done|]. intros E.
    rewrite <- E, Hnone in Hs. done.
Qed.

Lemma initializeOrderingStream_result e start t t' r :
  initializeOrderingStream e (Partition (Destination e) (OrderingKey e)) start t = (t', r) ->
  (r <> Ok tt /\ tx_db t' = tx_db t) \/
  (tx_aborted t = false /\ exists d' s, t' = set_db t d' /\
    initialized e start (tx_db t) (tx_now t) d' s /\
    (r = Ok tt -> sr_partition_id s = Partition (Destination e) (OrderingKey e) /\
       (OrderingStartSequence e = 0 \/ OrderingStartSequence e < 0 \/
        sr_start_sequence s = OrderingStartSequence e) /\
       sr_next_sequence s <= Sequence e)).
Proof.
  unfold initializeOrderingStream, tx_bind.
  destruct (exec_sql (insert_stream _ _ _ _) t) as [t1 [u|err]] eqn:E1.
  2:{ intros [= <- <-]. left. split; [done|]. unfold exec_sql in E1. repeat case_match; simplify_eq; done. }
  apply exec_sql_ok in E1 as (Ha & d1 & Hi & ->). apply insert_stream_ok in Hi as (s & Hs).
  unfold exec_sql at 1. cbn [set_db tx_aborted]. rewrite Ha.
  unfold inspect_stream. cbn [tx_db tx_now set_db]. rewrite (proj1 Hs).
  intros H. right. split; [done|]. exists d1, s. revert H.
  destruct (negb (sr_partition_id s =? _)) eqn:E2; [|destruct (_ && negb _) eqn:E3;
    [|destruct (Sequence e <? _) eqn:E4]]; unfold tx_fail, tx_ret; intros [= <- <-];
    (split; [done|]); split; try done.
  intros _. bool_to_prop. split_and!; [done| |done].
  apply andb_false_iff in E3 as [E3|E3]; bool_to_prop; lia.
Qed.

(** The state in which the row is inserted, and what is inserted. *)
Definition prepared (e : Event) (t : tx) (e' : Event) (ordering : option (Z * Z)) (t' : tx) : Prop :=
  if is_empty (OrderingKey e) then e' = e /\ ordering = None /\ t' = t else
  tx_aborted t = false /\
  ordering = Some (Partition (Destination e) (OrderingKey e), Sequence e) /\
  e' = (if key_len (Key e) =? 0 then with_key e (Some (OrderingKey e)) else e) /\
  exists d' s, t' = set_db t d' /\
    initialized e (if OrderingStartSequence e =? 0 then 1 else OrderingStartSequence e)
      (tx_db t) (tx_now t) d' s /\
    sr_partition_id s = Partition (Destination e) (OrderingKey e) /\
    (OrderingStartSequence e = 0 \/ OrderingStartSequence e < 0 \/
     sr_start_sequence s = OrderingStartSequence e) /\
    sr_next_sequence s <= Sequence e.

Lemma enqueue_ordering_ok e t t' e' ordering :
  enqueue_ordering e t = (t', Ok (e', ordering)) -> prepared e t e' ordering t'.
Proof.
  unfold enqueue_ordering, prepared. destruct (is_empty (OrderingKey e)); [by intros [= <- <- <-]|].
  intros (t1 & [] & H1 & H2)%tx_bind_ok. injection H2 as <- <- <-.
  apply initializeOrderingStream_result in H1 as [[H _]|(Ha & d' & s & -> & Hi & Hok)]; [done|].
  destruct (Hok eq_refl) as (? & ? & ?). split_and!; eauto 10.
Qed.

Lemma enqueue_ordering_inv e : tx_safe outbox_inv (enqueue_ordering e).
Proof.
  intros t Ht. unfold enqueue_ordering. destruct (is_empty (OrderingKey e)); [done|].
  unfold tx_bind.
  destruct (initializeOrderingStream e _ _ t) as [t1 r] eqn:E.
  assert (outbox_inv (tx_db t1)) as H1.
  { apply initializeOrderingStream_result in E as [[_ ->]|(_ & d' & s & -> & Hi & _)]; [done|].
    by eapply initialized_inv. }
  by destruct r.
Qed.

Lemma prepared_inv e t e' ordering t' :
  outbox_inv (tx_db t) -> prepared e t e' ordering t' -> outbox_inv (tx_db t').
Proof.
  unfold prepared. intros Hinv H. destruct (is_empty (OrderingKey e)).
  - by destruct H as (_ & _ & ->).
  - destruct H as (_ & _ & _ & d' & s & -> & Hi & _). by eapply initialized_inv.
Qed.

(** The cursor condition of the new row. *)
Lemma prepared_fits e t e' ordering t' id now :
  outbox_inv (tx_db t) -> prepared e t e' ordering t' ->
  row_fits (db_streams (tx_db t')) (new_row e' id ordering now).
Proof.
  intros Hinv H dest key n Hpos. pose proof (prepared_inv _ _ _ _ _ Hinv H) as Hinv'.
  unfold prepared in H. unfold stream_position in Hpos.
  cbn [new_row er_data ed_ordering_key ed_ordering_sequence ed_destination] in Hpos.
  unfold nullString in Hpos.
  destruct (is_empty (OrderingKey e)) eqn:E.
  { destruct H as (-> & -> & ->). by rewrite E in Hpos. }
  destruct H as (_ & -> & -> & d' & s & -> & Hi & Hp & _ & Hn). 
  assert (forall k, OrderingKey (if key_len (Key e) =? 0 then with_key e k else e) = OrderingKey e /\
                    Destination (if key_len (Key e) =? 0 then with_key e k else e) = Destination e)
    as Hk by (intros k0; by destruct (key_len (Key e) =? 0)).
  destruct (Hk (Some (OrderingKey e))) as [Hk1 Hk2]. rewrite Hk1, Hk2, E in Hpos.
  injection Hpos as <- <- <-. exists s. destruct Hi as (Hs & _).
  cbn [new_row er_data ed_ordering_partition er_status cursor_ok fmap option_fmap option_map fst].
  cbn [set_db tx_db] in *. split_and!; [done|by rewrite Hp| |done].
  destruct (inv_stream _ Hinv' _ _ _ Hs) as [Hok _]. unfold stream_row_ok in Hok. bool_to_prop. lia.
Qed.

(** ** [Enqueue] *)

(** A property that both insertions keep is kept by [Enqueue]. *)
Lemma Enqueue_tx_safe (I : db -> Prop) w idFn e :
  (forall dest key p start d now d' u, I d ->
     insert_stream dest key p start d now = Ok (d', u) -> I d') ->
  (forall d r d', I d -> insert_event d r = Ok d' -> I d') ->
  tx_safe I (Enqueue w idFn e).
Proof.
  intros Hs He. apply tx_safe_bind; [apply tx_safe_lift|intros _]. apply tx_safe_bind.
  - unfold enqueue_ordering. destruct (is_empty (OrderingKey e)); [apply tx_safe_ret|].
    apply tx_safe_bind; [|intros _; apply tx_safe_ret].
    apply tx_safe_bind; [apply tx_safe_exec; eauto|intros _].
    apply tx_safe_bind; [apply tx_safe_exec|].
    + unfold inspect_stream. by intros d now d' a Hd [= <- <-].
    + intros [s|]; [|apply tx_safe_fail]. repeat case_match; auto with emitlane.
  - intros [e' ordering]. apply tx_safe_bind; [apply tx_safe_lift|intros id]. apply tx_safe_bind.
    + intros t Ht. unfold map_insert_error.
      assert (tx_safe I (exec_sql (insert_new_event e' id ordering))) as Hx.
      { apply tx_safe_exec. unfold insert_new_event. intros d now d' a Hd Hi.
        apply result_bind_ok in Hi as (d1 & Hi & [= ->]). eauto. }
      specialize (Hx t Ht). by destruct (exec_sql _ t) as [t' [?|?]].
    + intros _. apply tx_safe_bind; [destruct (notify w)|intros _]; auto with emitlane.
Qed.

(** The identifier the event gets. *)
Definition event_id (idFn : option uuid) (e : Event) : option uuid :=
  if is_empty (ID e) then idFn else uuid_Parse (ID e).

Lemma prepared_fields e t e' ordering t' :
  prepared e t e' ordering t' ->
  ID e' = ID e /\ tx_now t' = tx_now t /\ tx_notified t' = tx_notified t /\
  tx_aborted t' = tx_aborted t /\ db_outbox (tx_db t') = db_outbox (tx_db t).
Proof.
  unfold prepared. destruct (is_empty (OrderingKey e)).
  - intros (-> & _ & ->). done.
  - intros (_ & _ & -> & d' & s & -> & Hi & _). cbn [set_db tx_now tx_notified tx_aborted tx_db].
    split_and!; [by destruct (key_len (Key e) =? 0)|done..|].
    by destruct Hi as (_ & [(_ & ->)|(_ & _ & _ & ->)]).
Qed.

Lemma notify_ok w sid t t' :
  (if notify w then pg_notify notifyChannel sid else tx_ret tt) t = (t', Ok tt) ->
  tx_aborted t = false ->
  tx_db t' = tx_db t /\ tx_aborted t' = false /\
  tx_notified t' = tx_notified t ++ (if notify w then [(notifyChannel, sid)] else []).
Proof.
  intros H Ha. destruct (notify w).
  - unfold pg_notify in H. rewrite Ha in H. by injection H as <-.
  - injection H as <-. by rewrite app_nil_r.
Qed.

Lemma Enqueue_ok w idFn e t t' sid :
  Enqueue w idFn e t = (t', Ok sid) ->
  validate e = Ok tt /\ tx_aborted t = false /\ tx_aborted t' = false /\
  exists id e' ordering t1, event_id idFn e = Some id /\ sid = uuid_String id /\
    prepared e t e' ordering t1 /\
    insert_event (tx_db t1) (new_row e' id ordering (tx_now t)) = Ok (tx_db t') /\
    tx_notified t' = tx_notified t ++ (if notify w then [(notifyChannel, sid)] else []).
Proof.
  unfold Enqueue. intros (t0 & [] & H0 & H)%tx_bind_ok. injection H0 as <- Hv.
  apply tx_bind_ok in H as (t1 & [e' ordering] & H1 & H).
  pose proof (enqueue_ordering_ok _ _ _ _ _ H1) as Hp.
  destruct (prepared_fields _ _ _ _ _ Hp) as (Hid & Hnow & Hnot & Hab & _).
  apply tx_bind_ok in H as (t2 & id & H2 & H). injection H2 as <- H2.
  apply tx_bind_ok in H as (t3 & [] & H3 & H). unfold map_insert_error in H3.
  destruct (exec_sql _ t1) as [t3' [[]|err]] eqn:E3; simplify_eq.
  apply exec_sql_ok in E3 as (Ha & d3 & Hi & ->). unfold insert_new_event in Hi.
  apply result_bind_ok in Hi as (d3' & Hi & [= ->]). rewrite Hnow in Hi.
  apply tx_bind_ok in H as (t4 & [] & H4 & H). injection H as <- <-.
  assert (event_id idFn e = Some id) as Hid'.
  { unfold event_id. rewrite Hid in H2. destruct (is_empty (ID e)) eqn:E.
    - destruct idFn; [by injection H2 as ->|done].
    - destruct (valid_id _ (validate_ok _ Hv)) as [x Hx]; [by apply is_empty_false|].
      rewrite Hx in H2 |- *. by injection H2 as ->. }
  rewrite Ha in Hab. destruct (notify_ok _ _ _ _ H4 Ha) as (Hdb & Hab4 & Hn4).
  split_and!; [by destruct (validate e) as [[]|]|done|done|].
  exists id, e', ordering, t1. rewrite Hdb, Hn4. cbn [set_db tx_db tx_notified].
  by rewrite Hnot.
Qed.

Lemma map_insert_error_db (m : txM unit) t : (map_insert_error m t).1 = (m t).1.
Proof. unfold map_insert_error. by destruct (m t) as [? [?|?]]. Qed.

Lemma Enqueue_inv_lemma w idFn e : tx_safe outbox_inv (Enqueue w idFn e).
Proof.
  intros t Ht. unfold Enqueue, tx_bind at 1. unfold tx_lift at 1.
  destruct (validate e) as [[]|]; [|done]. unfold tx_bind at 1.
  pose proof (enqueue_ordering_inv e t Ht) as Hinv1.
  destruct (enqueue_ordering e t) as [t1 [[e' ordering]|err]] eqn:E; [|done].
  pose proof (enqueue_ordering_ok _ _ _ _ _ E) as Hp. cbn [fst] in Hinv1.
  unfold tx_bind at 1. unfold tx_lift at 1. case_match; [|done].
  rename a into id. unfold tx_bind at 1.
  destruct (map_insert_error _ t1) as [t2 r2] eqn:E2.
  assert (outbox_inv (tx_db t2)) as Hinv2.
  { apply (f_equal fst) in E2. rewrite map_insert_error_db in E2. cbn [fst] in E2. subst t2.
    unfold exec_sql. destruct (tx_aborted t1); [done|].
    destruct (insert_new_event e' id ordering _ _) as [[d2 []]|] eqn:Ei; [|done].
    unfold insert_new_event in Ei. apply result_bind_ok in Ei as (d2' & Hi & [= ->]).
    eapply insert_event_inv; [exact Hinv1|exact Hi|]. exact (prepared_fits _ _ _ _ _ id _ Ht Hp). }
  destruct r2; [|done].
  refine (tx_safe_bind outbox_inv _ _ _ _ t2 Hinv2); [destruct (notify w)|]; auto with emitlane.
Qed.
Lemma insert_stream_no_check e start d now r :
  valid_event e -> is_empty (OrderingKey e) = false -> 0 < start ->
  insert_stream (Destination e) (OrderingKey e) (Partition (Destination e) (OrderingKey e)) start
    d now = r ->
  (pg_text_ok (Destination e) && pg_text_ok (OrderingKey e) = false /\
   r = Err (ErrSQL InvalidText)) \/ is_ok r = true.
Proof.
  intros [Hd _ _ _ _ _ _ Ho] Hk Hs <-. unfold insert_stream.
  destruct (pg_text_ok _ && pg_text_ok _); [right|by left]. cbn [negb].
  rewrite Hk in Ho. destruct Ho as (Ho1 & Ho2 & _).
  rewrite (btrim_valid _ Hd), (trimmed_btrim _ Ho1 Ho2). cbn [andb].
  assert (stream_row_ok {| sr_partition_id := Partition (Destination e) (OrderingKey e);
            sr_start_sequence := start; sr_next_sequence := start; sr_created_at := now;
            sr_updated_at := now |} = true) as ->.
  { unfold stream_row_ok. simpl. pose proof (Partition_range (Destination e) (OrderingKey e)).
    rewrite !andb_true_iff, !Z.leb_le, Z.ltb_lt. lia. }
  by destruct (db_streams d !! _).
Qed.

Lemma valid_start e :
  valid_event e -> is_empty (OrderingKey e) = false ->
  0 < (if OrderingStartSequence e =? 0 then 1 else OrderingStartSequence e) <= Sequence e.
Proof.
  intros [_ _ _ _ _ _ _ Ho] Hk. rewrite Hk in Ho. destruct Ho as (_ & _ & ? & ? & _).
  destruct (OrderingStartSequence e =? 0) eqn:E; bool_to_prop; lia.
Qed.

(** ** Ordered admission *)

(** The decision about an ordered event, as a function of its stream. *)
Definition admission (d : db) (e : Event) (now : time) : res unit :=
  match db_streams d !! (Destination e, OrderingKey e) with
  | Some s =>
      fail_if (0 <? OrderingStartSequence e)
              && negb (sr_start_sequence s =? OrderingStartSequence e) with ErrOrderingConflict;
      fail_if Sequence e <? sr_next_sequence s with ErrSequenceAlreadyPassed;
      fail_if position_taken d (er_data (new_row e 0
                (Some (Partition (Destination e) (OrderingKey e), Sequence e)) now))
        with ErrDuplicateSequence;
      Ok tt
  | None => Ok tt
  end.

(** The event as it is stored. *)
Definition stored_event (e : Event) : Event :=
  if key_len (Key e) =? 0 then with_key e (Some (OrderingKey e)) else e.

Lemma stored_event_fields e :
  Destination (stored_event e) = Destination e /\ OrderingKey (stored_event e) = OrderingKey e /\
  Sequence (stored_event e) = Sequence e /\ ID (stored_event e) = ID e.
Proof. unfold stored_event. by destruct (key_len (Key e) =? 0). Qed.

Lemma initialize_admission e t s :
  tx_aborted t = false -> valid_event e -> is_empty (OrderingKey e) = false ->
  pg_text_ok (Destination e) && pg_text_ok (OrderingKey e) = true ->
  outbox_inv (tx_db t) ->
  db_streams (tx_db t) !! (Destination e, OrderingKey e) = Some s ->
  initializeOrderingStream e (Partition (Destination e) (OrderingKey e))
    (if OrderingStartSequence e =? 0 then 1 else OrderingStartSequence e) t =
  (t, if (0 <? OrderingStartSequence e) && negb (sr_start_sequence s =? OrderingStartSequence e)
      then Err ErrOrderingConflict
      else if Sequence e <? sr_next_sequence s then Err ErrSequenceAlreadyPassed else Ok tt).
Proof.
  intros Ha Hv Hk Htext Hinv Hs. pose proof (valid_start _ Hv Hk) as Hst.
  unfold initializeOrderingStream, tx_bind, exec_sql. rewrite Ha.
  destruct (insert_stream_no_check e _ (tx_db t) (tx_now t) _ Hv Hk (proj1 Hst) eq_refl)
    as [[Hx _]|Hok]; [congruence|].
  unfold insert_stream in *. rewrite Htext in *. cbn [negb] in *.
  destruct (negb (btrim_nonempty _ && _ && _)); [done|]. rewrite Hs.
  assert (set_db t (tx_db t) = t) as Hself by (by destruct t). rewrite Hself, Ha.
  unfold inspect_stream. rewrite Hs, Hself.
  destruct (inv_stream _ Hinv _ _ _ Hs) as [_ ->]. rewrite Z.eqb_refl. cbn [negb].
  destruct ((0 <? _) && negb _); [done|]. by destruct (Sequence e <? _).
Qed.

(** In a new stream nothing is taken yet. *)
Lemma absent_stream_free d r dest key n :
  outbox_inv d -> db_streams d !! (dest, key) = None ->
  stream_position (er_data r) = Some (dest, key, n) -> position_taken d (er_data r) = false.
Proof.
  intros Hinv Hs Hp. unfold position_taken. rewrite Hp. apply not_true_is_false.
  intros (kr & Hin & Hb)%existsb_exists. apply bool_decide_eq_true in Hb.
  apply list_elem_of_In in Hin. destruct kr as [i r']. apply elem_of_map_to_list in Hin.
  destruct (inv_cursor _ Hinv _ _ _ _ _ Hin Hb) as (s & Hs' & _). congruence.
Qed.

Lemma position_taken_ext d d' e1 e2 :
  db_outbox d = db_outbox d' -> stream_position e1 = stream_position e2 ->
  position_taken d e1 = position_taken d' e2.
Proof. unfold position_taken. by intros -> ->. Qed.

(** The insertion of a valid, storable event with a fresh identifier fails
    only on a taken position. *)
Lemma insert_new_event_result d e id ordering now :
  valid_event e ->
  (if is_empty (OrderingKey e) then ordering = None
   else ordering = Some (Partition (Destination e) (OrderingKey e), Sequence e)) ->
  event_text_ok (er_data (new_row e id ordering now)) = true ->
  event_int_ok (er_data (new_row e id ordering now)) = true ->
  db_outbox d !! id = None ->
  is_ok (insert_new_event e id ordering d now)
  = negb (position_taken d (er_data (new_row e id ordering now))) /\
  (position_taken d (er_data (new_row e id ordering now)) = true ->
   insert_new_event e id ordering d now
   = Err (ErrSQL (UniqueViolation "outbox_ordering_sequence_unique_idx"))).
Proof.
  intros Hv Ho Ht Hi Hf. unfold insert_new_event, insert_event. rewrite Ht, Hi.
  rewrite new_row_ok by done. cbn [negb new_row er_data ed_id]. rewrite Hf. cbn [not_null is_null negb].
  by destruct (position_taken d _).
Qed.

Lemma initialize_fresh e t :
  tx_aborted t = false -> valid_event e -> is_empty (OrderingKey e) = false ->
  pg_text_ok (Destination e) && pg_text_ok (OrderingKey e) = true ->
  db_streams (tx_db t) !! (Destination e, OrderingKey e) = None ->
  exists s, initializeOrderingStream e (Partition (Destination e) (OrderingKey e))
    (if OrderingStartSequence e =? 0 then 1 else OrderingStartSequence e) t =
  (set_db t (with_streams (tx_db t)
     (<[(Destination e, OrderingKey e) := s]> (db_streams (tx_db t)))), Ok tt).
Proof.
  intros Ha Hv Hk Htext Hs. pose proof (valid_start _ Hv Hk) as Hst.
  set (start := if OrderingStartSequence e =? 0 then 1 else OrderingStartSequence e) in *.
  exists {| sr_partition_id := Partition (Destination e) (OrderingKey e);
            sr_start_sequence := start; sr_next_sequence := start;
            sr_created_at := tx_now t; sr_updated_at := tx_now t |}.
  unfold initializeOrderingStream, tx_bind, exec_sql. rewrite Ha.
  destruct (insert_stream_no_check e _ (tx_db t) (tx_now t) _ Hv Hk (proj1 Hst) eq_refl)
    as [[Hx _]|Hok]; [congruence|].
  unfold insert_stream in *. rewrite Htext in *. cbn [negb] in *.
  destruct (negb (btrim_nonempty _ && _ && _)); [done|]. rewrite Hs.
  cbn [set_db tx_aborted]. rewrite Ha. unfold inspect_stream.
  cbn [set_db tx_db with_streams db_streams]. rewrite lookup_insert_eq.
  cbn [sr_partition_id sr_start_sequence sr_next_sequence]. rewrite Z.eqb_refl. cbn [negb].
  assert ((0 <? OrderingStartSequence e) && negb (start =? OrderingStartSequence e) = false) as ->.
  { unfold start. destruct (OrderingStartSequence e =? 0) eqn:E; bool_to_prop; [by rewrite E|].
    by rewrite Z.eqb_refl, andb_false_r. }
  assert ((Sequence e <? start) = false) as -> by (apply Z.ltb_ge; lia). done.
Qed.

Lemma Enqueue_inserts w idFn e t t1 ordering id :
  validate e = Ok tt -> event_id idFn e = Some id ->
  enqueue_ordering e t = (t1, Ok (stored_event e, ordering)) -> tx_aborted t1 = false ->
  (Enqueue w idFn e t).2 =
  match insert_new_event (stored_event e) id ordering (tx_db t1) (tx_now t1) with
  | Ok _ => Ok (uuid_String id)
  | Err err => Err (if duplicateOrderingSequence err then ErrDuplicateSequence else err)
  end.
Proof.
  intros Hv Hid Ho Ha. unfold Enqueue, tx_bind, tx_lift. rewrite Hv, Ho.
  destruct (stored_event_fields e) as (_ & _ & _ & HID). rewrite HID.
  assert ((if is_empty (ID e)
           then match idFn with Some id => Ok id | None => Err ErrGenerateID end
           else match uuid_Parse (ID e) with Some id => Ok id | None => Ok uuid_Nil end)
          = Ok (E := error) id) as ->.
  { unfold event_id in Hid. destruct (is_empty (ID e)); by rewrite Hid. }
  unfold map_insert_error, exec_sql. rewrite Ha.
  destruct (insert_new_event _ _ _ _ _) as [[d2 []]|err]; [|done].
  destruct (notify w); [|done]. unfold pg_notify. cbn [set_db tx_aborted]. by rewrite Ha.
Qed.

Lemma Enqueue_ordering_fails w idFn e t t1 err :
  validate e = Ok tt -> enqueue_ordering e t = (t1, Err err) -> (Enqueue w idFn e t).2 = Err err.
Proof. intros Hv Ho. unfold Enqueue, tx_bind, tx_lift. by rewrite Hv, Ho. Qed.

Lemma stored_event_valid e :
  valid_event e -> is_empty (OrderingKey e) = false -> valid_event (stored_event e).
Proof.
  intros Hv Hk. unfold stored_event. destruct (key_len (Key e) =? 0); [|done].
  destruct (valid_event_key e (Some (OrderingKey e)) Hv) as [H|[_ H]]; done.
Qed.

Lemma new_row_text_ordering e id ordering now :
  is_empty (OrderingKey e) = false -> event_text_ok (er_data (new_row e id ordering now)) = true ->
  pg_text_ok (Destination e) && pg_text_ok (OrderingKey e) = true.
Proof.
  intros Hk H. unfold event_text_ok in H.
  cbn [new_row er_data ed_destination ed_ordering_key] in H. bool_to_prop.
  assert (opt_text_ok (nullString (OrderingKey e)) = true) as Hx by done.
  unfold nullString in Hx. rewrite Hk in Hx. by apply andb_true_iff.
Qed.

Lemma stored_event_int e id ordering now :
  SchemaVersion e < 2 ^ 31 -> event_int_ok (er_data (new_row (stored_event e) id ordering now)) = true.
Proof.
  intros Hsv. unfold event_int_ok. cbn [new_row er_data ed_schema_version].
  unfold stored_event. destruct (key_len (Key e) =? 0); cbn [with_key SchemaVersion];
    destruct (SchemaVersion e =? 0); apply Z.ltb_lt; unfold DefaultSchemaVersion; lia.
Qed.

(** Once the stream has accepted the event, only its position decides. *)
Lemma Enqueue_ordered_insert w idFn e t t1 id :
  let ordering := Some (Partition (Destination e) (OrderingKey e), Sequence e) in
  validate e = Ok tt -> is_empty (OrderingKey e) = false -> event_id idFn e = Some id ->
  db_outbox (tx_db t) !! id = None ->
  event_text_ok (er_data (new_row (stored_event e) id ordering (tx_now t))) = true ->
  SchemaVersion e < 2 ^ 31 ->
  enqueue_ordering e t = (t1, Ok (stored_event e, ordering)) ->
  tx_aborted t1 = false -> tx_now t1 = tx_now t -> db_outbox (tx_db t1) = db_outbox (tx_db t) ->
  (Enqueue w idFn e t).2 =
    if position_taken (tx_db t) (er_data (new_row e 0 ordering (tx_now t)))
    then Err ErrDuplicateSequence else Ok (uuid_String id).
Proof.
  intros ordering Hval Hkey Hid Hfresh Htext Hsv Ho Ha1 Hn1 Hd1.
  pose proof (stored_event_valid _ (validate_ok _ Hval) Hkey) as Hv'.
  destruct (stored_event_fields e) as (HD & HK & HS & _).
  assert (if is_empty (OrderingKey (stored_event e)) then ordering = None
          else ordering = Some (Partition (Destination (stored_event e))
                 (OrderingKey (stored_event e)), Sequence (stored_event e))) as Hord
    by (by rewrite HK, Hkey, HD, HS).
  rewrite (Enqueue_inserts _ _ _ _ _ _ _ Hval Hid Ho Ha1), Hn1.
  assert (position_taken (tx_db t) (er_data (new_row e 0 ordering (tx_now t))) =
          position_taken (tx_db t1) (er_data (new_row (stored_event e) id ordering (tx_now t))))
    as ->. { apply position_taken_ext; [done|]. unfold stream_position.
             cbn [new_row er_data ed_ordering_key ed_ordering_sequence ed_destination].
             by rewrite HK, HD. }
  destruct (insert_new_event_result (tx_db t1) _ id ordering (tx_now t) Hv' Hord Htext
    (stored_event_int _ _ _ _ Hsv)) as [Hok Herr]; [by rewrite Hd1|].
  destruct (position_taken (tx_db t1) _); [by rewrite Herr|].
  by destruct (insert_new_event _ _ _ _ _) as [[? []]|].
Qed.

(** C14: Ordered admission. For a valid ordered event with a fresh identifier
    and storable text, [Enqueue] decides exactly as follows: a new stream
    accepts it; in an existing stream a different requested start is
    [ErrOrderingConflict], a sequence below the cursor is
    [ErrSequenceAlreadyPassed], an occupied sequence is [ErrDuplicateSequence],
    and anything else, gaps included, is accepted. *)
Theorem Enqueue_ordered_admission w idFn e t id :
  outbox_inv (tx_db t) -> tx_aborted t = false -> validate e = Ok tt ->
  OrderingKey e <> ""%string -> event_id idFn e = Some id -> db_outbox (tx_db t) !! id = None ->
  event_text_ok (er_data (new_row (stored_event e) id
    (Some (Partition (Destination e) (OrderingKey e), Sequence e)) (tx_now t))) = true ->
  SchemaVersion e < 2 ^ 31 ->
  (Enqueue w idFn e t).2 =
  let! _ := admission (tx_db t) e (tx_now t) in Ok (uuid_String id).
Proof.
  intros Hinv Ha Hval Hkey Hid Hfresh Htext Hsv.
  pose proof (validate_ok _ Hval) as Hv. apply is_empty_false in Hkey.
  destruct (stored_event_fields e) as (HD & HK & _).
  assert (is_empty (OrderingKey (stored_event e)) = false) as Hkey' by (by rewrite HK).
  pose proof (new_row_text_ordering _ _ _ _ Hkey' Htext) as Hdk. rewrite HD, HK in Hdk.
  pose proof (fun t1 => Enqueue_ordered_insert w idFn e t t1 id Hval Hkey Hid Hfresh Htext Hsv) as Hins.
  unfold admission. destruct (db_streams (tx_db t) !! _) as [s|] eqn:Es.
  - pose proof (initialize_admission e t s Ha Hv Hkey Hdk Hinv Es) as Hi.
    destruct ((0 <? _) && negb _) eqn:E1.
    { eapply Enqueue_ordering_fails; [done|]. unfold enqueue_ordering, tx_bind.
      by rewrite Hkey, Hi. }
    destruct (Sequence e <? sr_next_sequence s) eqn:E2.
    { eapply Enqueue_ordering_fails; [done|]. unfold enqueue_ordering, tx_bind.
      by rewrite Hkey, Hi. }
    rewrite (Hins t); [by destruct (position_taken _ _)| |done..].
    unfold enqueue_ordering, tx_bind. by rewrite Hkey, Hi.
  - destruct (initialize_fresh e t Ha Hv Hkey Hdk Es) as (s & Hi).
    erewrite Hins; [|unfold enqueue_ordering, tx_bind; rewrite Hkey, Hi; reflexivity|done..].
    rewrite (absent_stream_free _ _ (Destination e) (OrderingKey e) (Sequence e) Hinv Es); [done|].
    unfold stream_position.
    cbn [new_row er_data ed_ordering_key ed_ordering_sequence ed_destination].
    unfold nullString. by rewrite Hkey.
Qed.

(** The effect of a successful [Enqueue]. *)
Lemma Enqueue_effect w idFn e t t' sid :
  outbox_inv (tx_db t) -> Enqueue w idFn e t = (t', Ok sid) ->
  outbox_inv (tx_db t') /\ tx_aborted t' = false /\
  tx_notified t' = tx_notified t ++ (if notify w then [(notifyChannel, sid)] else []) /\
  exists id r, event_id idFn e = Some id /\ sid = uuid_String id /\
    db_outbox (tx_db t) !! id = None /\
    db_outbox (tx_db t') = <[id := r]> (db_outbox (tx_db t)) /\
    er_status r = Pending /\ er_attempts r = 0 /\
    er_available_at r = from_option pg_time (tx_now t) (AvailableAt e) /\
    ed_id (er_data r) = id /\ ed_destination (er_data r) = Destination e /\
    ed_event_type (er_data r) = Type_ e /\ ed_payload (er_data r) = Payload e /\
    ed_headers (er_data r) = headers_json (Headers e) /\
    (if is_empty (OrderingKey e)
     then stream_position (er_data r) = None /\ ed_message_key (er_data r) = Key e /\
          db_streams (tx_db t') = db_streams (tx_db t)
     else stream_position (er_data r) = Some (Destination e, OrderingKey e, Sequence e) /\
          ed_message_key (er_data r) = Some (OrderingKey e) /\
          ed_ordering_partition (er_data r) = Some (Partition (Destination e) (OrderingKey e)) /\
          (exists s, db_streams (tx_db t') !! (Destination e, OrderingKey e) = Some s /\
                     sr_next_sequence s <= Sequence e) /\
          forall k, k <> (Destination e, OrderingKey e) ->
            db_streams (tx_db t') !! k = db_streams (tx_db t) !! k).
Proof.
  intros Hinv H. pose proof (Enqueue_inv_lemma w idFn e t Hinv) as Hinv'. rewrite H in Hinv'.
  apply Enqueue_ok in H as (Hv & _ & Ha' & id & e' & ordering & t1 & Hid & Hsid & Hp & Hins & Hn).
  split_and!; [done..|]. pose proof (prepared_fields _ _ _ _ _ Hp) as (_ & _ & _ & _ & Hout).
  apply insert_event_ok in Hins as (_ & _ & _ & Hfresh & _ & Hdb). rewrite Hout in Hfresh.
  exists id, (new_row e' id ordering (tx_now t)). rewrite Hdb.
  cbn [with_outbox db_outbox db_streams new_row er_data ed_id ed_destination er_status er_attempts
       er_available_at ed_event_type ed_payload ed_headers ed_message_key ed_ordering_partition] in *.
  rewrite Hout. unfold stream_position, nullString.
  cbn [ed_ordering_key ed_ordering_sequence ed_destination].
  pose proof (validate_ok _ Hv) as [_ _ _ _ _ _ _ Hvo]. unfold prepared in Hp.
  destruct (is_empty (OrderingKey e)) eqn:E.
  - destruct Hp as (-> & -> & ->). rewrite E. by split_and!.
  - destruct Hp as (_ & -> & -> & d' & s & -> & Hi & _ & _ & Hs).
    fold (stored_event e). destruct (stored_event_fields e) as (HD & HK & _ & _).
    assert (AvailableAt (stored_event e) = AvailableAt e /\ Type_ (stored_event e) = Type_ e /\
            Payload (stored_event e) = Payload e /\ Headers (stored_event e) = Headers e /\
            Key (stored_event e) = Some (OrderingKey e)) as (HA & HT & HP & HH & HKey).
    { unfold stored_event. destruct (key_len (Key e) =? 0) eqn:Ek; [done|].
      destruct Hvo as (_ & _ & _ & _ & [Hx|Hx]); [|done]. bool_to_prop. congruence. }
    rewrite HD, HK, HA, HT, HP, HH, HKey, E. cbn [set_db tx_db fmap option_fmap option_map fst snd].
    split_and!; try done.
    + exists s. destruct Hi as [Hi _]. done.
    + intros k Hk. destruct Hi as (_ & [(_ & ->)|(_ & _ & _ & ->)]); [done|].
      cbn [with_streams db_streams]. by rewrite lookup_insert_ne.
Qed.

(** C15: A successful [Enqueue]. It inserts exactly one row, pending and never
    attempted, under the caller's or the generated identifier, with the event's
    fields; an ordered event sits in its hashed partition at or above its
    stream's cursor; every other row and stream is unchanged, the invariant is
    kept, and the notification is queued exactly when the writer notifies. *)
Theorem Enqueue_spec w idFn e t t' sid :
  outbox_inv (tx_db t) -> Enqueue w idFn e t = (t', Ok sid) ->
  outbox_inv (tx_db t') /\ tx_aborted t' = false /\
  tx_notified t' = tx_notified t ++ (if notify w then [(notifyChannel, sid)] else []) /\
  exists id r, event_id idFn e = Some id /\ sid = uuid_String id /\
    db_outbox (tx_db t) !! id = None /\
    db_outbox (tx_db t') = <[id := r]> (db_outbox (tx_db t)) /\
    er_status r = Pending /\ er_attempts r = 0 /\
    er_available_at r = from_option pg_time (tx_now t) (AvailableAt e) /\
    ed_id (er_data r) = id /\ ed_destination (er_data r) = Destination e /\
    ed_event_type (er_data r) = Type_ e /\ ed_payload (er_data r) = Payload e /\
    ed_headers (er_data r) = headers_json (Headers e) /\
    (if is_empty (OrderingKey e)
     then stream_position (er_data r) = None /\ ed_message_key (er_data r) = Key e /\
          db_streams (tx_db t') = db_streams (tx_db t)
     else stream_position (er_data r) = Some (Destination e, OrderingKey e, Sequence e) /\
          ed_message_key (er_data r) = Some (OrderingKey e) /\
          ed_ordering_partition (er_data r) = Some (Partition (Destination e) (OrderingKey e)) /\
          (exists s, db_streams (tx_db t') !! (Destination e, OrderingKey e) = Some s /\
                     sr_next_sequence s <= Sequence e) /\
          forall k, k <> (Destination e, OrderingKey e) ->
            db_streams (tx_db t') !! k = db_streams (tx_db t) !! k).
Proof. apply Enqueue_effect. Qed.

Lemma insert_new_event_no_check d e id ordering now c :
  event_row_ok (new_row e id ordering now) = true ->
  insert_new_event e id ordering d now <> Err (ErrSQL (CheckViolation c)).
Proof.
  intros Hok. unfold insert_new_event, insert_event. rewrite Hok. cbn [negb].
  destruct (negb (event_text_ok _)); [done|]. destruct (negb (event_int_ok _)); [done|].
  destruct (not_null _); [done|]. by destruct (position_taken _ _).
Qed.

Lemma validate_err e err : validate e = Err err -> exists m, err = ErrInvalidEvent m.
Proof.
  unfold validate. intros H.
  repeat (destruct_match H; [injection H as <-; by eexists|]).
  destruct_match H; repeat (destruct_match H; [injection H as <-; by eexists|]); done.
Qed.

(** What an error of the statements says about the transaction. *)
Definition clean_failure (t t' : tx) (err : error) : Prop :=
  db_outbox (tx_db t') = db_outbox (tx_db t) /\ tx_notified t' = tx_notified t /\
  (forall c, err <> ErrSQL (CheckViolation c)) /\ (forall c, err = ErrSQL c -> tx_aborted t' = true).

Lemma enqueue_ordering_failure e t t' err :
  valid_event e -> tx_aborted t = false -> enqueue_ordering e t = (t', Err err) ->
  clean_failure t t' err.
Proof.
  intros Hv Ha. unfold enqueue_ordering. destruct (is_empty (OrderingKey e)) eqn:Ek; [done|].
  pose proof (valid_start _ Hv Ek) as [Hst _]. unfold tx_bind at 1.
  destruct (initializeOrderingStream e _ _ t) as [t1 [[]|err1]] eqn:E; [done|].
  intros [= <- <-]. revert E. unfold initializeOrderingStream, tx_bind. unfold exec_sql at 1.
  rewrite Ha. destruct (insert_stream _ _ _ _ _ _) as [[d1 []]|e1] eqn:E1.
  - apply insert_stream_ok in E1 as (s & Hs & Hi). unfold exec_sql. cbn [set_db tx_aborted].
    rewrite Ha. unfold inspect_stream. cbn [set_db tx_db]. rewrite Hs.
    assert (db_outbox d1 = db_outbox (tx_db t)) as Hout
      by (by destruct Hi as [(_ & ->)|(_ & _ & _ & ->)]).
    repeat case_match; try done; intros [= <- <-]; by split_and!.
  - destruct (insert_stream_no_check _ _ _ _ _ Hv Ek Hst E1) as [[_ He]|Hx]; [|done].
    injection He as ->. intros [= <- <-]. by split_and!.
Qed.

(** C16: A failed [Enqueue] leaves no event behind and queues no notification,
    and a validated event never fails on a CHECK constraint of the schema; when
    the failure came from the database the transaction is aborted, so that its
    commit changes nothing. *)
Theorem Enqueue_failure w idFn e t t' err :
  tx_aborted t = false -> Enqueue w idFn e t = (t', Err err) ->
  db_outbox (tx_db t') = db_outbox (tx_db t) /\ tx_notified t' = tx_notified t /\
  (forall c, err <> ErrSQL (CheckViolation c)) /\
  (forall c, err = ErrSQL c -> tx_aborted t' = true /\ commit_tx (tx_db t) t' = tx_db t).
Proof.
  intros Ha H. assert (clean_failure t t' err) as (H1 & H2 & H3 & H4).
  2:{ split_and!; [done..|]. intros c Hc. specialize (H4 c Hc). split; [done|].
      unfold commit_tx. by rewrite H4. }
  revert H. unfold Enqueue, tx_bind at 1, tx_lift at 1.
  destruct (validate e) as [[]|verr] eqn:Ev.
  2:{ intros [= <- <-]. destruct (validate_err _ _ Ev) as [m ->]. by split_and!. }
  apply validate_ok in Ev. unfold tx_bind at 1.
  destruct (enqueue_ordering e t) as [t1 [[e' ordering]|oerr]] eqn:Eo.
  2:{ intros [= <- <-]. by eapply enqueue_ordering_failure. }
  apply enqueue_ordering_ok in Eo as Hp.
  destruct (prepared_fields _ _ _ _ _ Hp) as (_ & Hnow & Hnot & Hab & Hout). rewrite Ha in Hab.
  unfold tx_bind at 1, tx_lift at 1.
  destruct (if is_empty (ID e') then _ else _) as [id|ierr] eqn:Eid.
  2:{ intros [= <- <-]. split_and!; try done; repeat case_match; by simplify_eq. }
  unfold tx_bind at 1, map_insert_error, exec_sql. rewrite Hab.
  destruct (insert_new_event _ _ _ _ _) as [[d2 []]|nerr] eqn:Ei.
  - destruct (notify w); unfold tx_bind, pg_notify; cbn [set_db tx_aborted]; [by rewrite Hab|done].
  - intros [= <- <-]. assert (forall c, nerr <> ErrSQL (CheckViolation c)) as Hnc.
    { intros c ->. revert Ei. apply insert_new_event_no_check. apply new_row_ok.
      - unfold prepared in Hp. destruct (is_empty (OrderingKey e)) eqn:Ek.
        + by destruct Hp as (-> & _).
        + destruct Hp as (_ & _ & -> & _). by apply stored_event_valid.
      - unfold prepared in Hp. destruct (is_empty (OrderingKey e)) eqn:Ek.
        + destruct Hp as (-> & -> & _). by rewrite Ek.
        + destruct Hp as (_ & -> & -> & _). fold (stored_event e).
          destruct (stored_event_fields e) as (-> & -> & -> & _). by rewrite Ek. }
    split_and!; try done. intros c.
    destruct (duplicateOrderingSequence nerr); [done|apply Hnc].
Qed.

End writer.

(** * Witnesses *)

Definition sample_event (seq : Z) : Event :=
  {| ID := ""; Destination := "orders"; Type_ := "order.paid"; Key := None; Payload := "{}";
     ContentType := ""; Headers := ∅; SchemaVersion := 0; CorrelationID := ""; CausationID := "";
     AvailableAt := None; OrderingKey := "k"; Sequence := seq; OrderingStartSequence := 0 |}.

Definition sample_enqueue (seq : Z) : tx * res string :=
  Enqueue (fun _ => None) (fun _ => "event"%string) (""%string, ""%string) NewWriter (Some 21%N)
    (sample_event seq) (begin_tx sample_ordered 7).

Lemma Enqueue_ordered_admission_witness :
  (sample_enqueue 5).2 = Ok "event"%string /\ (sample_enqueue 2).2 = Err ErrDuplicateSequence.
Proof.
  split; (unfold sample_enqueue; rewrite (Enqueue_ordered_admission (fun _ => None)
    (fun _ => "event"%string) (""%string, ""%string) NewWriter (Some 21%N) (sample_event _)
    (begin_tx sample_ordered 7) 21%N); [vm_compute; reflexivity|exact sample_ordered_inv|..];
    vm_compute; congruence).
Defined.

Lemma Enqueue_spec_witness :
  outbox_inv (tx_db (sample_enqueue 3).1) /\
  er_status <$> db_outbox (tx_db (sample_enqueue 3).1) !! 21%N = Some Pending.
Proof.
  split; [|vm_compute; reflexivity].
  refine (proj1 (Enqueue_spec (fun _ => None) (fun _ => "event"%string) (""%string, ""%string)
    NewWriter (Some 21%N) (sample_event 3) (begin_tx sample_ordered 7) _ "event"%string
    sample_ordered_inv _)).
  vm_compute. reflexivity.
Defined.

Lemma Enqueue_failure_witness :
  db_outbox (tx_db (sample_enqueue 2).1) = db_outbox sample_ordered.
Proof.
  refine (proj1 (Enqueue_failure (fun _ => None) (fun _ => "event"%string) (""%string, ""%string)
    NewWriter (Some 21%N) (sample_event 2) (begin_tx sample_ordered 7) _ ErrDuplicateSequence
    eq_refl _)).
  vm_compute. reflexivity.
Defined.

End Writer.
