(* ===== verification/Pages.v ===== *)
(** * Keyset pagination

    [SELECT ... WHERE key > cursor ORDER BY key LIMIT n] over a table whose rows
    have distinct keys: the pages, followed by their cursors, are the whole
    sorted table. Shared by the event, audit and stream listings. *)
From Stdlib Require Import ZArith.
From stdpp Require Import base list sorting.
From S2P Require Import Prelude.

Section pages.
Context {A K : Type} (key : A -> K) (R : relation K) `{!forall x y, Decision (R x y)}.
Context `{!EqDecision K}.

Definition by_key (a b : A) : Prop := R (key a) (key b).
#[local] Instance by_key_dec a b : Decision (by_key a b).
Proof. unfold by_key. apply _. Defined.

(** [ORDER BY key] and [ORDER BY key LIMIT n] *)
Definition order_by (l : list A) : list A := merge_sort by_key l.
Definition order_by_limit (n : nat) (l : list A) : list A := take n (order_by l).

(** The row comes strictly after the cursor. *)
Definition after (k : K) (a : A) : bool :=
  bool_decide (R k (key a)) && negb (bool_decide (key a = k)).

(** * Lemmas *)

Lemma order_by_Permutation l : order_by l ≡ₚ l.
Proof. apply merge_sort_Permutation. Qed.

Lemma length_order_by_limit n l : length (order_by_limit n l) = (n `min` length l)%nat.
Proof. unfold order_by_limit. by rewrite length_take, order_by_Permutation. Qed.

Lemma elem_of_order_by_limit x n l : x ∈ order_by_limit n l -> x ∈ l.
Proof.
  unfold order_by_limit. intros Hx. rewrite <- order_by_Permutation.
  rewrite <- (take_drop n). apply elem_of_app. by left.
Qed.

Context `{!Transitive R, !Total R, !AntiSymm (=) R}.

#[local] Instance by_key_trans : Transitive by_key.
Proof. intros a b c. unfold by_key. apply transitivity. Qed.
#[local] Instance by_key_total : Total by_key.
Proof. intros a b. unfold by_key. apply total, _. Qed.

Lemma order_by_sorted l : StronglySorted by_key (order_by l).
Proof. apply (StronglySorted_merge_sort by_key). Qed.

(** With distinct keys there is one sorted arrangement. *)
Lemma sorted_unique l1 l2 :
  NoDup (key <$> l1) -> l1 ≡ₚ l2 -> StronglySorted by_key l1 -> StronglySorted by_key l2 ->
  l1 = l2.
Proof.
  intros Hnd Hp H1. revert l2 Hp. induction H1 as [|a l1 Hs IH Ha]; intros l2 Hp H2.
  { by apply Permutation_nil in Hp. }
  destruct H2 as [|b l2 Hs2 Hb]; [by apply Permutation_nil_r in Hp|].
  rewrite fmap_cons, NoDup_cons in Hnd. destruct Hnd as [Hna Hnd].
  assert (a = b) as <-.
  { assert (b ∈ a :: l1) as Hbin by (rewrite Hp; left).
    apply elem_of_cons in Hbin as [->|Hbin]; [done|].
    assert (a ∈ b :: l2) as Hain by (rewrite <- Hp; left).
    apply elem_of_cons in Hain as [->|Hain]; [done|].
    rewrite Forall_forall in Ha, Hb. specialize (Ha b Hbin). specialize (Hb a Hain).
    unfold by_key in Ha, Hb. assert (key a = key b) as Hk by by apply (anti_symm R).
    destruct Hna. rewrite Hk. apply list_elem_of_fmap. eauto. }
  f_equal. apply IH; [done| |done]. by apply Permutation_cons_inv in Hp.
Qed.

Lemma NoDup_keys l l' : l ≡ₚ l' -> NoDup (key <$> l) -> NoDup (key <$> l').
Proof. by intros ->. Qed.

(** In a sorted list with distinct keys, what comes after the last of the first
    [n] rows is the rest. *)
Lemma filter_after_split l1 a l2 :
  StronglySorted by_key (l1 ++ a :: l2) -> NoDup (key <$> l1 ++ a :: l2) ->
  filter (fun x => after (key a) x = true) (l1 ++ a :: l2) = l2.
Proof.
  intros Hs Hnd. rewrite filter_app, filter_cons.
  rewrite StronglySorted_app in Hs. destruct Hs as (Hx & _ & Hs2).
  inversion Hs2 as [|? ? Hs2' Ha]; subst.
  rewrite fmap_app, NoDup_app in Hnd. destruct Hnd as (Hnd1 & Hd & Hnd2).
  rewrite fmap_cons, NoDup_cons in Hnd2. destruct Hnd2 as [Hna Hnd2].
  assert (filter (fun x => after (key a) x = true) l1 = []) as ->.
  { destruct (filter _ l1) as [|x l1'] eqn:E; [done|].
    assert (x ∈ filter (fun x => after (key a) x = true) l1) as Hf by (rewrite E; left).
    apply list_elem_of_filter in Hf as [Hax Hx1]. unfold after in Hax. bool_to_prop.
    assert (R (key x) (key a)) as Hr by (apply (Hx x a); [done|left]).
    by assert (key x = key a) by by apply (anti_symm R). }
  rewrite decide_False.
  2: { unfold after. rewrite (bool_decide_true (key a = key a)) by done.
       by rewrite andb_false_r. }
  cbn [app]. apply filter_all_length. rewrite Forall_forall in Ha |- *. intros x Hx2.
  unfold after. apply andb_true_iff. rewrite bool_decide_eq_true, negb_true_iff, bool_decide_eq_false.
  split; [by apply (Ha x Hx2)|]. intros Hk. apply Hna. rewrite <- Hk.
  apply list_elem_of_fmap. eauto.
Qed.

(** The rows after the cursor of a full page, sorted, are the remaining rows. *)
Lemma next_page l n last :
  NoDup (key <$> l) -> order_by l !! n = Some last ->
  order_by (filter (fun a => after (key last) a = true) l) = drop (S n) (order_by l).
Proof.
  intros Hnd Hl. apply list_elem_of_split_length in Hl as (l1 & l2 & Heq & Hn).
  pose proof (order_by_sorted l) as Hs. rewrite Heq in Hs.
  assert (NoDup (key <$> l1 ++ last :: l2)) as Hnd'.
  { rewrite <- Heq. by apply (NoDup_keys l); [symmetry; apply order_by_Permutation|]. }
  assert (drop (S n) (order_by l) = l2) as ->.
  { rewrite Heq, Hn. by rewrite drop_app_ge, Nat.sub_succ_l, Nat.sub_diag by lia. }
  assert (filter (fun a => after (key last) a = true) l ≡ₚ l2) as Hp.
  { rewrite <- (filter_after_split l1 last l2) by done. rewrite <- Heq.
    by rewrite order_by_Permutation. }
  apply sorted_unique.
  - rewrite order_by_Permutation, Hp. rewrite fmap_app, NoDup_app in Hnd'.
    destruct Hnd' as (_ & _ & Hnd'). by apply NoDup_cons in Hnd' as [_ ?].
  - by rewrite order_by_Permutation.
  - apply order_by_sorted.
  - rewrite StronglySorted_app in Hs. destruct Hs as (_ & _ & Hs). by inversion Hs.
Qed.

(** [LIMIT] leaves nothing out that comes before what it keeps. *)
Lemma order_by_limit_first n l x y :
  x ∈ order_by_limit n l -> y ∈ l -> y ∉ order_by_limit n l -> R (key x) (key y).
Proof.
  intros Hx Hy Hny. unfold order_by_limit in *.
  assert (y ∈ drop n (order_by l)) as Hd.
  { rewrite <- order_by_Permutation, <- (take_drop n) in Hy. by apply elem_of_app in Hy as [|]. }
  pose proof (order_by_sorted l) as Hs. rewrite <- (take_drop n) in Hs.
  apply StronglySorted_app in Hs as (Hs & _ & _). by apply Hs.
Qed.

End pages.
