(* ===== verification/AdminTypes.v ===== *)
(** * The administrative API's data ([internal/admin/types.go])

    Requests and results of the administrative service, and the opaque page
    cursors: JSON in unpadded URL-safe Base64. The JSON codec is a parameter;
    the encoding around it, its checks and its limits are the source's. *)
From Stdlib Require Import ZArith String.
From stdpp Require Import base gmap strings list.
From S2P Require Import Prelude GoStrings Base64 Schema.

Open Scope Z_scope.
Local Open Scope emitlane_scope.

Definition DefaultPageSize : Z := 50.
Definition MaxPageSize : Z := 200.
Definition MaxReplayBatch : Z := 1000.

(** The zero [time.Time], 1 January of year 1, counted from the Unix epoch. *)
Definition zero_time : time := -62135596800 * Second.
Definition IsZero (t : time) : bool := t =? zero_time.

Definition is_blank (s : string) : bool := bool_decide (TrimSpace s = ""%string).

Module Admin.

Record Event : Type := MkEvent {
  ID : uuid;
  Destination : string;
  Type_ : string;
  ContentType : string;
  SchemaVersion : Z;
  CorrelationID : string;
  CausationID : string;
  Status : string;
  Attempts : Z;
  AvailableAt : time;
  LeaseOwner : string;
  LeaseUntil : option time;
  LastError : string;
  CreatedAt : time;
  DeliveredAt : option time;
  PayloadSize : Z;
  ReplayedFromEventID : option uuid;
  ReplayBatchID : option uuid;
  OrderingKey : string;
  OrderingSequence : Z;
  OrderingPartition : option Z;
  KeyBase64 : option string;
  PayloadBase64 : option string;
  Headers : gmap string string;
}.

Record Cursor : Type := MkCursor { cur_CreatedAt : time; cur_ID : uuid }.

Record EventFilter : Type := MkEventFilter {
  f_Statuses : list string;
  f_Destination : string;
  f_EventType : string;
  f_CreatedFrom : option time;
  f_CreatedTo : option time;
  f_ReplayBatchID : option uuid;
  f_Cursor : option Cursor;
  f_Limit : Z;
}.

Definition HasSelector (f : EventFilter) : bool :=
  negb (bool_decide (f_Statuses f = [])) || negb (is_blank (f_Destination f))
  || negb (is_blank (f_EventType f)) || not_null (f_CreatedFrom f) || not_null (f_CreatedTo f)
  || not_null (f_ReplayBatchID f).

Record EventPage : Type := MkEventPage { Events : list Event; NextCursor : string }.

Record ControlState : Type := MkControlState {
  Paused : bool;
  Reason : string;
  UpdatedAt : time;
  UpdatedBy : string;
}.

Record AuditRecord : Type := MkAuditRecord {
  ar_ID : uuid;
  ar_Action : string;
  ar_Actor : string;
  ar_Reason : string;
  ar_RequestID : string;
  ar_TargetEventID : option uuid;
  ar_ReplayBatchID : option uuid;
  ar_Details : gmap string json;
  ar_CreatedAt : time;
}.

Record AuditFilter : Type := MkAuditFilter {
  af_Action : string;
  af_Cursor : option Cursor;
  af_Limit : Z;
}.

Record AuditPage : Type := MkAuditPage { Records : list AuditRecord; ap_NextCursor : string }.

Record Mutation : Type := MkMutation {
  mu_Actor : string;
  mu_Reason : string;
  mu_RequestID : string;
  mu_Traceparent : string;
  mu_Tracestate : string;
  mu_OrderingMode : string;
}.

Record ReplayPreview : Type := MkReplayPreview {
  pv_Count : Z;
  pv_Sample : list Event;
  pv_Limit : Z;
}.

Record ReplayResult : Type := MkReplayResult {
  rp_ReplayBatchID : uuid;
  rp_Created : Z;
  rp_EventIDs : list uuid;
}.

(** ** Cursors *)

(** Bytes the JSON decoder skips between values. *)
Definition json_space (b : N) : bool :=
  (N.eqb b 32 || N.eqb b 9 || N.eqb b 10 || N.eqb b 13)%N.
(** A further [Decode] returns [io.EOF]. *)
Definition at_EOF (rest : string) : bool := forallb json_space (bytes rest).

Section cursor.
(** [json.Marshal] of a cursor and [Decode] with unknown fields disallowed: the
    first value and the input after it. *)
Context (json_Marshal : Cursor -> string) (json_Decode : string -> option (Cursor * string)).

Definition EncodeCursor (c : Cursor) : res string :=
  fail_if IsZero (cur_CreatedAt c) || bool_decide (cur_ID c = uuid_Nil)
    with ErrAdminInvalid "cursor is incomplete";
  Ok (RawURLEncoding_EncodeToString (json_Marshal c)).

Definition DecodeCursor (value : string) : res (option Cursor) :=
  if is_blank value then Ok None else
  fail_if 1024 <? go_len value with ErrAdminInvalid "cursor is too long";
  match RawURLEncoding_DecodeString value with
  | None => Err (ErrAdminInvalid "malformed cursor")
  | Some raw =>
      match json_Decode raw with
      | None => Err (ErrAdminInvalid "malformed cursor")
      | Some (c, rest) =>
          fail_if IsZero (cur_CreatedAt c) || bool_decide (cur_ID c = uuid_Nil)
            with ErrAdminInvalid "malformed cursor";
          fail_if negb (at_EOF rest) with ErrAdminInvalid "malformed cursor";
          Ok (Some c)
      end
  end.

(** What the JSON codec is relied on for: a marshalled cursor is a single short
    value that decodes to the same instant and identifier. *)
Definition cursor_codec (c : Cursor) : Prop :=
  json_Decode (json_Marshal c) = Some (c, ""%string) /\
  0 < go_len (json_Marshal c) <= 768.

(** ** Round trip *)

Lemma is_blank_encoded raw :
  0 < go_len raw -> is_blank (RawURLEncoding_EncodeToString raw) = false.
Proof.
  intros Hr. apply bool_decide_eq_false. rewrite RawURL_no_space. intros He.
  pose proof (RawURL_length raw) as Hl. rewrite He in Hl. unfold go_len in Hr. cbn in Hl.
  Z.to_euclidean_division_equations. lia.
Qed.

Lemma DecodeCursor_EncodeCursor c :
  cursor_codec c -> IsZero (cur_CreatedAt c) = false -> cur_ID c <> uuid_Nil ->
  exists s, EncodeCursor c = Ok s /\ DecodeCursor s = Ok (Some c).
Proof.
  intros [Hc Hl] Ht Hi. exists (RawURLEncoding_EncodeToString (json_Marshal c)).
  assert (IsZero (cur_CreatedAt c) || bool_decide (cur_ID c = uuid_Nil) = false) as Hz
    by (rewrite Ht; by apply bool_decide_eq_false).
  unfold EncodeCursor, DecodeCursor. rewrite Hz. split; [done|].
  rewrite is_blank_encoded by lia.
  assert ((1024 <? go_len (RawURLEncoding_EncodeToString (json_Marshal c))) = false) as ->.
  { apply Z.ltb_ge. unfold go_len in *. rewrite RawURL_length.
    Z.to_euclidean_division_equations. lia. }
  by rewrite RawURL_round_trip, Hc, Hz.
Qed.

(** Only complete cursors are handed out. *)
Lemma EncodeCursor_ok c s :
  EncodeCursor c = Ok s -> IsZero (cur_CreatedAt c) = false /\ cur_ID c <> uuid_Nil.
Proof.
  unfold EncodeCursor. intros H. destruct_match H; [done|]. by bool_to_prop.
Qed.

End cursor.

End Admin.
