(* ===== verification/AdminStore.v ===== *)
(** * The administrative store ([storage/postgres/admin.go])

    Listings with keyset pages, and the audited mutations: pause and resume,
    retry of a dead event, replay of one event or of a selection. Every mutation
    is one transaction that also writes its audit row; [newV7] gives the
    identifiers it draws, in order. The limits are the positive ones the service
    has checked. *)
From Stdlib Require Import ZArith String.
From stdpp Require Import base gmap strings list sorting fin_maps.
From S2P Require Import Prelude GoStrings Base64 Ordering Schema Invariant Samples OutboxStore.
From S2P Require Import Tx Outbox AdminTypes Pages.

Open Scope Z_scope.
Local Open Scope emitlane_scope.

Definition HeaderOriginalOrderingKey : string := "emitlane-original-ordering-key".
Definition HeaderOriginalSequence : string := "emitlane-original-sequence".
Definition controlChannel : string := "emitlane_control".

(** The [status] column's text. *)
Definition status_text (s : outbox_status) : string :=
  match s with
  | Pending => "pending" | Inflight => "inflight" | Delivered => "delivered" | Dead => "dead"
  end.

Module AdminStore.
Import Admin.

(** ** Reads *)

Definition scanAdminEvent (r : event_row) (includeSensitive : bool) : Event :=
  let e := er_data r in
  {| ID := ed_id e; Destination := ed_destination e; Type_ := ed_event_type e;
     ContentType := ed_content_type e; SchemaVersion := ed_schema_version e;
     CorrelationID := deref (ed_correlation_id e); CausationID := deref (ed_causation_id e);
     Status := status_text (er_status r); Attempts := er_attempts r;
     AvailableAt := er_available_at r; LeaseOwner := deref (er_lease_owner r);
     LeaseUntil := er_lease_until r; LastError := deref (er_last_error r);
     CreatedAt := ed_created_at e; DeliveredAt := er_delivered_at r;
     PayloadSize := go_len (ed_payload e);
     ReplayedFromEventID := ed_replayed_from_event_id e; ReplayBatchID := ed_replay_batch_id e;
     OrderingKey := deref (ed_ordering_key e);
     OrderingSequence := default 0 (ed_ordering_sequence e);
     OrderingPartition := ed_ordering_partition e;
     KeyBase64 := if includeSensitive
                  then Some (StdEncoding_EncodeToString (deref (ed_message_key e))) else None;
     PayloadBase64 := if includeSensitive
                      then Some (StdEncoding_EncodeToString (ed_payload e)) else None;
     Headers := if includeSensitive then ed_headers e else ∅ |}.

(** [ORDER BY created_at DESC, id DESC] *)
Definition page_key (r : event_row) : Z * N := (ed_created_at (er_data r), ed_id (er_data r)).
Definition newest_first : relation (Z * N) := flip time_id_le.
#[global] Instance newest_first_dec a b : Decision (newest_first a b).
Proof. unfold newest_first. apply _. Defined.

Definition cursor_key (c : Cursor) : Z * N := (pg_time (cur_CreatedAt c), cur_ID c).

(** [eventWhere]: the conjunction of the clauses the filter switches on. *)
Definition eventWhere (f : EventFilter) (r : event_row) : bool :=
  (bool_decide (f_Statuses f = []) || bool_decide (status_text (er_status r) ∈ f_Statuses f))
  && (bool_decide (f_Destination f = ""%string)
      || bool_decide (ed_destination (er_data r) = f_Destination f))
  && (bool_decide (f_EventType f = ""%string)
      || bool_decide (ed_event_type (er_data r) = f_EventType f))
  && match f_CreatedFrom f with Some t => pg_time t <=? ed_created_at (er_data r) | None => true end
  && match f_CreatedTo f with Some t => ed_created_at (er_data r) <? pg_time t | None => true end
  && match f_ReplayBatchID f with
     | Some b => sql_eq (ed_replay_batch_id (er_data r)) b
     | None => true
     end
  && match f_Cursor f with
     | Some c => after page_key newest_first (cursor_key c) r
     | None => true
     end.

(** The text parameters of [eventWhere] are valid. *)
Definition filter_text_ok (f : EventFilter) : bool :=
  forallb pg_text_ok (f_Statuses f) && pg_text_ok (f_Destination f) && pg_text_ok (f_EventType f).

Definition matching (d : db) (f : EventFilter) : list event_row :=
  filter (fun r => eventWhere f r = true) (outbox_rows d).

Definition select_events (d : db) (f : EventFilter) (limit : Z) : list event_row :=
  order_by_limit page_key newest_first (Z.to_nat limit) (matching d f).

Section store.
Context (json_Marshal : Cursor -> string).

Definition normalizePageResult (events : list Event) (limit : Z) : res EventPage :=
  if Z.of_nat (length events) <=? limit then Ok {| Events := events; NextCursor := "" |} else
  match events !! (Z.to_nat limit - 1)%nat with
  | None => Err (ErrOther "index out of range")
  | Some last =>
      let! cursor := EncodeCursor json_Marshal
                       {| cur_CreatedAt := CreatedAt last; cur_ID := ID last |} in
      Ok {| Events := take (Z.to_nat limit) events; NextCursor := cursor |}
  end.

Definition ListEvents (d : db) (f : EventFilter) : res EventPage :=
  fail_if negb (filter_text_ok f) with ErrSQL InvalidText;
  normalizePageResult ((fun r => scanAdminEvent r false) <$> select_events d f (f_Limit f + 1))
    (f_Limit f).

Definition InspectEvent (d : db) (id : uuid) (includeSensitive : bool) : res Event :=
  match db_outbox d !! id with
  | Some r => Ok (scanAdminEvent r includeSensitive)
  | None => Err ErrAdminNotFound
  end.

Definition PreviewReplay (d : db) (f : EventFilter) (sampleLimit executionLimit : Z)
  : res ReplayPreview :=
  fail_if negb (filter_text_ok f) with ErrSQL InvalidText;
  Ok {| pv_Count := Z.of_nat (length (matching d f));
        pv_Sample := (fun r => scanAdminEvent r false) <$> select_events d f sampleLimit;
        pv_Limit := executionLimit |}.

Definition control_state (c : control_row) : ControlState :=
  {| Paused := cr_paused c; Reason := deref (cr_reason c); UpdatedAt := cr_updated_at c;
     UpdatedBy := cr_updated_by c |}.

Definition ControlState_ (d : db) : res ControlState :=
  match db_control d with Some c => Ok (control_state c) | None => Err ErrNoRows end.

(** ** [ListAudit] *)

Definition audit_key (a : audit_row) : Z * N := (au_created_at a, au_id a).

Definition audit_record (a : audit_row) : AuditRecord :=
  {| ar_ID := au_id a; ar_Action := au_action a; ar_Actor := au_actor a;
     ar_Reason := deref (au_reason a); ar_RequestID := deref (au_request_id a);
     ar_TargetEventID := au_target_event_id a; ar_ReplayBatchID := au_replay_batch_id a;
     ar_Details := au_details a; ar_CreatedAt := au_created_at a |}.

Definition auditWhere (f : AuditFilter) (a : audit_row) : bool :=
  (bool_decide (af_Action f = ""%string) || bool_decide (au_action a = af_Action f))
  && match af_Cursor f with
     | Some c => after audit_key newest_first (cursor_key c) a
     | None => true
     end.

Definition ListAudit (d : db) (f : AuditFilter) : res AuditPage :=
  fail_if negb (pg_text_ok (af_Action f)) with ErrSQL InvalidText;
  let limit := Z.to_nat (af_Limit f) in
  let records := audit_record <$>
    order_by_limit audit_key newest_first (S limit)
      (filter (fun a => auditWhere f a = true) (db_audit d)) in
  if (length records <=? limit)%nat
  then Ok {| Records := records; ap_NextCursor := "" |} else
  match records !! (limit - 1)%nat with
  | None => Err (ErrOther "index out of range")
  | Some last =>
      let! cursor := EncodeCursor json_Marshal
                       {| cur_CreatedAt := ar_CreatedAt last; cur_ID := ar_ID last |} in
      Ok {| Records := take limit records; ap_NextCursor := cursor |}
  end.

(** ** Audited mutations *)

Context (uuid_String : uuid -> string).
(** The results of the successive [newV7] calls of one operation. *)
Context (newV7 : nat -> option uuid).

Definition draw (n : nat) : txM uuid :=
  tx_lift (match newV7 n with Some id => Ok id | None => Err ErrGenerateID end).

(** [json.Marshal] writes the strings it is given as valid UTF-8. *)
Definition json_value (j : json) : json :=
  match j with
  | JString s => JString (json_string s)
  | JStrings l => JStrings (json_string <$> l)
  | j => j
  end.

Definition new_audit (id : uuid) (now : time) (action : string) (m : Mutation)
    (target batch : option uuid) (details : gmap string json) : audit_row :=
  {| au_id := id; au_action := action; au_actor := mu_Actor m;
     au_reason := Writer.nullString (mu_Reason m);
     au_request_id := Writer.nullString (mu_RequestID m);
     au_target_event_id := target; au_replay_batch_id := batch;
     au_details := json_value <$> details; au_created_at := now |}.

Definition insert_audit (id : uuid) (action : string) (m : Mutation) (target batch : option uuid)
    (details : gmap string json) (d : db) (now : time) : res (db * unit) :=
  let! d' := insert_audit_row d (new_audit id now action m target batch details) in Ok (d', tt).

Definition insertAudit (n : nat) (action : string) (m : Mutation) (target batch : option uuid)
    (details : gmap string json) : txM unit :=
  do id <- draw n;
  exec_sql (insert_audit id action m target batch details).

(** [UPDATE runtime_control SET paused, reason, updated_at, updated_by RETURNING] *)
Definition update_control (paused : bool) (m : Mutation) (d : db) (now : time)
  : res (db * ControlState) :=
  fail_if negb (pg_text_ok (mu_Reason m) && pg_text_ok (mu_Actor m)) with ErrSQL InvalidText;
  match db_control d with
  | None => Err ErrNoRows
  | Some _ =>
      fail_if negb (btrim_nonempty (mu_Actor m))
        with ErrSQL (CheckViolation "runtime_control_actor_check");
      let c := {| cr_paused := paused; cr_reason := Writer.nullString (mu_Reason m);
                  cr_updated_at := now; cr_updated_by := mu_Actor m |} in
      Ok (with_control d (Some c), control_state c)
  end.

Definition SetPaused (paused : bool) (m : Mutation) : txM ControlState :=
  do state <- exec_sql (update_control paused m);
  let action := if paused then "relay.pause"%string else "relay.resume"%string in
  do _ <- insertAudit 0 action m None None {[ "paused"%string := JBool paused ]};
  do _ <- pg_notify controlChannel action;
  tx_ret state.

(** [SELECT status ... FOR UPDATE] *)
Definition select_status (id : uuid) (d : db) (now : time) : res (db * option outbox_status) :=
  Ok (d, er_status <$> db_outbox d !! id).

Definition retried_row (now : time) (r : event_row) : event_row :=
  {| er_data := er_data r; er_status := Pending; er_attempts := 0; er_available_at := now;
     er_lease_owner := None; er_lease_until := None; er_last_error := None;
     er_delivered_at := None |}.

Definition update_retried (id : uuid) (d : db) (now : time) : res (db * unit) :=
  Ok ((update_event d now id (fun _ => true) (retried_row now)).1, tt).

Definition RetryDeadAudited (id : uuid) (m : Mutation) : txM unit :=
  do status <- exec_sql (select_status id);
  match status with
  | None => tx_fail ErrAdminNotFound
  | Some status =>
      do_fail_if negb (bool_decide (status = Dead)) 
        with ErrAdminConflict ("event " +:+ uuid_String id +:+ " is " +:+ status_text status +:+ ", not dead");
      do _ <- exec_sql (update_retried id);
      do _ <- insertAudit 0 "event.retry" m (Some id) None
                {[ "from_status"%string := JString "dead" ]};
      pg_notify notifyChannel (uuid_String id)
  end.

(** [replaySource] and [scanReplaySource]: the columns a replay copies. *)
Record replaySource : Type := MkReplaySource {
  rs_ID : uuid;
  rs_Destination : string;
  rs_EventType : string;
  rs_MessageKey : option string;
  rs_Payload : string;
  rs_ContentType : string;
  rs_Headers : gmap string string;
  rs_SchemaVersion : Z;
  rs_CorrelationID : option string;
  rs_CausationID : option string;
  rs_OrderingKey : option string;
  rs_OrderingSequence : option Z;
  rs_OrderingPartition : option Z;
}.

Definition scanReplaySource (r : event_row) : replaySource :=
  let e := er_data r in
  {| rs_ID := ed_id e; rs_Destination := ed_destination e; rs_EventType := ed_event_type e;
     rs_MessageKey := ed_message_key e; rs_Payload := ed_payload e;
     rs_ContentType := ed_content_type e; rs_Headers := ed_headers e;
     rs_SchemaVersion := ed_schema_version e; rs_CorrelationID := ed_correlation_id e;
     rs_CausationID := ed_causation_id e; rs_OrderingKey := ed_ordering_key e;
     rs_OrderingSequence := ed_ordering_sequence e;
     rs_OrderingPartition := ed_ordering_partition e |}.

(** The headers of a clone: an ordered source leaves its provenance there. *)
Definition replay_headers (s : replaySource) : gmap string string :=
  match rs_OrderingKey s with
  | None => rs_Headers s
  | Some key =>
      let values := <[HeaderOriginalOrderingKey := key]> (rs_Headers s) in
      let values := match rs_OrderingSequence s with
                    | Some n => <[HeaderOriginalSequence := Itoa n]> values
                    | None => values
                    end in
      headers_json values
  end.

Definition replay_row (s : replaySource) (eventID batchID : uuid) (m : Mutation) (now : time)
  : event_row :=
  {| er_data :=
       {| ed_id := eventID; ed_destination := rs_Destination s; ed_event_type := rs_EventType s;
          ed_message_key := rs_MessageKey s; ed_payload := rs_Payload s;
          ed_content_type := rs_ContentType s; ed_headers := replay_headers s;
          ed_schema_version := rs_SchemaVersion s; ed_correlation_id := rs_CorrelationID s;
          ed_causation_id := rs_CausationID s;
          ed_traceparent := Writer.nullString (mu_Traceparent m);
          ed_tracestate := Writer.nullString (mu_Tracestate m);
          ed_created_at := now; ed_replayed_from_event_id := Some (rs_ID s);
          ed_replay_batch_id := Some batchID; ed_ordering_key := None;
          ed_ordering_sequence := None; ed_ordering_partition := None |};
     er_status := Pending; er_attempts := 0; er_available_at := now; er_lease_owner := None;
     er_lease_until := None; er_last_error := None; er_delivered_at := None |}.

Definition insert_replay (s : replaySource) (eventID batchID : uuid) (m : Mutation) (d : db)
    (now : time) : res (db * unit) :=
  let! d' := insert_event d (replay_row s eventID batchID m now) in Ok (d', tt).

Definition cloneReplay (s : replaySource) (eventID batchID : uuid) (m : Mutation) : txM unit :=
  do_fail_if not_null (rs_OrderingKey s)
             && negb (bool_decide (mu_OrderingMode m = "unordered"%string))
    with ErrAdminConflict ("ordered event " +:+ uuid_String (rs_ID s) +:+ " requires ordering_mode=unordered");
  exec_sql (insert_replay s eventID batchID m).

Definition replayable (s : outbox_status) : bool :=
  bool_decide (s = Delivered) || bool_decide (s = Dead).

(** [SELECT ... WHERE id = $1 AND status IN ('delivered', 'dead') FOR SHARE] *)
Definition select_replay_source (id : uuid) (d : db) (now : time)
  : res (db * option replaySource) :=
  Ok (d, match db_outbox d !! id with
         | Some r => if replayable (er_status r) then Some (scanReplaySource r) else None
         | None => None
         end).

Definition ReplayEvent (sourceID : uuid) (m : Mutation) : txM ReplayResult :=
  do found <- exec_sql (select_replay_source sourceID);
  match found with
  | None =>
      do status <- exec_sql (select_status sourceID);
      match status with
      | None => tx_fail ErrAdminNotFound
      | Some status =>
          tx_fail (ErrAdminConflict ("event " +:+ uuid_String sourceID +:+ " is " +:+ status_text status))
      end
  | Some source =>
      do eventID <- draw 0;
      do batchID <- draw 1;
      do _ <- cloneReplay source eventID batchID m;
      do _ <- insertAudit 2 "event.replay" m (Some sourceID) (Some batchID)
                (<[ "new_event_id"%string := JString (uuid_String eventID) ]>
                 (<[ "count"%string := JInt 1 ]>
                  {[ "ordering_mode"%string := JString (mu_OrderingMode m) ]}));
      do _ <- pg_notify notifyChannel (uuid_String eventID);
      tx_ret {| rp_ReplayBatchID := batchID; rp_Created := 1; rp_EventIDs := [eventID] |}
  end.

(** [SELECT ... WHERE <filter> ORDER BY created_at DESC, id DESC LIMIT $n FOR SHARE] *)
Definition select_replay_sources (f : EventFilter) (n : Z) (d : db) (now : time)
  : res (db * list replaySource) :=
  fail_if negb (filter_text_ok f) with ErrSQL InvalidText;
  Ok (d, scanReplaySource <$> select_events d f n).

(** The loop over the sources; the event identifiers are calls [n], [n+1], ... *)
Fixpoint clone_all (n : nat) (sources : list replaySource) (batchID : uuid) (m : Mutation)
  : txM (list uuid) :=
  match sources with
  | [] => tx_ret []
  | source :: sources =>
      do eventID <- draw n;
      do _ <- cloneReplay source eventID batchID m;
      do rest <- clone_all (S n) sources batchID m;
      tx_ret (eventID :: rest)
  end.

Definition ReplayBatch (f : EventFilter) (m : Mutation) (limit : Z) : txM ReplayResult :=
  do sources <- exec_sql (select_replay_sources f (limit + 1));
  do_fail_if bool_decide (sources = []) with ErrAdminNotFound;
  do_fail_if limit <? Z.of_nat (length sources)
    with ErrAdminConflict ("replay selector exceeds " +:+ Itoa limit +:+ " events");
  do batchID <- draw 0;
  do eventIDs <- clone_all 1 sources batchID m;
  let count := Z.of_nat (length eventIDs) in
  do _ <- insertAudit (S (length eventIDs)) "replay.batch" m None (Some batchID)
            (<[ "count"%string := JInt count ]>
             (<[ "statuses"%string := JStrings (f_Statuses f) ]>
              (<[ "destination"%string := JString (f_Destination f) ]>
               (<[ "event_type"%string := JString (f_EventType f) ]>
                {[ "ordering_mode"%string := JString (mu_OrderingMode m) ]}))));
  do _ <- pg_notify notifyChannel (uuid_String batchID);
  tx_ret {| rp_ReplayBatchID := batchID; rp_Created := count; rp_EventIDs := eventIDs |}.

(** * Lemmas *)

(** ** What successful statements did *)

Lemma draw_ok n t t' id : draw n t = (t', Ok id) -> t' = t /\ newV7 n = Some id.
Proof. unfold draw, tx_lift. destruct (newV7 n); intros H; by simplify_eq. Qed.

Lemma insert_audit_row_ok d a d' :
  insert_audit_row d a = Ok d' ->
  d' = with_audit d (db_audit d ++ [a]) /\ btrim_nonempty (au_actor a) = true /\
  forall b, b ∈ db_audit d -> au_id b <> au_id a.
Proof.
  unfold insert_audit_row. intros H. repeat (destruct_match H; [done|]). bool_to_prop.
  simplify_eq. split_and!; [done..|]. intros b Hb Hid.
  assert (existsb (fun b => bool_decide (au_id b = au_id a)) (db_audit d) = true); [|congruence].
  apply existsb_exists. exists b. split; [by apply list_elem_of_In|by apply bool_decide_eq_true].
Qed.

(** A successful [insertAudit] appended one audit row and did nothing else. *)
Lemma insertAudit_ok n action m target batch details t t' u :
  insertAudit n action m target batch details t = (t', Ok u) ->
  tx_aborted t = false /\ exists id, newV7 n = Some id /\
    t' = set_db t (with_audit (tx_db t) (db_audit (tx_db t) ++
                     [new_audit id (tx_now t) action m target batch details])) /\
    forall b, b ∈ db_audit (tx_db t) -> au_id b <> id.
Proof.
  unfold insertAudit. intros H. apply tx_bind_ok in H as (t1 & id & Hd & H).
  apply draw_ok in Hd as [-> Hn]. apply exec_sql_ok in H as (Ha & d & H & ->).
  split; [done|]. exists id. split; [done|]. unfold insert_audit in H.
  apply result_bind_ok in H as (d1 & H1 & H). simplify_eq.
  apply insert_audit_row_ok in H1 as (-> & _ & Hid). done.
Qed.

Lemma replay_row_unordered s eventID batchID m now :
  stream_position (er_data (replay_row s eventID batchID m now)) = None.
Proof. done. Qed.

Lemma cloneReplay_ok s eventID batchID m t t' u :
  cloneReplay s eventID batchID m t = (t', Ok u) ->
  tx_aborted t = false /\ (rs_OrderingKey s <> None -> mu_OrderingMode m = "unordered"%string) /\
  db_outbox (tx_db t) !! eventID = None /\
  insert_event (tx_db t) (replay_row s eventID batchID m (tx_now t)) = Ok (tx_db t') /\
  t' = set_db t (with_outbox (tx_db t)
         (<[eventID := replay_row s eventID batchID m (tx_now t)]> (db_outbox (tx_db t)))).
Proof.
  unfold cloneReplay. intros H. destruct_match H; [done|].
  apply exec_sql_ok in H as (Ha & d & H & ->). unfold insert_replay in H.
  apply result_bind_ok in H as (d1 & H1 & H). simplify_eq.
  pose proof (insert_event_ok _ _ _ H1) as (_ & _ & _ & Hn & _ & ->).
  split_and!; try done. intros Ho. apply andb_false_iff in Heqb as [Hb|Hb].
  - by destruct (rs_OrderingKey s).
  - by bool_to_prop.
Qed.

(** The outbox after the clones [ids] of [sources]. *)
Definition add_clones (batchID : uuid) (m : Mutation) (now : time)
    (pairs : list (uuid * replaySource)) (t : gmap uuid event_row) : gmap uuid event_row :=
  foldl (fun t p => <[p.1 := replay_row p.2 p.1 batchID m now]> t) t pairs.

Lemma add_clones_notin batchID m now pairs t i :
  i ∉ pairs.*1 -> add_clones batchID m now pairs t !! i = t !! i.
Proof.
  revert t. induction pairs as [|[id s] pairs IH]; intros t Hi; [done|].
  rewrite fmap_cons, not_elem_of_cons in Hi. destruct Hi as [Hne Hi].
  change (add_clones batchID m now pairs (<[id := replay_row s id batchID m now]> t) !! i = t !! i).
  rewrite IH by done. by apply lookup_insert_ne.
Qed.

Lemma add_clones_in batchID m now pairs t i s :
  NoDup pairs.*1 -> (i, s) ∈ pairs ->
  add_clones batchID m now pairs t !! i = Some (replay_row s i batchID m now).
Proof.
  revert t. induction pairs as [|[id s'] pairs IH]; intros t Hnd Hin; [by apply elem_of_nil in Hin|].
  rewrite fmap_cons, NoDup_cons in Hnd. destruct Hnd as [Hid Hnd].
  apply elem_of_cons in Hin as [Heq|Hin]; [simplify_eq|by apply IH].
  change (add_clones batchID m now pairs (<[id := replay_row s' id batchID m now]> t) !! id
          = Some (replay_row s' id batchID m now)).
  rewrite add_clones_notin by done. by rewrite lookup_insert_eq.
Qed.

Lemma clone_all_ok n sources batchID m t t' ids :
  clone_all n sources batchID m t = (t', Ok ids) -> tx_aborted t = false ->
  length ids = length sources /\ NoDup ids /\
  (forall i, i ∈ ids -> db_outbox (tx_db t) !! i = None) /\
  (forall s, s ∈ sources -> rs_OrderingKey s <> None -> mu_OrderingMode m = "unordered"%string) /\
  t' = set_db t (with_outbox (tx_db t)
         (add_clones batchID m (tx_now t) (zip ids sources) (db_outbox (tx_db t)))) /\
  (db_inv (tx_db t) -> db_inv (tx_db t')).
Proof.
  revert n t t' ids. induction sources as [|s sources IH]; intros n t t' ids H Ha; cbn [clone_all] in H.
  { injection H as <- <-. split_and!; [done|constructor|..|done].
    - intros i Hi. by apply elem_of_nil in Hi.
    - intros s Hs. by apply elem_of_nil in Hs.
    - by destruct t as [[] ? ? ?]. }
  apply tx_bind_ok in H as (t1 & id & Hd & H). apply draw_ok in Hd as [-> _].
  apply tx_bind_ok in H as (t2 & u & Hc & H).
  apply cloneReplay_ok in Hc as (_ & Hm & Hn & Hins & Ht2).
  apply tx_bind_ok in H as (t3 & rest & Hr & H). injection H as <- <-. subst t2.
  apply IH in Hr as (Hlen & Hnd & Hfresh & Hmode & -> & Hinv); [|done].
  assert (db_inv (tx_db t) -> db_inv (with_outbox (tx_db t)
    (<[id := replay_row s id batchID m (tx_now t)]> (db_outbox (tx_db t))))) as Hinv1.
  { intros Hi. apply (db_inv_outbox (tx_db t)); [apply same_but_outbox_with|done|].
    eapply insert_event_inv; [apply Hi|exact Hins|]. by rewrite replay_row_unordered. }
  cbn [tx_db set_db with_outbox db_outbox tx_now] in *.
  split_and!.
  - cbn [length]. by rewrite Hlen.
  - constructor; [|done]. intros Hin. specialize (Hfresh id Hin). by rewrite lookup_insert_eq in Hfresh.
  - intros i [->|Hi]%elem_of_cons; [done|]. specialize (Hfresh i Hi).
    rewrite lookup_insert in Hfresh. by case_decide.
  - intros s' [->|Hs]%elem_of_cons; [done|by apply Hmode].
  - done.
  - intros Hi. by apply Hinv, Hinv1.
Qed.

(** ** Successful mutations *)

Lemma update_control_ok paused m d now d' state :
  update_control paused m d now = Ok (d', state) ->
  exists c0 c, db_control d = Some c0 /\ d' = with_control d (Some c) /\
    cr_paused c = paused /\ cr_updated_by c = mu_Actor m /\ cr_updated_at c = now /\
    state = control_state c /\ deref (cr_reason c) = mu_Reason m.
Proof.
  unfold update_control. intros H. destruct_match H; [done|].
  destruct (db_control d) as [c0|] eqn:Ec; [|done]. destruct_match H; [done|]. simplify_eq.
  eexists c0, _. split_and!; try done. cbn. unfold Writer.nullString.
  destruct (Writer.is_empty (mu_Reason m)) eqn:E; [|done].
  by apply Writer.is_empty_true in E as ->.
Qed.

Lemma SetPaused_ok paused m d now d' ns state :
  run_tx d now (SetPaused paused m) = (d', ns, Ok state) ->
  exists c id, is_Some (db_control d) /\ newV7 0 = Some id /\
    cr_paused c = paused /\ cr_updated_by c = mu_Actor m /\ deref (cr_reason c) = mu_Reason m /\
    cr_updated_at c = now /\ state = control_state c /\
    d' = with_audit (with_control d (Some c)) (db_audit d ++
           [new_audit id now (if paused then "relay.pause" else "relay.resume")%string m None None
              {[ "paused"%string := JBool paused ]}]) /\
    ns = [(controlChannel, if paused then "relay.pause" else "relay.resume")%string].
Proof.
  intros H. apply run_tx_ok in H as (t & H & -> & ->). unfold SetPaused in H.
  apply tx_bind_ok in H as (t1 & st & H1 & H). apply exec_sql_ok in H1 as (_ & d1 & H1 & ->).
  apply update_control_ok in H1 as (c0 & c & Hc & -> & Hp & Hb & Ht & -> & Hr).
  apply tx_bind_ok in H as (t2 & u & H2 & H). apply insertAudit_ok in H2 as (_ & id & Hid & -> & _).
  apply tx_bind_ok in H as (t3 & u' & H3 & H). apply pg_notify_ok in H3 as (_ & ->).
  injection H as <- <-. exists c, id. split_and!; eauto.
Qed.

Lemma RetryDeadAudited_ok id m d now d' ns u :
  run_tx d now (RetryDeadAudited id m) = (d', ns, Ok u) ->
  exists r aid, db_outbox d !! id = Some r /\ er_status r = Dead /\ newV7 0 = Some aid /\
    d' = with_audit (with_outbox d (<[id := retried_row now r]> (db_outbox d))) (db_audit d ++
           [new_audit aid now "event.retry" m (Some id) None
              {[ "from_status"%string := JString "dead" ]}]) /\
    ns = [(notifyChannel, uuid_String id)].
Proof.
  intros H. apply run_tx_ok in H as (t & H & -> & ->). unfold RetryDeadAudited in H.
  apply tx_bind_ok in H as (t1 & st & H1 & H). apply exec_sql_ok in H1 as (_ & d1 & H1 & ->).
  unfold select_status in H1. injection H1 as <- <-. cbn [begin_tx tx_db] in H.
  destruct (db_outbox d !! id) as [r|] eqn:Er; cbn [fmap option_fmap option_map] in H; [|done].
  destruct_match H; [done|]. bool_to_prop.
  apply tx_bind_ok in H as (t2 & u1 & H2 & H). apply exec_sql_ok in H2 as (_ & d2 & H2 & ->).
  unfold update_retried, update_event in H2. cbn [begin_tx set_db tx_db tx_now] in H2.
  rewrite Er, guard_not_leasing in H2 by done. cbn in H2. injection H2 as <-.
  apply tx_bind_ok in H as (t3 & u2 & H3 & H). apply insertAudit_ok in H3 as (_ & aid & Hid & -> & _).
  apply pg_notify_ok in H as (_ & ->). exists r, aid. by split_and!.
Qed.

Lemma select_replay_source_ok id d now d' o :
  select_replay_source id d now = Ok (d', o) ->
  d' = d /\ forall s, o = Some s ->
    exists r, db_outbox d !! id = Some r /\ replayable (er_status r) = true /\ s = scanReplaySource r.
Proof.
  unfold select_replay_source. intros [= <- <-]. split; [done|]. intros s Hs.
  destruct (db_outbox d !! id) as [r|]; [|done]. destruct (replayable (er_status r)) eqn:E; [|done].
  simplify_eq. eauto.
Qed.

Lemma ReplayEvent_ok id m d now d' ns result :
  run_tx d now (ReplayEvent id m) = (d', ns, Ok result) ->
  exists r aid eventID batchID details, db_outbox d !! id = Some r /\
    replayable (er_status r) = true /\ db_outbox d !! eventID = None /\
    (ed_ordering_key (er_data r) <> None -> mu_OrderingMode m = "unordered"%string) /\
    result = {| rp_ReplayBatchID := batchID; rp_Created := 1; rp_EventIDs := [eventID] |} /\
    d' = with_audit (with_outbox d (add_clones batchID m now [(eventID, scanReplaySource r)]
                                      (db_outbox d)))
           (db_audit d ++ [new_audit aid now "event.replay" m (Some id) (Some batchID) details]) /\
    ns = [(notifyChannel, uuid_String eventID)] /\ (db_inv d -> db_inv d').
Proof.
  intros H. apply run_tx_ok in H as (t & H & -> & ->). unfold ReplayEvent in H.
  apply tx_bind_ok in H as (t1 & found & H1 & H). apply exec_sql_ok in H1 as (_ & d1 & H1 & ->).
  apply select_replay_source_ok in H1 as [-> Hs]. cbn [begin_tx tx_db] in H.
  destruct found as [source|].
  2: { apply tx_bind_ok in H as (t2 & st & H2 & H). by destruct st. }
  destruct (Hs source eq_refl) as (r & Hr & Hst & ->). clear Hs.
  apply tx_bind_ok in H as (t2 & eventID & H2 & H). apply draw_ok in H2 as [-> _].
  apply tx_bind_ok in H as (t2 & batchID & H2 & H). apply draw_ok in H2 as [-> _].
  apply tx_bind_ok in H as (t2 & u & H2 & H).
  apply cloneReplay_ok in H2 as (_ & Hm & Hn & Hins & ->).
  apply tx_bind_ok in H as (t3 & u2 & H3 & H). apply insertAudit_ok in H3 as (_ & aid & _ & -> & _).
  apply tx_bind_ok in H as (t4 & u3 & H4 & H). apply pg_notify_ok in H4 as (_ & ->).
  injection H as <- <-. exists r, aid, eventID, batchID. eexists. split_and!; try done.
  intros Hinv. cbn [commit_tx tx_aborted tx_db set_db begin_tx].
  assert (outbox_inv (with_outbox d (<[eventID := replay_row (scanReplaySource r) eventID batchID m now]>
            (db_outbox d)))) as Ho.
  { eapply insert_event_inv; [apply Hinv|exact Hins|]. by rewrite replay_row_unordered. }
  split; [|eapply partition_inv_frame; [..|apply Hinv]; done
          |eapply inbox_inv_frame; [|apply Hinv]; done].
  eapply outbox_inv_frame; [..|exact Ho]; done.
Qed.

Lemma ReplayBatch_ok f m limit d now d' ns result :
  run_tx d now (ReplayBatch f m limit) = (d', ns, Ok result) ->
  exists sources aid ids batchID details,
    filter_text_ok f = true /\ sources = select_events d f (limit + 1) /\
    sources <> [] /\ Z.of_nat (length sources) <= limit /\
    length ids = length sources /\ NoDup ids /\ (forall i, i ∈ ids -> db_outbox d !! i = None) /\
    (forall r, r ∈ sources -> ed_ordering_key (er_data r) <> None ->
               mu_OrderingMode m = "unordered"%string) /\
    result = {| rp_ReplayBatchID := batchID; rp_Created := Z.of_nat (length ids);
                rp_EventIDs := ids |} /\
    d' = with_audit (with_outbox d (add_clones batchID m now (zip ids (scanReplaySource <$> sources))
                                      (db_outbox d)))
           (db_audit d ++ [new_audit aid now "replay.batch" m None (Some batchID) details]) /\
    ns = [(notifyChannel, uuid_String batchID)] /\ (db_inv d -> db_inv d').
Proof.
  intros H. apply run_tx_ok in H as (t & H & -> & ->). unfold ReplayBatch in H.
  apply tx_bind_ok in H as (t1 & sources & H1 & H). apply exec_sql_ok in H1 as (_ & d1 & H1 & ->).
  unfold select_replay_sources in H1. destruct_match H1; [done|]. bool_to_prop.
  injection H1 as <- <-. cbn [begin_tx tx_db] in H. set (rows := select_events d f (limit + 1)) in *.
  destruct_match H; [done|]. destruct_match H; [done|]. bool_to_prop.
  apply tx_bind_ok in H as (t2 & batchID & H2 & H). apply draw_ok in H2 as [-> _].
  apply tx_bind_ok in H as (t2 & ids & H2 & H).
  apply clone_all_ok in H2 as (Hlen & Hnd & Hfresh & Hmode & -> & Hinv1); [|done].
  apply tx_bind_ok in H as (t3 & u2 & H3 & H). apply insertAudit_ok in H3 as (_ & aid & _ & -> & _).
  apply tx_bind_ok in H as (t4 & u3 & H4 & H). apply pg_notify_ok in H4 as (_ & ->).
  injection H as <- <-. rewrite length_fmap in *.
  exists rows, aid, ids, batchID. eexists. split_and!; try done.
  - intros He. by rewrite He in Heqb0.
  - intros r Hr. apply (Hmode (scanReplaySource r)). apply list_elem_of_fmap. eauto.
  - intros Hinv. specialize (Hinv1 Hinv) as [Ho Hp Hi].
    split; [eapply outbox_inv_frame; [..|exact Ho]; done
           |eapply partition_inv_frame; [..|exact Hp]; done
           |eapply inbox_inv_frame; [|exact Hi]; done].
Qed.

End store.

End AdminStore.
