(* ===== verification/OrderingAdmin.v ===== *)
(** * The operator's view of ordered delivery ([storage/postgres/ordering_admin.go])

    The state of every stream and partition as the administrative API and the
    statistics report it. Durations that the source reads as seconds in a float
    are kept as durations; text is ordered bytewise. *)
From Stdlib Require Import ZArith String.
From stdpp Require Import base gmap strings list sorting fin_maps.
From S2P Require Import Prelude GoStrings Base64 Ordering Schema Invariant Samples OutboxStore.
From S2P Require Import OrderedStore PartitionStore Presence AdminTypes Pages AdminStore.

Open Scope Z_scope.
Local Open Scope emitlane_scope.

Module OrderingAdmin.

(** ** Types ([internal/admin/types.go]) *)

Record OrderingStreamCursor : Type := MkStreamCursor {
  sc_Destination : string;
  sc_OrderingKey : string;
}.

Record OrderingStream : Type := MkOrderingStream {
  os_Destination : string;
  os_OrderingKey : string;
  os_Partition : Z;
  os_StartSequence : Z;
  os_NextSequence : Z;
  os_State : string;
  os_NextEventID : option uuid;
  os_NextEventStatus : string;
  os_NextEventAttempts : Z;
  os_LowestFutureSequence : option Z;
  os_GapSize : Z;
  os_GapAge : duration;
  os_UpdatedAt : time;
}.

Record OrderingStreamFilter : Type := MkStreamFilter {
  sf_State : string;
  sf_Destination : string;
  sf_Partition : option Z;
  sf_BlockedOnly : bool;
  sf_Limit : Z;
  sf_Cursor : option OrderingStreamCursor;
}.

Record OrderingStreamPage : Type := MkStreamPage {
  sp_Streams : list OrderingStream;
  sp_NextCursor : string;
}.

Record OrderingPartition : Type := MkOrderingPartition {
  op_PartitionID : Z;
  op_DesiredOwner : string;
  op_ActualOwner : string;
  op_Epoch : Z;
  op_LeaseUntil : option time;
  op_HandoffNotBefore : option time;
  op_State : string;
}.

(** ** [orderingStateSelect] *)

(** The event belongs to the stream and its sequence satisfies [P]. *)
Definition in_stream (k : string * string) (P : Z -> bool) (r : event_row) : bool :=
  bool_decide (ed_destination (er_data r) = k.1)
  && sql_eq (ed_ordering_key (er_data r)) k.2
  && match ed_ordering_sequence (er_data r) with Some n => P n | None => false end.

(** [ORDER BY ordering_sequence LIMIT 1] *)
Definition lower_sequence (a b : event_row) : bool :=
  default 0 (ed_ordering_sequence (er_data a)) <=? default 0 (ed_ordering_sequence (er_data b)).
Definition first_event (rows : list event_row) : option event_row :=
  foldr (fun r best => match best with
                       | Some b => if lower_sequence r b then Some r else best
                       | None => Some r
                       end) None rows.

Definition next_event (d : db) (k : string * string) (s : stream_row) : option event_row :=
  first_event (filter (fun r => in_stream k (Z.eqb (sr_next_sequence s)) r = true) (outbox_rows d)).
Definition future_event (d : db) (k : string * string) (s : stream_row) : option event_row :=
  first_event (filter (fun r => in_stream k (Z.ltb (sr_next_sequence s)) r = true) (outbox_rows d)).

Definition stream_state (now : time) (next future : option event_row) : string :=
  match next with
  | Some r =>
      match er_status r with
      | Dead => "dead_blocked"
      | Inflight => "inflight"
      | Pending => if now <? er_available_at r then "retry_wait" else "ready"
      | Delivered => "ready"
      end
  | None => if not_null future then "gap" else "ready"
  end.

Definition orderingStateSelect (d : db) (now : time) (k : string * string) (s : stream_row)
  : OrderingStream :=
  let next := next_event d k s in
  let future := future_event d k s in
  let lowest := future ≫= (fun r => ed_ordering_sequence (er_data r)) in
  {| os_Destination := k.1; os_OrderingKey := k.2; os_Partition := sr_partition_id s;
     os_StartSequence := sr_start_sequence s; os_NextSequence := sr_next_sequence s;
     os_State := stream_state now next future;
     os_NextEventID := (fun r => ed_id (er_data r)) <$> next;
     os_NextEventStatus := deref (status_text ∘ er_status <$> next);
     os_NextEventAttempts := default 0 (er_attempts <$> next);
     os_LowestFutureSequence := lowest;
     os_GapSize := match lowest with Some n => n - sr_next_sequence s | None => 0 end;
     os_GapAge := match next, future with
                  | None, Some r => Z.max 0 (now - ed_created_at (er_data r))
                  | _, _ => 0
                  end;
     os_UpdatedAt := sr_updated_at s |}.

Definition stream_states (d : db) (now : time) : list OrderingStream :=
  (fun ks => orderingStateSelect d now ks.1 ks.2) <$> map_to_list (db_streams d).

(** ** [ListOrderingStreams] *)

Definition stream_key (s : OrderingStream) : string * string := (os_Destination s, os_OrderingKey s).

(** [ORDER BY destination, ordering_key] *)
Definition pair_le (a b : string * string) : Prop :=
  String.ltb a.1 b.1 || (bool_decide (a.1 = b.1) && negb (String.ltb b.2 a.2)) = true.
#[global] Instance pair_le_dec a b : Decision (pair_le a b).
Proof. unfold pair_le. apply _. Defined.

Definition blocked_state (s : string) : bool :=
  bool_decide (s ∈ ["retry_wait"; "gap"; "dead_blocked"]%string).

Definition streamWhere (f : OrderingStreamFilter) (s : OrderingStream) : bool :=
  (bool_decide (sf_State f = ""%string) || bool_decide (os_State s = sf_State f))
  && (bool_decide (sf_Destination f = ""%string)
      || bool_decide (os_Destination s = sf_Destination f))
  && match sf_Partition f with Some p => os_Partition s =? p | None => true end
  && (negb (sf_BlockedOnly f) || blocked_state (os_State s))
  && match sf_Cursor f with
     | Some c => after stream_key pair_le (sc_Destination c, sc_OrderingKey c) s
     | None => true
     end.

Definition stream_filter_text_ok (f : OrderingStreamFilter) : bool :=
  pg_text_ok (sf_State f) && pg_text_ok (sf_Destination f)
  && match sf_Cursor f with
     | Some c => pg_text_ok (sc_Destination c) && pg_text_ok (sc_OrderingKey c)
     | None => true
     end.

Section cursors.
(** The JSON codec, as for the event cursors. *)
Context (json_Marshal : OrderingStreamCursor -> string).
Context (json_Decode : string -> option (OrderingStreamCursor * string)).

Definition EncodeOrderingStreamCursor (c : OrderingStreamCursor) : res string :=
  fail_if is_blank (sc_Destination c) || is_blank (sc_OrderingKey c)
    with ErrAdminInvalid "ordering stream cursor is incomplete";
  Ok (RawURLEncoding_EncodeToString (json_Marshal c)).

Definition DecodeOrderingStreamCursor (value : string) : res (option OrderingStreamCursor) :=
  if is_blank value then Ok None else
  fail_if 4096 <? go_len value with ErrAdminInvalid "ordering stream cursor is too long";
  match RawURLEncoding_DecodeString value with
  | None => Err (ErrAdminInvalid "malformed ordering stream cursor")
  | Some raw =>
      match json_Decode raw with
      | None => Err (ErrAdminInvalid "malformed ordering stream cursor")
      | Some (c, rest) =>
          fail_if is_blank (sc_Destination c) || is_blank (sc_OrderingKey c)
            with ErrAdminInvalid "malformed ordering stream cursor";
          fail_if negb (Admin.at_EOF rest) with ErrAdminInvalid "malformed ordering stream cursor";
          Ok (Some c)
      end
  end.

Definition ListOrderingStreams (d : db) (now : time) (f : OrderingStreamFilter)
  : res OrderingStreamPage :=
  fail_if negb (stream_filter_text_ok f) with ErrSQL InvalidText;
  let limit := Z.to_nat (sf_Limit f) in
  let streams := order_by_limit stream_key pair_le (S limit)
                   (filter (fun s => streamWhere f s = true) (stream_states d now)) in
  if (length streams <=? limit)%nat then Ok {| sp_Streams := streams; sp_NextCursor := "" |} else
  match streams !! (limit - 1)%nat with
  | None => Err (ErrOther "index out of range")
  | Some last =>
      let! cursor := EncodeOrderingStreamCursor
                       {| sc_Destination := os_Destination last;
                          sc_OrderingKey := os_OrderingKey last |} in
      Ok {| sp_Streams := take limit streams; sp_NextCursor := cursor |}
  end.

End cursors.

Definition InspectOrderingStream (d : db) (now : time) (destination orderingKey : string)
  : res OrderingStream :=
  fail_if negb (pg_text_ok destination && pg_text_ok orderingKey) with ErrSQL InvalidText;
  match db_streams d !! (destination, orderingKey) with
  | Some s => Ok (orderingStateSelect d now (destination, orderingKey) s)
  | None => Err ErrAdminNotFound
  end.

(** ** [ListOrderingPartitions] *)

Definition partition_state (now : time) (p : partition_row) : string :=
  if bool_decide (deref (pr_lease_owner p) = ""%string) then "unowned"
  else if negb (sql_gt (pr_lease_until p) now) then "expired"
  else if sql_gt (pr_handoff_not_before p) now then "handoff"
  else "owned".

Definition ListOrderingPartitions (d : db) (now : time) (staleAfter : duration)
  : list OrderingPartition :=
  let members := activeOrderingMembers d now staleAfter in
  omap (fun id =>
          (fun p => {| op_PartitionID := id; op_DesiredOwner := DesiredOwner id members;
                       op_ActualOwner := deref (pr_lease_owner p); op_Epoch := pr_epoch p;
                       op_LeaseUntil := pr_lease_until p;
                       op_HandoffNotBefore := pr_handoff_not_before p;
                       op_State := partition_state now p |})
          <$> db_partitions d !! id)
    (merge_sort Z.le (map_to_list (db_partitions d)).*1).

(** ** [readOrderingStats] and [OperationalStats] *)

Definition count {A} (P : A -> bool) (l : list A) : Z :=
  Z.of_nat (length (filter (fun x => P x = true) l)).

Record orderingStats : Type := MkOrderingStats {
  streams : Z;
  blocked : Z;
  gaps : Z;
  deadBlocked : Z;
  owned : Z;
  handoff : Z;
  maxGapAge : duration;
}.

Definition readOrderingStats (d : db) (now : time) : orderingStats :=
  let states := stream_states d now in
  let partitions := (map_to_list (db_partitions d)).*2 in
  let leased p := not_null (pr_lease_owner p) && sql_gt (pr_lease_until p) now in
  {| streams := Z.of_nat (length states);
     blocked := count (fun s => blocked_state (os_State s)) states;
     gaps := count (fun s => bool_decide (os_State s = "gap"%string)) states;
     deadBlocked := count (fun s => bool_decide (os_State s = "dead_blocked"%string)) states;
     owned := count (fun p => leased p && sql_coalesce_le (pr_handoff_not_before p) now) partitions;
     handoff := count (fun p => leased p && sql_gt (pr_handoff_not_before p) now) partitions;
     maxGapAge := foldr Z.max 0 (os_GapAge <$>
                    filter (fun s => os_State s = "gap"%string) states) |}.

(** [adminapi.Stats]; the oldest pending age is a duration. *)
Record Stats : Type := MkStats {
  st_Pending : Z;
  st_PendingDue : Z;
  st_PendingScheduled : Z;
  st_Inflight : Z;
  st_DeliveredRetained : Z;
  st_Dead : Z;
  st_OldestPending : duration;
  st_Paused : bool;
  st_ActiveRelays : Z;
  st_StaleRelays : Z;
  st_StoppedRelays : Z;
  st_OrderedStreams : Z;
  st_BlockedOrderedStreams : Z;
  st_GapStreams : Z;
  st_DeadBlockedStreams : Z;
  st_OwnedPartitions : Z;
  st_HandoffPartitions : Z;
}.

(** [MIN(created_at)] over the pending events. *)
Definition oldest (l : list event_row) : option time :=
  foldr (fun r m => match m with
                    | Some t => Some (Z.min (ed_created_at (er_data r)) t)
                    | None => Some (ed_created_at (er_data r))
                    end) None l.

Definition has_status (s : outbox_status) (r : event_row) : bool := bool_decide (er_status r = s).

Definition relay_active (now : time) (staleAfter : duration) (r : relay_row) : bool :=
  is_null (rr_stopped_at r) && (now - intervalMS staleAfter * Millisecond <=? rr_last_heartbeat_at r).
Definition relay_stale (now : time) (staleAfter : duration) (r : relay_row) : bool :=
  is_null (rr_stopped_at r) && (rr_last_heartbeat_at r <? now - intervalMS staleAfter * Millisecond).

(** The two queries run one after the other, at [now] and [now']. *)
Definition OperationalStats (d d' : db) (now now' : time) (staleAfter : duration) : res Stats :=
  let rows := outbox_rows d in
  let relays := (map_to_list (db_relays d)).*2 in
  match db_control d with
  | None => Err ErrNoRows
  | Some control =>
      let ordering := readOrderingStats d' now' in
      Ok {| st_Pending := count (has_status Pending) rows;
            st_PendingDue := count (fun r => has_status Pending r && (er_available_at r <=? now)) rows;
            st_PendingScheduled :=
              count (fun r => has_status Pending r && (now <? er_available_at r)) rows;
            st_Inflight := count (has_status Inflight) rows;
            st_DeliveredRetained := count (has_status Delivered) rows;
            st_Dead := count (has_status Dead) rows;
            st_OldestPending :=
              match oldest (filter (fun r => er_status r = Pending) rows) with
              | Some t => now - t
              | None => 0
              end;
            st_Paused := cr_paused control;
            st_ActiveRelays := count (relay_active now staleAfter) relays;
            st_StaleRelays := count (relay_stale now staleAfter) relays;
            st_StoppedRelays := count (fun r => not_null (rr_stopped_at r)) relays;
            st_OrderedStreams := streams ordering;
            st_BlockedOrderedStreams := blocked ordering;
            st_GapStreams := gaps ordering;
            st_DeadBlockedStreams := deadBlocked ordering;
            st_OwnedPartitions := owned ordering;
            st_HandoffPartitions := handoff ordering |}
  end.

(** [relay.Stats] and [StatsSnapshotWithPresence] ([storage/postgres/store.go]) *)
Record RelayStats : Type := MkRelayStats {
  rst_Pending : Z;
  rst_Inflight : Z;
  rst_Dead : Z;
  rst_OldestPending : duration;
  rst_Paused : bool;
  rst_RelaysActive : Z;
  rst_RelaysStale : Z;
  rst_Ordering : orderingStats;
}.

Definition StatsSnapshotWithPresence (d d' : db) (now now' : time) (staleAfter : duration)
  : res RelayStats :=
  let rows := outbox_rows d in
  let relays := (map_to_list (db_relays d)).*2 in
  match db_control d with
  | None => Err ErrNoRows
  | Some control =>
      Ok {| rst_Pending := count (has_status Pending) rows;
            rst_Inflight := count (has_status Inflight) rows;
            rst_Dead := count (has_status Dead) rows;
            rst_OldestPending :=
              match oldest (filter (fun r => er_status r = Pending) rows) with
              | Some t => now - t
              | None => 0
              end;
            rst_Paused := cr_paused control;
            rst_RelaysActive := count (relay_active now staleAfter) relays;
            rst_RelaysStale := count (relay_stale now staleAfter) relays;
            rst_Ordering := readOrderingStats d' now' |}
  end.

Definition StatsSnapshot (d d' : db) (now now' : time) : res RelayStats :=
  StatsSnapshotWithPresence d d' now now' (30 * Second).

End OrderingAdmin.
