(* ===== verification/Float64.v ===== *)
(** * IEEE 754 binary64 arithmetic

    The retry delays ([relay/retry.go], [consumer/retry.go]) are computed in
    [float64]. A finite [float64] is its rational value, and every operation is
    the exact rational operation followed by rounding to 53 significant bits,
    to nearest with ties to even, which is how IEEE 754 and the Go
    specification define it. Infinities, NaN, and the limits of the exponent
    are left out: no value of these routines leaves the normal range. *)
From Stdlib Require Import ZArith QArith Qround Qpower Lqa.
From stdpp Require Import base tactics.
From S2P Require Import Prelude.

#[local] Open Scope Q_scope.

(** The power of two [2^e], for any integer [e]. *)
Notation pow2 e := (Qpower (2 # 1) e).

(** The exponent of the binade of a positive rational: [2^e <= q < 2^(e+1)]. *)
Definition exponent (q : Q) : Z :=
  let l := (Z.log2 (Qnum q) - Z.log2 (Z.pos (Qden q)))%Z in
  if Qle_bool (pow2 l) q then l else (l - 1)%Z.

Definition nearest_even (q : Q) : Z :=
  let f := Qfloor q in
  match Qcompare (q - inject_Z f) (1 # 2) with
  | Lt => f
  | Gt => (f + 1)%Z
  | Eq => if Z.even f then f else (f + 1)%Z
  end.

Definition round_pos (q : Q) : Q :=
  let e := (exponent q - 52)%Z in inject_Z (nearest_even (q * pow2 (- e))) * pow2 e.

Definition round64 (q : Q) : Q :=
  match Qcompare q 0 with
  | Lt => - round_pos (- q)
  | Eq => 0
  | Gt => round_pos q
  end.

(** [float64(n)] and the operators. *)
Definition f64_of_int (n : Z) : Q := round64 (inject_Z n).
Definition f64_add (x y : Q) : Q := round64 (x + y).
Definition f64_sub (x y : Q) : Q := round64 (x - y).
Definition f64_mul (x y : Q) : Q := round64 (x * y).
Definition f64_div (x y : Q) : Q := round64 (x / y).

(** [math.Ldexp(1, n)]. *)
Definition Ldexp1 (n : Z) : Q := pow2 n.

(** [time.Duration(x)]: truncation toward zero. A value outside [int64] has an
    implementation-specific result; amd64 gives the least integer. *)
Definition int64_of_f64 (x : Q) : Z :=
  let n := if Qle_bool 0 x then Qfloor x else Qceiling x in
  if (- 2 ^ 63 <=? n)%Z && (n <? 2 ^ 63)%Z then n else (- 2 ^ 63)%Z.

(** A number with at most 53 significant bits. *)
Definition representable (x : Q) : Prop :=
  exists m e, (Z.abs m < 2 ^ 53)%Z /\ x == inject_Z m * pow2 e.

(** ** Powers of two *)

Lemma pow2_pos e : 0 < pow2 e.
Proof. apply Qpower_0_lt. reflexivity. Qed.

Lemma pow2_plus a b : pow2 (a + b) == pow2 a * pow2 b.
Proof. apply Qpower_plus. discriminate. Qed.

Lemma pow2_inv e : pow2 (- e) * pow2 e == 1.
Proof. rewrite <- pow2_plus, Z.add_opp_diag_l. reflexivity. Qed.

Lemma pow2_Z e : (0 <= e)%Z -> pow2 e == inject_Z (2 ^ e).
Proof. intros He. by rewrite Zpower_Qpower. Qed.

Lemma pow2_le a b : (a <= b)%Z -> pow2 a <= pow2 b.
Proof. intros H. apply Qpower_le_compat_l; [done|discriminate]. Qed.

Lemma pow2_lt_inv a b : pow2 a < pow2 b -> (a < b)%Z.
Proof.
  intros H. destruct (Z_lt_ge_dec a b) as [|Hge]; [done|]. exfalso.
  apply (Qlt_not_le _ _ H), pow2_le. lia.
Qed.

(** ** The binade *)

Lemma ratio_binade (n d : positive) :
  let l := (Z.log2 (Z.pos n) - Z.log2 (Z.pos d))%Z in
  pow2 (l - 1) < Z.pos n # d /\ Z.pos n # d < pow2 (l + 1).
Proof.
  set (a := Z.log2 (Z.pos n)). set (b := Z.log2 (Z.pos d)). intros l.
  destruct (Z.log2_spec (Z.pos n) eq_refl) as [Hn1 Hn2].
  destruct (Z.log2_spec (Z.pos d) eq_refl) as [Hd1 Hd2].
  fold a in Hn1, Hn2. fold b in Hd1, Hd2.
  pose proof (Z.log2_nonneg (Z.pos n)). pose proof (Z.log2_nonneg (Z.pos d)).
  assert (Z.pos n # d == inject_Z (Z.pos n) / inject_Z (Z.pos d)) as Hq by apply Qmake_Qdiv.
  assert (pow2 a <= inject_Z (Z.pos n)) by (rewrite pow2_Z by lia; by rewrite <- Zle_Qle).
  assert (inject_Z (Z.pos n) < pow2 (a + 1)) by (rewrite pow2_Z by lia; by rewrite <- Zlt_Qlt).
  assert (pow2 b <= inject_Z (Z.pos d)) by (rewrite pow2_Z by lia; by rewrite <- Zle_Qle).
  assert (inject_Z (Z.pos d) < pow2 (b + 1)) by (rewrite pow2_Z by lia; by rewrite <- Zlt_Qlt).
  rewrite Hq. split.
  - apply Qlt_shift_div_l; [reflexivity|].
    eapply Qlt_le_trans; [|eassumption].
    replace a with ((l - 1) + (b + 1))%Z by lia. rewrite (pow2_plus (l - 1)).
    apply Qmult_lt_l; [apply pow2_pos|done].
  - apply Qlt_shift_div_r; [reflexivity|].
    eapply Qlt_le_trans; [eassumption|].
    replace (a + 1)%Z with ((l + 1) + b)%Z by lia. rewrite (pow2_plus (l + 1)).
    apply Qmult_le_l; [apply pow2_pos|done].
Qed.

Lemma exponent_spec q : 0 < q -> pow2 (exponent q) <= q /\ q < pow2 (exponent q + 1).
Proof.
  destruct q as [[|n|n] d]; intros Hq; [discriminate| |discriminate].
  destruct (ratio_binade n d) as [H1 H2]. unfold exponent. cbn [Qnum Qden].
  set (l := (Z.log2 (Z.pos n) - Z.log2 (Z.pos d))%Z) in *.
  destruct (Qle_bool (pow2 l) (Z.pos n # d)) eqn:E.
  - split; [by apply Qle_bool_iff|done].
  - split; [by apply Qlt_le_weak|]. replace (l - 1 + 1)%Z with l by lia.
    apply Qnot_le_lt. intros H%Qle_bool_iff. congruence.
Qed.

Lemma exponent_unique q e : pow2 e <= q -> q < pow2 (e + 1) -> exponent q = e.
Proof.
  intros H1 H2. assert (0 < q) as Hq by (eapply Qlt_le_trans; [apply pow2_pos|done]).
  destruct (exponent_spec q Hq) as [H3 H4].
  assert (e < exponent q + 1)%Z by (by eapply pow2_lt_inv, Qle_lt_trans).
  assert (exponent q < e + 1)%Z by (by eapply pow2_lt_inv, Qle_lt_trans). lia.
Qed.

Lemma exponent_mono x y : 0 < x -> x <= y -> (exponent x <= exponent y)%Z.
Proof.
  intros Hx Hxy. destruct (exponent_spec x Hx) as [H1 _].
  destruct (exponent_spec y) as [_ H2]; [by eapply Qlt_le_trans|].
  assert (exponent x < exponent y + 1)%Z; [|lia].
  eapply pow2_lt_inv, Qle_lt_trans, Qle_lt_trans; eassumption.
Qed.

(** ** Rounding to an integer *)

#[global] Instance nearest_even_Proper : Proper (Qeq ==> eq) nearest_even.
Proof.
  intros x y H. unfold nearest_even. rewrite (Qfloor_comp x y H).
  assert (Qcompare (x - inject_Z (Qfloor y)) (1 # 2) = Qcompare (y - inject_Z (Qfloor y)) (1 # 2))
    as -> by (by rewrite H). done.
Qed.

Lemma nearest_even_near q :
  inject_Z (nearest_even q) - (1 # 2) <= q /\ q <= inject_Z (nearest_even q) + (1 # 2).
Proof.
  unfold nearest_even. pose proof (Qfloor_le q) as H1. pose proof (Qlt_floor q) as H2.
  rewrite inject_Z_plus in H2. destruct (Qcompare_spec (q - inject_Z (Qfloor q)) (1 # 2)) as [H|H|H];
    [destruct (Z.even (Qfloor q))| |]; rewrite ?inject_Z_plus; change (inject_Z 1) with 1 in *; lra.
Qed.

Lemma nearest_even_int z : nearest_even (inject_Z z) = z.
Proof.
  unfold nearest_even. rewrite Qfloor_Z.
  destruct (Qcompare_spec (inject_Z z - inject_Z z) (1 # 2)) as [H|H|H]; [exfalso; lra|done|exfalso; lra].
Qed.

Lemma nearest_even_mono x y : x <= y -> (nearest_even x <= nearest_even y)%Z.
Proof.
  intros Hxy. destruct (Z_le_gt_dec (nearest_even x) (nearest_even y)) as [|Hgt]; [done|].
  assert (inject_Z (nearest_even y) + 1 <= inject_Z (nearest_even x)) as Hz.
  { change 1 with (inject_Z 1). rewrite <- inject_Z_plus, <- Zle_Qle. lia. }
  destruct (nearest_even_near x), (nearest_even_near y).
  assert (x == y) as Heq by lra. rewrite Heq in Hgt. lia.
Qed.

(** ** Rounding to 53 bits *)

Lemma exponent_comp x y : 0 < x -> x == y -> exponent x = exponent y.
Proof.
  intros Hx H. destruct (exponent_spec x Hx) as [H1 H2].
  symmetry. apply exponent_unique; by rewrite <- H.
Qed.

Lemma round_pos_comp x y : 0 < x -> x == y -> round_pos x == round_pos y.
Proof. intros Hx H. unfold round_pos. rewrite (exponent_comp x y Hx H). by rewrite H. Qed.

Lemma round64_pos q : 0 < q -> round64 q = round_pos q.
Proof.
  intros Hq. unfold round64. destruct (Qcompare_spec q 0) as [H|H|H]; [|exfalso; lra|done].
  rewrite H in Hq. by apply Qlt_irrefl in Hq.
Qed.

Lemma round64_zero q : q == 0 -> round64 q = 0.
Proof. intros Hq. unfold round64. destruct (Qcompare_spec q 0); [done|exfalso; lra..]. Qed.

(** Scaling by a power of two is a bijection that keeps the order. *)
Lemma pow2_scale x e : x * pow2 (- e) * pow2 e == x.
Proof. rewrite <- Qmult_assoc, pow2_inv. apply Qmult_1_r. Qed.

Lemma scaled_binade q :
  0 < q -> let e := (exponent q - 52)%Z in
  inject_Z (2 ^ 52) <= q * pow2 (- e) /\ q * pow2 (- e) < inject_Z (2 ^ 53).
Proof.
  intros Hq e. destruct (exponent_spec q Hq) as [H1 H2].
  rewrite <- !pow2_Z by lia.
  replace 52%Z with (exponent q + - e)%Z at 1 by lia.
  replace 53%Z with (exponent q + 1 + - e)%Z by lia.
  rewrite (pow2_plus (exponent q)), (pow2_plus (exponent q + 1)). split.
  - by apply Qmult_le_r; [apply pow2_pos|].
  - by apply Qmult_lt_r; [apply pow2_pos|].
Qed.

Lemma round_pos_binade q :
  0 < q -> pow2 (exponent q) <= round_pos q /\ round_pos q <= pow2 (exponent q + 1).
Proof.
  intros Hq. destruct (scaled_binade q Hq) as [H1 H2]. unfold round_pos.
  set (e := (exponent q - 52)%Z) in *.
  apply nearest_even_mono in H1. apply Qlt_le_weak, nearest_even_mono in H2.
  rewrite nearest_even_int in H1, H2.
  replace (exponent q) with (52 + e)%Z by lia. replace (52 + e + 1)%Z with (53 + e)%Z by lia.
  rewrite !pow2_plus, (pow2_Z 52), (pow2_Z 53) by lia.
  split; (apply Qmult_le_r; [apply pow2_pos|by rewrite <- Zle_Qle]).
Qed.

Lemma round_pos_pos q : 0 < q -> 0 < round_pos q.
Proof. intros Hq. eapply Qlt_le_trans; [apply pow2_pos|by apply round_pos_binade]. Qed.

Lemma round_pos_mono x y : 0 < x -> x <= y -> round_pos x <= round_pos y.
Proof.
  intros Hx Hxy. assert (0 < y) as Hy by (by eapply Qlt_le_trans).
  destruct (Z.eq_dec (exponent x) (exponent y)) as [He|Hne].
  - unfold round_pos. rewrite He. apply Qmult_le_r; [apply pow2_pos|].
    rewrite <- Zle_Qle. apply nearest_even_mono. apply Qmult_le_r; [apply pow2_pos|done].
  - pose proof (exponent_mono x y Hx Hxy).
    eapply Qle_trans; [by apply round_pos_binade|].
    eapply Qle_trans; [|by apply round_pos_binade]. apply pow2_le. lia.
Qed.

Lemma round64_mono x y : 0 <= x -> x <= y -> round64 x <= round64 y.
Proof.
  intros Hx Hxy. destruct (Qle_lt_or_eq _ _ Hx) as [Hp|Hz].
  - rewrite !round64_pos by lra. by apply round_pos_mono.
  - rewrite (round64_zero x) by lra.
    destruct (Qle_lt_or_eq _ _ Hxy) as [Hp|Hy].
    + rewrite round64_pos by lra. apply Qlt_le_weak, round_pos_pos. lra.
    + rewrite round64_zero by lra. apply Qle_refl.
Qed.

Lemma round64_nonneg x : 0 <= x -> 0 <= round64 x.
Proof. intros Hx. apply (round64_mono 0 x); [apply Qle_refl|done]. Qed.

Lemma round64_comp x y : 0 <= x -> x == y -> round64 x == round64 y.
Proof.
  intros Hx H. apply Qle_antisym; apply round64_mono; rewrite ?H; try apply Qle_refl; by rewrite <- H.
Qed.

(** A representable number is its own rounding. *)
Lemma round64_exact x : 0 <= x -> representable x -> round64 x == x.
Proof.
  intros Hx (m & e & Hm & Heq). destruct (Qle_lt_or_eq _ _ Hx) as [Hp|Hz].
  2:{ rewrite round64_zero by lra. exact Hz. }
  rewrite round64_pos by done. unfold round_pos.
  set (k := (exponent x - 52)%Z).
  assert (0 < m)%Z as Hmp.
  { rewrite Heq in Hp. destruct (Z_lt_ge_dec 0 m) as [|Hge]; [done|exfalso].
    apply (Qlt_not_le _ _ Hp). rewrite <- (Qmult_0_l (pow2 e)).
    apply Qmult_le_r; [apply pow2_pos|]. change 0 with (inject_Z 0). rewrite <- Zle_Qle. lia. }
  assert (k <= e)%Z as Hk.
  { destruct (exponent_spec x Hp) as [H1 _].
    assert (x < pow2 (53 + e)) as H2.
    { rewrite Heq, pow2_plus, (pow2_Z 53) by lia. apply Qmult_lt_r; [apply pow2_pos|].
      rewrite <- Zlt_Qlt. lia. }
    assert (exponent x < 53 + e)%Z by (by eapply pow2_lt_inv, Qle_lt_trans). lia. }
  assert (x * pow2 (- k) == inject_Z (m * 2 ^ (e - k))) as Hi.
  { rewrite Heq, inject_Z_mult, <- (pow2_Z (e - k)), <- Qmult_assoc, <- pow2_plus by lia. reflexivity. }
  rewrite Hi, nearest_even_int, <- Hi. apply pow2_scale.
Qed.

(** A float above a representable number was rounded from above it, and below likewise. *)
Lemma round64_gt_inv x y : 0 <= x -> 0 <= y -> representable y -> y < round64 x -> y < x.
Proof.
  intros Hx Hy Hr H. apply Qnot_le_lt. intros Hle.
  apply (Qlt_not_le _ _ H). rewrite <- (round64_exact y) by done. by apply round64_mono.
Qed.

Lemma round64_lt_inv x y : 0 <= x -> 0 <= y -> representable y -> round64 x < y -> x < y.
Proof.
  intros Hx Hy Hr H. apply Qnot_le_lt. intros Hle.
  apply (Qlt_not_le _ _ H). rewrite <- (round64_exact y) by done. by apply round64_mono.
Qed.

Lemma round64_le x y : 0 <= x -> x <= y -> representable y -> round64 x <= y.
Proof. intros Hx Hxy Hr. rewrite <- (round64_exact y) by (done || lra). by apply round64_mono. Qed.

Lemma round64_ge x y : 0 <= y -> y <= x -> representable y -> y <= round64 x.
Proof. intros Hy Hxy Hr. rewrite <- (round64_exact y) by done. by apply round64_mono. Qed.

(** ** Representable numbers *)

Lemma representable_int n : (Z.abs n < 2 ^ 53)%Z -> representable (inject_Z n).
Proof. intros Hn. exists n, 0%Z. split; [done|]. cbn. ring. Qed.

Lemma representable_pow2 e : representable (pow2 e).
Proof. exists 1%Z, e. split; [lia|]. ring. Qed.

Lemma representable_scale x e : representable x -> representable (x * pow2 e).
Proof.
  intros (m & k & Hm & Heq). exists m, (k + e)%Z. split; [done|].
  by rewrite Heq, pow2_plus, Qmult_assoc.
Qed.

Lemma representable_comp x y : x == y -> representable x -> representable y.
Proof. intros H (m & e & Hm & Heq). exists m, e. by rewrite <- H. Qed.

Lemma round64_representable x : 0 <= x -> representable (round64 x).
Proof.
  intros Hx. destruct (Qle_lt_or_eq _ _ Hx) as [Hp|Hz].
  2:{ rewrite round64_zero by lra. exact (representable_int 0 eq_refl). }
  rewrite round64_pos by done. unfold round_pos. set (e := (exponent x - 52)%Z).
  destruct (scaled_binade x Hp) as [H1 H2]. fold e in H1, H2.
  apply nearest_even_mono in H1. apply Qlt_le_weak, nearest_even_mono in H2.
  rewrite nearest_even_int in H1, H2. set (m := nearest_even (x * pow2 (- e))) in *.
  destruct (Z.eq_dec m (2 ^ 53)) as [->|Hne].
  - apply (representable_comp (pow2 (53 + e))); [|apply representable_pow2].
    by rewrite pow2_plus, (pow2_Z 53).
  - exists m, e. split; [lia|reflexivity].
Qed.

(** ** The rounding error *)

Lemma round64_near x :
  0 < x -> round64 x <= x + pow2 (exponent x - 53) /\ x <= round64 x + pow2 (exponent x - 53).
Proof.
  intros Hx. rewrite round64_pos by done. unfold round_pos.
  set (e := (exponent x - 52)%Z). replace (exponent x - 53)%Z with (-1 + e)%Z by lia.
  rewrite (pow2_plus (-1)). change (pow2 (-1)) with (1 # 2).
  destruct (nearest_even_near (x * pow2 (- e))) as [H1 H2].
  set (m := inject_Z (nearest_even (x * pow2 (- e)))) in *.
  apply (Qmult_le_r _ _ _ (pow2_pos e)) in H1, H2. rewrite pow2_scale in H1, H2.
  split; lra.
Qed.

(** A number more than half a unit above a power of two rounds above it. *)
Lemma round64_above_pow2 x e : pow2 e * (1 + pow2 (-53)) < x -> pow2 e < round64 x.
Proof.
  intros Hx. pose proof (pow2_pos e) as Hp.
  assert (pow2 e < x) as Hex.
  { eapply Qlt_trans; [|exact Hx]. rewrite <- (Qmult_1_r (pow2 e)) at 1.
    apply Qmult_lt_l; [done|reflexivity]. }
  destruct (Qlt_le_dec x (pow2 (e + 1))) as [Hlt|Hge].
  - assert (exponent x = e) as He by (apply exponent_unique; [by apply Qlt_le_weak|done]).
    destruct (round64_near x) as [_ H]; [lra|]. rewrite He in H.
    rewrite Qmult_plus_distr_r, <- pow2_plus in Hx.
    replace (e + -53)%Z with (e - 53)%Z in Hx by lia. lra.
  - eapply Qlt_le_trans; [|apply round64_ge; [..|exact Hge|apply representable_pow2]].
    + rewrite pow2_plus. change (pow2 1) with (2 # 1). lra.
    + apply Qlt_le_weak, pow2_pos.
Qed.

(** Multiplying a float by at most [1 - 2^-53] and rounding gives a smaller float. *)
Lemma round64_below x f :
  0 < x -> representable x -> 0 <= f -> f <= 1 - pow2 (-53) -> round64 (x * f) < x.
Proof.
  intros Hx Hr Hf0 Hf. set (y := x * (1 - pow2 (-53))).
  assert (0 < y) as Hy by (apply (Qmult_lt_0_compat x); [done|reflexivity]).
  assert (round64 (x * f) <= round64 y) as Hle.
  { apply round64_mono; [apply Qmult_le_0_compat; lra|]. apply Qmult_le_l; done. }
  apply (Qle_lt_trans _ _ _ Hle), Qnot_le_lt. intros Hge.
  destruct (round64_near y Hy) as [Hn _]. destruct (exponent_spec y Hy) as [He _].
  assert (y == x - x * pow2 (-53)) as Hyx by (unfold y; ring).
  pose proof (Qmult_lt_0_compat x (pow2 (-53)) Hx (pow2_pos _)) as Hpos.
  assert (x * pow2 (-53) <= pow2 (exponent y) * pow2 (-53)) as Hc.
  { rewrite <- pow2_plus. replace (exponent y + -53)%Z with (exponent y - 53)%Z by lia. lra. }
  apply Qmult_le_r in Hc; [lra|apply pow2_pos].
Qed.

(** ** Conversion to an integer *)

Lemma int64_of_f64_floor x n :
  0 <= x -> x <= inject_Z n -> (n < 2 ^ 63)%Z ->
  int64_of_f64 x = Qfloor x /\ (0 <= Qfloor x <= n)%Z.
Proof.
  intros Hx Hn Hb. assert (0 <= Qfloor x <= n)%Z as Hf.
  { split; [|rewrite <- (Qfloor_Z n); by apply Qfloor_resp_le].
    change 0%Z with (Qfloor 0). by apply Qfloor_resp_le. }
  split; [|done]. unfold int64_of_f64. rewrite (proj2 (Qle_bool_iff 0 x)) by done.
  rewrite (proj2 (Z.leb_le _ _)), (proj2 (Z.ltb_lt _ _)) by lia. done.
Qed.

Lemma f64_of_int_exact n : (0 <= n < 2 ^ 53)%Z -> f64_of_int n == inject_Z n.
Proof.
  intros Hn. apply round64_exact; [|apply representable_int; lia].
  change 0 with (inject_Z 0). rewrite <- Zle_Qle. lia.
Qed.

Lemma inject_Z_nonneg n : (0 <= n)%Z -> 0 <= inject_Z n.
Proof. intros Hn. change 0 with (inject_Z 0). by rewrite <- Zle_Qle. Qed.

(** ** Interpolation *)

(** [1 - j + j*s] stays in the unit interval under rounding: the error of the
    subtraction is less than half a unit in the last place of one. *)
Lemma interpolation_range j s :
  representable j -> 0 <= j -> j <= 1 -> 0 <= s -> s <= 1 ->
  let factor := f64_add (f64_sub 1 j) (f64_mul j s) in 0 <= factor /\ factor <= 1.
Proof.
  intros Hr Hj0 Hj1 Hs0 Hs1. cbv zeta. unfold f64_add, f64_sub, f64_mul.
  assert (0 <= j * s) as Hjs by (by apply Qmult_le_0_compat).
  assert (0 <= round64 (1 - j)) as Ha0 by (apply round64_nonneg; lra).
  assert (0 <= round64 (j * s)) as Hp0 by (by apply round64_nonneg).
  assert (round64 (j * s) <= j) as Hp.
  { apply round64_le; [done| |done].
    apply (Qle_trans _ (1 * j)); [rewrite Qmult_comm; by apply Qmult_le_compat_r|].
    rewrite Qmult_1_l. apply Qle_refl. }
  assert (round64 (1 - j) <= 1 - j + pow2 (-54)) as Ha.
  { destruct (Qlt_le_dec 0 (1 - j)) as [Hpos|Hz].
    2:{ rewrite round64_zero by lra. pose proof (pow2_pos (-54)). lra. }
    destruct (Qlt_le_dec (1 - j) 1) as [Hlt|Hge].
    - destruct (round64_near _ Hpos) as [Hn _]. eapply Qle_trans; [exact Hn|].
      apply Qplus_le_r, pow2_le. destruct (exponent_spec _ Hpos) as [He _].
      assert (exponent (1 - j) < 0)%Z by (eapply pow2_lt_inv, Qle_lt_trans; [exact He|exact Hlt]). lia.
    - eapply Qle_trans; [apply (round64_le _ 1); [lra..|exact (representable_int 1 eq_refl)]|].
      pose proof (pow2_pos (-54)). lra. }
  split; [apply round64_nonneg; lra|].
  eapply Qle_trans; [apply (round64_mono _ (1 + pow2 (-54))); lra|]. by vm_compute.
Qed.

(** Without jitter the factor is one. *)
Lemma interpolation_off j s : j == 0 -> 0 <= s -> f64_add (f64_sub 1 j) (f64_mul j s) == 1.
Proof.
  intros Hj Hs. assert (round64 (1 - j) == 1) as Ha.
  { rewrite (round64_comp _ 1) by (rewrite Hj; discriminate || reflexivity). by vm_compute. }
  unfold f64_add, f64_sub, f64_mul. rewrite (round64_zero (j * s)) by (rewrite Hj; ring).
  rewrite (round64_comp _ 1); [by vm_compute| |]; rewrite Ha; [discriminate|reflexivity].
Qed.

Lemma clamp_range sample :
  let s := if Qle_bool 0 sample then sample else 0 in
  let s := if Qle_bool s 1 then s else 1 in 0 <= s /\ s <= 1.
Proof.
  cbv zeta. destruct (Qle_bool 0 sample) eqn:E; [|split; discriminate].
  apply Qle_bool_iff in E. destruct (Qle_bool sample 1) eqn:E1; [|split; discriminate].
  by apply Qle_bool_iff in E1.
Qed.

(** An integer of at most 53 bits times a factor in the unit interval. *)
Lemma scaled_int_range n f :
  (0 <= n < 2 ^ 53)%Z -> 0 <= f -> f <= 1 ->
  (0 <= int64_of_f64 (f64_mul (f64_of_int n) f) <= n)%Z /\
  (f == 1 -> int64_of_f64 (f64_mul (f64_of_int n) f) = n).
Proof.
  intros Hn Hf0 Hf1. pose proof (f64_of_int_exact n Hn) as Hx.
  assert (0 <= inject_Z n) as Hn0 by (apply inject_Z_nonneg; lia).
  assert (0 <= f64_of_int n * f) as Hp0 by (rewrite Hx; by apply Qmult_le_0_compat).
  assert (f64_of_int n * f <= inject_Z n) as Hp.
  { rewrite Hx, Qmult_comm. apply (Qle_trans _ (1 * inject_Z n)); [by apply Qmult_le_compat_r|].
    rewrite Qmult_1_l. apply Qle_refl. }
  assert (representable (inject_Z n)) as Hr by (apply representable_int; lia).
  destruct (int64_of_f64_floor (f64_mul (f64_of_int n) f) n) as [-> Hf];
    [by apply round64_nonneg|by apply round64_le|lia|].
  split; [done|]. intros Hone. rewrite <- (Qfloor_Z n) at 2. apply Qfloor_comp.
  apply (Qeq_trans _ (round64 (inject_Z n))); [|by apply round64_exact].
  apply round64_comp; [done|]. rewrite Hx, Hone. apply Qmult_1_r.
Qed.
