(* ===== verification/RelayConfig.v ===== *)
(** * Relay configuration ([relay/config.go] and the defaults of [relay.New])

    Durations are 64-bit; the sum of the publish timeout and the safety margin
    wraps around as Go's does. *)
From Stdlib Require Import ZArith String.
From stdpp Require Import base strings list.
From S2P Require Import Prelude GoStrings Schema.

Open Scope Z_scope.
Local Open Scope emitlane_scope.

Record Config : Type := MkConfig {
  BatchSize : Z;
  Concurrency : Z;
  PollInterval : duration;
  IdleBackoffMax : duration;
  LeaseDuration : duration;
  MaxAttempts : Z;
  BaseDelay : duration;
  MaxDelay : duration;
  PublishTimeout : duration;
  ShutdownTimeout : duration;
  StatsInterval : duration;
  ControlInterval : duration;
  HeartbeatInterval : duration;
  PresenceStaleAfter : duration;
  CleanupInterval : duration;
  Retention : duration;
  CleanupBatch : Z;
  OrderingRebalanceInterval : duration;
  OrderingLeaseDuration : duration;
  OrderingSafetyMargin : duration;
  InstanceID : string;
}.

Definition DefaultConfig : Config :=
  {| BatchSize := 100; Concurrency := 4; PollInterval := 5 * Second;
     IdleBackoffMax := 5 * Second; LeaseDuration := 30 * Second; MaxAttempts := 10;
     BaseDelay := Second; MaxDelay := 30 * Minute; PublishTimeout := 10 * Second;
     ShutdownTimeout := 15 * Second; StatsInterval := 5 * Second; ControlInterval := 2 * Second;
     HeartbeatInterval := 10 * Second; PresenceStaleAfter := 30 * Second;
     CleanupInterval := Minute; Retention := 7 * 24 * Hour; CleanupBatch := 1000;
     OrderingRebalanceInterval := 2 * Second; OrderingLeaseDuration := 30 * Second;
     OrderingSafetyMargin := Second; InstanceID := "" |}.

Definition config_err {A} (msg : string) : res A := Err (ErrOther msg).

Definition Validate (c : Config) : res unit :=
  if BatchSize c <=? 0 then config_err "batch size must be > 0" else
  if Concurrency c <=? 0 then config_err "concurrency must be > 0" else
  if PollInterval c <=? 0 then config_err "poll interval must be > 0" else
  if IdleBackoffMax c <=? 0 then config_err "idle backoff max must be > 0" else
  if IdleBackoffMax c <? PollInterval c
  then config_err "idle backoff max must be >= poll interval" else
  if LeaseDuration c <=? 0 then config_err "lease duration must be > 0" else
  if MaxAttempts c <? 1 then config_err "max attempts must be >= 1" else
  if BaseDelay c <=? 0 then config_err "base delay must be > 0" else
  if MaxDelay c <? BaseDelay c then config_err "max delay must be >= base delay" else
  if PublishTimeout c <=? 0 then config_err "publish timeout must be > 0" else
  if LeaseDuration c <=? PublishTimeout c
  then config_err "publish timeout must be < lease duration" else
  if ShutdownTimeout c <=? 0 then config_err "shutdown timeout must be > 0" else
  if StatsInterval c <? 0 then config_err "stats interval must be >= 0" else
  if ControlInterval c <=? 0 then config_err "control interval must be > 0" else
  if HeartbeatInterval c <=? 0 then config_err "heartbeat interval must be > 0" else
  if PresenceStaleAfter c <=? HeartbeatInterval c
  then config_err "presence stale threshold must be greater than heartbeat interval" else
  if CleanupInterval c <? 0 then config_err "cleanup interval must be >= 0" else
  if Retention c <? 0 then config_err "delivered retention must be >= 0" else
  if bool_decide (TrimSpace (InstanceID c) = ""%string)
  then config_err "instance id is required" else
  if negb (bool_decide (InstanceID c = TrimSpace (InstanceID c)))
  then config_err "instance id must not have surrounding whitespace" else
  if CleanupBatch c <? 0 then config_err "cleanup batch must be >= 0" else
  if (0 <? Retention c) && (CleanupInterval c =? 0)
  then config_err "cleanup interval must be > 0 when retention is enabled" else
  if (0 <? Retention c) && (CleanupBatch c =? 0)
  then config_err "cleanup batch must be > 0 when retention is enabled" else
  if OrderingRebalanceInterval c <=? 0
  then config_err "ordering rebalance interval must be > 0" else
  if OrderingLeaseDuration c <=? 0 then config_err "ordering lease duration must be > 0" else
  if OrderingSafetyMargin c <=? 0 then config_err "ordering safety margin must be > 0" else
  if OrderingLeaseDuration c <=? int64_add (PublishTimeout c) (OrderingSafetyMargin c)
  then config_err "ordering lease duration must exceed publish timeout plus safety margin" else
  if OrderingLeaseDuration c <=? OrderingRebalanceInterval c
  then config_err "ordering rebalance interval must be less than ordering lease duration" else
  Ok tt.

(** [if cfg.X == 0 { cfg.X = defaults.X }] *)
Definition or_default (x d : Z) : Z := if x =? 0 then d else x.

(** The configuration part of [relay.New]; [newID] is [NewInstanceID()]. *)
Definition New_config (newID : string) (c : Config) : res Config :=
  let c' :=
    {| BatchSize := BatchSize c; Concurrency := Concurrency c; PollInterval := PollInterval c;
       IdleBackoffMax := or_default (IdleBackoffMax c) (IdleBackoffMax DefaultConfig);
       LeaseDuration := LeaseDuration c; MaxAttempts := MaxAttempts c; BaseDelay := BaseDelay c;
       MaxDelay := MaxDelay c; PublishTimeout := PublishTimeout c;
       ShutdownTimeout := ShutdownTimeout c; StatsInterval := StatsInterval c;
       ControlInterval := or_default (ControlInterval c) (ControlInterval DefaultConfig);
       HeartbeatInterval := or_default (HeartbeatInterval c) (HeartbeatInterval DefaultConfig);
       PresenceStaleAfter := or_default (PresenceStaleAfter c) (PresenceStaleAfter DefaultConfig);
       CleanupInterval := CleanupInterval c; Retention := Retention c;
       CleanupBatch := CleanupBatch c;
       OrderingRebalanceInterval :=
         or_default (OrderingRebalanceInterval c) (OrderingRebalanceInterval DefaultConfig);
       OrderingLeaseDuration :=
         or_default (OrderingLeaseDuration c) (OrderingLeaseDuration DefaultConfig);
       OrderingSafetyMargin :=
         or_default (OrderingSafetyMargin c) (OrderingSafetyMargin DefaultConfig);
       InstanceID := if bool_decide (InstanceID c = ""%string) then newID else InstanceID c |} in
  let! _ := Validate c' in Ok c'.

(** * Lemmas *)

(** The facts the relay and its theorems rely on. *)
Record valid_config (c : Config) : Prop := {
  vc_batch : 0 < BatchSize c;
  vc_concurrency : 0 < Concurrency c;
  vc_poll : 0 < PollInterval c <= IdleBackoffMax c;
  vc_attempts : 1 <= MaxAttempts c;
  vc_delay : 0 < BaseDelay c <= MaxDelay c;
  vc_publish : 0 < PublishTimeout c < LeaseDuration c;
  vc_presence : 0 < HeartbeatInterval c < PresenceStaleAfter c;
  vc_instance : btrim_nonempty (InstanceID c) = true;
  vc_cleanup : 0 < Retention c -> 0 < CleanupInterval c /\ 0 < CleanupBatch c;
  vc_margin : 0 < OrderingSafetyMargin c;
  vc_rebalance : 0 < OrderingRebalanceInterval c < OrderingLeaseDuration c;
  vc_lease : int64_add (PublishTimeout c) (OrderingSafetyMargin c) < OrderingLeaseDuration c;
}.

Lemma Validate_ok c : Validate c = Ok tt -> valid_config c.
Proof.
  unfold Validate, config_err. intros H.
  repeat match type of H with
  | (if ?b then Err _ else _) = _ => destruct b eqn:?; [discriminate H|]
  end.
  bool_to_prop.
  assert (btrim_nonempty (InstanceID c) = true).
  { apply trimmed_btrim; [done|]. intros E.
    match goal with H : TrimSpace (InstanceID c) <> ""%string |- _ => by rewrite E in H end. }
  split; try done; try lia.
Qed.

(** * Properties *)

(** An accepted configuration (from [New], defaults applied) has a named
    instance, positive batch, concurrency and budget, a publish timeout below
    the event lease, heartbeats within the staleness bound, cleanup only with a
    period and a batch, and, when the publish timeout and the margin are
    together below 2^63 ns, a partition lease that outlasts their sum. *)
Theorem New_config_safe newID c c' :
  New_config newID c = Ok c' ->
  valid_config c' /\
  (PublishTimeout c' + OrderingSafetyMargin c' < 2 ^ 63 ->
   PublishTimeout c' + OrderingSafetyMargin c' < OrderingLeaseDuration c').
Proof.
  unfold New_config. intros H. apply result_bind_ok in H as ([] & Hv & Heq).
  apply (f_equal (fun r => match r with Ok c => c | Err _ => c' end)) in Heq. cbn beta iota in Heq.
  rewrite Heq in Hv. apply Validate_ok in Hv. clear Heq. split; [done|]. intros Hs. destruct Hv.
  unfold int64_add in vc_lease0. rewrite wrap64_small in vc_lease0; lia.
Qed.

Lemma New_config_safe_witness :
  exists c', New_config "relay-1" DefaultConfig = Ok c' /\
    PublishTimeout c' + OrderingSafetyMargin c' < OrderingLeaseDuration c'.
Proof.
  eexists. split; [vm_compute; reflexivity|].
  apply (New_config_safe "relay-1" DefaultConfig); vm_compute; reflexivity.
Defined.

(** A timeout of 292 years makes the sum wrap around: the check passes although
    the lease is far below it. *)
Definition overflowing_config : Config :=
  {| BatchSize := 100; Concurrency := 4; PollInterval := 5 * Second;
     IdleBackoffMax := 5 * Second; LeaseDuration := 2 ^ 63 - 1; MaxAttempts := 10;
     BaseDelay := Second; MaxDelay := 30 * Minute; PublishTimeout := 2 ^ 63 - 2;
     ShutdownTimeout := 15 * Second; StatsInterval := 5 * Second; ControlInterval := 2 * Second;
     HeartbeatInterval := 10 * Second; PresenceStaleAfter := 30 * Second;
     CleanupInterval := Minute; Retention := 7 * 24 * Hour; CleanupBatch := 1000;
     OrderingRebalanceInterval := 2 * Second; OrderingLeaseDuration := 30 * Second;
     OrderingSafetyMargin := Second; InstanceID := "relay-1" |}.

Example Validate_overflow :
  Validate overflowing_config = Ok tt /\
  OrderingLeaseDuration overflowing_config
    < PublishTimeout overflowing_config + OrderingSafetyMargin overflowing_config.
Proof. split; vm_compute; reflexivity. Qed.
