(* ===== verification/Retry.v ===== *)
(** * The relay's retry delay ([relay/retry.go])

    Full-jitter exponential backoff in [float64] arithmetic ([Float64.v]). *)
From Stdlib Require Import ZArith QArith Qround Qpower Lqa Lia.
From stdpp Require Import base strings tactics.
From S2P Require Import Prelude Schema Float64 RelayConfig.

Module Retry.

#[local] Open Scope Z_scope.

(** [rand.Rand.Float64] of [math/rand/v2]: the low 53 bits of the next word of
    the generator, over [2^53]. The words of the PCG stream are arguments. *)
Definition Float64 (word : Z) : Q := (inject_Z (Z.land word (2 ^ 53 - 1)) / inject_Z (2 ^ 53))%Q.

Definition cappedExp (attempt : Z) (base maxDelay : duration) : duration :=
  if base <=? 0 then 0 else
  if maxDelay <? base then maxDelay else
  if attempt <=? 0 then (if maxDelay <? base then maxDelay else base) else
  if 62 <? attempt then maxDelay else
  let maxFactor := f64_div (f64_of_int maxDelay) (f64_of_int base) in
  let pow := Ldexp1 attempt in
  if Qle_bool maxFactor pow then maxDelay
  else int64_of_f64 (f64_mul (f64_of_int base) pow).

(** [rnd] is the value of [rnd.Float64()], or [None] for a nil source. *)
Definition delay (attempt : Z) (base maxDelay : duration) (rnd : option Q) : duration :=
  let attempt := if attempt <? 1 then 1 else attempt in
  let capDelay := cappedExp (attempt - 1) base maxDelay in
  if capDelay <=? 0 then 0 else
  let f := match rnd with Some f => f | None => 0%Q end in
  let f := if Qle_bool 0 f then f else 0%Q in
  let f := if Qle_bool f 1 then f else 1%Q in
  int64_of_f64 (f64_mul f (f64_of_int capDelay)).

(** ** The cap *)

Section cap.
Context (attempt : Z) (base maxDelay : duration).
Context (Hbase : 0 < base <= maxDelay) (Hmax : maxDelay < 2 ^ 63) (Hatt : 0 < attempt).

Lemma f64_of_int_pos n : 0 < n -> (0 < f64_of_int n)%Q.
Proof.
  intros Hn. unfold f64_of_int. assert (0 < inject_Z n)%Q by (change 0%Q with (inject_Z 0); by rewrite <- Zlt_Qlt).
  rewrite round64_pos by done. by apply round_pos_pos.
Qed.

(** Below the threshold the product is exact and stays under the maximum. *)
Lemma cappedExp_below :
  (pow2 attempt < f64_div (f64_of_int maxDelay) (f64_of_int base))%Q ->
  (f64_mul (f64_of_int base) (Ldexp1 attempt) == f64_of_int base * pow2 attempt)%Q /\
  (f64_of_int base * pow2 attempt < inject_Z maxDelay)%Q.
Proof.
  intros Hlt. pose proof (f64_of_int_pos base) as Hb. pose proof (f64_of_int_pos maxDelay) as Hm.
  assert (0 <= inject_Z base)%Q by (apply inject_Z_nonneg; lia).
  assert (0 <= inject_Z maxDelay)%Q by (apply inject_Z_nonneg; lia).
  pose proof (pow2_pos attempt) as Hp.
  assert (representable (f64_of_int base * pow2 attempt)) as Hr
    by (by apply representable_scale, round64_representable).
  assert (0 <= f64_of_int base * pow2 attempt)%Q as Hnn
    by (apply Qmult_le_0_compat; apply Qlt_le_weak; [apply Hb; lia|done]).
  split; [by apply round64_exact|].
  apply round64_gt_inv in Hlt; [|..|apply representable_pow2];
    [|apply Qle_shift_div_l; [apply Hb; lia|rewrite Qmult_0_l; apply Qlt_le_weak, Hm; lia]
     |by apply Qlt_le_weak].
  apply round64_gt_inv; [done..|]. fold (f64_of_int maxDelay).
  rewrite Qmult_comm. apply (Qmult_lt_r _ _ (f64_of_int base)) in Hlt; [|apply Hb; lia].
  eapply Qlt_le_trans; [exact Hlt|]. rewrite Qmult_comm, Qmult_div_r; [apply Qle_refl|].
  intros Hz. assert (0 < f64_of_int base)%Q by (apply Hb; lia). lra.
Qed.

Lemma cappedExp_eq :
  cappedExp attempt base maxDelay =
  if 62 <? attempt then maxDelay else
  if Qle_bool (f64_div (f64_of_int maxDelay) (f64_of_int base)) (Ldexp1 attempt) then maxDelay
  else int64_of_f64 (f64_mul (f64_of_int base) (Ldexp1 attempt)).
Proof.
  unfold cappedExp.
  by rewrite (proj2 (Z.leb_gt base 0)), (proj2 (Z.ltb_ge maxDelay base)), (proj2 (Z.leb_gt attempt 0))
    by lia.
Qed.

(** The three ways the computation ends. *)
Lemma cappedExp_cases :
  (62 < attempt /\ cappedExp attempt base maxDelay = maxDelay) \/
  (attempt <= 62 /\
   (f64_div (f64_of_int maxDelay) (f64_of_int base) <= pow2 attempt)%Q /\
   cappedExp attempt base maxDelay = maxDelay) \/
  ((f64_of_int base * pow2 attempt < inject_Z maxDelay)%Q /\
   cappedExp attempt base maxDelay = Qfloor (f64_of_int base * pow2 attempt)).
Proof.
  rewrite cappedExp_eq. destruct (Z.ltb_spec 62 attempt) as [|H62]; [by left|].
  right. destruct (Qle_bool _ _) eqn:E; [left; by apply Qle_bool_iff in E|right].
  destruct cappedExp_below as [H1 H2].
  { apply Qnot_le_lt. intros H%Qle_bool_iff. unfold Ldexp1 in E. congruence. }
  split; [done|]. rewrite <- H1.
  apply (int64_of_f64_floor _ maxDelay); [..|done].
  - apply round64_nonneg, Qmult_le_0_compat; apply Qlt_le_weak; [apply f64_of_int_pos; lia|apply pow2_pos].
  - rewrite H1. by apply Qlt_le_weak.
Qed.

Lemma cappedExp_bound : 0 < cappedExp attempt base maxDelay <= maxDelay.
Proof.
  destruct cappedExp_cases as [[_ ->]|[(_ & _ & ->)|[H ->]]]; [lia..|]. split.
  - assert (1 <= f64_of_int base * pow2 attempt)%Q as H1; [|apply Qfloor_resp_le in H1; by apply Z.lt_le_trans with 1].
    rewrite <- (Qmult_1_l 1). apply Qmult_le_compat_nonneg; split; try discriminate.
    + apply (round64_ge _ 1); [discriminate| |exact (representable_int 1 eq_refl)].
      change 1%Q with (inject_Z 1). rewrite <- Zle_Qle. lia.
    + apply (pow2_le 0). lia.
  - rewrite <- (Qfloor_Z maxDelay). by apply Qfloor_resp_le, Qlt_le_weak.
Qed.

(** Up to 2^53 ns (104 days) the cap is exactly the documented minimum. *)
Lemma cappedExp_exact :
  maxDelay < 2 ^ 53 -> cappedExp attempt base maxDelay = Z.min maxDelay (base * 2 ^ attempt).
Proof.
  intros H53.
  assert (f64_of_int base == inject_Z base)%Q as Eb by (apply f64_of_int_exact; lia).
  assert (f64_of_int maxDelay == inject_Z maxDelay)%Q as Em by (apply f64_of_int_exact; lia).
  assert (pow2 attempt == inject_Z (2 ^ attempt))%Q as Ep by (apply pow2_Z; lia).
  destruct cappedExp_cases as [[H62 ->]|[(H62 & H & ->)|[H ->]]].
  - pose proof (Z.pow_le_mono_r 2 63 attempt). nia.
  - rewrite Z.min_l; [done|]. apply Z.nlt_ge. intros Hlt. apply (Qle_not_lt _ _ H).
    apply round64_above_pow2, Qlt_shift_div_l; [apply f64_of_int_pos; lia|].
    rewrite Em, Eb, Ep. set (x := base * 2 ^ attempt) in *.
    assert (inject_Z x + 1 <= inject_Z maxDelay)%Q as Hx.
    { change 1%Q with (inject_Z 1). rewrite <- inject_Z_plus, <- Zle_Qle. lia. }
    assert (inject_Z x * pow2 (-53) < 1)%Q as Hu.
    { apply (Qlt_le_trans _ (inject_Z (2 ^ 53) * pow2 (-53))); [|discriminate].
      apply Qmult_lt_r; [apply pow2_pos|]. rewrite <- Zlt_Qlt. lia. }
    unfold x in *. rewrite inject_Z_mult in *. lra.
  - rewrite Eb, Ep, <- inject_Z_mult in H. rewrite <- Zlt_Qlt in H. rewrite Z.min_r by lia.
    by rewrite (Qfloor_comp _ (inject_Z (base * 2 ^ attempt))), Qfloor_Z
      by (by rewrite Eb, Ep, inject_Z_mult).
Qed.
End cap.

(** The cap for every attempt number, the first included. *)
Lemma cappedExp_range attempt base maxDelay :
  0 < base <= maxDelay -> maxDelay < 2 ^ 63 ->
  0 < cappedExp attempt base maxDelay <= maxDelay /\
  (maxDelay < 2 ^ 53 ->
   cappedExp attempt base maxDelay = Z.min maxDelay (base * 2 ^ Z.max 0 attempt)).
Proof.
  intros Hb Hm. destruct (Z_lt_ge_dec 0 attempt) as [Ha|Ha].
  - split; [by apply cappedExp_bound|]. intros H. rewrite Z.max_r by lia. by apply cappedExp_exact.
  - unfold cappedExp.
    rewrite (proj2 (Z.leb_gt base 0)), (proj2 (Z.ltb_ge maxDelay base)), (proj2 (Z.leb_le attempt 0)) by lia.
    rewrite Z.max_l, Z.mul_1_r, Z.min_r by lia. lia.
Qed.

(** The generator's values are fractions of [2^53] below one. *)
Lemma Float64_range word : (0 <= Float64 word)%Q /\ (Float64 word <= 1 - pow2 (-53))%Q.
Proof.
  unfold Float64. assert (0 <= Z.land word (2 ^ 53 - 1) < 2 ^ 53) as Hk.
  { change (2 ^ 53 - 1) with (Z.ones 53). rewrite Z.land_ones by lia. apply Z.mod_pos_bound. lia. }
  set (k := Z.land word (2 ^ 53 - 1)) in *. split.
  - apply Qle_shift_div_l; [reflexivity|]. rewrite Qmult_0_l. apply inject_Z_nonneg. lia.
  - apply Qle_shift_div_r; [reflexivity|].
    apply (Qle_trans _ (inject_Z (2 ^ 53 - 1))); [rewrite <- Zle_Qle; lia|discriminate].
Qed.

(** A jitter factor in [0, 1) never takes the delay above the cap, whatever
    the rounding of the cap itself was. *)
Lemma jittered_below cap f :
  0 < cap -> cap < 2 ^ 63 -> (0 <= f)%Q -> (f <= 1 - pow2 (-53))%Q ->
  0 <= int64_of_f64 (f64_mul f (f64_of_int cap)) <= cap.
Proof.
  intros Hc Hm Hf0 Hf. pose proof (f64_of_int_pos cap Hc) as Hp.
  assert (0 <= inject_Z cap)%Q as Hc0 by (apply inject_Z_nonneg; lia).
  assert (0 <= f * f64_of_int cap)%Q by (apply Qmult_le_0_compat; [done|by apply Qlt_le_weak]).
  assert (f64_mul f (f64_of_int cap) < f64_of_int cap)%Q as Hlt.
  { unfold f64_mul. eapply Qle_lt_trans; [|exact (round64_below _ f Hp (round64_representable _ Hc0) Hf0 Hf)].
    apply round64_mono; [done|]. rewrite Qmult_comm. apply Qle_refl. }
  apply round64_gt_inv in Hlt; [|done|by apply round64_nonneg|by apply round64_representable].
  destruct (int64_of_f64_floor (f64_mul f (f64_of_int cap)) cap) as [-> ?];
    [by apply round64_nonneg|by apply Qlt_le_weak|done..].
Qed.

(** ** The delay *)

(** C36: Relay backoff. For every attempt number, every configuration [Validate]
    accepts and every word of the generator, the delay of the next attempt lies
    between zero and the exponential cap, the cap is positive and at most
    MaxDelay, and up to 2^53 ns (104 days) the floating-point computation of the
    cap equals the documented min(maxDelay, baseDelay * 2^(attempt-1)) exactly. *)
Theorem delay_bounds cfg attempt word :
  Validate cfg = Ok tt -> MaxDelay cfg < 2 ^ 63 ->
  let cap := cappedExp (Z.max 1 attempt - 1) (BaseDelay cfg) (MaxDelay cfg) in
  0 <= delay attempt (BaseDelay cfg) (MaxDelay cfg) (Some (Float64 word)) <= cap /\
  0 < cap <= MaxDelay cfg /\
  (MaxDelay cfg < 2 ^ 53 ->
   cap = Z.min (MaxDelay cfg) (BaseDelay cfg * 2 ^ (Z.max 1 attempt - 1))).
Proof.
  intros [_ _ _ _ Hd _ _ _ _ _ _ _]%Validate_ok Hm cap.
  destruct (cappedExp_range (Z.max 1 attempt - 1) _ _ Hd Hm) as [Hc He]. fold cap in Hc, He.
  rewrite Z.max_r in He by lia. split; [|done]. unfold delay.
  replace (if attempt <? 1 then 1 else attempt) with (Z.max 1 attempt)
    by (destruct (Z.ltb_spec attempt 1); lia).
  fold cap. rewrite (proj2 (Z.leb_gt cap 0)) by lia.
  destruct (Float64_range word) as [Hf0 Hf].
  rewrite (proj2 (Qle_bool_iff 0 _) Hf0), (proj2 (Qle_bool_iff _ 1))
    by (eapply Qle_trans; [exact Hf|discriminate]).
  apply jittered_below; [lia..|done|done].
Qed.

(** The default configuration under the name [relay.New] gives it. *)
Definition named_config : Config :=
  match New_config "relay-1"%string DefaultConfig with Ok c => c | Err _ => DefaultConfig end.

(** Its third attempt: a cap of four seconds. *)
Lemma delay_bounds_witness :
  delay 3 (BaseDelay named_config) (MaxDelay named_config) (Some (Float64 (2 ^ 52 + 5)))
    <= cappedExp 2 (BaseDelay named_config) (MaxDelay named_config) /\
  cappedExp 2 (BaseDelay named_config) (MaxDelay named_config) = 4 * Second.
Proof.
  destruct (delay_bounds named_config 3 (2 ^ 52 + 5)) as ([_ H1] & _ & H2);
    [vm_compute; reflexivity..|].
  split; [exact H1|exact (H2 eq_refl)].
Defined.

(** Rounding is visible above 2^53: the product of an odd base is rounded. *)
Example cappedExp_rounds : cappedExp 1 (2 ^ 53 + 1) (2 ^ 62) = 2 ^ 54.
Proof. by vm_compute. Qed.

End Retry.
