(* ===== verification/Relay.v ===== *)
(** * The relay ([relay/relay.go])

    The handlers of the relay as programs: trees of calls to the store, the
    publisher and the context, each with a continuation that receives the
    call's result. [handle] and [claimAvailable] are such programs; an
    interpreter runs them against the PostgreSQL store model with faults, and
    the scheduler is a step function over its loop state. *)
From Stdlib Require Import ZArith String.
From stdpp Require Import base gmap strings list sorting fin_maps sets.
From S2P Require Import Prelude GoStrings Ordering Schema Invariant Samples OutboxStore.
From S2P Require Import OrderedStore RelayConfig.

Open Scope Z_scope.

(** ** Messages ([broker/publisher.go]) *)

Definition HeaderEventID : string := "emitlane-event-id".
Definition HeaderEventType : string := "emitlane-event-type".
Definition HeaderSchemaVersion : string := "emitlane-schema-version".
Definition HeaderAttempt : string := "emitlane-attempt".
Definition HeaderOriginalEvent : string := "emitlane-original-event-id".
Definition HeaderReplayBatch : string := "emitlane-replay-batch-id".
Definition HeaderOrderingKey : string := "emitlane-ordering-key".
Definition HeaderSequence : string := "emitlane-sequence".
Definition HeaderPartition : string := "emitlane-ordering-partition".
Definition HeaderTraceparent : string := "traceparent".
Definition HeaderTracestate : string := "tracestate".
Definition HeaderCorrelation : string := "emitlane-correlation-id".
Definition HeaderCausation : string := "emitlane-causation-id".

Record Message : Type := MkMessage {
  msg_ID : string;
  msg_Destination : string;
  msg_Key : option string;
  msg_Payload : string;
  msg_Headers : gmap string string;
}.

(** The names the durable metadata owns, whatever their case or padding. *)
Definition reserved_names : list string :=
  [HeaderEventID; HeaderEventType; HeaderSchemaVersion; HeaderAttempt; HeaderOriginalEvent;
   HeaderReplayBatch; HeaderOrderingKey; HeaderSequence; HeaderPartition; HeaderTraceparent;
   HeaderTracestate; HeaderCorrelation; HeaderCausation].
Definition reserved (k : string) : bool := bool_decide (ToLower (TrimSpace k) ∈ reserved_names).

Definition set_nonempty (name value : string) (h : gmap string string) : gmap string string :=
  if bool_decide (value = ""%string) then h else <[name := value]> h.

Section message.
Context (uuid_String : uuid -> string).

Definition set_uuid (name : string) (value : option uuid) (h : gmap string string)
  : gmap string string :=
  match value with Some u => <[name := uuid_String u]> h | None => h end.

Definition toMessage (ev : Event) : Message :=
  let headers := filter (fun kv => reserved kv.1 = false) (Headers ev) in
  let headers := <[HeaderEventID := uuid_String (ID ev)]> headers in
  let headers := <[HeaderEventType := EventType ev]> headers in
  let headers := <[HeaderSchemaVersion := Itoa (SchemaVersion ev)]> headers in
  let headers := <[HeaderAttempt := Itoa (Attempts ev)]> headers in
  let headers := set_uuid HeaderOriginalEvent (ReplayedFromEventID ev) headers in
  let headers := set_uuid HeaderReplayBatch (ReplayBatchID ev) headers in
  let headers :=
    match OrderingPartition ev with
    | Some p =>
        if bool_decide (OrderingKey ev = ""%string) then headers else
        <[HeaderPartition := Itoa p]>
          (<[HeaderSequence := Itoa (OrderingSequence ev)]>
             (<[HeaderOrderingKey := OrderingKey ev]> headers))
    | None => headers
    end in
  let headers := set_nonempty HeaderTraceparent (Traceparent ev) headers in
  let headers := set_nonempty HeaderTracestate (Tracestate ev) headers in
  let headers := set_nonempty HeaderCorrelation (CorrelationID ev) headers in
  let headers := set_nonempty HeaderCausation (CausationID ev) headers in
  {| msg_ID := uuid_String (ID ev); msg_Destination := Destination ev; msg_Key := Key ev;
     msg_Payload := Payload ev; msg_Headers := headers |}.

End message.

Definition setHeader (headers : gmap string string) (name value : string) : gmap string string :=
  if bool_decide (value = ""%string) then delete name headers else <[name := value]> headers.

(** ** Programs *)

(** A publish error: its text and what [errors.Is] says of it. *)
Record publish_error : Type := PublishError {
  pe_text : string;
  pe_permanent : bool;
  pe_deadline : bool;
}.

(** [PubErr landed e]: the publisher returned [e]; whether the record reached
    the log is not known to the relay. *)
Inductive publish_result : Type :=
| PubAck
| PubErr (landed : bool) (e : publish_error).

Inductive prog (A : Type) : Type :=
| Ret (a : A)
| CallPaused (k : res bool -> prog A)
| CallClaim (limit : Z) (k : res (list Event) -> prog A)
| CallClaimOrdered (limit : Z) (k : res (list Event) -> prog A)
| CallCtxErr (k : option publish_error -> prog A)
| CallBegin (ev : Event) (k : res Z -> prog A)
| CallPublish (msg : Message) (k : publish_result -> prog A)
| CallDelivered (ev : Event) (k : res unit -> prog A)
| CallRetry (ev : Event) (delay : duration) (lastError : string) (k : res unit -> prog A)
| CallDead (ev : Event) (lastError : string) (k : res unit -> prog A).
Arguments Ret {A} a.
Arguments CallPaused {A} k.
Arguments CallClaim {A} limit k.
Arguments CallClaimOrdered {A} limit k.
Arguments CallCtxErr {A} k.
Arguments CallBegin {A} ev k.
Arguments CallPublish {A} msg k.
Arguments CallDelivered {A} ev k.
Arguments CallRetry {A} ev delay lastError k.
Arguments CallDead {A} ev lastError k.

Definition with_attempts (ev : Event) (n : Z) : Event :=
  {| ID := ID ev; Destination := Destination ev; EventType := EventType ev; Key := Key ev;
     Payload := Payload ev; ContentType := ContentType ev; Headers := Headers ev;
     SchemaVersion := SchemaVersion ev; CorrelationID := CorrelationID ev;
     CausationID := CausationID ev; Traceparent := Traceparent ev; Tracestate := Tracestate ev;
     Status := Status ev; Attempts := n; AvailableAt := AvailableAt ev;
     LeaseOwner := LeaseOwner ev; LeaseUntil := LeaseUntil ev; LastError := LastError ev;
     CreatedAt := CreatedAt ev; DeliveredAt := DeliveredAt ev;
     ReplayedFromEventID := ReplayedFromEventID ev; ReplayBatchID := ReplayBatchID ev;
     OrderingKey := OrderingKey ev; OrderingSequence := OrderingSequence ev;
     OrderingPartition := OrderingPartition ev; OrderingEpoch := OrderingEpoch ev |}.

(** How a handler ended. *)
Inductive outcome : Type :=
| ODelivered
| ORetried
| ODead
| OLeft (* recoverable: fenced, failed call or shutdown *).

Section relay.
Context (uuid_String : uuid -> string).
(** [telemetry.InjectTrace] of the publish context of an event, and the
    jittered delay for an attempt number. *)
Context (trace_of : Event -> string * string) (backoff : Z -> duration).
Context (cfg : Config).

(** ** [handle] *)

Definition markDead (ev : Event) (reason : string) : prog outcome :=
  CallDead ev reason (fun r => Ret (if is_ok r then ODead else OLeft)).

Definition onPublishFailure (ev : Event) (pubErr : publish_error) : prog outcome :=
  CallCtxErr (fun ctxErr =>
    if not_null ctxErr && negb (pe_deadline pubErr) then Ret OLeft else
    if pe_permanent pubErr || (MaxAttempts cfg <=? Attempts ev)
    then markDead ev (pe_text pubErr)
    else CallRetry ev (backoff (Attempts ev)) (pe_text pubErr)
           (fun r => Ret (if is_ok r then ORetried else OLeft))).

(** The message with the trace of the publish span. *)
Definition outgoing (ev : Event) : Message :=
  let m := toMessage uuid_String ev in
  let '(traceparent, tracestate) := trace_of ev in
  {| msg_ID := msg_ID m; msg_Destination := msg_Destination m; msg_Key := msg_Key m;
     msg_Payload := msg_Payload m;
     msg_Headers := setHeader (setHeader (msg_Headers m) HeaderTraceparent traceparent)
                      HeaderTracestate tracestate |}.

Definition publish (ev : Event) : prog outcome :=
  CallCtxErr (fun ctxErr =>
    match ctxErr with
    | Some e => onPublishFailure ev e
    | None =>
        CallPublish (outgoing ev) (fun r =>
          match r with
          | PubErr _ e => onPublishFailure ev e
          | PubAck => CallDelivered ev (fun r => Ret (if is_ok r then ODelivered else OLeft))
          end)
    end).

Definition handle (ev : Event) : prog outcome :=
  if MaxAttempts cfg <=? Attempts ev
  then markDead ev "publish attempt budget exhausted during lease recovery"
  else CallBegin ev (fun r =>
    match r with
    | Err _ => Ret OLeft
    | Ok attempt => publish (with_attempts ev attempt)
    end).

(** ** [claimAvailable] *)

(** Events, paused, orderedEmpty, error. *)
Record claim_result : Type := ClaimResult {
  cl_events : list Event;
  cl_paused : bool;
  cl_orderedEmpty : bool;
  cl_error : option error;
}.

Definition claimAvailable (limit : Z) (preferOrdered probeOrdered : bool) : prog claim_result :=
  if limit <=? 0 then Ret (ClaimResult [] false false None) else
  CallPaused (fun r =>
  match r with
  | Err e => Ret (ClaimResult [] false false (Some e))
  | Ok true => Ret (ClaimResult [] true false None)
  | Ok false =>
      let claimOrdered remaining (k : res (list Event) -> bool -> prog claim_result) :=
        if (remaining =? 0) || negb probeOrdered then k (Ok []) false
        else CallClaimOrdered remaining (fun r => k r true) in
      let claimUnordered remaining (k : res (list Event) -> prog claim_result) :=
        if remaining =? 0 then k (Ok []) else CallClaim remaining k in
      let ordered_empty probed (r : list Event) := probed && (Z.of_nat (length r) =? 0) in
      if preferOrdered && probeOrdered then
        claimOrdered limit (fun r probed =>
          match r with
          | Err e => Ret (ClaimResult [] false false (Some e))
          | Ok events =>
              let empty := ordered_empty probed events in
              if Z.of_nat (length events) =? limit
              then Ret (ClaimResult events false empty None)
              else claimUnordered (limit - Z.of_nat (length events)) (fun r =>
                match r with
                | Err e => Ret (ClaimResult events false empty (Some e))
                | Ok more => Ret (ClaimResult (events ++ more) false empty None)
                end)
          end)
      else
        claimUnordered limit (fun r =>
          match r with
          | Err e => Ret (ClaimResult [] false false (Some e))
          | Ok events =>
              if Z.of_nat (length events) =? limit
              then Ret (ClaimResult events false false None)
              else claimOrdered (limit - Z.of_nat (length events)) (fun r probed =>
                match r with
                | Err e => Ret (ClaimResult events false probed (Some e))
                | Ok more =>
                    Ret (ClaimResult (events ++ more) false (ordered_empty probed more) None)
                end)
          end)
  end).

End relay.

(** ** The store the relay is written against ([relay/store.go])

    The operations of the interfaces [Store], [OrderedDeliveryStore] and
    [PauseState], at a transaction time, with the choice between the unordered
    and the ordered variant made as the relay makes it ([beginAttempt],
    [markDelivered], [markRetry], [markDead]). *)
Class DeliveryStore (S : Type) : Type := {
  st_paused : S -> res bool;
  st_claim : S -> gset uuid -> time -> Config -> Z -> S * list Event;
  st_claim_ordered : S -> gset uuid -> time -> Config -> Z -> S * list Event;
  st_begin : S -> time -> Config -> Event -> S * res Z;
  st_delivered : S -> time -> Config -> Event -> S * res unit;
  st_retry : S -> time -> Config -> Event -> duration -> string -> S * res unit;
  st_dead : S -> time -> Config -> Event -> string -> S * res unit;
  (** Observations for the laws. *)
  st_ok : S -> Prop;
  st_status : S -> uuid -> option outbox_status;
  st_matches : S -> Event -> Prop;
}.

(** One operation moved event [id] to [status] and left every other alone. *)
Definition moved {S} `{DeliveryStore S} (s s' : S) (id : uuid) (status : outbox_status) : Prop :=
  st_status s id = Some Inflight /\ st_status s' id = Some status /\
  forall i, i <> id -> st_status s' i = st_status s i.

(** What the relay relies on: "implementations must commit Claim before
    returning and condition every state transition on the expected lease
    owner". *)
Class DeliveryStoreLaws (S : Type) `{DeliveryStore S} : Prop := {
  claim_limit : forall s locked now cfg limit s' events,
    st_ok s -> st_claim s locked now cfg limit = (s', events) ->
    st_ok s' /\ Z.of_nat (length events) <= Z.max 0 limit /\
    (forall e, e ∈ events -> st_status s (ID e) <> Some Delivered /\
                             st_status s (ID e) <> Some Dead /\ st_matches s' e /\
                             st_status s' (ID e) = Some Inflight) /\
    (forall e, st_matches s e -> st_matches s' e) /\
    (forall i, i ∉ ID <$> events -> st_status s' i = st_status s i);
  claim_ordered_limit : forall s locked now cfg limit s' events,
    st_ok s -> st_claim_ordered s locked now cfg limit = (s', events) ->
    st_ok s' /\ Z.of_nat (length events) <= Z.max 0 limit /\
    (forall e, e ∈ events -> st_status s (ID e) <> Some Delivered /\
                             st_status s (ID e) <> Some Dead /\ st_matches s' e /\
                             st_status s' (ID e) = Some Inflight) /\
    (forall e, st_matches s e -> st_matches s' e) /\
    (forall i, i ∉ ID <$> events -> st_status s' i = st_status s i);
  begin_law : forall s now cfg ev s' r,
    st_ok s -> st_begin s now cfg ev = (s', r) ->
    st_ok s' /\ (forall e, st_matches s e -> st_matches s' e) /\
    (forall i, st_status s' i = st_status s i) /\
    (forall n, r = Ok n -> st_status s (ID ev) = Some Inflight /\ n <= MaxAttempts cfg);
  delivered_law : forall s now cfg ev s' r,
    st_ok s -> st_matches s ev -> st_delivered s now cfg ev = (s', r) ->
    st_ok s' /\ (forall e, st_matches s e -> st_matches s' e) /\
    (if is_ok r then moved s s' (ID ev) Delivered else s' = s);
  retry_law : forall s now cfg ev delay msg s' r,
    st_ok s -> st_retry s now cfg ev delay msg = (s', r) ->
    st_ok s' /\ (forall e, st_matches s e -> st_matches s' e) /\
    (if is_ok r then moved s s' (ID ev) Pending else s' = s);
  dead_law : forall s now cfg ev msg s' r,
    st_ok s -> st_dead s now cfg ev msg = (s', r) ->
    st_ok s' /\ (forall e, st_matches s e -> st_matches s' e) /\
    (if is_ok r then moved s s' (ID ev) Dead else s' = s);
}.

(** ** Running a program *)

(** A store call can fail before it takes effect, or after (the commit went
    through and its reply was lost). *)
Inductive fault : Type := NoFault | FailBefore | FailAfter.

Definition with_fault {S A} (f : fault) (s : S) (r : S * res A) : S * res A :=
  match f with
  | NoFault => r
  | FailBefore => (s, Err (ErrSQL ConnectionFailure))
  | FailAfter => (r.1, Err (ErrSQL ConnectionFailure))
  end.

(** What the environment decides about the next call. *)
Record env : Type := MkEnv {
  env_now : time;
  env_fault : fault;
  env_locked : gset uuid;
  env_ctx : option publish_error;
  env_publish : publish_result;
}.

Section run.
Context {S : Type} `{DeliveryStore S} (cfg : Config).

(** The messages of the call that reached the broker's log. *)
Definition landed (msg : Message) (r : publish_result) : list Message :=
  match r with
  | PubAck => [msg]
  | PubErr true _ => [msg]
  | PubErr false _ => []
  end.

Definition step_prog {A} (e : env) (s : S) (p : prog A) : S * list Message * prog A :=
  let now := env_now e in
  let fault_of {B} (r : S * res B) := with_fault (env_fault e) s r in
  match p with
  | Ret a => (s, [], Ret a)
  | CallPaused k => let '(s', r) := fault_of (s, st_paused s) in (s', [], k r)
  | CallClaim limit k =>
      let '(s1, events) := st_claim s (env_locked e) now cfg limit in
      let '(s', r) := fault_of (s1, Ok events) in (s', [], k r)
  | CallClaimOrdered limit k =>
      let '(s1, events) := st_claim_ordered s (env_locked e) now cfg limit in
      let '(s', r) := fault_of (s1, Ok events) in (s', [], k r)
  | CallCtxErr k => (s, [], k (env_ctx e))
  | CallBegin ev k => let '(s', r) := fault_of (st_begin s now cfg ev) in (s', [], k r)
  | CallPublish msg k => (s, landed msg (env_publish e), k (env_publish e))
  | CallDelivered ev k => let '(s', r) := fault_of (st_delivered s now cfg ev) in (s', [], k r)
  | CallRetry ev delay msg k =>
      let '(s', r) := fault_of (st_retry s now cfg ev delay msg) in (s', [], k r)
  | CallDead ev msg k => let '(s', r) := fault_of (st_dead s now cfg ev msg) in (s', [], k r)
  end.

(** One environment decision per call; [None] when they run out first. *)
Fixpoint run {A} (es : list env) (s : S) (p : prog A) : S * list Message * option A :=
  match p, es with
  | Ret a, _ => (s, [], Some a)
  | _, [] => (s, [], None)
  | _, e :: es =>
      let '(s1, log1, p1) := step_prog e s p in
      let '(s2, log2, a) := run es s1 p1 in
      (s2, log1 ++ log2, a)
  end.

End run.

(** * Lemmas *)

Section handle_lemmas.
Context {S : Type} `{Laws : DeliveryStoreLaws S}.
Context (uuid_String : uuid -> string) (trace_of : Event -> string * string)
        (backoff : Z -> duration) (cfg : Config).

(** What a run of a handler for [ev] did; [published] says that a message for
    [ev] reached the broker before. *)
Record handled (published : bool) (s s' : S) (ev : Event) (log : list Message)
    (o : option outcome) : Prop := {
  hd_ok : st_ok s';
  hd_matches : forall e, st_matches s e -> st_matches s' e;
  hd_frame : forall i, i <> ID ev -> st_status s' i = st_status s i;
  hd_status : st_status s' (ID ev) = st_status s (ID ev) \/
              (st_status s (ID ev) = Some Inflight /\
               (st_status s' (ID ev) = Some Pending \/ st_status s' (ID ev) = Some Dead \/
                (st_status s' (ID ev) = Some Delivered /\ (published = true \/ log <> []))));
  hd_outcome : match o with
               | Some ODelivered =>
                   st_status s' (ID ev) = Some Delivered /\ (published = true \/ log <> [])
               | Some ORetried => st_status s' (ID ev) = Some Pending
               | Some ODead => st_status s' (ID ev) = Some Dead
               | Some OLeft | None => True
               end;
}.

Lemma handled_refl published s ev log o :
  st_ok s -> (o = None \/ o = Some OLeft) -> handled published s s ev log o.
Proof. intros Hok Ho. split; try done; [by left|by destruct Ho as [->| ->]]. Qed.

(** A transition of [ev], with or without a fault, as the last call. *)
Lemma handled_last published s ev f (r : S * res unit) status good log :
  st_ok s -> st_ok r.1 -> (forall e, st_matches s e -> st_matches r.1 e) ->
  (if is_ok r.2 then moved s r.1 (ID ev) status else r.1 = s) ->
  (status = Pending \/ status = Dead \/ (status = Delivered /\ published = true)) ->
  (status = Delivered -> good = ODelivered) -> (status = Pending -> good = ORetried) ->
  (status = Dead -> good = ODead) ->
  handled published s (with_fault f s r).1 ev log
    (Some (if is_ok (with_fault f s r).2 then good else OLeft)).
Proof.
  intros Hok Hok' Hm Hr Hst H1 H2 H3. destruct r as [s' x]. cbn [fst snd] in *.
  destruct f; cbn [with_fault fst snd is_ok].
  - destruct x as [[]|err]; cbn [is_ok] in *.
    + destruct Hr as (Hi & Hs & Hf). split; try done.
      * right. split; [done|]. destruct Hst as [->|[->|[-> ->]]]; eauto.
      * destruct Hst as [->|[->|[-> ?]]]; [rewrite H2|rewrite H3|rewrite H1]; auto.
    + subst s'. apply handled_refl; [done|by right].
  - apply handled_refl; [done|by right].
  - destruct x as [[]|err]; cbn [is_ok] in *.
    + destruct Hr as (Hi & Hs & Hf). split; try done.
      right. split; [done|]. destruct Hst as [->|[->|[-> ->]]]; eauto.
    + subst s'. apply handled_refl; [done|by right].
Qed.

(** ** Composing runs *)

Lemma run_cons {A} e es s (p : prog A) :
  (forall a, p <> Ret a) ->
  run cfg (e :: es) s p =
  let '(s1, log1, p1) := step_prog cfg e s p in
  let '(s2, log2, a) := run cfg es s1 p1 in (s2, log1 ++ log2, a).
Proof. intros Hn. destruct p; try done. by destruct (Hn a). Qed.

Lemma run_ret {A} es s (a : A) : run cfg es s (Ret a) = (s, [], Some a).
Proof. by destruct es. Qed.

Lemma run_nil {A} s (p : prog A) : (forall a, p <> Ret a) -> run cfg [] s p = (s, [], None).
Proof. intros Hn. destruct p; try done. by destruct (Hn a). Qed.

Lemma markDead_handled published es s ev reason s' log o :
  st_ok s -> run cfg es s (markDead ev reason) = (s', log, o) ->
  log = [] /\ handled published s s' ev log o.
Proof.
  intros Hok. destruct es as [|e es].
  { rewrite run_nil by done. intros [= <- <- <-]. split; [done|]. apply handled_refl; auto. }
  rewrite run_cons by done. unfold markDead. cbn [step_prog].
  destruct (with_fault _ s (st_dead s _ cfg ev reason)) as [s1 r] eqn:E.
  rewrite run_ret. intros [= <- <- <-]. split; [done|].
  destruct (st_dead s (env_now e) cfg ev reason) as [sd rd] eqn:Ed.
  destruct (dead_law _ _ _ _ _ _ _ Hok Ed) as (Hok' & Hm & Hr).
  pose proof (handled_last published s ev (env_fault e) (sd, rd) Dead ODead [] Hok Hok' Hm Hr) as Hl.
  rewrite E in Hl. cbn [fst snd] in Hl. apply Hl; auto; discriminate.
Qed.

Lemma onPublishFailure_handled published es s ev err s' log o :
  st_ok s -> run cfg es s (onPublishFailure backoff cfg ev err) = (s', log, o) ->
  log = [] /\ handled published s s' ev log o.
Proof.
  intros Hok. destruct es as [|e es].
  { rewrite run_nil by done. intros [= <- <- <-]. split; [done|]. apply handled_refl; auto. }
  rewrite run_cons by done. unfold onPublishFailure. cbn [step_prog].
  destruct (not_null (env_ctx e) && negb (pe_deadline err)).
  { rewrite run_ret. intros [= <- <- <-]. split; [done|]. apply handled_refl; auto. }
  destruct (pe_permanent err || _).
  { destruct (run cfg es s _) as [[s2 log2] a] eqn:E. intros [= <- <- <-].
    by apply (markDead_handled published) in E. }
  destruct es as [|e' es].
  { rewrite run_nil by done. intros [= <- <- <-]. split; [done|]. apply handled_refl; auto. }
  rewrite run_cons by done. cbn [step_prog].
  destruct (with_fault _ s (st_retry s _ cfg ev _ _)) as [s1 r] eqn:E.
  rewrite run_ret. intros [= <- <- <-]. split; [done|].
  destruct (st_retry s (env_now e') cfg ev (backoff (Attempts ev)) (pe_text err)) as [sd rd] eqn:Ed.
  destruct (retry_law _ _ _ _ _ _ _ _ Hok Ed) as (Hok' & Hm & Hr).
  pose proof (handled_last published s ev (env_fault e') (sd, rd) Pending ORetried [] Hok Hok' Hm Hr)
    as Hl. rewrite E in Hl. cbn [fst snd] in Hl. apply Hl; auto; discriminate.
Qed.

Lemma handled_log published published' s s' ev log log' o :
  handled published s s' ev log o -> (published = true -> published' = true \/ log' <> []) ->
  (log <> [] -> log' <> []) -> handled published' s s' ev log' o.
Proof.
  intros [? ? ? Hs Ho] H1 H2. split; try done.
  - destruct Hs as [?|[? [?|[?|[? [?|?]]]]]]; eauto 10.
  - destruct o as [[]|]; try done. destruct Ho as [? [?|?]]; eauto.
Qed.

Lemma publish_handled es s ev s' log o :
  st_ok s -> st_matches s ev ->
  run cfg es s (publish uuid_String trace_of backoff cfg ev) = (s', log, o) ->
  (log = [] \/ log = [outgoing uuid_String trace_of ev]) /\ handled false s s' ev log o.
Proof.
  intros Hok Hmt. destruct es as [|e es].
  { rewrite run_nil by done. intros [= <- <- <-]. split; [by left|]. apply handled_refl; auto. }
  rewrite run_cons by done. unfold publish. cbn [step_prog].
  destruct (env_ctx e) as [err|].
  { destruct (run cfg es s _) as [[s2 log2] a] eqn:E. intros [= <- <- <-].
    apply (onPublishFailure_handled false) in E as [-> Hh]; [|done]. split; [by left|done]. }
  destruct es as [|e2 es].
  { rewrite run_nil by done. intros [= <- <- <-]. split; [by left|]. apply handled_refl; auto. }
  rewrite run_cons by done. cbn [step_prog].
  destruct (env_publish e2) as [|lnd err] eqn:Ep.
  - destruct es as [|e3 es].
    { rewrite run_nil by done. intros [= <- <- <-]. split; [by right|]. apply handled_refl; auto. }
    rewrite run_cons by done. cbn [step_prog].
    destruct (with_fault _ s (st_delivered s _ cfg ev)) as [s1 r] eqn:E.
    rewrite run_ret. intros [= <- <- <-]. split; [by right|].
    destruct (st_delivered s (env_now e3) cfg ev) as [sd rd] eqn:Ed.
    destruct (delivered_law _ _ _ _ _ _ Hok Hmt Ed) as (Hok' & Hm & Hr).
    pose proof (handled_last true s ev (env_fault e3) (sd, rd) Delivered ODelivered [] Hok Hok' Hm Hr)
      as Hl. rewrite E in Hl. cbn [fst snd] in Hl.
    eapply handled_log; [apply Hl|..]; auto; discriminate.
  - destruct (run cfg es s _) as [[s2 log2] a] eqn:E.
    apply (onPublishFailure_handled false) in E as [-> Hh]; [|done].
    intros [= <- <- <-]. rewrite app_nil_r. split; [destruct lnd; auto|].
    by eapply handled_log.
Qed.

Lemma handle_handled es s ev s' log o :
  st_ok s -> (forall n, st_matches s (with_attempts ev n)) ->
  run cfg es s (handle uuid_String trace_of backoff cfg ev) = (s', log, o) ->
  (log = [] \/ exists n, n <= MaxAttempts cfg /\
                         log = [outgoing uuid_String trace_of (with_attempts ev n)]) /\
  handled false s s' ev log o.
Proof.
  intros Hok Hmt. unfold handle. destruct (MaxAttempts cfg <=? Attempts ev).
  { intros H1. apply (markDead_handled false) in H1 as [-> Hh]; [|done]. split; [by left|done]. }
  destruct es as [|e es].
  { rewrite run_nil by done. intros [= <- <- <-]. split; [by left|]. apply handled_refl; auto. }
  rewrite run_cons by done. cbn [step_prog].
  destruct (st_begin s (env_now e) cfg ev) as [sb rb] eqn:Eb.
  destruct (begin_law _ _ _ _ _ _ Hok Eb) as (Hok1 & Hm1 & Hst1 & Hn1).
  assert (forall s1 r, with_fault (env_fault e) s (sb, rb) = (s1, r) ->
            st_ok s1 /\ (forall e, st_matches s e -> st_matches s1 e) /\
            (forall i, st_status s1 i = st_status s i) /\
            (forall n, r = Ok n -> n <= MaxAttempts cfg)) as Hf.
  { intros s1 r. destruct (env_fault e); intros [= <- <-]; split_and!; try done.
    intros n Hn. by apply Hn1. }
  destruct (with_fault _ s (sb, rb)) as [s1 r] eqn:E.
  destruct (Hf _ _ eq_refl) as (Hok2 & Hm2 & Hst2 & Hn2). destruct r as [n|err].
  - destruct (run cfg es s1 _) as [[s2 log2] a] eqn:Er. intros [= <- <- <-].
    apply publish_handled in Er as [Hlog Hh]; [|done|by apply Hm2].
    split; [destruct Hlog as [->| ->]; [by left|right; exists n; eauto]|].
    destruct Hh as [? Hm3 Hf3 Hs3 ?]. cbn [with_attempts ID] in *. split; try done.
    + eauto.
    + intros i Hi. by rewrite Hf3, Hst2.
    + by rewrite <- Hst2.
  - rewrite run_ret. intros [= <- <- <-]. split; [by left|].
    split; [done..| |done]. left. apply Hst2.
Qed.

End handle_lemmas.

(** ** Termination *)

Section handle_termination.
Context {S : Type} `{DeliveryStore S}.
Context (uuid_String : uuid -> string) (trace_of : Event -> string * string)
        (backoff : Z -> duration) (cfg : Config).

(** The number of calls [p] makes at most, whatever the answers. *)
Inductive calls_at_most {A} : nat -> prog A -> Prop :=
| calls_ret n a : calls_at_most n (Ret a)
| calls_paused n k : (forall r, calls_at_most n (k r)) -> calls_at_most (Datatypes.S n) (CallPaused k)
| calls_claim n l k : (forall r, calls_at_most n (k r)) ->
    calls_at_most (Datatypes.S n) (CallClaim l k)
| calls_claim_ordered n l k : (forall r, calls_at_most n (k r)) ->
    calls_at_most (Datatypes.S n) (CallClaimOrdered l k)
| calls_ctx n k : (forall r, calls_at_most n (k r)) -> calls_at_most (Datatypes.S n) (CallCtxErr k)
| calls_begin n ev k : (forall r, calls_at_most n (k r)) ->
    calls_at_most (Datatypes.S n) (CallBegin ev k)
| calls_publish n m k : (forall r, calls_at_most n (k r)) ->
    calls_at_most (Datatypes.S n) (CallPublish m k)
| calls_delivered n ev k : (forall r, calls_at_most n (k r)) ->
    calls_at_most (Datatypes.S n) (CallDelivered ev k)
| calls_retry n ev d m k : (forall r, calls_at_most n (k r)) ->
    calls_at_most (Datatypes.S n) (CallRetry ev d m k)
| calls_dead n ev m k : (forall r, calls_at_most n (k r)) ->
    calls_at_most (Datatypes.S n) (CallDead ev m k).

Lemma calls_at_most_step {A} n e s (p : prog A) :
  calls_at_most n p -> calls_at_most (pred n) (step_prog cfg e s p).2.
Proof.
  intros Hc. destruct Hc; cbn [step_prog pred]; try destruct (st_claim _ _ _ _ _);
    try destruct (st_claim_ordered _ _ _ _ _); try destruct (with_fault _ _ _); cbn [snd]; auto.
  constructor.
Qed.

Lemma run_total {A} es s (p : prog A) :
  calls_at_most (length es) p -> exists s' log a, run cfg es s p = (s', log, Some a).
Proof.
  revert s p. induction es as [|e es IH]; intros s p Hc.
  - inversion Hc; subst. eexists _, _, _. apply run_ret.
  - destruct p as [a| | | | | | | | |] eqn:Ep; [eexists _, _, _; apply run_ret|..];
      rewrite run_cons by done;
      pose proof (calls_at_most_step _ e s _ Hc) as Hs;
      destruct (step_prog cfg e s _) as [[s1 log1] p1]; cbn [snd pred length] in Hs;
      destruct (IH s1 p1 Hs) as (s' & log & a & ->); eauto.
Qed.

Lemma calls_mono {A} n m (p : prog A) : calls_at_most n p -> (n <= m)%nat -> calls_at_most m p.
Proof.
  intros Hc. revert m. induction Hc; intros bound Hm; [constructor|destruct bound; [lia|]..];
    constructor; intros r; auto with lia.
Qed.

Lemma markDead_calls n ev m : calls_at_most (Datatypes.S n) (markDead ev m).
Proof. unfold markDead. repeat constructor. Qed.

Lemma onPublishFailure_calls n ev err :
  calls_at_most (Datatypes.S (Datatypes.S n)) (onPublishFailure backoff cfg ev err).
Proof.
  unfold onPublishFailure. constructor. intros r. repeat case_match; try constructor.
  - intros r'. constructor.
  - intros r'. constructor.
Qed.

Lemma handle_calls ev : calls_at_most 5 (handle uuid_String trace_of backoff cfg ev).
Proof.
  unfold handle. case_match; [apply markDead_calls|]. constructor. intros [n|err]; [|constructor].
  unfold publish. constructor. intros [err|]; [apply onPublishFailure_calls|].
  constructor. intros [|lnd err]; [|apply onPublishFailure_calls]. repeat constructor.
Qed.

End handle_termination.

(** * Properties *)

(** A handler run makes at most five calls to the store, the context and
    the publisher and then ends, whatever fails. *)
Theorem handle_terminates {S} `{DeliveryStore S} uuid_String trace_of backoff cfg es (s : S) ev :
  (5 <= length es)%nat ->
  exists s' log o, run cfg es s (handle uuid_String trace_of backoff cfg ev) = (s', log, Some o).
Proof.
  intros Hlen. apply run_total. eapply calls_mono; [apply handle_calls|done].
Qed.

(** C5: Handler safety, against the store interface. Whatever the store, the
    broker and the context answer, and wherever a call fails, one handler run
    publishes at most one message, built from the claimed event under an attempt
    number within the budget; it changes the status of no other event; it moves
    its event only out of in-flight, and to delivered only when its message
    reached the broker; and its outcome is the stored status. *)
Theorem handle_safe {S} `{DeliveryStoreLaws S} uuid_String trace_of backoff cfg es (s s' : S) ev
    log o :
  st_ok s -> (forall n, st_matches s (with_attempts ev n)) ->
  run cfg es s (handle uuid_String trace_of backoff cfg ev) = (s', log, o) ->
  st_ok s' /\
  (log = [] \/ exists n, n <= MaxAttempts cfg /\
                         log = [outgoing uuid_String trace_of (with_attempts ev n)]) /\
  (forall i, i <> ID ev -> st_status s' i = st_status s i) /\
  (st_status s' (ID ev) <> st_status s (ID ev) -> st_status s (ID ev) = Some Inflight) /\
  (st_status s' (ID ev) = Some Delivered -> st_status s (ID ev) = Some Delivered \/ log <> []) /\
  match o with
  | Some ODelivered => st_status s' (ID ev) = Some Delivered /\ log <> []
  | Some ORetried => st_status s' (ID ev) = Some Pending
  | Some ODead => st_status s' (ID ev) = Some Dead
  | Some OLeft | None => True
  end.
Proof.
  intros Hok Hm Hrun. destruct (handle_handled _ _ _ _ _ _ _ _ _ _ Hok Hm Hrun) as [Hlog [? _ ? Hs Ho]].
  split_and!; try done.
  - destruct Hs as [?|[? _]]; congruence.
  - intros Hd. rewrite Hd in Hs.
    destruct Hs as [Hs|[_ [Hs|[Hs|[_ [?|?]]]]]]; [left|..]; try done; auto.
  - destruct o as [[]|]; try done. destruct Ho as [? [?|?]]; done.
Qed.

(** * Claiming and scheduling *)

Section claim_lemmas.
Context {S : Type} `{Laws : DeliveryStoreLaws S} (cfg : Config).

(** What a claiming run returned. *)
Definition claimed_ok (s' : S) (limit : Z) (r : claim_result) : Prop :=
  st_ok s' /\ Z.of_nat (length (cl_events r)) <= Z.max 0 limit /\
  forall e, e ∈ cl_events r -> st_status s' (ID e) = Some Inflight /\ st_matches s' e.

(** The result of one claim call, with its fault. *)
Definition claim_answer (s s1 : S) (limit : Z) (r : res (list Event)) : Prop :=
  st_ok s1 /\ (forall e, st_matches s e -> st_matches s1 e) /\
  (forall i, st_status s i = Some Inflight -> st_status s1 i = Some Inflight) /\
  match r with
  | Ok events => Z.of_nat (length events) <= Z.max 0 limit /\
      forall e, e ∈ events -> st_status s1 (ID e) = Some Inflight /\ st_matches s1 e
  | Err _ => True
  end.

Lemma claim_answer_fault f s s1 limit events sf r :
  st_ok s -> claim_answer s s1 limit (Ok events) ->
  with_fault f s (s1, Ok events) = (sf, r) -> claim_answer s sf limit r.
Proof.
  intros Hok (H1 & H2 & H3 & H4 & H5).
  destruct f; intros [= <- <-]; unfold claim_answer; by split_and!.
Qed.

Lemma status_kept (events : list Event) (s s' : S) :
  (forall e, e ∈ events -> st_status s' (ID e) = Some Inflight) ->
  (forall i, i ∉ ID <$> events -> st_status s' i = st_status s i) ->
  forall i, st_status s i = Some Inflight -> st_status s' i = Some Inflight.
Proof.
  intros H1 H2 i Hi. destruct (decide (i ∈ ID <$> events)) as [Hin|Hin].
  - apply list_elem_of_fmap in Hin as (e & -> & He). by apply H1.
  - by rewrite H2.
Qed.

Lemma claim_answer_claim e s limit sf r :
  st_ok s ->
  (let '(s1, events) := st_claim s (env_locked e) (env_now e) cfg limit in
   with_fault (env_fault e) s (s1, Ok events)) = (sf, r) -> claim_answer s sf limit r.
Proof.
  intros Hok. destruct (st_claim _ _ _ _ _) as [s1 events] eqn:E.
  destruct (claim_limit _ _ _ _ _ _ _ Hok E) as (H1 & H2 & H3 & H4 & H5).
  apply claim_answer_fault; [done|]. split_and!; try done.
  - eapply status_kept; [|done]. intros x Hx. by apply H3.
  - intros x Hx. split; by apply H3.
Qed.

Lemma claim_answer_ordered e s limit sf r :
  st_ok s ->
  (let '(s1, events) := st_claim_ordered s (env_locked e) (env_now e) cfg limit in
   with_fault (env_fault e) s (s1, Ok events)) = (sf, r) -> claim_answer s sf limit r.
Proof.
  intros Hok. destruct (st_claim_ordered _ _ _ _ _) as [s1 events] eqn:E.
  destruct (claim_ordered_limit _ _ _ _ _ _ _ Hok E) as (H1 & H2 & H3 & H4 & H5).
  apply claim_answer_fault; [done|]. split_and!; try done.
  - eapply status_kept; [|done]. intros x Hx. by apply H3.
  - intros x Hx. split; by apply H3.
Qed.

(** The end of a claim: the second answer is appended to the first. *)
Lemma claimed_append s s1 limit events more paused empty err :
  claim_answer s s1 (limit - Z.of_nat (length events)) (Ok more) ->
  0 < limit -> Z.of_nat (length events) <= limit ->
  (forall e, e ∈ events -> st_status s (ID e) = Some Inflight /\ st_matches s e) ->
  claimed_ok s1 limit (ClaimResult (events ++ more) paused empty err).
Proof.
  intros (H1 & H2 & H3 & H4 & H5) Hl Hlen Hev. split_and!; [done| |].
  - cbn [cl_events]. rewrite length_app. lia.
  - intros e [He|He]%elem_of_app; [|by apply H5]. destruct (Hev e He). split; auto.
Qed.

Lemma claimed_kept s s1 limit events lim2 r paused empty err :
  claim_answer s s1 lim2 r -> Z.of_nat (length events) <= Z.max 0 limit ->
  (forall e, e ∈ events -> st_status s (ID e) = Some Inflight /\ st_matches s e) ->
  claimed_ok s1 limit (ClaimResult events paused empty err).
Proof.
  intros (H1 & H2 & H3 & _) Hlen Hev. split_and!; [done..|].
  intros e He. destruct (Hev e He). split; auto.
Qed.

Lemma claimed_none s limit paused empty err :
  st_ok s -> claimed_ok s limit (ClaimResult [] paused empty err).
Proof. intros Hok. split_and!; [done|simpl; lia|]. intros e He. by apply elem_of_nil in He. Qed.

Lemma run_claim {A} es s limit (k : res (list Event) -> prog A) s' log a :
  st_ok s -> run cfg es s (CallClaim limit k) = (s', log, Some a) ->
  exists es' s1 r, claim_answer s s1 limit r /\ run cfg es' s1 (k r) = (s', log, Some a).
Proof.
  intros Hok. destruct es as [|e es]; [done|]. rewrite run_cons by done. cbn [step_prog].
  pose proof (claim_answer_claim e s limit) as Hc.
  destruct (st_claim s (env_locked e) (env_now e) cfg limit) as [s0 events].
  destruct (with_fault _ s _) as [s1 r]. specialize (Hc _ _ Hok eq_refl).
  destruct (run cfg es s1 (k r)) as [[s2 log2] a2] eqn:Er. intros [= <- <- ->].
  by exists es, s1, r.
Qed.

Lemma run_claim_ordered {A} es s limit (k : res (list Event) -> prog A) s' log a :
  st_ok s -> run cfg es s (CallClaimOrdered limit k) = (s', log, Some a) ->
  exists es' s1 r, claim_answer s s1 limit r /\ run cfg es' s1 (k r) = (s', log, Some a).
Proof.
  intros Hok. destruct es as [|e es]; [done|]. rewrite run_cons by done. cbn [step_prog].
  pose proof (claim_answer_ordered e s limit) as Hc.
  destruct (st_claim_ordered s (env_locked e) (env_now e) cfg limit) as [s0 events].
  destruct (with_fault _ s _) as [s1 r]. specialize (Hc _ _ Hok eq_refl).
  destruct (run cfg es s1 (k r)) as [[s2 log2] a2] eqn:Er. intros [= <- <- ->].
  by exists es, s1, r.
Qed.

Lemma run_paused {A} es s (k : res bool -> prog A) s' log a :
  run cfg es s (CallPaused k) = (s', log, Some a) ->
  exists es' r, run cfg es' s (k r) = (s', log, Some a).
Proof.
  destruct es as [|e es]; [done|]. rewrite run_cons by done. cbn [step_prog].
  destruct (with_fault _ s (s, _)) as [s1 r] eqn:E.
  assert (s1 = s) as -> by (destruct (env_fault e); simpl in E; congruence).
  destruct (run cfg es s (k r)) as [[s2 log2] a2] eqn:Er. intros [= <- <- ->].
  by exists es, r.
Qed.

Lemma claim_answer_full s s1 limit events paused empty err :
  claim_answer s s1 limit (Ok events) ->
  claimed_ok s1 limit (ClaimResult events paused empty err).
Proof. intros (? & ? & ? & ? & ?). by split_and!. Qed.

Lemma claimAvailable_claimed es s limit prefer probe s' log r :
  st_ok s -> run cfg es s (claimAvailable limit prefer probe) = (s', log, Some r) ->
  log = [] /\ claimed_ok s' limit r.
Proof.
  intros Hok. unfold claimAvailable.
  destruct (limit <=? 0) eqn:El.
  { rewrite run_ret. intros [= <- <- <-]. split; [done|]. by apply claimed_none. }
  bool_to_prop. intros (es1 & [[]|err] & H1)%run_paused.
  1,3: rewrite run_ret in H1; injection H1 as <- <- <-; (split; [done|]); by apply claimed_none.
  cbv beta zeta in H1.
  assert (forall lim, lim <> 0 -> (lim =? 0) = false) as Hne by (intros; by apply Z.eqb_neq).
  destruct (prefer && probe) eqn:Ep.
  - apply andb_true_iff in Ep as [_ ->]. cbn [negb] in H1. rewrite orb_false_r, Hne in H1 by lia.
    destruct (run_claim_ordered _ _ _ _ _ _ _ Hok H1) as (es2 & s2 & [events|err] & Ha & H2).
    + destruct (Z.of_nat (length events) =? limit) eqn:En.
      { rewrite run_ret in H2. injection H2 as <- <- <-. split; [done|].
        by eapply claim_answer_full. }
      bool_to_prop. pose proof Ha as (Hok2 & _ & _ & Hlen & Hev). rewrite Hne in H2 by lia.
      destruct (run_claim _ _ _ _ _ _ _ Hok2 H2) as (es3 & s3 & [more|err] & Ha2 & H3);
        rewrite run_ret in H3; injection H3 as <- <- <-; (split; [done|]).
      * eapply claimed_append; [exact Ha2|lia|lia|done].
      * eapply claimed_kept; [exact Ha2|done|done].
    + rewrite run_ret in H2. injection H2 as <- <- <-. split; [done|].
      apply claimed_none, Ha.
  - rewrite Hne in H1 by lia.
    destruct (run_claim _ _ _ _ _ _ _ Hok H1) as (es2 & s2 & [events|err] & Ha & H2).
    + destruct (Z.of_nat (length events) =? limit) eqn:En.
      { rewrite run_ret in H2. injection H2 as <- <- <-. split; [done|].
        by eapply claim_answer_full. }
      bool_to_prop. pose proof Ha as (Hok2 & _ & _ & Hlen & Hev). rewrite Hne in H2 by lia.
      cbn [orb] in H2. destruct probe; cbn [negb] in H2.
      * destruct (run_claim_ordered _ _ _ _ _ _ _ Hok2 H2) as (es3 & s3 & [more|err] & Ha2 & H3);
          rewrite run_ret in H3; injection H3 as <- <- <-; (split; [done|]).
        -- eapply claimed_append; [exact Ha2|lia|lia|done].
        -- eapply claimed_kept; [exact Ha2|done|done].
      * rewrite run_ret in H2. injection H2 as <- <- <-. split; [done|].
        rewrite app_nil_r. by eapply claim_answer_full.
    + rewrite run_ret in H2. injection H2 as <- <- <-. split; [done|]. apply claimed_none, Ha.
Qed.

End claim_lemmas.

(** Claiming, against the store interface. Whichever class is preferred and
    whichever call fails, [claimAvailable] publishes nothing and returns at most
    [limit] events, all of them in flight in the store it leaves. *)
Theorem claimAvailable_bounded {S} `{DeliveryStoreLaws S} cfg es (s s' : S) limit prefer probe log r :
  st_ok s -> run cfg es s (claimAvailable limit prefer probe) = (s', log, Some r) ->
  log = [] /\ st_ok s' /\ Z.of_nat (length (cl_events r)) <= Z.max 0 limit /\
  (forall e, e ∈ cl_events r -> st_status s' (ID e) = Some Inflight /\ st_matches s' e).
Proof.
  intros Hok Hrun. destruct (claimAvailable_claimed cfg _ _ _ _ _ _ _ _ Hok Hrun) as [? (? & ? & ?)].
  by split_and!.
Qed.

(** ** [runScheduler]

    The loop variables, with the goroutines it has started: [sc_running] are
    still in [handle], [sc_done] have sent on the channel [completed]. *)
Record sched : Type := MkSched {
  sc_active : Z;
  sc_preferOrdered : bool;
  sc_paused : bool;
  sc_idleWait : duration;
  sc_orderedProbeAt : option time;
  sc_running : Z;
  sc_done : Z;
}.

Definition sched_init (cfg : Config) : sched :=
  {| sc_active := 0; sc_preferOrdered := true; sc_paused := false;
     sc_idleWait := PollInterval cfg; sc_orderedProbeAt := None; sc_running := 0; sc_done := 0 |}.

Definition minDuration (left right : duration) : duration := if left <? right then left else right.

(** [limit := min(r.cfg.BatchSize, r.cfg.Concurrency-active)] *)
Definition refill_limit (cfg : Config) (s : sched) : Z :=
  Z.min (BatchSize cfg) (Concurrency cfg - sc_active s).

(** [!r.clock.Now().Before(orderedProbeAt)] *)
Definition probe_ordered (s : sched) (now : time) : bool :=
  match sc_orderedProbeAt s with Some t => t <=? now | None => true end.

(** The loop body from the claim to the dispatch. *)
Definition refill (cfg : Config) (s : sched) (now : time) (r : claim_result) : sched :=
  let n := Z.of_nat (length (cl_events r)) in
  let probeAt := if cl_orderedEmpty r then Some (now + PollInterval cfg)
                 else sc_orderedProbeAt s in
  if 0 <? n then
    {| sc_active := sc_active s + n; sc_preferOrdered := negb (sc_preferOrdered s);
       sc_paused := cl_paused r; sc_idleWait := PollInterval cfg; sc_orderedProbeAt := probeAt;
       sc_running := sc_running s + n; sc_done := sc_done s |}
  else
    {| sc_active := sc_active s; sc_preferOrdered := negb (sc_preferOrdered s);
       sc_paused := cl_paused r;
       sc_idleWait :=
         if cl_paused r then sc_idleWait s else
         if Concurrency cfg <=? sc_active s then sc_idleWait s else
         if is_null (cl_error r) && (sc_active s =? 0)
         then minDuration (IdleBackoffMax cfg) (int64_mul (sc_idleWait s) 2)
         else sc_idleWait s;
       sc_orderedProbeAt := probeAt; sc_running := sc_running s; sc_done := sc_done s |}.

(** How long the loop sleeps when nothing wakes it. *)
Definition next_wait (cfg : Config) (s : sched) : duration :=
  let interval := Z.min (PollInterval cfg) (ControlInterval cfg) in
  let wait := if (sc_active s =? 0) && negb (sc_paused s) then sc_idleWait s else interval in
  if sc_paused s then Z.min wait (ControlInterval cfg) else wait.

Definition with_counts (s : sched) (active running done_ : Z) (idle : duration) (probe : option time)
  : sched :=
  {| sc_active := active; sc_preferOrdered := sc_preferOrdered s; sc_paused := sc_paused s;
     sc_idleWait := idle; sc_orderedProbeAt := probe; sc_running := running; sc_done := done_ |}.

(** The steps of the loop and of its goroutines. *)
Inductive sched_step (cfg : Config) : sched -> sched -> Prop :=
| ss_finish s : 0 < sc_running s -> (* a goroutine: completed <- struct{}{} *)
    sched_step cfg s (with_counts s (sc_active s) (sc_running s - 1) (sc_done s + 1)
                        (sc_idleWait s) (sc_orderedProbeAt s))
| ss_drain s : 0 < sc_done s -> (* the non-blocking drain and the shutdown path *)
    sched_step cfg s (with_counts s (sc_active s - 1) (sc_running s) (sc_done s - 1)
                        (sc_idleWait s) (sc_orderedProbeAt s))
| ss_completed s : 0 < sc_done s -> (* the select at the end of the loop *)
    sched_step cfg s (with_counts s (sc_active s - 1) (sc_running s) (sc_done s - 1)
                        (PollInterval cfg) (sc_orderedProbeAt s))
| ss_wake s : (* a notification *)
    sched_step cfg s (with_counts s (sc_active s) (sc_running s) (sc_done s) (PollInterval cfg) None)
| ss_refill s now r : sc_active s < Concurrency cfg ->
    Z.of_nat (length (cl_events r)) <= Z.max 0 (refill_limit cfg s) ->
    sched_step cfg s (refill cfg s now r).

Lemma sched_invariant cfg s s' :
  valid_config cfg -> IdleBackoffMax cfg < 2 ^ 62 -> sched_step cfg s s' ->
  0 <= sc_running s -> 0 <= sc_done s -> sc_active s = sc_running s + sc_done s ->
  sc_active s <= Concurrency cfg -> PollInterval cfg <= sc_idleWait s <= IdleBackoffMax cfg ->
  0 <= sc_running s' /\ 0 <= sc_done s' /\ sc_active s' = sc_running s' + sc_done s' /\
  sc_active s' <= Concurrency cfg /\ PollInterval cfg <= sc_idleWait s' <= IdleBackoffMax cfg.
Proof.
  intros Hv Hmax Hstep H1 H2 H3 H4 H5. pose proof (vc_poll _ Hv) as Hpoll.
  destruct Hstep as [s Hr|s Hd|s Hd|s|s now r Hact Hlen]; cbn [with_counts sc_running sc_done
    sc_active sc_idleWait]; try lia.
  unfold refill_limit in Hlen. unfold refill, minDuration.
  destruct (0 <? _) eqn:En; cbn [sc_running sc_done sc_active sc_idleWait]; bool_to_prop; [lia|].
  unfold int64_mul. rewrite wrap64_small by lia. repeat case_match; bool_to_prop; lia.
Qed.

Lemma sched_reachable cfg s :
  valid_config cfg -> IdleBackoffMax cfg < 2 ^ 62 -> rtc (sched_step cfg) (sched_init cfg) s ->
  0 <= sc_running s /\ 0 <= sc_done s /\ sc_active s = sc_running s + sc_done s /\
  sc_active s <= Concurrency cfg /\ PollInterval cfg <= sc_idleWait s <= IdleBackoffMax cfg.
Proof.
  intros Hv Hmax Hsteps.
  refine (rtc_ind_r (R := sched_step cfg) (fun s => 0 <= sc_running s /\ 0 <= sc_done s /\
    sc_active s = sc_running s + sc_done s /\ sc_active s <= Concurrency cfg /\
    PollInterval cfg <= sc_idleWait s <= IdleBackoffMax cfg) (sched_init cfg) _ _ s Hsteps).
  - pose proof (vc_concurrency _ Hv). pose proof (vc_poll _ Hv). simpl. lia.
  - intros x y _ Hxy (? & ? & ? & ? & ?). by eapply sched_invariant.
Qed.


(** * Witnesses *)

Definition sample_config : Config :=
  match New_config "relay-1" DefaultConfig with Ok c => c | Err _ => DefaultConfig end.

Lemma sample_config_valid : valid_config sample_config.
Proof. apply Validate_ok. vm_compute. reflexivity. Qed.

