(* ===== verification/PgStore.v ===== *)
(** * The PostgreSQL store implements the relay's store interface

    The methods of [storage/postgres] as an instance of [DeliveryStore], with
    the dispatch between ordered and unordered variants of [relay.go]
    ([beginAttempt], [markDelivered], [markRetry], [markDead]); the proofs of
    the interface's laws; and the end-to-end behaviour of a handler on it. *)
From Stdlib Require Import ZArith String.
From stdpp Require Import base gmap strings list sorting fin_maps sets.
From S2P Require Import Prelude GoStrings Ordering Schema Invariant Samples OutboxStore.
From S2P Require Import OrderedStore RelayConfig Relay.

Open Scope Z_scope.

(** The claimed event carries the stored columns. *)
Definition event_matches (ev : Event) (e : event_data) : Prop :=
  Destination ev = ed_destination e /\ EventType ev = ed_event_type e /\
  Key ev = ed_message_key e /\ Payload ev = ed_payload e /\ Headers ev = ed_headers e /\
  SchemaVersion ev = ed_schema_version e /\ OrderingKey ev = deref (ed_ordering_key e) /\
  OrderingSequence ev = default 0 (ed_ordering_sequence e) /\
  OrderingPartition ev = ed_ordering_partition e.

Definition unordered (ev : Event) : bool := bool_decide (OrderingKey ev = ""%string).

(** [r.cfg.PublishTimeout+r.cfg.OrderingSafetyMargin] *)
Definition minimum_lease (cfg : Config) : duration :=
  int64_add (PublishTimeout cfg) (OrderingSafetyMargin cfg).

Definition beginAttempt (d : db) (now : time) (cfg : Config) (ev : Event) : db * res Z :=
  if unordered ev
  then BeginAttempt d now (ID ev) (InstanceID cfg) (MaxAttempts cfg)
  else BeginOrderedAttempt d now (ID ev) (InstanceID cfg) (OrderingEpoch ev) (MaxAttempts cfg)
         (minimum_lease cfg).

Definition markDelivered (d : db) (now : time) (cfg : Config) (ev : Event) : db * res unit :=
  if unordered ev
  then MarkDelivered d now (ID ev) (InstanceID cfg)
  else MarkOrderedDelivered d now ev (InstanceID cfg).

Definition markRetry (d : db) (now : time) (cfg : Config) (ev : Event) (delay : duration)
    (lastError : string) : db * res unit :=
  if unordered ev
  then MarkRetry d now (ID ev) (InstanceID cfg) delay lastError
  else MarkOrderedRetry d now ev (InstanceID cfg) delay lastError.

Definition markDeadCall (d : db) (now : time) (cfg : Config) (ev : Event) (reason : string)
  : db * res unit :=
  if unordered ev
  then MarkDead d now (ID ev) (InstanceID cfg) reason
  else MarkOrderedDead d now ev (InstanceID cfg) reason.

#[global] Instance pg_store : DeliveryStore db := {
  st_paused := RelayPaused;
  st_claim d locked now cfg limit :=
    Claim d locked now (InstanceID cfg) limit (LeaseDuration cfg);
  st_claim_ordered d locked now cfg limit :=
    ClaimOrdered d locked now (InstanceID cfg) limit (LeaseDuration cfg) (minimum_lease cfg);
  st_begin := beginAttempt;
  st_delivered := markDelivered;
  st_retry := markRetry;
  st_dead := markDeadCall;
  st_ok := outbox_inv;
  st_status d id := er_status <$> db_outbox d !! id;
  st_matches d ev := forall r, db_outbox d !! ID ev = Some r -> event_matches ev (er_data r);
}.

(** * Lemmas *)

(** No row appears and no immutable column changes. *)
Definition data_kept (d d' : db) : Prop :=
  forall i r', db_outbox d' !! i = Some r' ->
    exists r, db_outbox d !! i = Some r /\ er_data r' = er_data r.

#[global] Instance data_kept_refl : Reflexive data_kept.
Proof. intros d i r H. eauto. Qed.

Lemma data_kept_matches d d' :
  data_kept d d' -> forall e, st_matches d e -> st_matches d' e.
Proof. intros Hk e Hm r' Hr'. destruct (Hk _ _ Hr') as (r & Hr & ->). by apply Hm. Qed.

Lemma data_kept_insert d d1 id r r' :
  db_outbox d !! id = Some r -> er_data r' = er_data r ->
  db_outbox d1 = <[id := r']> (db_outbox d) -> data_kept d d1.
Proof.
  intros Hr Hd Ho i x. rewrite Ho, lookup_insert. case_decide; intros; simplify_eq; eauto.
Qed.

Lemma moved_insert d d1 id r r' :
  db_outbox d !! id = Some r -> er_status r = Inflight ->
  db_outbox d1 = <[id := r']> (db_outbox d) -> moved d d1 id (er_status r').
Proof.
  intros Hr Hs Ho. unfold moved. cbn [st_status pg_store]. rewrite Hr, Ho, lookup_insert_eq.
  simpl. rewrite Hs. split_and!; try done. intros i Hi. by rewrite lookup_insert_ne.
Qed.

Lemma claim_rows_kept d now o u picked : data_kept d (claim_rows d now o u picked).1.
Proof.
  intros i r'. rewrite claim_rows_lookup. case_decide; [|by eauto].
  destruct (db_outbox d !! i) as [r|]; [|done]. intros [= <-]. exists r. split; [done|].
  unfold leased. by case_match.
Qed.

Lemma scan_matches r epoch : event_matches (scanEvent r epoch) (er_data r).
Proof. by split_and!. Qed.

Lemma update_kept d now id cond upd d' o :
  update_event d now id cond upd = (d', o) -> (forall r, er_data (upd r) = er_data r) ->
  data_kept d d'.
Proof.
  intros H Hd. destruct o as [r'|].
  - apply update_event_some in H as (r & Hr & _ & _ & _ & ->). eapply data_kept_insert; [exact Hr|apply Hd|done].
  - by apply update_event_none in H as [-> _].
Qed.

(** A conditional one-row update of an event in flight. *)
Lemma update_moved d now id cond upd d' o status :
  outbox_inv d -> update_event d now id cond upd = (d', o) ->
  (forall r, cond r = true -> er_status r = Inflight) -> (forall r, er_status (upd r) = status) ->
  (forall r, er_data (upd r) = er_data r) ->
  data_kept d d' /\ (if o then moved d d' id status else d' = d).
Proof.
  intros Hinv H Hc Hs Hd. split; [by eapply update_kept|]. destruct o as [r'|].
  - apply update_event_some in H as (r & Hr & Hcr & _ & _ & ->).
    rewrite <- (Hs r). eapply moved_insert; [done|by apply Hc|done].
  - by apply update_event_none in H as [-> _].
Qed.

Lemma is_ok_require u : is_ok (require_row u).2 = not_null u.2 /\ (require_row u).1 = u.1.
Proof. by destruct u as [? [?|]]. Qed.
Lemma is_ok_fence u : is_ok (require_fence u).2 = not_null u.2 /\ (require_fence u).1 = u.1.
Proof. by destruct u as [? [?|]]. Qed.

Lemma row_moved_result d (u : db * option event_row) id status :
  data_kept d u.1 /\ (if u.2 then moved d u.1 id status else u.1 = d) ->
  (forall f : db * option event_row -> db * res unit,
     is_ok (f u).2 = not_null u.2 -> (f u).1 = u.1 ->
     data_kept d (f u).1 /\ (if is_ok (f u).2 then moved d (f u).1 id status else (f u).1 = d)).
Proof. intros [H1 H2] f Hf1 Hf2. rewrite Hf1, Hf2. split; [done|]. by destruct u as [? [?|]]. Qed.

Lemma owned_inflight_status owner r : owned_inflight owner r = true -> er_status r = Inflight.
Proof. by intros [_ ?]%owned_inflight_true. Qed.

Lemma mark_allowed_status d now ev owner r :
  mark_allowed d now ev owner r = true -> er_status r = Inflight.
Proof. intros H. by destruct (mark_allowed_inflight _ _ _ _ _ H). Qed.

#[export] Hint Resolve owned_inflight_status mark_allowed_status : emitlane.

Ltac solve_mark :=
  match goal with
  | |- context [update_event ?d ?now ?id ?c ?u] =>
      let E := fresh "E" in
      destruct (update_event d now id c u) as [? ?] eqn:E;
      eapply (row_moved_result _ (_, _)); [eapply update_moved; [done|exact E|..];
        eauto with emitlane|apply is_ok_require || apply is_ok_fence|
        apply is_ok_require || apply is_ok_fence]
  end.

Lemma markRetry_moved d now cfg ev delay msg :
  outbox_inv d ->
  data_kept d (markRetry d now cfg ev delay msg).1 /\
  (if is_ok (markRetry d now cfg ev delay msg).2
   then moved d (markRetry d now cfg ev delay msg).1 (ID ev) Pending
   else (markRetry d now cfg ev delay msg).1 = d).
Proof.
  intros Hinv. unfold markRetry, MarkRetry, MarkOrderedRetry. destruct (unordered ev); solve_mark.
Qed.

Lemma markDead_moved d now cfg ev msg :
  outbox_inv d ->
  data_kept d (markDeadCall d now cfg ev msg).1 /\
  (if is_ok (markDeadCall d now cfg ev msg).2
   then moved d (markDeadCall d now cfg ev msg).1 (ID ev) Dead
   else (markDeadCall d now cfg ev msg).1 = d).
Proof.
  intros Hinv. unfold markDeadCall, MarkDead, MarkOrderedDead. destruct (unordered ev); solve_mark.
Qed.

Lemma row_key_nonempty d i r k :
  outbox_inv d -> db_outbox d !! i = Some r -> ed_ordering_key (er_data r) = Some k ->
  k <> ""%string.
Proof.
  intros Hinv Hr Hk ->. pose proof (inv_row _ Hinv _ _ Hr) as Hok.
  apply event_row_ok_spec in Hok as (Hd & _). unfold event_data_ok in Hd. bool_to_prop.
  unfold outbox_ordering_state_check in *. rewrite Hk in *. by repeat case_match.
Qed.

Lemma matches_unordered d ev r :
  outbox_inv d -> st_matches d ev -> unordered ev = true -> db_outbox d !! ID ev = Some r ->
  ed_ordering_key (er_data r) = None.
Proof.
  intros Hinv Hm Hu Hr. apply bool_decide_eq_true in Hu.
  destruct (Hm r Hr) as (_ & _ & _ & _ & _ & _ & Hk & _). rewrite Hu in Hk.
  destruct (ed_ordering_key (er_data r)) as [k|] eqn:E; [|done].
  by destruct (row_key_nonempty _ _ _ _ Hinv Hr E).
Qed.

Lemma markDelivered_moved d now cfg ev :
  outbox_inv d ->
  data_kept d (markDelivered d now cfg ev).1 /\
  (if is_ok (markDelivered d now cfg ev).2
   then moved d (markDelivered d now cfg ev).1 (ID ev) Delivered
   else (markDelivered d now cfg ev).1 = d).
Proof.
  intros Hinv. unfold markDelivered. destruct (unordered ev).
  - unfold MarkDelivered. solve_mark.
  - destruct (MarkOrderedDelivered d now ev (InstanceID cfg)) as [d' [u|err]] eqn:E; simpl.
    + apply MarkOrderedDelivered_ok in E as (r & k & s & Hr & Ha & _ & _ & _ & _ & _ & _ & ->).
      destruct (delivery_authority_inflight _ _ _ _ _ Ha) as [_ Hi].
      split; [by apply (data_kept_insert _ _ (ID ev) r (delivered_row now r))|].
      by apply (moved_insert _ _ _ r (delivered_row now r)).
    + apply MarkOrderedDelivered_err in E as ->. split; done.
Qed.

Lemma status_attempt d id r i :
  db_outbox d !! id = Some r ->
  er_status <$> <[id := attempt_row r]> (db_outbox d) !! i = er_status <$> db_outbox d !! i.
Proof. intros Hr. rewrite lookup_insert. case_decide; [subst; by rewrite Hr|done]. Qed.

(** A successful attempt increments the counter of an event in flight. *)
Lemma beginAttempt_result d now cfg ev d' r :
  beginAttempt d now cfg ev = (d', r) ->
  (exists err, r = Err err /\ d' = d) \/
  exists row, db_outbox d !! ID ev = Some row /\ er_status row = Inflight /\
    r = Ok (er_attempts row + 1) /\ er_attempts row + 1 <= MaxAttempts cfg /\
    d' = with_outbox d (<[ID ev := attempt_row row]> (db_outbox d)).
Proof.
  unfold beginAttempt. destruct (unordered ev).
  - unfold BeginAttempt. destruct (attempt_overflows _ _ _); [naive_solver|].
    destruct (update_event _ _ _ _ _) as [d1 [r1|]] eqn:E.
    + apply update_event_some in E as (row & Hr & Hc & -> & _ & ->). intros [= <- <-].
      apply andb_true_iff in Hc as [Hc%owned_inflight_status Hlt]. bool_to_prop.
      right. exists row. split_and!; try done. lia.
    + apply update_event_none in E as [-> _]. naive_solver.
  - destruct (BeginOrderedAttempt _ _ _ _ _ _ _) as [d1 [n|err]] eqn:E.
    + apply BeginOrderedAttempt_ok in E as (row & Hr & Hc & -> & _ & ->). intros [= <- <-].
      right. exists row. destruct (attempt_allowed_inflight _ _ _ _ _ _ _ Hc) as [_ ?].
      split_and!; try done. unfold attempt_allowed in Hc. bool_to_prop. lia.
    + apply BeginOrderedAttempt_err in E as ->. naive_solver.
Qed.

Lemma beginAttempt_inv d now cfg ev : outbox_inv d -> outbox_inv (beginAttempt d now cfg ev).1.
Proof. intros H. unfold beginAttempt. destruct (unordered ev); eauto with emitlane. Qed.

Lemma markDelivered_inv d now cfg ev :
  outbox_inv d -> st_matches d ev -> outbox_inv (markDelivered d now cfg ev).1.
Proof.
  intros Hok Hm. unfold markDelivered.
  destruct (unordered ev) eqn:Eu; [|by apply MarkOrderedDelivered_inv].
  apply MarkDelivered_inv; [done|]. intros x Hx. by eapply matches_unordered.
Qed.
Lemma markRetry_inv d now cfg ev delay msg :
  outbox_inv d -> outbox_inv (markRetry d now cfg ev delay msg).1.
Proof. intros H. unfold markRetry. destruct (unordered ev); eauto with emitlane. Qed.
Lemma markDeadCall_inv d now cfg ev msg :
  outbox_inv d -> outbox_inv (markDeadCall d now cfg ev msg).1.
Proof. intros H. unfold markDeadCall. destruct (unordered ev); eauto with emitlane. Qed.

#[export] Hint Resolve markDelivered_inv markRetry_inv markDeadCall_inv : emitlane.

(** Claims, as the interface sees them. *)
Lemma claim_interface (d d' : db) (events : list Event) :
  outbox_inv d' -> data_kept d d' -> 
  (forall e, e ∈ events -> exists r r', db_outbox d !! ID e = Some r /\
     er_status r <> Delivered /\ er_status r <> Dead /\ db_outbox d' !! ID e = Some r' /\
     er_status r' = Inflight /\ event_matches e (er_data r')) ->
  (forall e, e ∈ events -> st_status d (ID e) <> Some Delivered /\ st_status d (ID e) <> Some Dead /\
     st_matches d' e /\ st_status d' (ID e) = Some Inflight) /\
  (forall e, st_matches d e -> st_matches d' e).
Proof.
  intros Hinv Hk Hev. split; [|by apply data_kept_matches].
  intros e He. destruct (Hev e He) as (r & r' & Hr & Hnd & Hnx & Hr' & Hi & Hm).
  cbn [st_status st_matches pg_store]. rewrite Hr, Hr'. simpl. split_and!; congruence.
Qed.

(** Rows that are not claimed keep their status. *)
Lemma claim_rows_status d now o u picked i :
  i ∉ ID <$> (claim_rows d now o u picked).2 -> outbox_inv d ->
  er_status <$> db_outbox (claim_rows d now o u picked).1 !! i = er_status <$> db_outbox d !! i.
Proof.
  intros Hi Hinv. rewrite claim_rows_lookup. case_decide as Hp; [|done].
  destruct (db_outbox d !! i) as [r|] eqn:Er; [|done]. simpl. f_equal.
  destruct (leased d now o u r) as [r'|] eqn:El; [|done]. exfalso. apply Hi.
  apply list_elem_of_fmap in Hp as ([i' ep] & -> & Hp). cbn [fst] in *.
  rewrite claim_rows_events. apply list_elem_of_fmap. exists (scanEvent r' ep). split.
  - unfold leased in El. case_match; simplify_eq. simpl. symmetry. by eapply inv_id.
  - apply list_elem_of_omap. exists (i', ep). split; [done|]. cbn [fst snd]. rewrite Er. simpl.
    by rewrite El.
Qed.

Lemma pg_claim_law d locked now cfg limit d' events :
  outbox_inv d -> st_claim d locked now cfg limit = (d', events) ->
  outbox_inv d' /\ Z.of_nat (length events) <= Z.max 0 limit /\
  (forall e, e ∈ events -> st_status d (ID e) <> Some Delivered /\
                           st_status d (ID e) <> Some Dead /\ st_matches d' e /\
                           st_status d' (ID e) = Some Inflight) /\
  (forall e, st_matches d e -> st_matches d' e) /\
  (forall i, i ∉ ID <$> events -> st_status d' i = st_status d i).
Proof.
  intros Hok H.
  assert (d' = (Claim d locked now (InstanceID cfg) limit (LeaseDuration cfg)).1) as Hd'
    by (cbn [st_claim pg_store] in H; by rewrite H).
  assert (events = (Claim d locked now (InstanceID cfg) limit (LeaseDuration cfg)).2) as Hev
    by (cbn [st_claim pg_store] in H; by rewrite H).
  destruct (claim_interface d d' events) as [H1 H2].
  + subst d'. by apply Claim_inv.
  + subst d'. rewrite Claim_picked. apply claim_rows_kept.
  + intros e He. rewrite Hev in He. pose proof He as Hi.
    destruct (claim_event_row _ _ _ _ _ _ _ Hok He) as (r & Hr & Hk & Hd & _ & _ & ->).
    destruct (claim_due_inv _ _ Hd) as (_ & ? & ? & _).
    eexists r, (lease_row _ _ r). split_and!; try done.
    subst d'. rewrite claim_lookup, decide_True, Hr; try done.
    apply list_elem_of_fmap. exists (claim_key r). split; [|done]. done.
  + split_and!; try done.
    * subst d'. by apply Claim_inv.
    * rewrite Hev, claim_events_length by done. apply claim_picked_length.
    * intros i Hi. subst. cbn [st_status pg_store]. rewrite Claim_picked in *.
      by apply claim_rows_status.
Qed.

Lemma pg_claim_ordered_law d locked now cfg limit d' events :
  outbox_inv d -> st_claim_ordered d locked now cfg limit = (d', events) ->
  outbox_inv d' /\ Z.of_nat (length events) <= Z.max 0 limit /\
  (forall e, e ∈ events -> st_status d (ID e) <> Some Delivered /\
                           st_status d (ID e) <> Some Dead /\ st_matches d' e /\
                           st_status d' (ID e) = Some Inflight) /\
  (forall e, st_matches d e -> st_matches d' e) /\
  (forall i, i ∉ ID <$> events -> st_status d' i = st_status d i).
Proof.
  intros Hok H.
  set (c := ClaimOrdered d locked now (InstanceID cfg) limit (LeaseDuration cfg)
              (minimum_lease cfg)) in *.
  assert (d' = c.1) as Hd' by (cbn [st_claim_ordered pg_store] in H; fold c in H; by rewrite H).
  assert (events = c.2) as Hev by (cbn [st_claim_ordered pg_store] in H; fold c in H; by rewrite H).
  destruct (claim_interface d d' events) as [H1 H2].
  + subst d'. by apply ClaimOrdered_inv.
  + subst d'. unfold c. rewrite ClaimOrdered_picked. apply claim_rows_kept.
  + intros e He. rewrite Hev in He.
    destruct (ordered_event_row _ _ _ _ _ _ _ _ Hok He)
      as (r & p & Hr & _ & _ & Hd & _ & _ & -> & Hr').
    destruct (ordered_due_true _ _ _ _ _ Hd) as (_ & _ & _ & _ & _ & ? & ? & _).
    eexists r, (lease_row _ _ r). split_and!; try done. subst d'. exact Hr'.
  + split_and!; try done.
    * subst d'. by apply ClaimOrdered_inv.
    * rewrite Hev. unfold c. rewrite ClaimOrdered_picked, claim_rows_events.
      etrans; [apply inj_le, length_omap_le|]. rewrite length_fmap. unfold ordered_picked.
      case_match; simpl; [lia|]. rewrite length_sort_limit. lia.
    * intros i Hi. subst. unfold c in *. cbn [st_status pg_store].
      rewrite ClaimOrdered_picked in *. by apply claim_rows_status.
Qed.

#[global] Instance pg_store_laws : DeliveryStoreLaws db.
Proof.
  split.
  - intros d locked now cfg limit d' events. apply pg_claim_law.
  - intros d locked now cfg limit d' events. apply pg_claim_ordered_law.
  - intros d now cfg ev d' r Hok H. cbn [st_begin pg_store] in H.
    pose proof (beginAttempt_inv d now cfg ev Hok) as Hinv. rewrite H in Hinv.
    split; [done|]. destruct (beginAttempt_result _ _ _ _ _ _ H)
      as [(err & -> & ->)|(row & Hr & Hi & -> & Hm & ->)]; [done|].
    split_and!.
    + apply data_kept_matches. by apply (data_kept_insert _ _ (ID ev) row (attempt_row row)).
    + intros i. cbn [st_status pg_store with_outbox db_outbox]. by apply status_attempt.
    + intros n [= <-]. cbn [st_status pg_store]. rewrite Hr. simpl. by rewrite Hi.
  - intros d now cfg ev d' r Hok Hm H. cbn [st_delivered pg_store] in H.
    destruct (markDelivered_moved d now cfg ev Hok) as [Hk Hr]. rewrite H in *. cbn [fst snd] in *.
    split_and!; [|by apply data_kept_matches|done].
    replace d' with (markDelivered d now cfg ev).1 by (by rewrite H). by apply markDelivered_inv.
  - intros d now cfg ev delay msg d' r Hok H. cbn [st_retry pg_store] in H.
    destruct (markRetry_moved d now cfg ev delay msg Hok) as [Hk Hr]. rewrite H in *.
    cbn [fst snd] in *. split_and!; [|by apply data_kept_matches|done].
    replace d' with (markRetry d now cfg ev delay msg).1 by (by rewrite H).
    by apply markRetry_inv.
  - intros d now cfg ev msg d' r Hok H. cbn [st_dead pg_store] in H.
    destruct (markDead_moved d now cfg ev msg Hok) as [Hk Hr]. rewrite H in *.
    cbn [fst snd] in *. split_and!; [|by apply data_kept_matches|done].
    replace d' with (markDeadCall d now cfg ev msg).1 by (by rewrite H).
    by apply markDeadCall_inv.
Qed.

(** * Properties *)

(** C6: Refinement. The PostgreSQL store, with its ordered and unordered
    variants dispatched on the event's ordering key, satisfies every law the
    relay is proved against: bounded claims of unfinished events, owner-fenced
    transitions of exactly one event, no effect on error, and the invariant. *)
Theorem pg_store_implements_interface : @DeliveryStoreLaws db pg_store.
Proof. apply pg_store_laws. Qed.

(** The environment in which nothing fails. *)
Definition fair_env (now : time) : env :=
  {| env_now := now; env_fault := NoFault; env_locked := ∅; env_ctx := None;
     env_publish := PubAck |}.

(** A handler whose attempt and acknowledgement are accepted. *)
Lemma handle_accepted uuid_String trace_of backoff cfg d ev t1 t2 n d1 d2 :
  Attempts ev < MaxAttempts cfg ->
  beginAttempt d t1 cfg ev = (d1, Ok n) ->
  markDelivered d1 t2 cfg (with_attempts ev n) = (d2, Ok tt) ->
  run cfg [fair_env t1; fair_env t1; fair_env t1; fair_env t2] d
    (handle uuid_String trace_of backoff cfg ev)
  = (d2, [outgoing uuid_String trace_of (with_attempts ev n)], Some ODelivered).
Proof.
  intros Ha H1 H2. unfold handle. rewrite (proj2 (Z.leb_gt _ _) Ha).
  cbn [run step_prog fair_env env_now env_fault with_fault st_begin pg_store]. rewrite H1.
  cbn [publish run step_prog fair_env env_ctx env_publish landed st_delivered pg_store env_now
       env_fault with_fault]. by rewrite H2.
Qed.

Definition leased_to (d : db) (ev : Event) (owner : string) (until : time) (r : event_row) : Prop :=
  db_outbox d !! ID ev = Some r /\ er_status r = Inflight /\ er_lease_owner r = Some owner /\
  er_lease_until r = Some until /\ Attempts ev = er_attempts r /\ event_matches ev (er_data r).

Lemma begin_unordered d now cfg ev until r :
  leased_to d ev (InstanceID cfg) until r -> unordered ev = true ->
  Attempts ev < MaxAttempts cfg -> MaxAttempts cfg < 2 ^ 31 ->
  beginAttempt d now cfg ev =
    (with_outbox d (<[ID ev := attempt_row r]> (db_outbox d)), Ok (Attempts ev + 1)).
Proof.
  intros (Hr & Hi & Ho & Hu & Ha & _) Hun Hlt Hmax. unfold beginAttempt. rewrite Hun.
  unfold BeginAttempt, attempt_overflows. rewrite update_event_owned by (by left). rewrite Hr.
  assert (owned_inflight (InstanceID cfg) r = true) as -> by (by apply owned_inflight_true).
  rewrite <- Ha, (proj2 (Z.ltb_lt _ _) Hlt). cbn [andb].
  assert ((2 ^ 31 <=? Attempts ev + 1) = false) as -> by (apply Z.leb_gt; lia).
  cbn [attempt_row er_attempts]. by rewrite Ha.
Qed.

(** The relay's own headers survive the user's headers and the trace. *)
Lemma lookup_set_nonempty n m v h : n <> m -> set_nonempty n v h !! m = h !! m.
Proof. intros Hn. unfold set_nonempty. case_match; [done|]. by rewrite lookup_insert_ne. Qed.
Lemma lookup_set_uuid us n m v h : n <> m -> set_uuid us n v h !! m = h !! m.
Proof. intros Hn. unfold set_uuid. case_match; [|done]. by rewrite lookup_insert_ne. Qed.
Lemma lookup_setHeader n m v h : n <> m -> setHeader h n v !! m = h !! m.
Proof.
  intros Hn. unfold setHeader. case_match; [by rewrite lookup_delete_ne|by rewrite lookup_insert_ne].
Qed.

Ltac header_ne := apply (bool_decide_unpack _); vm_compute; exact I.

Lemma toMessage_identity us ev :
  msg_Headers (toMessage us ev) !! HeaderAttempt = Some (Itoa (Attempts ev)) /\
  msg_Headers (toMessage us ev) !! HeaderEventID = Some (us (ID ev)).
Proof.
  cbn [toMessage msg_Headers].
  split; rewrite !lookup_set_nonempty by header_ne;
    (destruct (OrderingPartition ev);
     [destruct (bool_decide (OrderingKey ev = ""%string));
      [|rewrite !(lookup_insert_ne _ HeaderPartition), !(lookup_insert_ne _ HeaderSequence),
          !(lookup_insert_ne _ HeaderOrderingKey) by header_ne]|]);
    rewrite !lookup_set_uuid by header_ne; rewrite ?lookup_insert_eq; try done;
    rewrite !lookup_insert_ne by header_ne; by rewrite lookup_insert_eq.
Qed.

Lemma outgoing_fields us tr ev :
  msg_ID (outgoing us tr ev) = us (ID ev) /\ msg_Destination (outgoing us tr ev) = Destination ev /\
  msg_Key (outgoing us tr ev) = Key ev /\ msg_Payload (outgoing us tr ev) = Payload ev /\
  msg_Headers (outgoing us tr ev) !! HeaderAttempt = Some (Itoa (Attempts ev)) /\
  msg_Headers (outgoing us tr ev) !! HeaderEventID = Some (us (ID ev)).
Proof.
  destruct (toMessage_identity us ev) as [Ha Hi]. unfold outgoing.
  destruct (tr ev) as [tp ts]. cbn [msg_ID msg_Destination msg_Key msg_Payload msg_Headers].
  rewrite !lookup_setHeader by header_ne. by split_and!.
Qed.

Lemma claim_event_leased d locked now owner limit lease e :
  outbox_inv d -> e ∈ (Claim d locked now owner limit lease).2 ->
  exists r, db_outbox d !! ID e = Some r /\ ed_ordering_key (er_data r) = None /\
    e = scanEvent (lease_row owner (now + intervalMS lease * Millisecond) r) None /\
    db_outbox (Claim d locked now owner limit lease).1 !! ID e
      = Some (lease_row owner (now + intervalMS lease * Millisecond) r).
Proof.
  intros Hinv He. destruct (claim_event_row _ _ _ _ _ _ _ Hinv He) as (r & Hr & Hk & Hd & _ & _ & Hev).
  exists r. destruct (claim_due_inv _ _ Hd) as (Hun & _). split_and!; try done.
  rewrite claim_lookup, decide_True, Hr; try done.
  apply list_elem_of_fmap. exists (claim_key r). split; [|done]. cbn [claim_key snd].
  symmetry. by eapply inv_id.
Qed.

(** End to end, unordered. An event a claim returned, with attempts left,
    is delivered when nothing fails: the handler publishes exactly one message,
    with the stored destination, key, payload and the new attempt number in its
    header, and the stored event is delivered with its attempt counted. *)
Theorem claimed_event_is_delivered uuid_String trace_of backoff cfg d locked t0 limit d1 events ev
    t1 t2 :
  outbox_inv d ->
  Claim d locked t0 (InstanceID cfg) limit (LeaseDuration cfg) = (d1, events) -> ev ∈ events ->
  Attempts ev < MaxAttempts cfg -> MaxAttempts cfg < 2 ^ 31 ->
  exists d2 msg r, run cfg [fair_env t1; fair_env t1; fair_env t1; fair_env t2] d1
      (handle uuid_String trace_of backoff cfg ev) = (d2, [msg], Some ODelivered) /\
    db_outbox d !! ID ev = Some r /\
    msg_ID msg = uuid_String (ID ev) /\ msg_Destination msg = ed_destination (er_data r) /\
    msg_Key msg = ed_message_key (er_data r) /\ msg_Payload msg = ed_payload (er_data r) /\
    msg_Headers msg !! HeaderAttempt = Some (Itoa (er_attempts r + 1)) /\
    exists r2, db_outbox d2 !! ID ev = Some r2 /\ er_status r2 = Delivered /\
      er_attempts r2 = er_attempts r + 1 /\ er_delivered_at r2 = Some t2.
Proof.
  intros Hinv Hc He Ha Hmax.
  destruct (claim_event_leased d locked t0 (InstanceID cfg) limit (LeaseDuration cfg) ev Hinv)
    as (r & Hr & Hun & Hev & Hr1); [by rewrite Hc|]. rewrite Hc in Hr1. cbn [fst] in Hr1.
  set (until := t0 + intervalMS (LeaseDuration cfg) * Millisecond) in *.
  assert (leased_to d1 ev (InstanceID cfg) until (lease_row (InstanceID cfg) until r)) as Hl.
  { unfold leased_to. split_and!; try done; by rewrite Hev. }
  assert (unordered ev = true) as Huo.
  { apply bool_decide_eq_true. rewrite Hev. cbn [scanEvent OrderingKey lease_row er_data].
    by rewrite Hun. }
  pose proof (begin_unordered d1 t1 cfg ev until _ Hl Huo Ha Hmax) as Hb.
  set (r1 := attempt_row (lease_row (InstanceID cfg) until r)) in *.
  set (db1 := with_outbox d1 (<[ID ev := r1]> (db_outbox d1))) in *.
  assert (markDelivered db1 t2 cfg (with_attempts ev (Attempts ev + 1)) =
          (with_outbox db1 (<[ID ev := delivered_row t2 r1]> (db_outbox db1)), Ok tt)) as Hm.
  { unfold markDelivered. replace (unordered (with_attempts ev (Attempts ev + 1))) with true by done.
    destruct (apply_transition_eq db1 t2 (ID ev) (InstanceID cfg) TDelivered) as [Heq _].
    cbn [apply_transition] in Heq. cbn [with_attempts ID]. rewrite Heq. unfold db1.
    cbn [with_outbox db_outbox]. rewrite lookup_insert_eq. unfold transition_allowed.
    assert (owned_inflight (InstanceID cfg) r1 = true) as -> by (by apply owned_inflight_true).
    done. }
  eexists _, _, r. split; [exact (handle_accepted uuid_String trace_of backoff cfg d1 ev t1 t2 _ _ _
                                    Ha Hb Hm)|].
  destruct (outgoing_fields uuid_String trace_of (with_attempts ev (Attempts ev + 1)))
    as (-> & -> & -> & -> & -> & _).
  cbn [with_attempts ID Destination Key Payload Attempts].
  destruct Hl as (_ & _ & _ & _ & Hat & (-> & _ & -> & -> & _)).
  cbn [lease_row er_attempts er_data] in *. rewrite Hat. split_and!; try done.
  exists (delivered_row t2 r1). cbn [with_outbox db_outbox]. by rewrite lookup_insert_eq.
Qed.

(** The partition and stream of a row are found in the frame of the outbox. *)
Lemma partition_of_frame d d' r r' :
  db_partitions d' = db_partitions d -> er_data r' = er_data r ->
  partition_of d' r' = partition_of d r.
Proof. unfold partition_of. by intros -> ->. Qed.

Lemma advance_target_frame d d' r r' :
  db_streams d' = db_streams d -> er_data r' = er_data r ->
  advance_target d' r' = advance_target d r.
Proof. unfold advance_target, stream_of, at_cursor, stream_of. by intros -> ->. Qed.

(** The lease of the partition covers an attempt at [t1] and an
    acknowledgement at [t2]. *)
Definition lease_covers (cfg : Config) (p : partition_row) (t0 t1 t2 : time) : Prop :=
  t0 <= t1 <= t2 /\ t2 < t0 + intervalMS (LeaseDuration cfg) * Millisecond /\
  exists u, pr_lease_until p = Some u /\
    t1 + intervalMS (minimum_lease cfg) * Millisecond <= u /\ t2 < u.

Lemma held_fence now owner m p t until d r :
  partition_held now owner m p = true -> now <= t -> partition_of d r = Some p ->
  until (pr_lease_until p) = true -> ordered_fence d t owner (pr_epoch p) until r = true.
Proof.
  intros (Ho & _ & Hh)%partition_held_true Ht Hp Hu. apply ordered_fence_true. exists p.
  split_and!; try done. apply sql_coalesce_le_true. intros h Hx.
  rewrite sql_coalesce_le_true in Hh. specialize (Hh h Hx). lia.
Qed.

Lemma begin_ordered d now cfg ev until r p t0 :
  leased_to d ev (InstanceID cfg) until r -> unordered ev = false ->
  Attempts ev < MaxAttempts cfg -> MaxAttempts cfg < 2 ^ 31 -> now < until ->
  partition_of d r = Some p -> OrderingEpoch ev = pr_epoch p ->
  partition_held t0 (InstanceID cfg) (intervalMS (minimum_lease cfg)) p = true -> t0 <= now ->
  sql_ge (pr_lease_until p) (now + intervalMS (minimum_lease cfg) * Millisecond) = true ->
  beginAttempt d now cfg ev =
    (with_outbox d (<[ID ev := attempt_row r]> (db_outbox d)), Ok (Attempts ev + 1)).
Proof.
  intros (Hr & Hi & Ho & Hu & Ha & _) Hun Hlt Hmax Hn Hp Hep Hheld Ht0 Hge.
  unfold beginAttempt. rewrite Hun. unfold BeginOrderedAttempt, attempt_overflows, update_event.
  rewrite Hr. assert (attempt_allowed d now (InstanceID cfg) (OrderingEpoch ev) (MaxAttempts cfg)
    (intervalMS (minimum_lease cfg)) r = true) as ->.
  { unfold attempt_allowed. rewrite (proj2 (owned_inflight_true _ _)) by done. rewrite Hu.
    cbn [sql_gt andb]. rewrite (proj2 (Z.ltb_lt _ _) Hn), <- Ha, (proj2 (Z.ltb_lt _ _) Hlt).
    cbn [andb]. rewrite Hep. by eapply held_fence. }
  rewrite guard_same_lease by done. rewrite <- Ha. cbn [andb].
  assert ((2 ^ 31 <=? Attempts ev + 1) = false) as -> by (apply Z.leb_gt; lia).
  cbn [attempt_row er_attempts]. by rewrite Ha.
Qed.

Lemma ack_ordered d now owner m e r k s p t0 until u :
  db_outbox d !! ID e = Some r -> er_status r = Inflight -> er_lease_owner r = Some owner ->
  er_lease_until r = Some until -> now < until ->
  ed_ordering_key (er_data r) = Some k ->
  ed_ordering_sequence (er_data r) = Some (sr_next_sequence s) ->
  OrderingSequence e = sr_next_sequence s -> sr_next_sequence s + 1 < 2 ^ 63 ->
  db_streams d !! (ed_destination (er_data r), k) = Some s ->
  ed_ordering_partition (er_data r) = Some (sr_partition_id s) ->
  partition_of d r = Some p -> OrderingEpoch e = pr_epoch p ->
  partition_held t0 owner m p = true -> t0 <= now -> pr_lease_until p = Some u -> now < u ->
  MarkOrderedDelivered d now e owner = (deliver_at d now (ID e) r k s, Ok tt).
Proof.
  intros Hr Hi Ho Hu Hn Hk Hseq Hes Hov Hs Hp Hpo Hep Hheld Ht0 Hpu Hnu.
  unfold MarkOrderedDelivered. rewrite Hr.
  assert (delivery_authority d now e owner r = true) as ->.
  { unfold delivery_authority. rewrite (proj2 (owned_inflight_true _ _)) by done.
    rewrite Hu, Hes, (proj2 (sql_eq_true _ _)) by done. cbn [sql_gt andb].
    rewrite (proj2 (Z.ltb_lt _ _) Hn), Hep. cbn [andb].
    eapply held_fence; [done..|]. rewrite Hpu. by apply Z.ltb_lt. }
  assert (advance_target d r = Some s) as ->.
  { unfold advance_target, stream_of. rewrite Hk. cbn [mbind option_bind]. rewrite Hs.
    cbn [mbind option_bind].
    rewrite (proj2 (sql_eq_true _ _)) by done.
    rewrite (proj2 (at_cursor_true d r)); [done|]. eauto. }
  rewrite Hk, Hseq, (proj2 (Z.leb_gt _ _) Hov). done.
Qed.

(** What an ordered claim leaves of the event [ev] it returns: the leased row,
    the partition [p] it was held under and the stream whose cursor it is at. *)
Record ordered_claim (cfg : Config) (d d1 : db) (t0 : time) (ev : Event) (p : partition_row)
    (r : event_row) (s : stream_row) (k : string) : Prop := {
  oc_leased : leased_to d1 ev (InstanceID cfg) (t0 + intervalMS (LeaseDuration cfg) * Millisecond)
                (lease_row (InstanceID cfg) (t0 + intervalMS (LeaseDuration cfg) * Millisecond) r);
  oc_streams : db_streams d1 = db_streams d;
  oc_partitions : db_partitions d1 = db_partitions d;
  oc_partition : partition_of d r = Some p;
  oc_held : partition_held t0 (InstanceID cfg) (intervalMS (minimum_lease cfg)) p = true;
  oc_key : ed_ordering_key (er_data r) = Some k;
  oc_stream : db_streams d !! (ed_destination (er_data r), k) = Some s;
  oc_sequence : ed_ordering_sequence (er_data r) = Some (sr_next_sequence s);
  oc_stream_partition : ed_ordering_partition (er_data r) = Some (sr_partition_id s);
  oc_event : OrderingKey ev = k /\ OrderingSequence ev = sr_next_sequence s /\
             Destination ev = ed_destination (er_data r) /\ OrderingEpoch ev = pr_epoch p /\
             unordered ev = false;
}.

Lemma ordered_claim_state cfg d locked t0 limit d1 events ev p :
  outbox_inv d ->
  ClaimOrdered d locked t0 (InstanceID cfg) limit (LeaseDuration cfg) (minimum_lease cfg)
    = (d1, events) -> ev ∈ events ->
  OrderingPartition ev ≫= (fun x => db_partitions d !! x) = Some p ->
  exists r s k, ordered_claim cfg d d1 t0 ev p r s k.
Proof.
  intros Hinv Hc He Hpart.
  assert (ev ∈ (ClaimOrdered d locked t0 (InstanceID cfg) limit (LeaseDuration cfg)
            (minimum_lease cfg)).2) as He' by (by rewrite Hc).
  destruct (ordered_event_row _ _ _ _ _ _ _ _ Hinv He')
    as (r & p' & Hr & _ & _ & Hd & Hpo & _ & Hev & Hr1).
  destruct (ordered_due_true _ _ _ _ _ Hd) as (p2 & Hpo2 & Hheld & Hcur & _).
  rewrite Hpo in Hpo2. injection Hpo2 as <-.
  assert (same_but_outbox d d1) as (Hst & Hpt & _).
  { replace d1 with (ClaimOrdered d locked t0 (InstanceID cfg) limit (LeaseDuration cfg)
      (minimum_lease cfg)).1 by (by rewrite Hc). rewrite ClaimOrdered_picked. apply claim_rows_same. }
  rewrite Hc in Hr1. cbn [fst] in Hr1.
  apply at_cursor_true in Hcur as (s & k & Hk & Hs & Hn).
  assert (OrderingKey ev = k /\ OrderingSequence ev = sr_next_sequence s /\
          Destination ev = ed_destination (er_data r) /\ OrderingEpoch ev = pr_epoch p' /\
          OrderingPartition ev = ed_ordering_partition (er_data r)) as (HK & HN & HD & HE & HP).
  { rewrite Hev. cbn [scanEvent OrderingKey OrderingSequence Destination OrderingEpoch
      OrderingPartition lease_row er_data]. by rewrite Hk, Hn. }
  assert (p = p') as -> by (rewrite HP in Hpart; unfold partition_of in Hpo; congruence).
  exists r, s, k. split; try done.
  - unfold leased_to. split_and!; try done; by rewrite Hev.
  - destruct (inv_cursor _ Hinv _ _ (ed_destination (er_data r)) k (sr_next_sequence s) Hr)
      as (s' & Hs' & ? & _); [unfold stream_position; by rewrite Hk, Hn|congruence].
  - split_and!; try done. apply bool_decide_eq_false. rewrite HK. by eapply row_key_nonempty.
Qed.

(** C17: End to end, ordered. An ordered event a claim returned is delivered
    when nothing fails and the two leases outlast the publish: exactly one
    message goes out and the stream's cursor moves to the next sequence. *)
Theorem ordered_event_is_delivered uuid_String trace_of backoff cfg d locked t0 limit d1 events ev p
    t1 t2 :
  outbox_inv d ->
  ClaimOrdered d locked t0 (InstanceID cfg) limit (LeaseDuration cfg) (minimum_lease cfg)
    = (d1, events) -> ev ∈ events ->
  Attempts ev < MaxAttempts cfg -> MaxAttempts cfg < 2 ^ 31 -> OrderingSequence ev + 1 < 2 ^ 63 ->
  OrderingPartition ev ≫= (fun x => db_partitions d !! x) = Some p -> lease_covers cfg p t0 t1 t2 ->
  exists d2 msg, run cfg [fair_env t1; fair_env t1; fair_env t1; fair_env t2] d1
      (handle uuid_String trace_of backoff cfg ev) = (d2, [msg], Some ODelivered) /\
    msg_ID msg = uuid_String (ID ev) /\ msg_Payload msg = Payload ev /\
    (exists r2, db_outbox d2 !! ID ev = Some r2 /\ er_status r2 = Delivered) /\
    exists s, db_streams d2 !! (Destination ev, OrderingKey ev) = Some s /\
      sr_next_sequence s = OrderingSequence ev + 1.
Proof.
  intros Hinv Hc He Ha Hmax Hseq Hpart (Ht & Hlease & u & Hu & Hu1 & Hu2).
  destruct (ordered_claim_state _ _ _ _ _ _ _ _ _ Hinv Hc He Hpart)
    as (r & s & k & [Hl Hst Hpt Hpo Hheld Hk Hs Hn Hsp (HK & HN & HD & HE & Hun)]).
  set (until := t0 + intervalMS (LeaseDuration cfg) * Millisecond) in *.
  set (rl := lease_row (InstanceID cfg) until r) in *.
  assert (er_data (attempt_row rl) = er_data r) as Hdata by done.
  pose proof (begin_ordered d1 t1 cfg ev until rl p t0 Hl Hun Ha Hmax ltac:(lia)
    ltac:(by rewrite (partition_of_frame d d1 r rl)) HE Hheld ltac:(lia)
    ltac:(rewrite Hu; by apply Z.leb_le)) as Hb.
  set (db1 := with_outbox d1 (<[ID ev := attempt_row rl]> (db_outbox d1))) in *.
  assert (markDelivered db1 t2 cfg (with_attempts ev (Attempts ev + 1)) =
          (deliver_at db1 t2 (ID ev) (attempt_row rl) k s, Ok tt)) as Hm.
  { unfold markDelivered. replace (unordered (with_attempts ev (Attempts ev + 1))) with false by done.
    apply (ack_ordered db1 t2 (InstanceID cfg) (intervalMS (minimum_lease cfg))
      (with_attempts ev (Attempts ev + 1)) (attempt_row rl) k s p t0 until u); try done; try lia.
    - cbn [db1 with_outbox db_outbox with_attempts ID]. by rewrite lookup_insert_eq.
    - cbn [db1 with_outbox db_streams]. by rewrite Hst.
    - by rewrite (partition_of_frame d db1 r (attempt_row rl)). }
  eexists _, _. split; [exact (handle_accepted uuid_String trace_of backoff cfg d1 ev t1 t2 _ _ _
                                 Ha Hb Hm)|].
  destruct (outgoing_fields uuid_String trace_of (with_attempts ev (Attempts ev + 1)))
    as (-> & _ & _ & -> & _).
  split_and!; [done..| |].
  - exists (delivered_row t2 (attempt_row rl)). unfold deliver_at. cbn [with_outbox db_outbox].
    by rewrite lookup_insert_eq.
  - exists (advanced_stream t2 s (sr_next_sequence s)). rewrite HD, HK, HN. unfold deliver_at.
    cbn [with_outbox with_streams db_streams]. by rewrite lookup_insert_eq.
Qed.

(** * Witnesses *)

Definition no_trace (ev : Event) : string * string := (""%string, ""%string).
Definition sample_uuid (u : uuid) : string := "event"%string.
Definition sample_backoff (n : Z) : duration := n * Second.

Definition sample_unordered_claim : db * list Event :=
  Claim sample_db ∅ 5 "relay-1" 10 (LeaseDuration sample_config).
Definition sample_claimed : Event :=
  match sample_unordered_claim.2 with e :: _ => e | [] => scanEvent (sample_pending 1 None) None end.

Lemma sample_claimed_in : sample_claimed ∈ sample_unordered_claim.2.
Proof. vm_compute. left. Qed.

Lemma handle_terminates_witness :
  exists s' log o, run sample_config (replicate 5 (fair_env 6)) sample_unordered_claim.1
    (handle sample_uuid no_trace sample_backoff sample_config sample_claimed) = (s', log, Some o).
Proof.
  apply (handle_terminates sample_uuid no_trace sample_backoff sample_config
    (replicate 5 (fair_env 6)) sample_unordered_claim.1 sample_claimed). apply le_n.
Defined.

Lemma sample_claimed_matches n : st_matches sample_unordered_claim.1 (with_attempts sample_claimed n).
Proof. intros r Hr. vm_compute in Hr. injection Hr as <-. by split_and!. Qed.

Lemma handle_safe_witness :
  let r := run sample_config (replicate 5 (fair_env 6)) sample_unordered_claim.1
             (handle sample_uuid no_trace sample_backoff sample_config sample_claimed) in
  outbox_inv r.1.1 /\ r.2 = Some ODelivered.
Proof.
  split; [|vm_compute; reflexivity].
  refine (proj1 (handle_safe sample_uuid no_trace sample_backoff sample_config
    (replicate 5 (fair_env 6)) sample_unordered_claim.1 _ sample_claimed _ _
    (Claim_inv _ _ _ _ _ _ sample_db_inv) sample_claimed_matches _)).
  rewrite <- surjective_pairing. apply surjective_pairing.
Defined.

Lemma claimAvailable_bounded_witness :
  let r := run sample_config (replicate 3 (fair_env 6)) sample_db (claimAvailable 3 true true) in
  outbox_inv r.1.1.
Proof.
  refine (proj1 (proj2 (claimAvailable_bounded sample_config (replicate 3 (fair_env 6)) sample_db _ 3
    true true _ (match (run sample_config (replicate 3 (fair_env 6)) sample_db
                    (claimAvailable 3 true true)).2 with
                 | Some r => r | None => ClaimResult [] false false None end)
    sample_db_inv _))).
  vm_compute. reflexivity.
Defined.

Lemma claimed_event_is_delivered_witness :
  exists d2 msg, run sample_config [fair_env 6; fair_env 6; fair_env 6; fair_env 7]
    sample_unordered_claim.1 (handle sample_uuid no_trace sample_backoff sample_config sample_claimed)
  = (d2, [msg], Some ODelivered).
Proof.
  destruct (claimed_event_is_delivered sample_uuid no_trace sample_backoff sample_config sample_db ∅ 5
    10 sample_unordered_claim.1 sample_unordered_claim.2 sample_claimed 6 7 sample_db_inv
    (surjective_pairing _) sample_claimed_in) as (d2 & msg & _ & H & _);
    [vm_compute; reflexivity..|].
  exists d2, msg. exact H.
Defined.

Lemma ordered_event_is_delivered_witness :
  exists d2 msg, run sample_config [fair_env 6; fair_env 6; fair_env 6; fair_env 7]
    (ClaimOrdered sample_ordered ∅ 5 "relay-1" 10 (LeaseDuration sample_config)
       (minimum_lease sample_config)).1
    (handle sample_uuid no_trace sample_backoff sample_config
       (match (ClaimOrdered sample_ordered ∅ 5 "relay-1" 10 (LeaseDuration sample_config)
                 (minimum_lease sample_config)).2 with e :: _ => e | [] => sample_claimed end))
  = (d2, [msg], Some ODelivered).
Proof.
  edestruct (ordered_event_is_delivered sample_uuid no_trace sample_backoff sample_config
    sample_ordered ∅ 5 10
    (ClaimOrdered sample_ordered ∅ 5 "relay-1" 10 (LeaseDuration sample_config)
       (minimum_lease sample_config)).1
    (ClaimOrdered sample_ordered ∅ 5 "relay-1" 10 (LeaseDuration sample_config)
       (minimum_lease sample_config)).2
    (match (ClaimOrdered sample_ordered ∅ 5 "relay-1" 10 (LeaseDuration sample_config)
              (minimum_lease sample_config)).2 with e :: _ => e | [] => sample_claimed end)
    sample_lease 6 7 sample_ordered_inv (surjective_pairing _)) as (d2 & msg & H & _).
  - vm_compute. left.
  - vm_compute. reflexivity.
  - vm_compute. reflexivity.
  - vm_compute. reflexivity.
  - vm_compute. reflexivity.
  - split; [vm_compute; split; congruence|]. split; [vm_compute; reflexivity|].
    exists (30 * Second). split; [reflexivity|]. split; vm_compute; [congruence|reflexivity].
  - exists d2, msg. exact H.
Defined.
