(* ===== verification/InboxStore.v ===== *)
(** * The managed inbox store ([storage/postgres/inbox.go], [inbox/])

    The lifecycle of one message at one consumer: claimed under a fresh lease
    token, renewed, then processed, retried or dead, each of them fenced by the
    token. [Process] is the unmanaged path, inside the caller's transaction. *)
From Stdlib Require Import ZArith String.
From stdpp Require Import base gmap strings list fin_maps.
From S2P Require Import Prelude GoStrings Schema Invariant OutboxStore Tx.

Open Scope Z_scope.

Module Inbox.
Local Open Scope emitlane_scope.

(** ** Types ([inbox/lifecycle.go]); [inbox.Source] is [inbox_source], a zero
    timestamp is [None] *)

Record Event : Type := MkEvent {
  Consumer : string;
  EventID : uuid;
  Status : inbox_status;
  Attempts : Z;
  AvailableAt : time;
  LeaseOwner : string;
  LeaseToken : uuid;
  LeaseUntil : option time;
  LastError : string;
  FirstSeenAt : time;
  UpdatedAt : time;
  ProcessedAt : option time;
  Source : option inbox_source;
}.

Inductive ClaimDisposition : Type := Claimed | AlreadyProcessed | ClaimWaiting | ClaimDead.

Record ClaimRequest : Type := MkClaimRequest {
  cq_Consumer : string;
  cq_EventID : uuid;
  cq_Source : inbox_source;
  cq_LeaseOwner : string;
  cq_LeaseDuration : duration;
}.

Record ClaimResult : Type := MkClaimResult {
  cs_Disposition : ClaimDisposition;
  cs_Event : Event;
}.

Record RetryRequest : Type := MkRetryRequest {
  rq_Consumer : string;
  rq_EventID : uuid;
  rq_Actor : string;
  rq_Reason : string;
  rq_RequestID : string;
}.

Definition scanInboxEvent (k : string * uuid) (r : inbox_row) : Event :=
  {| Consumer := k.1; EventID := k.2; Status := ir_status r; Attempts := ir_attempts r;
     AvailableAt := ir_available_at r; LeaseOwner := deref (ir_lease_owner r);
     LeaseToken := default uuid_Nil (ir_lease_token r); LeaseUntil := ir_lease_until r;
     LastError := deref (ir_last_error r); FirstSeenAt := ir_first_seen_at r;
     UpdatedAt := ir_updated_at r; ProcessedAt := ir_processed_at r; Source := ir_source r |}.

(** ** Claiming *)

Definition blank (s : string) : bool := bool_decide (TrimSpace s = ""%string).

Definition validateClaim (req : ClaimRequest) : res unit :=
  fail_if blank (cq_Consumer req) || bool_decide (cq_EventID req = uuid_Nil)
          || blank (is_topic (cq_Source req)) || (is_partition (cq_Source req) <? 0)
          || (is_offset (cq_Source req) <? 0) || blank (cq_LeaseOwner req)
          || (cq_LeaseDuration req <=? 0)
    with ErrInvalidRequest
           "complete consumer, event, source, owner, and positive lease are required";
  Ok tt.

Definition same_coordinates (s t : inbox_source) : bool :=
  bool_decide (is_topic s = is_topic t) && (is_partition s =? is_partition t)
  && (is_offset s =? is_offset t).

(** [SELECT event_id ... WHERE consumer, source_topic, source_partition, source_offset] *)
Definition at_coordinates (consumer : string) (s : inbox_source)
    (kr : (string * uuid) * inbox_row) : bool :=
  bool_decide (kr.1.1 = consumer)
  && match ir_source kr.2 with Some t => same_coordinates t s | None => false end.
Definition coordinate_event (d : db) (consumer : string) (s : inbox_source) : option uuid :=
  snd ∘ fst <$> find (at_coordinates consumer s) (map_to_list (db_inbox d)).

Definition fresh_row (now : time) (s : inbox_source) : inbox_row :=
  {| ir_status := IPending; ir_attempts := 0; ir_available_at := now; ir_lease_owner := None;
     ir_lease_token := None; ir_lease_until := None; ir_last_error := None;
     ir_first_seen_at := now; ir_updated_at := now; ir_processed_at := None;
     ir_source := Some {| is_topic := is_topic s; is_partition := is_partition s;
                          is_offset := is_offset s; is_timestamp := pg_time <$> is_timestamp s |} |}.

(** [INSERT ... ON CONFLICT DO NOTHING]: the primary key and the unique index
    on the source coordinates. *)
Definition create_lifecycle (d : db) (now : time) (req : ClaimRequest) : db :=
  let k := (cq_Consumer req, cq_EventID req) in
  if not_null (db_inbox d !! k)
     || not_null (coordinate_event d (cq_Consumer req) (cq_Source req)) then d
  else with_inbox d (<[k := fresh_row now (cq_Source req)]> (db_inbox d)).

(** [UPDATE emitlane.inbox_events SET ... WHERE consumer = $1 AND event_id = $2 AND cond] *)
Definition update_inbox (d : db) (k : string * uuid) (cond : inbox_row -> bool)
    (upd : inbox_row -> inbox_row) : db * option inbox_row :=
  match db_inbox d !! k with
  | Some r => if cond r then (with_inbox d (<[k := upd r]> (db_inbox d)), Some (upd r))
              else (d, None)
  | None => (d, None)
  end.

Definition claimable (now : time) (r : inbox_row) : bool :=
  match ir_status r with
  | IPending | IRetryWait => ir_available_at r <=? now
  | IInflight => sql_le (ir_lease_until r) now
  | IProcessed | IDead => false
  end.

Definition claimed_row (now : time) (owner : string) (token : uuid) (lease : duration)
    (r : inbox_row) : inbox_row :=
  {| ir_status := IInflight; ir_attempts := ir_attempts r + 1;
     ir_available_at := ir_available_at r; ir_lease_owner := Some owner;
     ir_lease_token := Some token;
     ir_lease_until := Some (now + intervalMS lease * Millisecond); ir_last_error := None;
     ir_first_seen_at := ir_first_seen_at r; ir_updated_at := now;
     ir_processed_at := ir_processed_at r; ir_source := ir_source r |}.

Definition disposition_of (s : inbox_status) : ClaimDisposition :=
  match s with
  | IProcessed => AlreadyProcessed
  | IDead => ClaimDead
  | IPending | IInflight | IRetryWait => ClaimWaiting
  end.

(** The transaction of one claim. [token] is the [uuid.New()] it draws; on an
    error the transaction is rolled back. *)
Definition Claim (d : db) (now : time) (token : uuid) (req : ClaimRequest)
  : db * res ClaimResult :=
  let k := (cq_Consumer req, cq_EventID req) in
  match validateClaim req with
  | Err e => (d, Err e)
  | Ok _ =>
      if negb (pg_text_ok (cq_Consumer req) && pg_text_ok (is_topic (cq_Source req)))
      then (d, Err (ErrSQL InvalidText)) else
      let d1 := create_lifecycle d now req in
      if match coordinate_event d1 (cq_Consumer req) (cq_Source req) with
         | Some e => negb (bool_decide (e = cq_EventID req))
         | None => false
         end
      then (d, Err ErrLifecycleConflict) else
      if negb (pg_text_ok (cq_LeaseOwner req)) then (d, Err (ErrSQL InvalidText)) else
      if match db_inbox d1 !! k with
         | Some r => claimable now r && (2 ^ 31 <=? ir_attempts r + 1)
         | None => false
         end
      then (d, Err (ErrSQL OutOfRange)) else
      match update_inbox d1 k (claimable now)
              (claimed_row now (cq_LeaseOwner req) token (cq_LeaseDuration req)) with
      | (d2, Some r) =>
          (d2, Ok {| cs_Disposition := Claimed; cs_Event := scanInboxEvent k r |})
      | (_, None) =>
          match db_inbox d1 !! k with
          | Some r => (d1, Ok {| cs_Disposition := disposition_of (ir_status r);
                                 cs_Event := scanInboxEvent k r |})
          | None => (d, Err ErrNoRows)
          end
      end
  end.

(** ** Transitions fenced by the lease token *)

Definition requireInboxLease (u : db * option inbox_row) : db * res unit :=
  match u with
  | (d, Some _) => (d, Ok tt)
  | (d, None) => (d, Err ErrLeaseLost)
  end.

Definition holds_token (token : uuid) (r : inbox_row) : bool :=
  bool_decide (ir_status r = IInflight) && sql_eq (ir_lease_token r) token.

Definition fenced_update (d : db) (consumer : string) (eventID token : uuid)
    (upd : inbox_row -> inbox_row) : db * res unit :=
  if negb (pg_text_ok consumer) then (d, Err (ErrSQL InvalidText)) else
  requireInboxLease (update_inbox d (consumer, eventID) (holds_token token) upd).

Definition renewed_row (now : time) (lease : duration) (r : inbox_row) : inbox_row :=
  {| ir_status := ir_status r; ir_attempts := ir_attempts r; ir_available_at := ir_available_at r;
     ir_lease_owner := ir_lease_owner r; ir_lease_token := ir_lease_token r;
     ir_lease_until := Some (now + intervalMS lease * Millisecond);
     ir_last_error := ir_last_error r; ir_first_seen_at := ir_first_seen_at r;
     ir_updated_at := now; ir_processed_at := ir_processed_at r; ir_source := ir_source r |}.

(** The row after the lease is given up. *)
Definition released_row (status : inbox_status) (now available : time)
    (processed : option time) (lastError : option string) (r : inbox_row) : inbox_row :=
  {| ir_status := status; ir_attempts := ir_attempts r; ir_available_at := available;
     ir_lease_owner := None; ir_lease_token := None; ir_lease_until := None;
     ir_last_error := lastError; ir_first_seen_at := ir_first_seen_at r;
     ir_updated_at := now; ir_processed_at := processed; ir_source := ir_source r |}.

Definition Renew (d : db) (now : time) (consumer : string) (eventID token : uuid)
    (lease : duration) : db * res unit :=
  if lease <=? 0 then (d, Err (ErrInvalidRequest "positive lease duration is required")) else
  fenced_update d consumer eventID token (renewed_row now lease).

(** Inside the handler's transaction. *)
Definition MarkProcessed (consumer : string) (eventID token : uuid) : txM unit :=
  do n <- exec_sql (fun d now =>
    if negb (pg_text_ok consumer) then Err (ErrSQL InvalidText) else
    Ok (update_inbox d (consumer, eventID) (holds_token token)
          (fun r => released_row IProcessed now now (Some now) None r)));
  tx_lift (match n with Some _ => Ok tt | None => Err ErrLeaseLost end).

Definition MarkRetry (d : db) (now : time) (consumer : string) (eventID token : uuid)
    (delay : duration) (lastError : string) : db * res unit :=
  if delay <? 0 then (d, Err (ErrInvalidRequest "retry delay must not be negative")) else
  fenced_update d consumer eventID token
    (released_row IRetryWait now (now + intervalMS delay * Millisecond) None
       (Some (sanitizeError lastError))).

Definition MarkDead (d : db) (now : time) (consumer : string) (eventID token : uuid)
    (lastError : string) : db * res unit :=
  fenced_update d consumer eventID token
    (released_row IDead now now None (Some (sanitizeError lastError))).

Definition Get (d : db) (consumer : string) (eventID : uuid) : res Event :=
  if negb (pg_text_ok consumer) then Err (ErrSQL InvalidText) else
  match db_inbox d !! (consumer, eventID) with
  | Some r => Ok (scanInboxEvent (consumer, eventID) r)
  | None => Err ErrInboxNotFound
  end.

(** ** The operator's retry *)

Definition trimmed_request (q : RetryRequest) : RetryRequest :=
  {| rq_Consumer := TrimSpace (rq_Consumer q); rq_EventID := rq_EventID q;
     rq_Actor := TrimSpace (rq_Actor q); rq_Reason := TrimSpace (rq_Reason q);
     rq_RequestID := TrimSpace (rq_RequestID q) |}.

Definition is_empty (s : string) : bool := bool_decide (s = ""%string).

Definition retry_audit (now : time) (auditID : uuid) (q : RetryRequest) : audit_row :=
  {| au_id := auditID; au_action := "inbox.retry"; au_actor := rq_Actor q;
     au_reason := Some (rq_Reason q);
     au_request_id := if is_empty (rq_RequestID q) then None else Some (rq_RequestID q);
     au_target_event_id := Some (rq_EventID q); au_replay_batch_id := None;
     au_details := {[ "consumer"%string := JString (rq_Consumer q) ]}; au_created_at := now |}.

Definition RetryDead (d : db) (now : time) (auditID : uuid) (request : RetryRequest)
  : db * res unit :=
  let q := trimmed_request request in
  let k := (rq_Consumer q, rq_EventID q) in
  let outcome : res db :=
    fail_if is_empty (rq_Consumer q) || bool_decide (rq_EventID q = uuid_Nil)
            || is_empty (rq_Actor q) || is_empty (rq_Reason q)
      with ErrInvalidRequest "consumer, event ID, actor, and retry reason are required";
    fail_if (256 <? go_len (rq_Actor q)) || (4096 <? go_len (rq_Reason q))
            || (256 <? go_len (rq_RequestID q))
      with ErrInvalidRequest "retry audit fields exceed their bounds";
    fail_if negb (pg_text_ok (rq_Consumer q)) with ErrSQL InvalidText;
    match db_inbox d !! k with
    | None => Err ErrInboxNotFound
    | Some r =>
        fail_if negb (bool_decide (ir_status r = IDead)) with ErrLifecycleConflict;
        match update_inbox d k (fun r => bool_decide (ir_status r = IDead))
                (fun r => released_row IRetryWait now now None (ir_last_error r) r) with
        | (d1, Some _) => insert_audit_row d1 (retry_audit now auditID q)
        | (_, None) => Err ErrLifecycleConflict
        end
    end in
  match outcome with Ok d' => (d', Ok tt) | Err e => (d, Err e) end.

(** ** [Process]: the unmanaged path ([inbox/processor.go]) *)

Section process.
Context (uuid_Parse : string -> option uuid).

Definition marker_row (now : time) : inbox_row :=
  {| ir_status := IProcessed; ir_attempts := 0; ir_available_at := now; ir_lease_owner := None;
     ir_lease_token := None; ir_lease_until := None; ir_last_error := None;
     ir_first_seen_at := now; ir_updated_at := now; ir_processed_at := Some now;
     ir_source := None |}.

(** [INSERT ... (consumer, event_id) ON CONFLICT DO NOTHING] under the trigger
    [guard_inbox_legacy_insert]: whether a row was inserted. *)
Definition insert_marker (consumer : string) (eventID : uuid) (d : db) (now : time)
  : res (db * bool) :=
  if negb (pg_text_ok consumer) then Err (ErrSQL InvalidText) else
  match db_inbox d !! (consumer, eventID) with
  | Some r => if bool_decide (ir_status r = IProcessed) then Ok (d, false)
              else Err (ErrSQL (TriggerError "inbox_legacy_active_conflict"))
  | None => Ok (with_inbox d (<[(consumer, eventID) := marker_row now]> (db_inbox d)), true)
  end.

(** [nested.Commit], RELEASE SAVEPOINT, fails in an aborted transaction. *)
Definition release_savepoint : txM unit := exec_sql (fun d _ => Ok (d, tt)).

(** The body between the savepoint and its release. *)
Definition process_body (fn : txM unit) (consumer : string) (eventID : uuid)
  : txM bool :=
  do inserted <- (fun t =>
    match exec_sql (insert_marker consumer eventID) t with
    | (t', Err (ErrSQL (TriggerError "inbox_legacy_active_conflict"))) =>
        (t', Err ErrLifecycleConflict)
    | r => r
    end);
  if inserted : bool then
    do _ <- fn;
    do _ <- release_savepoint;
    tx_ret false
  else
    do status <- exec_sql (fun d _ => match db_inbox d !! (consumer, eventID) with
                                      | Some r => Ok (d, ir_status r)
                                      | None => Err ErrNoRows
                                      end);
    do_fail_if negb (bool_decide (status = IProcessed)) with ErrLifecycleConflict;
    do _ <- release_savepoint;
    tx_ret true.

(** [process]: on every error after the savepoint the deferred rollback
    restores it. The [strict] duplicate error comes after the release. *)
Definition process (fn : txM unit) (consumer eventID : string) (strict : bool) : txM bool :=
  fun t =>
    let consumer := TrimSpace consumer in
    let eventID := TrimSpace eventID in
    if is_empty consumer then (t, Err (ErrInvalidRequest "consumer is required")) else
    match uuid_Parse eventID with
    | None => (t, Err (ErrInvalidRequest "event id must be a UUID"))
    | Some parsed =>
        if tx_aborted t then (t, Err (ErrSQL TxAborted)) else
        match process_body fn consumer parsed t with
        | (t', Ok true) => (t', if strict then Err ErrAlreadyProcessed else Ok true)
        | (t', Ok false) => (t', Ok false)
        | (_, Err e) => (t, Err e)
        end
    end.

Definition Process (fn : txM unit) (consumer eventID : string) : txM unit :=
  fun t => let '(t', r) := process fn consumer eventID false t in
           (t', match r with Ok _ => Ok tt | Err e => Err e end).

Definition ProcessStrict (fn : txM unit) (consumer eventID : string) : txM unit :=
  fun t => let '(t', r) := process fn consumer eventID true t in
           (t', match r with Ok _ => Ok tt | Err e => Err e end).

End process.

(** * Lemmas *)

Definition same_but_inbox (d d' : db) : Prop := exists t, d' = with_inbox d t.

#[global] Instance same_but_inbox_refl : Reflexive same_but_inbox.
Proof. intros d. exists (db_inbox d). by destruct d. Qed.
#[global] Instance same_but_inbox_trans : Transitive same_but_inbox.
Proof. intros a b c [t ->] [t' ->]. by exists t'. Qed.

(** Every row but one is untouched. *)
Definition only_row (k : string * uuid) (d d' : db) : Prop :=
  same_but_inbox d d' /\ forall k', k' <> k -> db_inbox d' !! k' = db_inbox d !! k'.

Lemma only_row_refl k d : only_row k d d.
Proof. by split. Qed.
Lemma only_row_trans k d1 d2 d3 : only_row k d1 d2 -> only_row k d2 d3 -> only_row k d1 d3.
Proof. intros [H1 H2] [H3 H4]. split; [by etrans|]. intros k' Hk. by rewrite H4, H2. Qed.
Lemma only_row_insert k d r : only_row k d (with_inbox d (<[k := r]> (db_inbox d))).
Proof.
  split; [by eexists|]. intros k' Hk. cbn [with_inbox db_inbox]. by rewrite lookup_insert_ne.
Qed.

Lemma same_coordinates_true s t :
  same_coordinates s t = true <->
  is_topic s = is_topic t /\ is_partition s = is_partition t /\ is_offset s = is_offset t.
Proof.
  unfold same_coordinates. rewrite !andb_true_iff, bool_decide_eq_true, !Z.eqb_eq. tauto.
Qed.

(** A row of [consumer] was read at these coordinates. *)
Definition recorded_at (d : db) (consumer : string) (s : inbox_source) (e : uuid) : Prop :=
  exists r t, db_inbox d !! (consumer, e) = Some r /\ ir_source r = Some t /\
              same_coordinates t s = true.

Lemma coordinate_event_some d c s e : coordinate_event d c s = Some e -> recorded_at d c s e.
Proof.
  unfold coordinate_event. intros H. apply fmap_Some in H as ([[c' e'] r] & Hf & He).
  cbn in He. subst e'. apply find_some in Hf as [Hin Hat]. unfold at_coordinates in Hat.
  cbn [fst snd] in Hat. bool_to_prop. subst c'. destruct (ir_source r) as [t|] eqn:Et; [|done].
  exists r, t. split_and!; [|done|done]. apply elem_of_map_to_list. by apply list_elem_of_In.
Qed.

Lemma coordinate_event_none d c s e : coordinate_event d c s = None -> ~ recorded_at d c s e.
Proof.
  unfold coordinate_event. rewrite fmap_None. intros Hf (r & t & Hr & Ht & Hs).
  apply elem_of_map_to_list, list_elem_of_In in Hr. pose proof (find_none _ _ Hf _ Hr) as H.
  unfold at_coordinates in H. cbn [fst snd] in H. rewrite Ht, Hs, bool_decide_true in H; done.
Qed.

Lemma recorded_at_unique d c s e1 e2 :
  inbox_inv d -> recorded_at d c s e1 -> recorded_at d c s e2 -> e1 = e2.
Proof.
  intros Hinv (r1 & t1 & H1 & Ht1 & Hs1) (r2 & t2 & H2 & Ht2 & Hs2).
  apply same_coordinates_true in Hs1 as (? & ? & ?), Hs2 as (? & ? & ?).
  eapply (inv_inbox_source _ Hinv); eauto; congruence.
Qed.

Lemma coordinate_event_spec d c s e :
  inbox_inv d -> coordinate_event d c s = Some e <-> recorded_at d c s e.
Proof.
  intros Hinv. split; [apply coordinate_event_some|]. intros He.
  destruct (coordinate_event d c s) as [e'|] eqn:E; [|by destruct (coordinate_event_none _ _ _ e E)].
  f_equal. eapply recorded_at_unique; [done| |done]. by apply coordinate_event_some.
Qed.

(** A row replaced by one with the same source. *)
Lemma inbox_inv_insert d k r :
  inbox_inv d -> inbox_row_ok r = true ->
  (forall s e, ir_source r = Some s -> recorded_at d k.1 s e -> e = k.2) ->
  inbox_inv (with_inbox d (<[k := r]> (db_inbox d))).
Proof.
  intros [Hrow Hsrc] Hok Hnew. split; cbn [with_inbox db_inbox].
  - intros k' r'. rewrite lookup_insert. case_decide; [intros [= <-]; done|apply Hrow].
  - intros c e1 e2 r1 r2 s1 s2. rewrite !lookup_insert.
    destruct k as [kc ke]. cbn [fst snd] in *.
    case_decide as E1; case_decide as E2; intros H1 H2 Hs1 Hs2 Ht Hp Ho; simplify_eq; [done|..].
    + symmetry. eapply (Hnew s1); [done|]. exists r2, s2. split_and!; [done..|].
      by apply same_coordinates_true.
    + eapply (Hnew s2); [done|]. exists r1, s1. split_and!; [done..|].
      by apply same_coordinates_true.
    + eapply Hsrc; eauto.
Qed.

Lemma inbox_inv_replace d k r r' :
  inbox_inv d -> db_inbox d !! k = Some r -> ir_source r' = ir_source r ->
  inbox_row_ok r' = true -> inbox_inv (with_inbox d (<[k := r']> (db_inbox d))).
Proof.
  intros Hinv Hr Hs Hok. apply inbox_inv_insert; [done..|]. intros s e Hs' He.
  eapply recorded_at_unique; [done|exact He|]. exists r, s. destruct k. rewrite Hs in Hs'.
  split_and!; [done..|]. by apply same_coordinates_true.
Qed.

Lemma inbox_row_ok_spec r :
  inbox_row_ok r = true <->
  0 <= ir_attempts r /\ inbox_lease_state_check r = true /\
  inbox_processed_state_check r = true /\ inbox_source_metadata_check r = true.
Proof. unfold inbox_row_ok. rewrite !andb_true_iff, Z.leb_le. tauto. Qed.

Lemma claimed_row_ok now owner token lease r :
  inbox_row_ok r = true -> claimable now r = true -> btrim_nonempty owner = true ->
  inbox_row_ok (claimed_row now owner token lease r) = true.
Proof.
  rewrite !inbox_row_ok_spec. intros (Ha & _ & Hp & Hs) Hc Ho.
  unfold inbox_lease_state_check, inbox_processed_state_check, inbox_source_metadata_check in *.
  cbn [claimed_row ir_status ir_attempts ir_lease_owner ir_lease_token ir_lease_until ir_processed_at
       ir_source]. rewrite Ho. unfold claimable in Hc.
  destruct (ir_status r); try done; split_and!; try done; try lia;
    (destruct (ir_source r); [done|by cbn in Hs]).
Qed.

Lemma inbox_released_row_ok status now available processed err r :
  inbox_row_ok r = true -> status <> IInflight ->
  (status = IProcessed <-> processed <> None) -> (ir_source r <> None \/ status = IProcessed) ->
  inbox_row_ok (released_row status now available processed err r) = true.
Proof.
  rewrite !inbox_row_ok_spec. intros (Ha & _ & _ & Hs) Hi Hp Hsrc.
  unfold inbox_lease_state_check, inbox_processed_state_check, inbox_source_metadata_check in *.
  cbn [released_row ir_status ir_attempts ir_lease_owner ir_lease_token ir_lease_until
       ir_processed_at ir_source]. rewrite (bool_decide_false (status = IInflight)) by done.
  split_and!; try done.
  - destruct processed; [rewrite bool_decide_true by (by apply Hp); done|].
    rewrite bool_decide_false; [done|]. by intros H%Hp.
  - destruct (ir_source r); [done|]. destruct Hsrc as [| ->]; [done|]. by rewrite bool_decide_true.
Qed.

Lemma inflight_source r :
  inbox_row_ok r = true -> ir_status r <> IProcessed -> ir_source r <> None.
Proof.
  rewrite inbox_row_ok_spec. intros (_ & _ & _ & Hs) Hp Hn.
  unfold inbox_source_metadata_check in Hs. rewrite Hn in Hs. by bool_to_prop.
Qed.

Lemma validateClaim_ok req :
  validateClaim req = Ok tt ->
  btrim_nonempty (cq_Consumer req) = true /\ btrim_nonempty (is_topic (cq_Source req)) = true /\
  0 <= is_partition (cq_Source req) /\ 0 <= is_offset (cq_Source req) /\
  btrim_nonempty (cq_LeaseOwner req) = true /\ cq_EventID req <> uuid_Nil /\
  0 < cq_LeaseDuration req.
Proof.
  unfold validateClaim. destruct (_ || _) eqn:E; [done|]. intros _. unfold blank in E. bool_to_prop.
  split_and!; auto using not_blank_btrim; lia.
Qed.

Lemma create_lifecycle_spec d now req :
  inbox_inv d -> validateClaim req = Ok tt ->
  let k := (cq_Consumer req, cq_EventID req) in
  let d1 := create_lifecycle d now req in
  inbox_inv d1 /\ only_row k d d1 /\
  ((d1 = d /\ (db_inbox d !! k <> None \/ exists e, recorded_at d k.1 (cq_Source req) e)) \/
   (db_inbox d !! k = None /\ (forall e, ~ recorded_at d k.1 (cq_Source req) e) /\
    db_inbox d1 !! k = Some (fresh_row now (cq_Source req)) /\
    recorded_at d1 k.1 (cq_Source req) k.2)).
Proof.
  intros Hinv Hv k d1. apply validateClaim_ok in Hv as (_ & Ht & Hp & Ho & _).
  unfold d1, create_lifecycle. fold k.
  destruct (not_null (db_inbox d !! k) || _) eqn:E.
  - split_and!; [done|apply only_row_refl|]. left. split; [done|].
    apply orb_true_iff in E as [E|E]; [left; by destruct (db_inbox d !! k)|right].
    destruct (coordinate_event d _ _) as [e|] eqn:Ec; [|done]. exists e. by apply coordinate_event_some.
  - apply orb_false_iff in E as [Ek Ec].
    assert (coordinate_event d (cq_Consumer req) (cq_Source req) = None) as Hc
      by (by destruct (coordinate_event d _ _)).
    assert (db_inbox d !! k = None) as Hk by (by destruct (db_inbox d !! k)).
    split_and!; [|apply only_row_insert|right].
    + apply inbox_inv_insert; [done| |].
      * apply inbox_row_ok_spec. split_and!; try done.
        unfold inbox_source_metadata_check. cbn [fresh_row ir_source is_topic is_partition is_offset].
        rewrite Ht. by rewrite !andb_true_iff, !Z.leb_le.
      * intros s e [= <-] He. destruct (coordinate_event_none _ _ _ e Hc). exact He.
    + split_and!; [done|intros e; by apply coordinate_event_none|cbn; by rewrite lookup_insert_eq|].
      eexists _, _. cbn [with_inbox db_inbox k fst snd]. rewrite lookup_insert_eq.
      split_and!; [done|done|]. by apply same_coordinates_true.
Qed.

Lemma update_inbox_spec d k cond upd d' o :
  update_inbox d k cond upd = (d', o) ->
  match o with
  | Some r' => exists r, db_inbox d !! k = Some r /\ cond r = true /\ r' = upd r /\
                         d' = with_inbox d (<[k := upd r]> (db_inbox d))
  | None => d' = d /\ forall r, db_inbox d !! k = Some r -> cond r = false
  end.
Proof.
  unfold update_inbox. destruct (db_inbox d !! k) as [r|] eqn:E; [destruct (cond r) eqn:Ec|];
    intros [= <- <-]; [by exists r|..]; (split; [done|]; intros r' Hr'; by simplify_eq).
Qed.

(** What a claim answers about the row it found or created. *)
Definition claim_answer (d : db) (now : time) (token : uuid) (req : ClaimRequest)
    (row : inbox_row) (disp : ClaimDisposition) : Prop :=
  let found := db_inbox d !! (cq_Consumer req, cq_EventID req) in
  match disp with
  | Claimed =>
      exists r0, r0 = default (fresh_row now (cq_Source req)) found /\ claimable now r0 = true /\
        row = claimed_row now (cq_LeaseOwner req) token (cq_LeaseDuration req) r0
  | AlreadyProcessed => found = Some row /\ ir_status row = IProcessed
  | ClaimDead => found = Some row /\ ir_status row = IDead
  | ClaimWaiting => found = Some row /\ ir_status row <> IProcessed /\ ir_status row <> IDead /\
                    claimable now row = false
  end.

Lemma Claim_ok d now token req d' r :
  inbox_inv d -> Claim d now token req = (d', Ok r) ->
  let k := (cq_Consumer req, cq_EventID req) in
  validateClaim req = Ok tt /\ inbox_inv d' /\ only_row k d d' /\
  exists row, db_inbox d' !! k = Some row /\ cs_Event r = scanInboxEvent k row /\
              claim_answer d now token req row (cs_Disposition r).
Proof.
  intros Hinv H k. unfold Claim in H. fold k in H.
  destruct (validateClaim req) as [[]|] eqn:Hv; [|done].
  destruct (negb (_ && _)); [done|].
  destruct (create_lifecycle_spec d now req Hinv Hv) as (Hinv1 & Honly & Hcase). fold k in Honly, Hcase.
  pose proof (validateClaim_ok _ Hv) as (_ & _ & _ & _ & Hown & _).
  set (d1 := create_lifecycle d now req) in *.
  destruct (match coordinate_event d1 _ _ with Some _ => _ | None => _ end) eqn:Ec; [done|].
  destruct (negb _); [done|]. destruct (match db_inbox d1 !! k with Some _ => _ | None => _ end); [done|].
  assert (default (fresh_row now (cq_Source req)) (db_inbox d !! k)
          = default (fresh_row now (cq_Source req)) (db_inbox d1 !! k)) as Hfound.
  { destruct Hcase as [[-> _]|(Hn & _ & Hf & _)]; [done|]. by rewrite Hn, Hf. }
  destruct (update_inbox d1 k _ _) as [d2 [r'|]] eqn:Eu; apply update_inbox_spec in Eu.
  - destruct Eu as (r0 & Hr0 & Hcl & -> & ->). injection H as <- <-. split; [done|]. split_and!.
    + eapply inbox_inv_replace; [done..|]. apply claimed_row_ok; [|done|done].
      by eapply (inv_inbox_row _ Hinv1).
    + eapply only_row_trans; [exact Honly|]. apply only_row_insert.
    + eexists. cbn [with_inbox db_inbox cs_Event cs_Disposition]. rewrite lookup_insert_eq.
      split_and!; [done..|]. exists r0. fold k. rewrite Hfound, Hr0. done.
  - destruct Eu as [-> Hno]. destruct (db_inbox d1 !! k) as [r0|] eqn:Er0; [|done].
    injection H as <- <-. split_and!; [done..|]. exists r0. split_and!; [done..|].
    assert (db_inbox d !! k = Some r0) as Hr0.
    { destruct Hcase as [[Heq _]|(_ & _ & Hf & _)]; [by rewrite <- Heq|].
      injection Hf as ->. specialize (Hno _ eq_refl).
      unfold claimable in Hno. cbn [fresh_row ir_status ir_available_at] in Hno. bool_to_prop. lia. }
    cbn [cs_Disposition]. unfold claim_answer. fold k. specialize (Hno _ eq_refl).
    destruct (ir_status r0) eqn:Es; cbn [disposition_of]; by split_and!.
Qed.

Lemma Claim_err d now token req d' e : Claim d now token req = (d', Err e) -> d' = d.
Proof.
  unfold Claim. intros H. repeat (destruct_match H; try (by simplify_eq)).
Qed.

Lemma Claim_conflict d now token req d' res :
  inbox_inv d -> Claim d now token req = (d', res) ->
  res = Err ErrLifecycleConflict <->
  validateClaim req = Ok tt /\
  pg_text_ok (cq_Consumer req) && pg_text_ok (is_topic (cq_Source req)) = true /\
  exists e, e <> cq_EventID req /\ recorded_at d (cq_Consumer req) (cq_Source req) e.
Proof.
  intros Hinv. unfold Claim.
  destruct (validateClaim req) as [[]|err] eqn:Hv.
  2:{ intros [= <- <-]. split; [|by intros [? _]]. intros [= ->]. unfold validateClaim in Hv. case_match; by simplify_eq. }
  destruct (create_lifecycle_spec d now req Hinv Hv) as (Hinv1 & Honly & Hcase).
  cbn [fst snd] in Hcase. set (d1 := create_lifecycle d now req) in *.
  destruct (pg_text_ok _ && pg_text_ok _) eqn:Et; cbn [negb].
  2:{ intros [= <- <-]. naive_solver. }
  assert ((exists e, e <> cq_EventID req /\ recorded_at d (cq_Consumer req) (cq_Source req) e) <->
          match coordinate_event d1 (cq_Consumer req) (cq_Source req) with
          | Some e => negb (bool_decide (e = cq_EventID req)) | None => false end = true) as ->.
  { destruct Hcase as [[-> _]|(_ & Hno & _ & Hrec)].
    - split.
      + intros (e & Hne & He). apply coordinate_event_spec in He as ->; [|done].
        by rewrite bool_decide_false.
      + destruct (coordinate_event d _ _) as [e|] eqn:E; [|done]. intros H. bool_to_prop.
        exists e. split; [done|]. by apply coordinate_event_some.
    - apply coordinate_event_spec in Hrec as ->; [|done]. rewrite bool_decide_true by done.
      split; [|done]. intros (e & _ & He). by apply Hno in He. }
  destruct (match coordinate_event d1 _ _ with Some _ => _ | None => _ end).
  { intros [= <- <-]. naive_solver. }
  intros H. split; [|naive_solver]. intros ->. exfalso.
  repeat (destruct_match H; try (by simplify_eq)).
Qed.

(** ** The token fence *)

Lemma set_db_id t : set_db t (tx_db t) = t.
Proof. by destruct t. Qed.

Lemma holds_token_true token r :
  holds_token token r = true <-> ir_status r = IInflight /\ ir_lease_token r = Some token.
Proof. unfold holds_token. rewrite andb_true_iff, bool_decide_eq_true, sql_eq_true. done. Qed.

Definition put_row (d : db) (k : string * uuid) (r : inbox_row) : db :=
  with_inbox d (<[k := r]> (db_inbox d)).

Lemma fenced_update_held d c e token upd r :
  pg_text_ok c = true -> db_inbox d !! (c, e) = Some r -> holds_token token r = true ->
  fenced_update d c e token upd = (put_row d (c, e) (upd r), Ok tt).
Proof. intros Hc Hr Ht. unfold fenced_update, update_inbox. by rewrite Hc, Hr, Ht. Qed.

Lemma fenced_update_lost d c e token upd :
  pg_text_ok c = true ->
  (forall r, db_inbox d !! (c, e) = Some r -> holds_token token r = false) ->
  fenced_update d c e token upd = (d, Err ErrLeaseLost).
Proof.
  intros Hc Hr. unfold fenced_update, update_inbox. rewrite Hc.
  destruct (db_inbox d !! (c, e)) as [r|]; [|done]. by rewrite (Hr _ eq_refl).
Qed.

Lemma MarkProcessed_held c e token t r :
  tx_aborted t = false -> pg_text_ok c = true -> db_inbox (tx_db t) !! (c, e) = Some r ->
  holds_token token r = true ->
  MarkProcessed c e token t
    = (set_db t (put_row (tx_db t) (c, e)
         (released_row IProcessed (tx_now t) (tx_now t) (Some (tx_now t)) None r)), Ok tt).
Proof.
  intros Ha Hc Hr Ht. unfold MarkProcessed, tx_bind, exec_sql, update_inbox.
  by rewrite Ha, Hc, Hr, Ht.
Qed.

Lemma MarkProcessed_lost c e token t :
  tx_aborted t = false -> pg_text_ok c = true ->
  (forall r, db_inbox (tx_db t) !! (c, e) = Some r -> holds_token token r = false) ->
  MarkProcessed c e token t = (t, Err ErrLeaseLost).
Proof.
  intros Ha Hc Hr. unfold MarkProcessed, tx_bind, exec_sql, update_inbox. rewrite Ha, Hc.
  cbn [negb]. destruct (db_inbox (tx_db t) !! (c, e)) as [r|];
    [rewrite (Hr _ eq_refl)|]; by rewrite set_db_id.
Qed.

Lemma MarkProcessed_ok c e token t t' u :
  MarkProcessed c e token t = (t', Ok u) ->
  tx_aborted t = false /\ exists r, db_inbox (tx_db t) !! (c, e) = Some r /\
    holds_token token r = true /\
    t' = set_db t (put_row (tx_db t) (c, e)
           (released_row IProcessed (tx_now t) (tx_now t) (Some (tx_now t)) None r)).
Proof.
  unfold MarkProcessed. intros H. apply tx_bind_ok in H as (t1 & o & H & Ho).
  apply exec_sql_ok in H as (Ha & d & Hd & ->). split; [done|].
  destruct (negb _); [done|]. injection Hd as Hu. apply update_inbox_spec in Hu.
  destruct o as [r'|]; [|by simplify_eq]. destruct Hu as (r & Hr & Ht & _ & ->).
  injection Ho as <- _. by exists r.
Qed.

Lemma released_inv d k status now available processed err r :
  inbox_inv d -> db_inbox d !! k = Some r -> ir_status r <> IProcessed -> status <> IInflight ->
  (status = IProcessed <-> processed <> None) ->
  inbox_inv (put_row d k (released_row status now available processed err r)).
Proof.
  intros Hinv Hr Hs Hi Hp. pose proof (inv_inbox_row _ Hinv _ _ Hr) as Hok.
  eapply inbox_inv_replace; [done..|]. apply inbox_released_row_ok; try done. left.
  by apply inflight_source.
Qed.

Lemma renewed_row_inv d k now lease token r :
  inbox_inv d -> db_inbox d !! k = Some r -> holds_token token r = true ->
  inbox_inv (put_row d k (renewed_row now lease r)).
Proof.
  intros Hinv Hr [Hs Ht]%holds_token_true. pose proof (inv_inbox_row _ Hinv _ _ Hr) as Hok.
  eapply inbox_inv_replace; [done..|]. rewrite inbox_row_ok_spec in *.
  destruct Hok as (Ha & Hl & Hp & Hsrc). split_and!; [done| |done..].
  unfold inbox_lease_state_check in *. cbn [renewed_row ir_status ir_lease_owner ir_lease_token
    ir_lease_until]. rewrite Hs in *. rewrite bool_decide_true in * by done.
  rewrite Ht in *. destruct (ir_lease_owner r); [|done]. cbn in *. bool_to_prop. by rewrite H.
Qed.

(** ** [process] *)

Lemma process_body_ok uuid_fn c e t t' b :
  process_body uuid_fn c e t = (t', Ok b) -> tx_aborted t = false ->
  if b then t' = t /\ exists r, db_inbox (tx_db t) !! (c, e) = Some r /\ ir_status r = IProcessed
  else db_inbox (tx_db t) !! (c, e) = None /\ tx_aborted t' = false /\
       exists u, uuid_fn (set_db t (put_row (tx_db t) (c, e) (marker_row (tx_now t)))) = (t', Ok u).
Proof.
  intros H Ha. unfold process_body in H. apply tx_bind_ok in H as (t1 & ins & H1 & H).
  assert (exec_sql (insert_marker c e) t = (t1, Ok ins)) as Hi.
  { destruct (exec_sql (insert_marker c e) t) as [t2 [x|err]]; [done|].
    repeat (destruct_match H1; try done). }
  clear H1. apply exec_sql_ok in Hi as (_ & d & Hd & ->). unfold insert_marker in Hd.
  destruct (negb _); [done|]. destruct (db_inbox (tx_db t) !! (c, e)) as [r|] eqn:Er.
  - destruct (bool_decide _) eqn:Es; [|done]. injection Hd as <- <-. rewrite set_db_id in H.
    apply tx_bind_ok in H as (t1 & st & H1 & H). apply exec_sql_ok in H1 as (_ & d & Hd & ->).
    rewrite Er in Hd. injection Hd as <- <-. rewrite set_db_id, Es in H. cbn [negb] in H.
    apply tx_bind_ok in H as (t1 & [] & H1 & H). apply exec_sql_ok in H1 as (_ & d & Hd & ->).
    injection Hd as <-. rewrite set_db_id in H. injection H as <- <-. split; [done|].
    exists r. bool_to_prop. done.
  - injection Hd as <- <-. apply tx_bind_ok in H as (t1 & u & H1 & H).
    apply tx_bind_ok in H as (t2 & [] & H2 & H). apply exec_sql_ok in H2 as (Ha1 & d & Hd & ->).
    injection Hd as <-. rewrite set_db_id in H. injection H as <- <-. split_and!; [done..|]. by exists u.
Qed.

Lemma process_body_dup uuid_fn c e t r :
  tx_aborted t = false -> pg_text_ok c = true ->
  db_inbox (tx_db t) !! (c, e) = Some r -> ir_status r = IProcessed ->
  process_body uuid_fn c e t = (t, Ok true).
Proof.
  intros Ha Hc Hr Hs. unfold process_body, tx_bind, exec_sql, insert_marker, release_savepoint,
    exec_sql. rewrite Ha, Hc, Hr. rewrite bool_decide_true by done. cbn [negb].
  rewrite !set_db_id, Ha, Hr, !set_db_id, Hs. rewrite bool_decide_true by done. cbn [negb].
  by rewrite Ha, set_db_id.
Qed.

(** * Properties *)

(** Claiming a message. For every request the claim either fails and
    changes nothing, or touches only the message's own row: it is claimed when it
    was new, due, or its lease had expired (one more attempt, the fresh token,
    the new lease), and otherwise reported as processed, dead or waiting
    exactly as the stored row says. It fails with a lifecycle conflict exactly
    when the Kafka coordinates already belong to another event of the consumer. *)
Theorem inbox_claim_spec d now token req d' r :
  inbox_inv d -> Claim d now token req = (d', r) ->
  let k := (cq_Consumer req, cq_EventID req) in
  inbox_inv d' /\ only_row k d d' /\
  match r with
  | Ok a => exists row, db_inbox d' !! k = Some row /\ cs_Event a = scanInboxEvent k row /\
                        claim_answer d now token req row (cs_Disposition a)
  | Err _ => d' = d
  end /\
  (r = Err ErrLifecycleConflict <->
   validateClaim req = Ok tt /\
   pg_text_ok (cq_Consumer req) && pg_text_ok (is_topic (cq_Source req)) = true /\
   exists e, e <> cq_EventID req /\ recorded_at d (cq_Consumer req) (cq_Source req) e).
Proof.
  intros Hinv H k. pose proof (Claim_conflict _ _ _ _ _ _ Hinv H) as Hconf.
  destruct r as [a|e].
  - destruct (Claim_ok _ _ _ _ _ _ Hinv H) as (_ & Hinv' & Ho & Ha). by split_and!.
  - pose proof (Claim_err _ _ _ _ _ _ H) as ->. split_and!; auto using only_row_refl.
Qed.

(** C25: The lease token fences every transition. The holder of the current token
    of an in-flight message renews, completes, retries or buries it, and each of
    these updates exactly that row and keeps the invariant; for everybody else
    (an expired attempt whose message was claimed again, a message already
    resolved) all four report [ErrLeaseLost] and change nothing, so that a stale
    handler cannot commit. *)
Theorem inbox_token_fence d now c e token lease delay msg :
  inbox_inv d -> pg_text_ok c = true -> 0 < lease -> 0 <= delay ->
  let t := begin_tx d now in
  (forall r, db_inbox d !! (c, e) = Some r -> ir_status r = IInflight ->
     ir_lease_token r = Some token ->
     let row status at_ p err := released_row status now at_ p err r in
     Renew d now c e token lease = (put_row d (c, e) (renewed_row now lease r), Ok tt) /\
     MarkRetry d now c e token delay msg
       = (put_row d (c, e) (row IRetryWait (now + intervalMS delay * Millisecond) None
                              (Some (sanitizeError msg))), Ok tt) /\
     MarkDead d now c e token msg
       = (put_row d (c, e) (row IDead now None (Some (sanitizeError msg))), Ok tt) /\
     MarkProcessed c e token t
       = (set_db t (put_row d (c, e) (row IProcessed now (Some now) None)), Ok tt) /\
     inbox_inv (Renew d now c e token lease).1 /\
     inbox_inv (MarkRetry d now c e token delay msg).1 /\
     inbox_inv (MarkDead d now c e token msg).1 /\
     inbox_inv (tx_db (MarkProcessed c e token t).1)) /\
  ((forall r, db_inbox d !! (c, e) = Some r ->
      ir_status r <> IInflight \/ ir_lease_token r <> Some token) ->
   Renew d now c e token lease = (d, Err ErrLeaseLost) /\
   MarkRetry d now c e token delay msg = (d, Err ErrLeaseLost) /\
   MarkDead d now c e token msg = (d, Err ErrLeaseLost) /\
   MarkProcessed c e token t = (t, Err ErrLeaseLost)).
Proof.
  intros Hinv Hc Hl Hd t. unfold Renew, MarkRetry, MarkDead.
  rewrite (proj2 (Z.leb_gt lease 0)), (proj2 (Z.ltb_ge delay 0)) by lia. split.
  - intros r Hr Hs Ht. assert (holds_token token r = true) as Hh by (by apply holds_token_true).
    rewrite !(fenced_update_held _ _ _ _ _ _ Hc Hr Hh), (MarkProcessed_held _ _ _ t r) by done.
    split_and!; try done; cbn [fst set_db tx_db];
      first [by eapply renewed_row_inv|apply released_inv; congruence || naive_solver].
  - intros Hno. assert (forall r, db_inbox d !! (c, e) = Some r -> holds_token token r = false) as H.
    { intros r Hr. apply not_true_iff_false. rewrite holds_token_true. naive_solver. }
    rewrite !fenced_update_lost by done. by rewrite MarkProcessed_lost.
Qed.

(** The unmanaged path. [process] runs its callback only for a pair it has
    just marked; when the pair was processed before, the transaction is left as
    it was and the callback is not consulted at all; on every error (invalid
    request, managed message in progress, failing callback, aborted statement)
    the savepoint restores the transaction. A second call in the same
    transaction is a duplicate. *)
Theorem inbox_process_spec uuid_Parse fn c id strict t t' r :
  tx_aborted t = false -> process uuid_Parse fn c id strict t = (t', r) ->
  match r with
  | Err e => t' = t
  | Ok dup => exists e, uuid_Parse (TrimSpace id) = Some e /\
      let k := (TrimSpace c, e) in
      if dup : bool
      then strict = false /\ t' = t /\
           (exists row, db_inbox (tx_db t) !! k = Some row /\ ir_status row = IProcessed)
      else db_inbox (tx_db t) !! k = None /\ tx_aborted t' = false /\
           (exists u, fn (set_db t (put_row (tx_db t) k (marker_row (tx_now t)))) = (t', Ok u)) /\
           (pg_text_ok (TrimSpace c) = true ->
            db_inbox (tx_db t') !! k = Some (marker_row (tx_now t)) ->
            forall fn', process uuid_Parse fn' c id strict t'
                        = (t', if strict then Err ErrAlreadyProcessed else Ok true))
  end.
Proof.
  intros Ha H. unfold process in H. destruct (is_empty (TrimSpace c)) eqn:Ec; [by simplify_eq|].
  destruct (uuid_Parse (TrimSpace id)) as [e|] eqn:Ee; [|by simplify_eq]. rewrite Ha in H.
  destruct (process_body fn (TrimSpace c) e t) as [t1 [[]|err]] eqn:Eb; [..|by simplify_eq];
    apply process_body_ok in Eb; try done.
  - destruct Eb as [-> Hr]. destruct strict; simplify_eq; [done|]. exists e. by split_and!.
  - simplify_eq. destruct Eb as (Hn & Ha' & Hf). exists e. split; [done|].
    cbn zeta iota. split_and!; [done..|].
    intros Hc Hr fn'. unfold process. rewrite Ec, Ee, Ha'.
    rewrite (process_body_dup _ _ _ _ _ Ha' Hc Hr) by done. by destruct strict.
Qed.

End Inbox.
