(* ===== verification/InboxSystem.v ===== *)
(** * Exactly-once effects of the inbox

    Any number of workers, operators and unmanaged callers share the inbox
    table. Every step is one transaction; a handler's transaction carries its
    business writes together with [MarkProcessed], so that its commit is one
    effect. The theorem: however the steps interleave, each message has had its
    effect exactly once when its row says processed and not at all before. *)
From Stdlib Require Import ZArith String.
From stdpp Require Import base gmap strings list fin_maps relations.
From S2P Require Import Prelude GoStrings Schema Invariant OutboxStore Tx InboxStore.

Open Scope Z_scope.

Module InboxSystem.
Import Inbox.

(** The database and the committed effects, oldest first. *)
Definition state : Type := db * list (string * uuid).

(** A callback that leaves the inbox to the library. *)
Definition keeps_inbox (fn : txM unit) : Prop :=
  forall t, db_inbox (tx_db (fn t).1) = db_inbox (tx_db t).

Inductive step (uuid_Parse : string -> option uuid) : state -> state -> Prop :=
| i_claim d log now token req : step uuid_Parse (d, log) ((Claim d now token req).1, log)
| i_renew d log now c e token lease :
    step uuid_Parse (d, log) ((Renew d now c e token lease).1, log)
| i_retry d log now c e token delay msg :
    step uuid_Parse (d, log) ((MarkRetry d now c e token delay msg).1, log)
| i_dead d log now c e token msg :
    step uuid_Parse (d, log) ((MarkDead d now c e token msg).1, log)
| i_revive d log now auditID q : step uuid_Parse (d, log) ((RetryDead d now auditID q).1, log)
| i_commit d log now c e token fn t1 t2 : (* the managed handler commits *)
    keeps_inbox fn -> fn (begin_tx d now) = (t1, Ok tt) ->
    MarkProcessed c e token t1 = (t2, Ok tt) -> tx_aborted t2 = false ->
    step uuid_Parse (d, log) (commit_tx d t2, log ++ [(c, e)])
| i_rollback d log now c e token (fn : txM unit) t1 : (* the fence refuses: nothing is committed *)
    fn (begin_tx d now) = (t1, Ok tt) -> is_ok (MarkProcessed c e token t1).2 = false ->
    step uuid_Parse (d, log) (d, log)
| i_process d log now c id e strict fn t2 : (* the unmanaged callback commits *)
    keeps_inbox fn -> uuid_Parse (TrimSpace id) = Some e ->
    process uuid_Parse fn c id strict (begin_tx d now) = (t2, Ok false) ->
    step uuid_Parse (d, log) (commit_tx d t2, log ++ [(TrimSpace c, e)])
| i_duplicate d log now c id strict (fn : txM unit) t2 : (* the caller commits although it was a duplicate *)
    process uuid_Parse fn c id strict (begin_tx d now) = (t2, Ok true) ->
    step uuid_Parse (d, log) (commit_tx d t2, log).

(** * Lemmas *)

Definition processed (d : db) (k : string * uuid) : Prop :=
  exists r, db_inbox d !! k = Some r /\ ir_status r = IProcessed.

(** A step that neither completes nor reopens a message. *)
Definition quiet (d d' : db) : Prop := inbox_inv d' /\ forall k, processed d' k <-> processed d k.

Lemma quiet_refl d : inbox_inv d -> quiet d d.
Proof. by split. Qed.

Lemma quiet_put d k r r' :
  db_inbox d !! k = Some r -> ir_status r <> IProcessed -> ir_status r' <> IProcessed ->
  inbox_inv (put_row d k r') -> quiet d (put_row d k r').
Proof.
  intros Hr Hs Hs' Hinv. split; [done|]. intros k'. unfold processed, put_row.
  cbn [with_inbox db_inbox]. destruct (decide (k = k')) as [<-|]; [|by rewrite lookup_insert_ne].
  rewrite lookup_insert_eq, Hr. naive_solver.
Qed.

Lemma quiet_only_row d d' k :
  inbox_inv d' -> only_row k d d' -> (processed d' k <-> processed d k) -> quiet d d'.
Proof.
  intros Hinv [_ Ho] Hk. split; [done|]. intros k'. destruct (decide (k' = k)) as [->|]; [done|].
  unfold processed. by rewrite Ho.
Qed.

Lemma quiet_claim d now token req : inbox_inv d -> quiet d (Claim d now token req).1.
Proof.
  intros Hinv. destruct (Claim d now token req) as [d' [a|e]] eqn:E; cbn [fst].
  - destruct (Claim_ok _ _ _ _ _ _ Hinv E) as (_ & Hinv' & Ho & row & Hrow & _ & Ha).
    apply (quiet_only_row _ _ _ Hinv' Ho). unfold processed. rewrite Hrow. unfold claim_answer in Ha.
    destruct (cs_Disposition a).
    + destruct Ha as (r0 & Hr0 & Hcl & ->). unfold claimable in Hcl.
      destruct (db_inbox d !! _) as [r|]; cbn in Hr0; subst; split; try naive_solver.
      intros (r' & [= <-] & Hs). by rewrite Hs in Hcl.
    + destruct Ha as [-> ?]. naive_solver.
    + destruct Ha as (-> & ? & _). naive_solver.
    + destruct Ha as [-> ?]. naive_solver.
  - apply Claim_err in E as ->. by apply quiet_refl.
Qed.

Lemma quiet_fenced d c e token upd :
  inbox_inv d ->
  (forall r, db_inbox d !! (c, e) = Some r -> holds_token token r = true ->
     inbox_inv (put_row d (c, e) (upd r)) /\ ir_status (upd r) <> IProcessed) ->
  quiet d (fenced_update d c e token upd).1.
Proof.
  intros Hinv Hupd. unfold fenced_update. destruct (negb _); [by apply quiet_refl|].
  unfold update_inbox. destruct (db_inbox d !! (c, e)) as [r|] eqn:Er; [|by apply quiet_refl].
  destruct (holds_token token r) eqn:Et; [|by apply quiet_refl].
  destruct (Hupd r eq_refl Et) as [Hinv' Hs]. cbn [requireInboxLease fst].
  apply (quiet_put _ _ r); try done. apply holds_token_true in Et as [-> _]. done.
Qed.

Lemma quiet_released d c e token status now at_ err :
  inbox_inv d -> status <> IInflight -> status <> IProcessed ->
  quiet d (fenced_update d c e token (released_row status now at_ None err)).1.
Proof.
  intros Hinv Hi Hp. apply quiet_fenced; [done|]. intros r Hr [Hs _]%holds_token_true.
  split; [|done]. apply released_inv; first [done|congruence|naive_solver].
Qed.

Lemma quiet_Renew d now c e token lease :
  inbox_inv d -> quiet d (Renew d now c e token lease).1.
Proof.
  intros Hinv. unfold Renew. destruct (_ <=? 0); [by apply quiet_refl|].
  apply quiet_fenced; [done|]. intros r Hr Ht. split; [by eapply renewed_row_inv|].
  apply holds_token_true in Ht as [Hst _]. cbn [renewed_row ir_status]. by rewrite Hst.
Qed.
Lemma quiet_MarkRetry d now c e token delay msg :
  inbox_inv d -> quiet d (MarkRetry d now c e token delay msg).1.
Proof.
  intros Hinv. unfold MarkRetry. destruct (_ <? 0); [by apply quiet_refl|].
  by apply quiet_released.
Qed.
Lemma quiet_MarkDead d now c e token msg :
  inbox_inv d -> quiet d (MarkDead d now c e token msg).1.
Proof. intros Hinv. by apply quiet_released. Qed.

Lemma quiet_revive d now auditID q : inbox_inv d -> quiet d (RetryDead d now auditID q).1.
Proof.
  intros Hinv. unfold RetryDead. set (k := (rq_Consumer _, _)).
  destruct (_ || _ || _ || _); [by apply quiet_refl|].
  destruct (_ || _ || _); [by apply quiet_refl|]. destruct (negb _); [by apply quiet_refl|].
  destruct (db_inbox d !! k) as [r|] eqn:Er; [|by apply quiet_refl].
  destruct (negb _) eqn:Es; [by apply quiet_refl|]. unfold update_inbox. rewrite Er.
  apply negb_false_iff in Es. rewrite Es. apply bool_decide_eq_true in Es.
  destruct (insert_audit_row _ _) as [d'|err] eqn:Ea; [|by apply quiet_refl]. cbn [fst].
  unfold insert_audit_row in Ea. repeat (destruct_match Ea; [done|]). simplify_eq.
  assert (quiet d (put_row d k (released_row IRetryWait now now None (ir_last_error r) r))) as [Hq1 Hq2].
  { apply (quiet_put _ _ r); try done; [by rewrite Es|].
    apply released_inv; first [done|congruence|naive_solver]. }
  split; [|done]. by apply (inbox_inv_frame (put_row d k (released_row IRetryWait now now None
    (ir_last_error r) r))).
Qed.

(** An effect: the message was open and is processed now. *)
Lemma processed_put d k r :
  ir_status r = IProcessed ->
  forall k', processed (put_row d k r) k' <-> k' = k \/ processed d k'.
Proof.
  intros Hs k'. unfold processed, put_row. cbn [with_inbox db_inbox].
  destruct (decide (k = k')) as [<-|]; [rewrite lookup_insert_eq|rewrite lookup_insert_ne by done];
    naive_solver.
Qed.

Definition effect (d d' : db) (k : string * uuid) : Prop :=
  inbox_inv d' /\ ~ processed d k /\ forall k', processed d' k' <-> k' = k \/ processed d k'.

Lemma effect_commit d now c e token fn t1 t2 :
  inbox_inv d -> keeps_inbox fn -> fn (begin_tx d now) = (t1, Ok tt) ->
  MarkProcessed c e token t1 = (t2, Ok tt) -> effect d (tx_db t2) (c, e).
Proof.
  intros Hinv Hk Hf Hm. specialize (Hk (begin_tx d now)). rewrite Hf in Hk. cbn in Hk.
  apply MarkProcessed_ok in Hm as (_ & r & Hr & [Hs _]%holds_token_true & ->).
  cbn [set_db tx_db]. split_and!.
  - apply released_inv; first [done|congruence|by eapply inbox_inv_frame].
  - rewrite Hk in Hr. intros (r' & Hr' & Hs'). congruence.
  - intros k'. rewrite processed_put by done. unfold processed. by rewrite Hk.
Qed.

Lemma effect_process uuid_Parse d now c id e strict fn t2 :
  inbox_inv d -> keeps_inbox fn -> uuid_Parse (TrimSpace id) = Some e ->
  process uuid_Parse fn c id strict (begin_tx d now) = (t2, Ok false) ->
  tx_aborted t2 = false /\ effect d (tx_db t2) (TrimSpace c, e).
Proof.
  intros Hinv Hk He H. unfold process in H. rewrite He in H. destruct (is_empty _); [done|].
  cbn [begin_tx tx_aborted] in H.
  destruct (process_body fn _ e _) as [t1 [[]|err]] eqn:Eb; [by destruct strict| |done].
  injection H as <-. apply process_body_ok in Eb; [|done].
  destruct Eb as (Hn & Ha & u & Hf). split; [done|].
  pose proof (Hk (set_db (begin_tx d now)
    (put_row d (TrimSpace c, e) (marker_row now)))) as Hk'.
  cbn [begin_tx tx_db tx_now] in Hf, Hn. rewrite Hf in Hk'. cbn [fst set_db tx_db] in Hk'.
  assert (inbox_inv (put_row d (TrimSpace c, e) (marker_row now))) as Hinv'.
  { apply inbox_inv_insert; [done|reflexivity|done]. }
  split_and!.
  - by apply (inbox_inv_frame (put_row d (TrimSpace c, e) (marker_row now))).
  - intros (r & Hr & _). congruence.
  - intros k'. unfold processed at 1. rewrite Hk'.
    by apply (processed_put d (TrimSpace c, e) (marker_row now)).
Qed.

(** ** The invariant *)

Definition log_inv (s : state) : Prop :=
  inbox_inv s.1 /\ NoDup s.2 /\ forall k, k ∈ s.2 <-> processed s.1 k.

Lemma log_inv_init t0 : log_inv (migrated t0, []).
Proof.
  split_and!; [apply migrated_inv|constructor|]. intros k. cbn [fst snd].
  rewrite elem_of_nil. unfold processed. cbn [migrated db_inbox]. rewrite lookup_empty. naive_solver.
Qed.

Lemma log_inv_quiet d d' log : log_inv (d, log) -> quiet d d' -> log_inv (d', log).
Proof.
  intros (_ & Hnd & Hlog) [Hinv' Hq]. split_and!; [done..|]. intros k. cbn [fst snd] in *.
  by rewrite Hq.
Qed.

Lemma log_inv_effect d d' log k : log_inv (d, log) -> effect d d' k -> log_inv (d', log ++ [k]).
Proof.
  intros (_ & Hnd & Hlog) (Hinv' & Hn & Hq). split_and!; cbn [fst snd] in *; [done| |].
  - apply NoDup_app. split_and!; [done| |apply NoDup_singleton].
    intros x Hx ->%list_elem_of_singleton. by apply Hlog in Hx.
  - intros k'. rewrite elem_of_app, list_elem_of_singleton, Hq, Hlog. tauto.
Qed.

Lemma process_duplicate uuid_Parse fn c id strict d now t2 :
  process uuid_Parse fn c id strict (begin_tx d now) = (t2, Ok true) -> t2 = begin_tx d now.
Proof.
  intros H. unfold process in H. destruct (is_empty _); [done|].
  destruct (uuid_Parse _); [|done]. cbn [begin_tx tx_aborted] in H.
  destruct (process_body _ _ _ _) as [t1 [[]|err]] eqn:Eb; [|done|done].
  apply process_body_ok in Eb as [-> _]; [|done]. by destruct strict; simplify_eq.
Qed.

Lemma log_inv_step uuid_Parse s s' : step uuid_Parse s s' -> log_inv s -> log_inv s'.
Proof.
  intros Hstep Hs. destruct Hstep; pose proof (proj1 Hs) as Hi; cbn [fst] in Hi.
  - by apply (log_inv_quiet d), quiet_claim.
  - by apply (log_inv_quiet d), quiet_Renew.
  - by apply (log_inv_quiet d), quiet_MarkRetry.
  - by apply (log_inv_quiet d), quiet_MarkDead.
  - apply (log_inv_quiet d); [done|]. by apply quiet_revive.
  - apply (log_inv_effect d); [done|]. unfold commit_tx. rewrite H2. by eapply effect_commit.
  - done.
  - destruct (effect_process _ _ _ _ _ _ _ _ _ Hi H H0 H1) as [Ha He].
    apply (log_inv_effect d); [done|]. unfold commit_tx. by rewrite Ha.
  - by apply process_duplicate in H as ->.
Qed.

(** * Properties *)

(** C23: Exactly once. In every state reached from the migrated database the
    committed effects contain no message twice, and they are exactly the
    messages whose row says processed. *)
Theorem inbox_exactly_once uuid_Parse t0 d log :
  rtc (step uuid_Parse) (migrated t0, []) (d, log) ->
  inbox_inv d /\ NoDup log /\
  forall k, k ∈ log <-> exists r, db_inbox d !! k = Some r /\ ir_status r = IProcessed.
Proof.
  intros H. enough (log_inv (d, log)) by done. revert H. generalize (log_inv_init t0).
  generalize (d, log). intros s Hi H. induction H; eauto using log_inv_step.
Qed.

(** * Witnesses *)

(** A worker claims a message and dies; after its lease another worker claims
    it again and commits, the first one's late commit is refused, and an
    unmanaged caller finds it processed. *)
Definition demo_request (owner : string) : ClaimRequest :=
  {| cq_Consumer := "billing"; cq_EventID := 7;
     cq_Source := {| is_topic := "orders"; is_partition := 0; is_offset := 41; is_timestamp := None |};
     cq_LeaseOwner := owner; cq_LeaseDuration := 30 * Second |}.
Definition demo_fn : txM unit := tx_ret tt.
Definition demo_parse (s : string) : option uuid := Some 7%N.
Definition m1 : db := (Claim (migrated 0) Second 100 (demo_request "worker-1")).1.
Definition m2 : db := (Claim m1 (40 * Second) 200 (demo_request "worker-2")).1.
Definition m3 : tx := (MarkProcessed "billing" 7 200 (begin_tx m2 (41 * Second))).1.

Lemma demo_reached :
  rtc (step demo_parse) (migrated 0, []) (tx_db m3, [("billing"%string, 7%N)]).
Proof.
  eapply rtc_l; [apply (i_claim _ _ _ Second 100 (demo_request "worker-1"))|].
  eapply rtc_l; [apply (i_claim _ _ _ (40 * Second) 200 (demo_request "worker-2"))|].
  eapply rtc_l; [apply (i_commit _ m2 [] (41 * Second) "billing" 7 200 demo_fn
    (begin_tx m2 (41 * Second)) m3); [done|done|vm_compute; reflexivity|vm_compute; reflexivity]|].
  eapply rtc_l; [apply (i_rollback _ (tx_db m3) _ (42 * Second) "billing" 7 100 demo_fn
    (begin_tx (tx_db m3) (42 * Second))); [done|vm_compute; reflexivity]|].
  eapply rtc_l; [apply (i_duplicate _ (tx_db m3) _ (43 * Second) "billing" "id" false demo_fn
    (begin_tx (tx_db m3) (43 * Second))); vm_compute; reflexivity|].
  apply rtc_refl.
Qed.

Lemma inbox_exactly_once_witness :
  NoDup [("billing"%string, 7%N)] /\
  exists r, db_inbox (tx_db m3) !! ("billing"%string, 7%N) = Some r /\ ir_status r = IProcessed.
Proof.
  destruct (inbox_exactly_once demo_parse 0 _ _ demo_reached) as (_ & Hnd & Hlog).
  split; [exact Hnd|]. apply Hlog. left.
Defined.

Lemma inbox_claim_spec_witness :
  inbox_inv m1 /\ ir_attempts <$> db_inbox m1 !! ("billing"%string, 7%N) = Some 1.
Proof.
  split; [|vm_compute; reflexivity].
  exact (proj1 (inbox_claim_spec (migrated 0) Second 100 (demo_request "worker-1") m1 _
    (inv_inbox _ (migrated_inv 0)) (surjective_pairing _))).
Defined.

(** After the second claim the first worker's token is refused and the second
    one's accepted. *)
Lemma inbox_token_fence_witness :
  MarkProcessed "billing" 7 100 (begin_tx m2 (41 * Second))
    = (begin_tx m2 (41 * Second), Err ErrLeaseLost) /\
  is_ok (MarkRetry m2 (41 * Second) "billing" 7 200 Second "boom").2 = true.
Proof.
  assert (inbox_inv m2) as Hinv.
  { apply quiet_claim, quiet_claim, (inv_inbox _ (migrated_inv 0)). }
  split.
  - destruct (inbox_token_fence m2 (41 * Second) "billing" 7 100 Second Second "boom" Hinv)
      as [_ H]; [vm_compute; congruence..|].
    apply H. intros r Hr. vm_compute in Hr. injection Hr as <-. right. vm_compute. discriminate.
  - destruct (inbox_token_fence m2 (41 * Second) "billing" 7 200 Second Second "boom" Hinv)
      as [H _]; [vm_compute; congruence..|].
    destruct (db_inbox m2 !! ("billing"%string, 7%N)) as [r|] eqn:Er;
      [|vm_compute in Er; discriminate].
    destruct (H r eq_refl) as (_ & Hr & _); [vm_compute in Er; injection Er as <-; reflexivity..|].
    rewrite Hr. reflexivity.
Defined.

Lemma inbox_process_spec_witness :
  let t := begin_tx (migrated 0) Second in
  exists t', process demo_parse demo_fn " billing " "id" true t = (t', Ok false) /\
    process demo_parse demo_fn " billing " "id" true t' = (t', Err ErrAlreadyProcessed).
Proof.
  intros t. eexists. split; [vm_compute; reflexivity|].
  destruct (inbox_process_spec demo_parse demo_fn " billing " "id" true t
    (process demo_parse demo_fn " billing " "id" true t).1 (Ok false)) as (e & He & _ & _ & _ & H);
    [reflexivity|vm_compute; reflexivity|].
  injection He as <-. apply H; vm_compute; reflexivity.
Defined.

End InboxSystem.
