(* ===== verification/InboxAdmin.v ===== *)
(** * The operator's view of the inbox ([storage/postgres/inbox_admin.go]) *)
From Stdlib Require Import ZArith String.
From stdpp Require Import base gmap strings list sorting fin_maps.
From S2P Require Import Prelude GoStrings Schema Invariant OutboxStore Tx AdminTypes Pages.
From S2P Require Import InboxStore OrderingAdmin.

Open Scope Z_scope.
Local Open Scope emitlane_scope.

Definition inbox_status_text (s : inbox_status) : string :=
  match s with
  | IPending => "pending" | IInflight => "inflight" | IRetryWait => "retry_wait"
  | IProcessed => "processed" | IDead => "dead"
  end.

Module InboxAdmin.

Record InboxStats_ : Type := MkInboxStats {
  in_Processed : Z;
  in_Pending : Z;
  in_Inflight : Z;
  in_RetryWait : Z;
  in_Dead : Z;
  in_StaleInflight : Z;
  in_DueRetries : Z;
  in_BlockedPartitions : Z;
}.

(** The administrative event leaves out the payload, headers, key and token. *)
Record InboxEvent : Type := MkInboxEvent {
  ie_Consumer : string;
  ie_EventID : uuid;
  ie_Status : string;
  ie_Attempts : Z;
  ie_AvailableAt : time;
  ie_LeaseOwner : string;
  ie_LeaseUntil : option time;
  ie_LastError : string;
  ie_FirstSeenAt : time;
  ie_UpdatedAt : time;
  ie_ProcessedAt : option time;
  ie_SourceTopic : string;
  ie_SourcePartition : option Z;
  ie_SourceOffset : option Z;
  ie_SourceTimestamp : option time;
}.

Record InboxDeadFilter : Type := MkInboxDeadFilter {
  df_Consumer : string;
  df_Limit : Z;
  df_Offset : Z;
}.

Definition adminInboxEvent (e : Inbox.Event) : InboxEvent :=
  {| ie_Consumer := Inbox.Consumer e; ie_EventID := Inbox.EventID e;
     ie_Status := inbox_status_text (Inbox.Status e); ie_Attempts := Inbox.Attempts e;
     ie_AvailableAt := Inbox.AvailableAt e; ie_LeaseOwner := Inbox.LeaseOwner e;
     ie_LeaseUntil := Inbox.LeaseUntil e; ie_LastError := TrimSpace (Inbox.LastError e);
     ie_FirstSeenAt := Inbox.FirstSeenAt e; ie_UpdatedAt := Inbox.UpdatedAt e;
     ie_ProcessedAt := Inbox.ProcessedAt e;
     ie_SourceTopic := deref (is_topic <$> Inbox.Source e);
     ie_SourcePartition := is_partition <$> Inbox.Source e;
     ie_SourceOffset := is_offset <$> Inbox.Source e;
     ie_SourceTimestamp := Inbox.Source e ≫= is_timestamp |}.

Abbreviation inbox_entry := ((string * uuid) * inbox_row)%type.

(** [$1 = '' OR consumer = $1] *)
Definition of_consumer (consumer : string) (kr : inbox_entry) : bool :=
  bool_decide (consumer = ""%string) || bool_decide (kr.1.1 = consumer).

Definition inbox_is (s : inbox_status) (kr : inbox_entry) : bool := bool_decide (ir_status kr.2 = s).

Definition source_place (kr : inbox_entry) : option (string * Z) :=
  (fun s => (is_topic s, is_partition s)) <$> ir_source kr.2.

Definition InboxStats (d : db) (now : time) (consumer : string) : res InboxStats_ :=
  fail_if negb (pg_text_ok consumer) with ErrSQL InvalidText;
  let rows := filter (fun kr => of_consumer consumer kr = true) (map_to_list (db_inbox d)) in
  Ok {| in_Processed := OrderingAdmin.count (inbox_is IProcessed) rows;
        in_Pending := OrderingAdmin.count (inbox_is IPending) rows;
        in_Inflight := OrderingAdmin.count (inbox_is IInflight) rows;
        in_RetryWait := OrderingAdmin.count (inbox_is IRetryWait) rows;
        in_Dead := OrderingAdmin.count (inbox_is IDead) rows;
        in_StaleInflight :=
          OrderingAdmin.count (fun kr => inbox_is IInflight kr && sql_le (ir_lease_until kr.2) now) rows;
        in_DueRetries :=
          OrderingAdmin.count (fun kr => inbox_is IRetryWait kr && (ir_available_at kr.2 <=? now)) rows;
        in_BlockedPartitions :=
          Z.of_nat (length (remove_dups (omap source_place
            (filter (fun kr => ir_status kr.2 = IDead) rows)))) |}.

(** [ORDER BY updated_at DESC, event_id]; equal pairs are ordered by consumer here. *)
Definition dead_key (kr : inbox_entry) : Z * N * string := (ir_updated_at kr.2, kr.1.2, kr.1.1).
Definition dead_le (a b : Z * N * string) : Prop :=
  let '(t1, e1, c1) := a in let '(t2, e2, c2) := b in
  (t2 <? t1) || ((t1 =? t2) && ((e1 <? e2)%N || ((e1 =? e2)%N && negb (String.ltb c2 c1)))) = true.
#[global] Instance dead_le_dec a b : Decision (dead_le a b).
Proof. destruct a as [[??]?], b as [[??]?]. unfold dead_le. apply _. Defined.

Definition ListDeadInbox (d : db) (f : InboxDeadFilter) : res (list InboxEvent) :=
  fail_if negb (pg_text_ok (df_Consumer f)) with ErrSQL InvalidText;
  let rows := filter (fun kr => inbox_is IDead kr && of_consumer (df_Consumer f) kr = true)
                (map_to_list (db_inbox d)) in
  Ok ((fun kr => adminInboxEvent (Inbox.scanInboxEvent kr.1 kr.2)) <$>
      take (Z.to_nat (df_Limit f)) (drop (Z.to_nat (df_Offset f)) (order_by dead_key dead_le rows))).

Definition InspectInbox (d : db) (consumer : string) (eventID : uuid) : res InboxEvent :=
  match Inbox.Get d consumer eventID with
  | Ok e => Ok (adminInboxEvent e)
  | Err ErrInboxNotFound => Err ErrAdminNotFound
  | Err e => Err e
  end.

Definition RetryDeadInbox (uuid_String : uuid -> string) (d : db) (now : time) (auditID : uuid) (consumer : string)
    (eventID : uuid) (m : Admin.Mutation) : db * res unit :=
  match Inbox.RetryDead d now auditID
          {| Inbox.rq_Consumer := consumer; Inbox.rq_EventID := eventID;
             Inbox.rq_Actor := Admin.mu_Actor m; Inbox.rq_Reason := Admin.mu_Reason m;
             Inbox.rq_RequestID := Admin.mu_RequestID m |} with
  | (d', Err ErrLifecycleConflict) => 
      (d', Err (ErrAdminConflict ("Inbox event " +:+ consumer +:+ "/" +:+ uuid_String eventID +:+ " is not dead")))
  | (d', Err ErrInboxNotFound) => (d', Err ErrAdminNotFound)
  | r => r
  end.

End InboxAdmin.
