(* ===== verification/AdminService.v ===== *)
(** * The administrative service ([internal/admin/service.go])

    Validation and normalization of every request in front of the
    administrative store. Each request is one transaction at its own [NOW()];
    the metrics the service counts are left out. *)
From Stdlib Require Import ZArith String.
From stdpp Require Import base gmap strings list sorting fin_maps.
From S2P Require Import Prelude GoStrings Base64 Ordering Schema Invariant Samples OutboxStore.
From S2P Require Import OrderedStore PartitionStore Presence Tx Outbox InboxStore InboxSystem.
From S2P Require Import AdminTypes Pages AdminStore OrderingAdmin InboxAdmin.

Open Scope Z_scope.
Local Open Scope emitlane_scope.

Module Service.
Import Admin.

Definition NewService_ok (staleAfter : duration) : bool := 0 <? staleAfter.

(** ** Normalization *)

Definition safeText (value : string) : bool := ValidString value && negb (has_nul value).

Definition is_empty (s : string) : bool := bool_decide (s = ""%string).

Definition allowed_status (replay : bool) (status : string) : bool :=
  bool_decide (status ∈ ["pending"; "inflight"; "delivered"; "dead"]%string)
  && (negb replay || bool_decide (status ∈ ["delivered"; "dead"]%string)).

(** The loop over [filter.Statuses]: blank entries are skipped, repeated ones
    kept once; [seen] holds the statuses kept so far, in order. *)
Fixpoint normalize_statuses (replay : bool) (seen : list string) (l : list string)
  : res (list string) :=
  match l with
  | [] => Ok seen
  | s :: l =>
      let status := ToLower (TrimSpace s) in
      if is_empty status then normalize_statuses replay seen l else
      fail_if negb (allowed_status replay status) with ErrAdminInvalid "unsupported status";
      if bool_decide (status ∈ seen) then normalize_statuses replay seen l
      else normalize_statuses replay (seen ++ [status]) l
  end.

Definition with_filter (f : EventFilter) (statuses : list string) (dest type_ : string) (limit : Z)
  : EventFilter :=
  {| f_Statuses := statuses; f_Destination := dest; f_EventType := type_;
     f_CreatedFrom := f_CreatedFrom f; f_CreatedTo := f_CreatedTo f;
     f_ReplayBatchID := f_ReplayBatchID f; f_Cursor := f_Cursor f; f_Limit := limit |}.

Definition default_limit (limit dflt : Z) : Z := if limit =? 0 then dflt else limit.

Definition normalizeEventFilter (f : EventFilter) (replay : bool) : res EventFilter :=
  let dest := TrimSpace (f_Destination f) in
  let type_ := TrimSpace (f_EventType f) in
  fail_if match f_CreatedFrom f, f_CreatedTo f with
          | Some from, Some to => to <? from
          | _, _ => false
          end with ErrAdminInvalid "created_from must not be after created_to";
  let! statuses := normalize_statuses replay [] (f_Statuses f) in
  if replay then
    fail_if negb (HasSelector (with_filter f statuses dest type_ (f_Limit f)))
      with ErrAdminInvalid "replay requires a non-empty selector";
    let statuses := if bool_decide (statuses = []) then ["delivered"%string] else statuses in
    let limit := default_limit (f_Limit f) MaxReplayBatch in
    fail_if (limit <? 1) || (MaxReplayBatch <? limit)
      with ErrAdminInvalid "replay limit must be between 1 and 1000";
    Ok (with_filter f statuses dest type_ limit)
  else
    let limit := default_limit (f_Limit f) DefaultPageSize in
    fail_if (limit <? 1) || (MaxPageSize <? limit)
      with ErrAdminInvalid "limit must be between 1 and 200";
    Ok (with_filter f statuses dest type_ limit).

Section service.
(** [telemetry.InjectTrace] of the request's context. *)
Context (InjectTrace : string * string).

Definition normalizeMutation (m : Mutation) (reasonRequired : bool) : res Mutation :=
  let actor := TrimSpace (mu_Actor m) in
  let reason := TrimSpace (mu_Reason m) in
  let requestID := TrimSpace (mu_RequestID m) in
  let mode := ToLower (TrimSpace (mu_OrderingMode m)) in
  fail_if is_empty actor || (256 <? go_len actor) with ErrAdminInvalid "actor is required";
  fail_if negb (safeText actor) with ErrAdminInvalid "actor contains invalid characters";
  fail_if reasonRequired && is_empty reason with ErrAdminInvalid "reason is required";
  fail_if 4096 <? go_len reason with ErrAdminInvalid "reason is too long";
  fail_if negb (safeText reason) with ErrAdminInvalid "reason contains invalid characters";
  fail_if 128 <? go_len requestID with ErrAdminInvalid "request id is too long";
  fail_if negb (safeText requestID) with ErrAdminInvalid "request id contains invalid characters";
  let trace := if is_empty (mu_Traceparent m) then InjectTrace
               else (mu_Traceparent m, mu_Tracestate m) in
  fail_if negb (is_empty mode) && negb (bool_decide (mode = "unordered"%string))
    with ErrAdminInvalid "ordering_mode must be unordered";
  Ok {| mu_Actor := actor; mu_Reason := reason; mu_RequestID := requestID;
        mu_Traceparent := trace.1; mu_Tracestate := trace.2; mu_OrderingMode := mode |}.

(** ** Requests *)

Context (staleAfter : duration) (json_Marshal : Cursor -> string).
Context (stream_Marshal : OrderingAdmin.OrderingStreamCursor -> string).
Context (uuid_String : uuid -> string) (newV7 : nat -> option uuid).

Definition Stats_ (d d' : db) (now now' : time) : res OrderingAdmin.Stats :=
  OrderingAdmin.OperationalStats d d' now now' staleAfter.

Definition ListEvents (d : db) (f : EventFilter) : res EventPage :=
  let! f := normalizeEventFilter f false in
  AdminStore.ListEvents json_Marshal d f.

Definition InspectEvent (d : db) (id : uuid) (includeSensitive : bool) : res Event :=
  fail_if bool_decide (id = uuid_Nil) with ErrAdminInvalid "event id is required";
  AdminStore.InspectEvent d id includeSensitive.

Definition ListRelays_ (d : db) (now : time) : list RelayInstance := ListRelays d now staleAfter.

Definition GetRelay_ (d : db) (now : time) (id : string) : res RelayInstance :=
  let id := TrimSpace id in
  fail_if is_empty id || (256 <? go_len id) with ErrAdminInvalid "relay id is required";
  GetRelay d now id staleAfter.

Definition ControlState_ (d : db) : res ControlState := AdminStore.ControlState_ d.

(** A mutation: the request is normalized, then runs as one transaction. *)
Definition mutate {A} (d : db) (now : time) (m : res Mutation) (body : Mutation -> txM A)
  : db * list (string * string) * res A :=
  match m with
  | Ok m => run_tx d now (body m)
  | Err e => (d, [], Err e)
  end.

Definition SetPaused (d : db) (now : time) (paused : bool) (m : Mutation)
  : db * list (string * string) * res ControlState :=
  mutate d now (normalizeMutation m false) (AdminStore.SetPaused newV7 paused).

Definition RetryDead (d : db) (now : time) (id : uuid) (m : Mutation)
  : db * list (string * string) * res unit :=
  mutate d now
    (fail_if bool_decide (id = uuid_Nil) with ErrAdminInvalid "event id is required";
     normalizeMutation m false)
    (AdminStore.RetryDeadAudited uuid_String newV7 id).

Definition ReplayEvent (d : db) (now : time) (id : uuid) (m : Mutation)
  : db * list (string * string) * res ReplayResult :=
  mutate d now
    (fail_if bool_decide (id = uuid_Nil) with ErrAdminInvalid "event id is required";
     normalizeMutation m true)
    (AdminStore.ReplayEvent uuid_String newV7 id).

Definition PreviewReplay (d : db) (f : EventFilter) : res ReplayPreview :=
  let! f := normalizeEventFilter f true in
  AdminStore.PreviewReplay d f 10 (f_Limit f).

Definition ReplayBatch (d : db) (now : time) (f : EventFilter) (m : Mutation)
  : db * list (string * string) * res ReplayResult :=
  match normalizeEventFilter f true with
  | Err e => (d, [], Err e)
  | Ok f => mutate d now (normalizeMutation m true)
              (fun m => AdminStore.ReplayBatch uuid_String newV7 f m (f_Limit f))
  end.

Definition ListAudit (d : db) (f : AuditFilter) : res AuditPage :=
  let limit := default_limit (af_Limit f) DefaultPageSize in
  fail_if (limit <? 1) || (MaxPageSize <? limit) with ErrAdminInvalid "limit must be between 1 and 200";
  AdminStore.ListAudit json_Marshal d
    {| af_Action := TrimSpace (af_Action f); af_Cursor := af_Cursor f; af_Limit := limit |}.

Definition ListOrderingStreams (d : db) (now : time) (f : OrderingAdmin.OrderingStreamFilter)
  : res OrderingAdmin.OrderingStreamPage :=
  let state := ToLower (TrimSpace (OrderingAdmin.sf_State f)) in
  fail_if negb (bool_decide (state ∈
      [""; "ready"; "inflight"; "retry_wait"; "gap"; "dead_blocked"]%string))
    with ErrAdminInvalid "unsupported ordering state";
  fail_if match OrderingAdmin.sf_Partition f with Some p => (p <? 0) || (64 <=? p) | None => false end
    with ErrAdminInvalid "partition must be between 0 and 63";
  let limit := default_limit (OrderingAdmin.sf_Limit f) DefaultPageSize in
  fail_if (limit <? 1) || (MaxPageSize <? limit) with ErrAdminInvalid "limit must be between 1 and 200";
  OrderingAdmin.ListOrderingStreams stream_Marshal d now
    {| OrderingAdmin.sf_State := state;
       OrderingAdmin.sf_Destination := TrimSpace (OrderingAdmin.sf_Destination f);
       OrderingAdmin.sf_Partition := OrderingAdmin.sf_Partition f;
       OrderingAdmin.sf_BlockedOnly := OrderingAdmin.sf_BlockedOnly f;
       OrderingAdmin.sf_Limit := limit; OrderingAdmin.sf_Cursor := OrderingAdmin.sf_Cursor f |}.

Definition InspectOrderingStream (d : db) (now : time) (destination orderingKey : string)
  : res OrderingAdmin.OrderingStream :=
  let destination := TrimSpace destination in
  let orderingKey := TrimSpace orderingKey in
  fail_if is_empty destination || is_empty orderingKey
    with ErrAdminInvalid "destination and ordering_key are required";
  OrderingAdmin.InspectOrderingStream d now destination orderingKey.

Definition ListOrderingPartitions (d : db) (now : time) : list OrderingAdmin.OrderingPartition :=
  OrderingAdmin.ListOrderingPartitions d now staleAfter.

Definition InboxStats (d : db) (now : time) (consumer : string) : res InboxAdmin.InboxStats_ :=
  let consumer := TrimSpace consumer in
  fail_if 256 <? go_len consumer with ErrAdminInvalid "consumer is too long";
  InboxAdmin.InboxStats d now consumer.

Definition ListDeadInbox (d : db) (f : InboxAdmin.InboxDeadFilter) : res (list InboxAdmin.InboxEvent) :=
  let consumer := TrimSpace (InboxAdmin.df_Consumer f) in
  fail_if (256 <? go_len consumer) || (InboxAdmin.df_Offset f <? 0)
    with ErrAdminInvalid "invalid consumer or offset";
  let limit := default_limit (InboxAdmin.df_Limit f) DefaultPageSize in
  fail_if (limit <? 1) || (MaxPageSize <? limit) with ErrAdminInvalid "limit must be between 1 and 200";
  InboxAdmin.ListDeadInbox d
    {| InboxAdmin.df_Consumer := consumer; InboxAdmin.df_Limit := limit;
       InboxAdmin.df_Offset := InboxAdmin.df_Offset f |}.

Definition bad_inbox_key (consumer : string) (eventID : uuid) : bool :=
  is_empty consumer || (256 <? go_len consumer) || bool_decide (eventID = uuid_Nil).

Definition InspectInbox (d : db) (consumer : string) (eventID : uuid) : res InboxAdmin.InboxEvent :=
  let consumer := TrimSpace consumer in
  fail_if bad_inbox_key consumer eventID with ErrAdminInvalid "consumer and event ID are required";
  InboxAdmin.InspectInbox d consumer eventID.

Definition RetryDeadInbox (d : db) (now : time) (auditID : uuid) (consumer : string) (eventID : uuid)
    (m : Mutation) : db * res unit :=
  let consumer := TrimSpace consumer in
  if bad_inbox_key consumer eventID
  then (d, Err (ErrAdminInvalid "consumer and event ID are required")) else
  match normalizeMutation m true with
  | Err e => (d, Err e)
  | Ok m => InboxAdmin.RetryDeadInbox uuid_String d now auditID consumer eventID m
  end.

End service.

(** * Lemmas *)

(** ** Normalized requests *)

Lemma normalize_statuses_ok replay seen l out :
  normalize_statuses replay seen l = Ok out ->
  NoDup seen -> (forall s, s ∈ seen -> allowed_status replay s = true) ->
  NoDup out /\ (forall s, s ∈ out -> allowed_status replay s = true).
Proof.
  revert seen. induction l as [|s l IH]; intros seen H Hnd Hal; cbn in H; [by simplify_eq|].
  destruct (is_empty _) eqn:E1; [by eapply IH|]. destruct_match H; [done|]. bool_to_prop.
  destruct (bool_decide _) eqn:E2; [by eapply IH|]. bool_to_prop. eapply IH; [exact H|..].
  - apply NoDup_app. split_and!; [done| |apply NoDup_singleton].
    intros x Hx Hx'. apply list_elem_of_singleton in Hx' as ->. done.
  - intros x [Hx|Hx]%elem_of_app; [by apply Hal|].
    by apply list_elem_of_singleton in Hx as ->.
Qed.

(** Allowed statuses are already in normal form. *)
Lemma allowed_status_fixed replay s :
  allowed_status replay s = true -> ToLower (TrimSpace s) = s /\ is_empty s = false.
Proof.
  unfold allowed_status. intros H. bool_to_prop. clear H0.
  rewrite !elem_of_cons, elem_of_nil in H.
  destruct H as [->|[->|[->|[->|[]]]]]; split; vm_compute; reflexivity.
Qed.

Lemma normalize_statuses_fixed replay seen l :
  NoDup (seen ++ l) -> (forall s, s ∈ l -> allowed_status replay s = true) ->
  normalize_statuses replay seen l = Ok (seen ++ l).
Proof.
  revert seen. induction l as [|s l IH]; intros seen Hnd Hal; cbn; [by rewrite app_nil_r|].
  destruct (allowed_status_fixed replay s) as [-> ->]; [apply Hal; left|].
  rewrite (Hal s) by left. cbn [negb].
  assert (s ∉ seen) as Hs.
  { apply NoDup_app in Hnd as (_ & Hd & _). intros Hin. apply (Hd s Hin). left. }
  rewrite bool_decide_false by done. rewrite IH.
  - by rewrite <- (assoc (++)).
  - by rewrite <- (assoc (++)).
  - intros x Hx. apply Hal. by right.
Qed.

(** What an accepted filter looks like. *)
Record normal_filter (replay : bool) (f : EventFilter) : Prop := {
  nf_statuses : NoDup (f_Statuses f) /\ forall s, s ∈ f_Statuses f -> allowed_status replay s = true;
  nf_destination : TrimSpace (f_Destination f) = f_Destination f;
  nf_type : TrimSpace (f_EventType f) = f_EventType f;
  nf_limit : 1 <= f_Limit f <= (if replay then MaxReplayBatch else MaxPageSize);
  nf_range : forall a b, f_CreatedFrom f = Some a -> f_CreatedTo f = Some b -> a <= b;
  nf_selector : replay = true -> f_Statuses f <> [] /\ HasSelector f = true;
}.

Lemma allowed_delivered s : s ∈ ["delivered"%string] -> allowed_status true s = true.
Proof. intros H. apply list_elem_of_singleton in H as ->. vm_compute. reflexivity. Qed.

Lemma statuses_selector f :
  f_Statuses f <> [] -> HasSelector f = true.
Proof. intros H. unfold HasSelector. by rewrite bool_decide_false. Qed.

Lemma normalizeEventFilter_normal f replay f' :
  normalizeEventFilter f replay = Ok f' ->
  normal_filter replay f' /\ f_Cursor f' = f_Cursor f /\ f_CreatedFrom f' = f_CreatedFrom f /\
  f_CreatedTo f' = f_CreatedTo f /\ f_ReplayBatchID f' = f_ReplayBatchID f.
Proof.
  unfold normalizeEventFilter. intros H.
  destruct (match f_CreatedFrom f with Some _ => _ | None => _ end) eqn:Er; [done|].
  apply result_bind_ok in H as (ss & Hs & H).
  apply normalize_statuses_ok in Hs as [Hnd Hal];
    [|constructor|intros x Hx; by apply elem_of_nil in Hx].
  assert (forall a b, f_CreatedFrom f = Some a -> f_CreatedTo f = Some b -> a <= b) as Hrange.
  { intros a b Ha Hb. rewrite Ha, Hb in Er. by bool_to_prop. }
  destruct replay; cbn in H.
  - destruct_match H; [done|]. destruct_match H; [done|]. bool_to_prop. injection H as <-.
    split; [|done]. split; cbn; try apply TrimSpace_idemp; try done.
    + destruct (bool_decide (ss = [])) eqn:E; [|done].
      split; [apply NoDup_singleton|apply allowed_delivered].
    + intros _. assert ((if bool_decide (ss = []) then ["delivered"%string] else ss) <> []) as Hne.
      { destruct (bool_decide (ss = [])) eqn:E; [done|by bool_to_prop]. }
      split; [done|]. by apply statuses_selector.
  - destruct_match H; [done|]. bool_to_prop. injection H as <-.
    split; [|done]. split; cbn; try apply TrimSpace_idemp; done.
Qed.

(** Normalizing twice changes nothing. *)
Lemma normalizeEventFilter_idemp replay f' :
  normal_filter replay f' -> normalizeEventFilter f' replay = Ok f'.
Proof.
  intros [[Hnd Hal] Hd Ht Hl Hr Hs]. assert (f_Limit f' <> 0) as Hz by lia.
  unfold normalizeEventFilter. rewrite Hd, Ht.
  assert (match f_CreatedFrom f' with
          | Some from => match f_CreatedTo f' with Some to => to <? from | None => false end
          | None => false end = false) as ->.
  { destruct (f_CreatedFrom f') as [a|] eqn:Ea, (f_CreatedTo f') as [b|] eqn:Eb; try done.
    apply Z.ltb_ge. by apply Hr. }
  rewrite normalize_statuses_fixed by done. cbn [app result_bind].
  unfold default_limit. apply Z.eqb_neq in Hz. rewrite Hz.
  destruct replay.
  - destruct (Hs eq_refl) as [Hne Hsel].
    replace (with_filter f' (f_Statuses f') (f_Destination f') (f_EventType f') (f_Limit f'))
      with f' by by destruct f'.
    rewrite Hsel, bool_decide_false by done. cbn [negb].
    assert ((f_Limit f' <? 1) || (MaxReplayBatch <? f_Limit f') = false) as ->
      by (apply orb_false_iff; rewrite !Z.ltb_ge; lia).
    by destruct f'.
  - assert ((f_Limit f' <? 1) || (MaxPageSize <? f_Limit f') = false) as ->
      by (apply orb_false_iff; rewrite !Z.ltb_ge; lia).
    by destruct f'.
Qed.

(** What the filter normalization guarantees its clients: an accepted
    filter has distinct lower-case statuses the operation supports, trimmed
    names, an ordered time range and a limit within the page or batch size, a
    replay always has a selector and a status; the cursor, the range and the
    batch are as given, and normalizing again changes nothing. *)
Theorem filter_normal_form f replay f' :
  normalizeEventFilter f replay = Ok f' ->
  normal_filter replay f' /\ normalizeEventFilter f' replay = Ok f' /\
  f_Cursor f' = f_Cursor f /\ f_CreatedFrom f' = f_CreatedFrom f /\
  f_CreatedTo f' = f_CreatedTo f /\ f_ReplayBatchID f' = f_ReplayBatchID f.
Proof.
  intros H. destruct (normalizeEventFilter_normal _ _ _ H) as [Hn Hrest].
  split; [done|]. split; [by apply normalizeEventFilter_idemp|done].
Qed.

(** What an accepted mutation looks like. *)
Record normal_mutation (reasonRequired : bool) (m m' : Mutation) : Prop := {
  nm_actor : mu_Actor m' = TrimSpace (mu_Actor m) /\ mu_Actor m' <> ""%string;
  nm_reason : mu_Reason m' = TrimSpace (mu_Reason m);
  nm_reason_required : reasonRequired = true -> mu_Reason m' <> ""%string;
  nm_request : mu_RequestID m' = TrimSpace (mu_RequestID m);
  nm_bounds : go_len (mu_Actor m') <= 256 /\ go_len (mu_Reason m') <= 4096 /\
              go_len (mu_RequestID m') <= 128;
  nm_text : pg_text_ok (mu_Actor m') = true /\ pg_text_ok (mu_Reason m') = true /\
            pg_text_ok (mu_RequestID m') = true;
  nm_mode : mu_OrderingMode m' = ""%string \/ mu_OrderingMode m' = "unordered"%string;
}.

Lemma normalizeMutation_normal trace m reasonRequired m' :
  normalizeMutation trace m reasonRequired = Ok m' -> normal_mutation reasonRequired m m'.
Proof.
  unfold normalizeMutation. intros H. repeat (destruct_match H; [done|]).
  injection H as <-. unfold safeText in *.
  repeat match goal with Hb : _ || _ = false |- _ => apply orb_false_iff in Hb as [? ?] end.
  bool_to_prop. unfold pg_text_ok, is_empty in *.
  split; cbn; try done.
  - split; [done|]. by bool_to_prop.
  - intros ->. cbn in *. by bool_to_prop.
  - split_and!; apply andb_true_iff; by rewrite negb_true_iff.
  - match goal with Hm : _ && _ = false |- _ => apply andb_false_iff in Hm as [Hm|Hm] end;
      bool_to_prop; auto.
Qed.

(** ** Mutations *)

Lemma mutate_err {A} d now (m : res Mutation) (body : Mutation -> txM A) d' ns e :
  mutate d now m body = (d', ns, Err e) -> d' = d /\ ns = [].
Proof. unfold mutate. destruct m; intros H; [by eapply run_tx_err|by simplify_eq]. Qed.

Lemma mutate_ok {A} d now (m : res Mutation) (body : Mutation -> txM A) d' ns a :
  mutate d now m body = (d', ns, Ok a) ->
  exists m', m = Ok m' /\ run_tx d now (body m') = (d', ns, Ok a).
Proof. unfold mutate. destruct m; intros H; [eauto|by simplify_eq]. Qed.

Lemma checked_id_ok id (r : res Mutation) m' :
  (if bool_decide (id = uuid_Nil) then Err (ErrAdminInvalid "event id is required") else r) = Ok m' ->
  id <> uuid_Nil /\ r = Ok m'.
Proof. intros H. destruct_match H; [done|]. by bool_to_prop. Qed.

(** The five kinds of mutation the service offers. *)
Inductive request : Type :=
| Pause (paused : bool)
| Retry (id : uuid)
| Replay (id : uuid)
| ReplayMany (f : EventFilter)
| RetryInbox (auditID : uuid) (consumer : string) (id : uuid).

Definition action_of (q : request) : string :=
  match q with
  | Pause true => "relay.pause" | Pause false => "relay.resume"
  | Retry _ => "event.retry" | Replay _ => "event.replay" | ReplayMany _ => "replay.batch"
  | RetryInbox _ _ _ => "inbox.retry"
  end.

Definition forget {A} (x : db * list (string * string) * res A)
  : db * list (string * string) * res unit :=
  (x.1, match x.2 with Ok _ => Ok tt | Err e => Err e end).

Definition serve trace us newV7 (d : db) (now : time) (q : request) (m : Mutation)
  : db * list (string * string) * res unit :=
  match q with
  | Pause paused => forget (SetPaused trace newV7 d now paused m)
  | Retry id => RetryDead trace us newV7 d now id m
  | Replay id => forget (ReplayEvent trace us newV7 d now id m)
  | ReplayMany f => forget (ReplayBatch trace us newV7 d now f m)
  | RetryInbox auditID consumer id =>
      let '(d', r) := RetryDeadInbox trace us d now auditID consumer id m in (d', [], r)
  end.

(** The audit row [a] records the request [q] of the normalized mutation. *)
Definition records (q : request) (now : time) (m : Mutation) (a : audit_row) : Prop :=
  au_action a = action_of q /\ au_actor a = TrimSpace (mu_Actor m) /\ au_actor a <> ""%string /\
  deref (au_reason a) = TrimSpace (mu_Reason m) /\
  deref (au_request_id a) = TrimSpace (mu_RequestID m) /\ au_created_at a = now /\
  match q with
  | Pause _ => True
  | Retry id => au_target_event_id a = Some id
  | Replay id => au_target_event_id a = Some id /\ au_reason a <> None /\ au_replay_batch_id a <> None
  | ReplayMany _ => au_reason a <> None /\ au_replay_batch_id a <> None
  | RetryInbox _ _ id => au_target_event_id a = Some id /\ au_reason a <> None
  end.

Lemma deref_nullString s : deref (Writer.nullString s) = s.
Proof.
  unfold Writer.nullString. destruct (Writer.is_empty s) eqn:E; [|done].
  by apply Writer.is_empty_true in E as ->.
Qed.

Lemma nullString_nonempty s : s <> ""%string -> Writer.nullString s <> None.
Proof. intros H. unfold Writer.nullString. by rewrite (proj2 (Writer.is_empty_false s)). Qed.

Lemma new_audit_records (q : request) id now b m m' target batch details :
  normal_mutation b m m' ->
  (match q with
   | Pause _ => True
   | Retry i => target = Some i
   | Replay i => target = Some i /\ b = true /\ batch <> None
   | ReplayMany _ => b = true /\ batch <> None
   | RetryInbox _ _ _ => False
   end) ->
  records q now m (AdminStore.new_audit id now (action_of q) m' target batch details).
Proof.
  intros [[Ha Hne] Hr Hrq Hq _ _ _] Hx. unfold records. cbn.
  rewrite !deref_nullString. split_and!; try done.
  destruct q; try done; destruct_and?; split_and!; try done; by apply nullString_nonempty, Hrq.
Qed.

(** Frames of the four outbox mutations. *)
Lemma db_inv_audit d l : db_inv d -> db_inv (with_audit d l).
Proof.
  intros [Ho Hp Hi]. split; [by apply (outbox_inv_frame d)|by apply (partition_inv_frame d)
    |by apply (inbox_inv_frame d)].
Qed.
Lemma db_inv_control d c : db_inv d -> db_inv (with_control d c).
Proof.
  intros [Ho Hp Hi]. split; [by apply (outbox_inv_frame d)|by apply (partition_inv_frame d)
    |by apply (inbox_inv_frame d)].
Qed.

Lemma retried_inv d id r now :
  db_inv d -> db_outbox d !! id = Some r -> er_status r = Dead ->
  db_inv (with_outbox d (<[id := AdminStore.retried_row now r]> (db_outbox d))).
Proof.
  intros Hinv Hr Hs. apply (db_inv_outbox d); [apply same_but_outbox_with|done|].
  apply (outbox_inv_replace _ _ r); [apply Hinv|done|done| |].
  - pose proof (inv_row _ (inv_outbox _ Hinv) _ _ Hr) as Hok.
    apply event_row_ok_spec in Hok as (? & ? & _ & _). by apply event_row_ok_spec.
  - intros dest key n s _ _ Hc. by rewrite Hs in Hc.
Qed.

(** The inbox retry of the administrative store. *)
Lemma RetryDeadInbox_spec uuid_String d now auditID consumer id m d' r :
  InboxAdmin.RetryDeadInbox uuid_String d now auditID consumer id m = (d', r) ->
  match r with
  | Err _ => d' = d
  | Ok _ => exists row, db_inbox d !! (TrimSpace consumer, id) = Some row /\ ir_status row = IDead /\
      d' = with_audit (with_inbox d (<[(TrimSpace consumer, id) :=
             Inbox.released_row IRetryWait now now None (ir_last_error row) row]> (db_inbox d)))
             (db_audit d ++ [Inbox.retry_audit now auditID (Inbox.trimmed_request
                {| Inbox.rq_Consumer := consumer; Inbox.rq_EventID := id;
                   Inbox.rq_Actor := mu_Actor m; Inbox.rq_Reason := mu_Reason m;
                   Inbox.rq_RequestID := mu_RequestID m |})])
  end.
Proof.
  unfold InboxAdmin.RetryDeadInbox, Inbox.RetryDead. intros H. cbn in H.
  destruct (_ || _ || _ || _); [by simplify_eq|].
  destruct (_ || _ || _); [by simplify_eq|]. destruct (negb _); [by simplify_eq|].
  destruct (db_inbox d !! _) as [row|] eqn:Er; [|by simplify_eq].
  destruct (negb _) eqn:Es; [by simplify_eq|]. unfold Inbox.update_inbox in H. rewrite Er in H.
  apply negb_false_iff in Es. rewrite Es in H. apply bool_decide_eq_true in Es.
  destruct (insert_audit_row _ _) as [d1|e] eqn:Ea.
  - simplify_eq. apply AdminStore.insert_audit_row_ok in Ea as (-> & _ & _). eauto.
  - destruct e; by simplify_eq.
Qed.

Lemma RetryDeadInbox_inv uuid_String d now auditID consumer id m :
  db_inv d -> db_inv (InboxAdmin.RetryDeadInbox uuid_String d now auditID consumer id m).1.
Proof.
  intros Hinv. destruct (InboxAdmin.RetryDeadInbox uuid_String d now auditID consumer id m) as [d' r] eqn:E.
  assert (d' = (Inbox.RetryDead d now auditID {| Inbox.rq_Consumer := consumer;
      Inbox.rq_EventID := id; Inbox.rq_Actor := mu_Actor m; Inbox.rq_Reason := mu_Reason m;
      Inbox.rq_RequestID := mu_RequestID m |}).1) as Hd.
  { unfold InboxAdmin.RetryDeadInbox in E.
    destruct (Inbox.RetryDead _ _ _ _) as [d1 [u|e]]; [|destruct e]; by simplify_eq. }
  apply RetryDeadInbox_spec in E. cbn [fst]. destruct r as [u|e]; [|by subst d'].
  destruct E as (row & _ & _ & Hd'). split.
  - rewrite Hd'. apply (outbox_inv_frame d); [done..|apply Hinv].
  - rewrite Hd'. apply (partition_inv_frame d); [done..|apply Hinv].
  - rewrite Hd. apply InboxSystem.quiet_revive, Hinv.
Qed.

(** Rows a replay leaves: the old ones, and unordered pending clones. *)
Lemma add_clones_rows batchID m now (pairs : list (uuid * AdminStore.replaySource)) t id row :
  NoDup pairs.*1 -> (forall i, i ∈ pairs.*1 -> t !! i = None) ->
  AdminStore.add_clones batchID m now pairs t !! id = Some row ->
  t !! id = Some row \/ exists src, (id, src) ∈ pairs /\
    row = AdminStore.replay_row src id batchID m now.
Proof.
  intros Hnd Hf Hrow. destruct (decide (id ∈ pairs.*1)) as [Hin|Hin].
  - apply list_elem_of_fmap in Hin as ([i src] & -> & Hin). right. exists src. split; [done|].
    rewrite (AdminStore.add_clones_in _ _ _ _ _ _ src) in Hrow by done. by simplify_eq.
  - left. by rewrite AdminStore.add_clones_notin in Hrow.
Qed.

Lemma add_clones_old batchID m now (pairs : list (uuid * AdminStore.replaySource)) t id row :
  (forall i, i ∈ pairs.*1 -> t !! i = None) -> t !! id = Some row ->
  AdminStore.add_clones batchID m now pairs t !! id = Some row.
Proof.
  intros Hf Hrow. rewrite AdminStore.add_clones_notin; [done|].
  intros Hin. by rewrite (Hf id Hin) in Hrow.
Qed.

Lemma zip_ids (ids : list uuid) (l : list AdminStore.replaySource) : length ids = length l -> (zip ids l).*1 = ids.
Proof. intros H. apply fst_zip. lia. Qed.

(** A successful mutation: what it may have changed. *)
Definition audited_change (q : request) (now : time) (m : Mutation) (d d' : db) : Prop :=
  db_inv d' /\ (exists a, db_audit d' = db_audit d ++ [a] /\ records q now m a) /\
  (forall id row, db_outbox d !! id = Some row ->
     db_outbox d' !! id = Some row \/
     q = Retry id /\ er_status row = Dead /\
     db_outbox d' !! id = Some (AdminStore.retried_row now row)) /\
  (forall id row, db_outbox d !! id = None -> db_outbox d' !! id = Some row ->
     er_status row = Pending /\ ed_ordering_key (er_data row) = None /\
     ed_replayed_from_event_id (er_data row) <> None) /\
  db_streams d' = db_streams d /\ db_partitions d' = db_partitions d /\ db_relays d' = db_relays d.

Lemma replay_change q now m m' d (pairs : list (uuid * AdminStore.replaySource)) batchID a :
  db_inv (with_audit (with_outbox d (AdminStore.add_clones batchID m' now pairs (db_outbox d)))
            (db_audit d ++ [a])) ->
  records q now m a -> NoDup pairs.*1 -> (forall i, i ∈ pairs.*1 -> db_outbox d !! i = None) ->
  audited_change q now m d
    (with_audit (with_outbox d (AdminStore.add_clones batchID m' now pairs (db_outbox d)))
       (db_audit d ++ [a])).
Proof.
  intros Hinv Ha Hnd Hf. split_and!; try done; [by exists a|..]; cbn.
  - intros id row Hrow. left. by apply add_clones_old.
  - intros id row Hn Hrow. apply add_clones_rows in Hrow as [Hr|(src & _ & ->)]; [|done..].
    by rewrite Hr in Hn.
Qed.

Section audit.
Context (trace : string * string) (us : uuid -> string) (newV7 : nat -> option uuid).

Lemma SetPaused_change d now paused m d' ns st :
  db_inv d -> SetPaused trace newV7 d now paused m = (d', ns, Ok st) ->
  audited_change (Pause paused) now m d d'.
Proof.
  intros Hinv H. apply mutate_ok in H as (m' & Hm & H).
  apply normalizeMutation_normal in Hm.
  apply AdminStore.SetPaused_ok in H as (c & id & _ & _ & _ & _ & _ & _ & _ & -> & _).
  split_and!; try done.
  - by apply db_inv_audit, db_inv_control.
  - eexists. split; [done|].
    replace (if paused then "relay.pause" else "relay.resume")%string with (action_of (Pause paused))
      by by destruct paused.
    by eapply new_audit_records.
  - intros id' row Hr. by left.
  - intros id' row Hn Hr. cbn in Hr. congruence.
Qed.

Lemma RetryDead_change d now id m d' ns u :
  db_inv d -> RetryDead trace us newV7 d now id m = (d', ns, Ok u) ->
  audited_change (Retry id) now m d d'.
Proof.
  intros Hinv H. apply mutate_ok in H as (m' & Hm & H).
  apply checked_id_ok in Hm as [_ Hm]. apply normalizeMutation_normal in Hm.
  apply AdminStore.RetryDeadAudited_ok in H as (r & aid & Hr & Hs & _ & -> & _).
  split_and!; try done.
  - by apply db_inv_audit, retried_inv.
  - eexists. split; [done|].
    by apply (new_audit_records (Retry id) _ _ false m m').
  - intros i row Hrow. cbn. destruct (decide (i = id)) as [->|Hne].
    + right. rewrite lookup_insert_eq. naive_solver.
    + left. by rewrite lookup_insert_ne.
  - intros i row Hn Hrow. cbn in Hrow. rewrite lookup_insert_ne in Hrow by naive_solver. congruence.
Qed.

Lemma ReplayEvent_change d now id m d' ns result :
  db_inv d -> ReplayEvent trace us newV7 d now id m = (d', ns, Ok result) ->
  audited_change (Replay id) now m d d'.
Proof.
  intros Hinv H. apply mutate_ok in H as (m' & Hm & H).
  apply checked_id_ok in Hm as [_ Hm]. apply normalizeMutation_normal in Hm.
  apply AdminStore.ReplayEvent_ok in H
    as (r & aid & eventID & batchID & details & Hr & Hs & Hn & _ & _ & -> & _ & Hinv').
  apply replay_change.
  - by apply Hinv'.
  - by apply (new_audit_records (Replay id) _ _ true m m').
  - apply NoDup_singleton.
  - intros i Hi. apply list_elem_of_singleton in Hi as ->. done.
Qed.

Lemma ReplayBatch_change d now f m d' ns result :
  db_inv d -> ReplayBatch trace us newV7 d now f m = (d', ns, Ok result) ->
  audited_change (ReplayMany f) now m d d'.
Proof.
  intros Hinv H. unfold ReplayBatch in H. destruct (normalizeEventFilter f true) as [f'|] eqn:Ef; [|done].
  apply mutate_ok in H as (m' & Hm & H). apply normalizeMutation_normal in Hm.
  apply AdminStore.ReplayBatch_ok in H
    as (sources & aid & ids & batchID & details & _ & -> & _ & _ & Hlen & Hnd & Hf & _ & _ & -> & _ & Hinv').
  assert ((zip ids (AdminStore.scanReplaySource <$> AdminStore.select_events d f' (f_Limit f' + 1))).*1
          = ids) as Hz by (apply zip_ids; by rewrite length_fmap).
  apply replay_change.
  - by apply Hinv'.
  - by apply (new_audit_records (ReplayMany f) _ _ true m m').
  - by rewrite Hz.
  - by rewrite Hz.
Qed.

Lemma RetryInbox_change d now auditID consumer id m d' u :
  db_inv d -> RetryDeadInbox trace us d now auditID consumer id m = (d', Ok u) ->
  audited_change (RetryInbox auditID consumer id) now m d d'.
Proof.
  unfold RetryDeadInbox. intros Hinv H. destruct_match H; [done|].
  destruct (normalizeMutation trace m true) as [m'|] eqn:Hm; [|done].
  apply normalizeMutation_normal in Hm.
  pose proof (RetryDeadInbox_inv us d now auditID (TrimSpace consumer) id m' Hinv) as Hinv'.
  rewrite H in Hinv'. apply RetryDeadInbox_spec in H as (row & Hrow & Hs & ->).
  destruct Hm as [[Ha Hne] Hr Hrq Hq _ _ _].
  split_and!; try done.
  - eexists. split; [done|]. unfold records. cbn -[TrimSpace]. unfold Inbox.is_empty.
    rewrite Ha, Hr, Hq, !TrimSpace_idemp. rewrite Ha in Hne. split_and!; try done.
    destruct (bool_decide _) eqn:E; [|done]. by bool_to_prop.
  - intros i r0 Hi. by left.
  - intros i r0 Hn Hi. cbn in Hi. congruence.
Qed.

End audit.

(** ** Selections *)

Lemma elem_of_matching d f r :
  r ∈ AdminStore.matching d f <->
  AdminStore.eventWhere f r = true /\ exists id, db_outbox d !! id = Some r.
Proof. unfold AdminStore.matching. by rewrite list_elem_of_filter, elem_of_outbox_rows. Qed.

(** A replay selects delivered and dead events only. *)
Lemma matching_replayable d f r :
  normal_filter true f -> r ∈ AdminStore.matching d f -> er_status r = Delivered \/ er_status r = Dead.
Proof.
  intros [[_ Hal] _ _ _ _ Hs] [Hw _]%elem_of_matching.
  destruct (Hs eq_refl) as [Hne _]. unfold AdminStore.eventWhere in Hw. bool_to_prop.
  match goal with H : _ || _ = true |- _ => rewrite bool_decide_false in H by done; cbn in H end.
  match goal with H : bool_decide _ = true |- _ => apply bool_decide_eq_true in H as Hin end.
  apply Hal in Hin. unfold allowed_status in Hin. bool_to_prop.
  destruct (er_status r); auto; done.
Qed.

Lemma select_all d f limit :
  Z.of_nat (length (AdminStore.select_events d f (limit + 1))) <= limit ->
  AdminStore.select_events d f (limit + 1) = order_by AdminStore.page_key AdminStore.newest_first
                                                (AdminStore.matching d f).
Proof.
  unfold AdminStore.select_events, order_by_limit. rewrite length_take. intros H.
  apply take_ge. lia.
Qed.

Lemma length_select d f limit :
  0 <= limit ->
  length (AdminStore.select_events d f (limit + 1))
  = Nat.min (S (Z.to_nat limit)) (length (AdminStore.matching d f)).
Proof. intros H. unfold AdminStore.select_events. rewrite length_order_by_limit. lia. Qed.

(** [c] is a replay of the event of [r]. *)
Definition clone_of (batchID : uuid) (now : time) (r c : event_row) : Prop :=
  ed_destination (er_data c) = ed_destination (er_data r) /\
  ed_event_type (er_data c) = ed_event_type (er_data r) /\
  ed_message_key (er_data c) = ed_message_key (er_data r) /\
  ed_payload (er_data c) = ed_payload (er_data r) /\
  ed_content_type (er_data c) = ed_content_type (er_data r) /\
  ed_schema_version (er_data c) = ed_schema_version (er_data r) /\
  (ed_ordering_key (er_data r) = None -> ed_headers (er_data c) = ed_headers (er_data r)) /\
  ed_replayed_from_event_id (er_data c) = Some (ed_id (er_data r)) /\
  ed_replay_batch_id (er_data c) = Some batchID /\ ed_created_at (er_data c) = now /\
  ed_ordering_key (er_data c) = None /\ er_status c = Pending /\ er_attempts c = 0.

Lemma replay_row_clone r id batchID m now :
  clone_of batchID now r (AdminStore.replay_row (AdminStore.scanReplaySource r) id batchID m now).
Proof.
  unfold clone_of. cbn. split_and!; try done. intros Hk. unfold AdminStore.replay_headers.
  cbn. by rewrite Hk.
Qed.

(** A selection that is empty, or too large, or holds an ordered event while the
    mode is not [unordered], is refused. *)
Lemma ReplayBatch_refused us newV7 f m d now :
  0 <= f_Limit f -> AdminStore.filter_text_ok f = true ->
  (AdminStore.matching d f = [] ->
     run_tx d now (AdminStore.ReplayBatch us newV7 f m (f_Limit f)) = (d, [], Err ErrAdminNotFound)) /\
  (f_Limit f < Z.of_nat (length (AdminStore.matching d f)) ->
     run_tx d now (AdminStore.ReplayBatch us newV7 f m (f_Limit f)) = 
       (d, [], Err (ErrAdminConflict ("replay selector exceeds " +:+ Itoa (f_Limit f) +:+ " events")))).
Proof.
  intros Hl Ht. pose proof (length_select d f (f_Limit f) Hl) as Hn.
  set (rows := AdminStore.select_events d f (f_Limit f + 1)) in *.
  unfold run_tx, AdminStore.ReplayBatch.
  rewrite (tx_bind_step _ _ _ (begin_tx d now) (AdminStore.scanReplaySource <$> rows)).
  2: { apply exec_sql_query; [done|]. unfold AdminStore.select_replay_sources. by rewrite Ht. }
  rewrite length_fmap. split; intros Hm.
  - rewrite Hm in Hn. cbn [length] in Hn. rewrite Nat.min_0_r in Hn. apply nil_length_inv in Hn.
    rewrite Hn. by rewrite bool_decide_true.
  - rewrite bool_decide_false.
    2: { intros He. apply fmap_nil_inv in He. rewrite He in Hn. cbn [length] in Hn. lia. }
    assert ((f_Limit f <? Z.of_nat (length rows)) = true) as -> by (apply Z.ltb_lt; lia). done.
Qed.

Lemma serve_audited trace us newV7 d now q m d' ns r :
  db_inv d -> serve trace us newV7 d now q m = (d', ns, r) ->
  match r with
  | Err _ => d' = d /\ ns = []
  | Ok _ => audited_change q now m d d'
  end.
Proof.
  intros Hinv H. destruct q as [paused|id|id|f|auditID consumer id]; cbn [serve] in H.
  - destruct (SetPaused _ _ _ _ _ _) as [[d1 ns1] [st|e]] eqn:E; unfold forget in H; cbn in H; simplify_eq.
    + by eapply SetPaused_change.
    + by eapply mutate_err.
  - destruct r; [by eapply RetryDead_change|by eapply mutate_err].
  - destruct (ReplayEvent _ _ _ _ _ _ _) as [[d1 ns1] [st|e]] eqn:E; unfold forget in H; cbn in H; simplify_eq.
    + by eapply ReplayEvent_change.
    + by eapply mutate_err.
  - destruct (ReplayBatch _ _ _ _ _ _ _) as [[d1 ns1] [st|e]] eqn:E; unfold forget in H; cbn in H; simplify_eq.
    + by eapply ReplayBatch_change.
    + unfold ReplayBatch in E. destruct (normalizeEventFilter f true); [by eapply mutate_err|].
      by simplify_eq.
  - destruct (RetryDeadInbox _ _ _ _ _ _ _ _) as [d1 [u|e]] eqn:E; simplify_eq.
    + by eapply RetryInbox_change.
    + split; [|done]. unfold RetryDeadInbox in E. destruct_match E; [by simplify_eq|].
      destruct (normalizeMutation trace m true); [|by simplify_eq].
      by apply RetryDeadInbox_spec in E.
Qed.

(** What no mutation touches. *)
Lemma serve_frame trace us newV7 d now q m :
  let d' := (serve trace us newV7 d now q m).1.1 in
  db_streams d' = db_streams d /\ db_partitions d' = db_partitions d /\ db_relays d' = db_relays d.
Proof.
  intros d'. subst d'. destruct q as [paused|id|id|f|auditID consumer id]; cbn [serve].
  - destruct (SetPaused _ _ _ _ _ _) as [[d1 ns1] [st|e]] eqn:E; cbn.
    + apply mutate_ok in E as (m' & _ & H).
      by apply AdminStore.SetPaused_ok in H as (c & i & _ & _ & _ & _ & _ & _ & _ & -> & _).
    + by apply mutate_err in E as [-> _].
  - destruct (RetryDead _ _ _ _ _ _ _) as [[d1 ns1] [st|e]] eqn:E; cbn.
    + apply mutate_ok in E as (m' & _ & H).
      by apply AdminStore.RetryDeadAudited_ok in H as (r & aid & _ & _ & _ & -> & _).
    + by apply mutate_err in E as [-> _].
  - destruct (ReplayEvent _ _ _ _ _ _ _) as [[d1 ns1] [st|e]] eqn:E; cbn.
    + apply mutate_ok in E as (m' & _ & H). apply AdminStore.ReplayEvent_ok in H
        as (r & aid & eventID & batchID & details & _ & _ & _ & _ & _ & -> & _). done.
    + by apply mutate_err in E as [-> _].
  - destruct (ReplayBatch _ _ _ _ _ _ _) as [[d1 ns1] [st|e]] eqn:E; cbn; unfold ReplayBatch in E;
      (destruct (normalizeEventFilter f true) as [f'|]; [|by simplify_eq]).
    + apply mutate_ok in E as (m' & _ & H). apply AdminStore.ReplayBatch_ok in H
        as (sources & aid & ids & batchID & details & _ & _ & _ & _ & _ & _ & _ & _ & _ & -> & _). done.
    + by apply mutate_err in E as [-> _].
  - destruct (RetryDeadInbox trace us d now auditID consumer id m) as [d1 r] eqn:E. cbn.
    unfold RetryDeadInbox in E. destruct_match E; [by simplify_eq|].
    destruct (normalizeMutation trace m true); [|by simplify_eq].
    apply RetryDeadInbox_spec in E. destruct r; [|by subst d1]. by destruct E as (row & _ & _ & ->).
Qed.

(** * Properties *)

(** C26: Every administrative mutation is atomic with its audit row. A request
    (pause or resume, retry of a dead event, replay of one event or of a
    selection, retry of a dead inbox message) that fails changes nothing and
    notifies nobody. One that succeeds appends exactly one audit row with its
    action, the trimmed non-empty actor, the reason and the request id, keeps
    the invariant of the whole database, rewrites no event but a retried dead
    one, adds only pending unordered clones, and leaves streams, partitions and
    relays alone. *)
Theorem admin_mutation_audited trace us newV7 d now q m d' ns r :
  db_inv d -> serve trace us newV7 d now q m = (d', ns, r) ->
  match r with
  | Err _ => d' = d /\ ns = []
  | Ok _ => audited_change q now m d d'
  end.
Proof. apply serve_audited. Qed.

(** Pausing. After a successful pause no relay claims anything, ordered or
    not, until a resume; after a resume claims go on. The control state the
    operator reads is the one written, with the trimmed actor and reason, and no
    event is touched. *)
Theorem pause_spec trace newV7 d now paused m d' ns st :
  SetPaused trace newV7 d now paused m = (d', ns, Ok st) ->
  not_paused d' = negb paused /\ RelayPaused d' = Ok paused /\
  ControlState_ d' = Ok st /\ Paused st = paused /\ UpdatedBy st = TrimSpace (mu_Actor m) /\
  Reason st = TrimSpace (mu_Reason m) /\ db_outbox d' = db_outbox d /\
  ns = [(controlChannel, action_of (Pause paused))] /\
  (paused = true -> forall locked now' owner limit lease minimum,
     Claim d' locked now' owner limit lease = (d', []) /\
     ClaimOrdered d' locked now' owner limit lease minimum = (d', [])).
Proof.
  intros H. apply mutate_ok in H as (m' & Hm & H). apply normalizeMutation_normal in Hm as [[Ha _] Hr].
  apply AdminStore.SetPaused_ok in H as (c & id & _ & _ & Hp & Hb & Hre & _ & -> & -> & ->).
  assert (not_paused (with_audit (with_control d (Some c)) (db_audit d ++
    [AdminStore.new_audit id now (if paused then "relay.pause" else "relay.resume")%string m' None
       None {[ "paused"%string := JBool paused ]}])) = negb paused) as Hnp.
  { unfold not_paused. cbn. by rewrite Hp. }
  split_and!; try done; cbn; try congruence.
  intros Ht locked now' owner limit lease minimum. unfold Claim, ClaimOrdered.
  rewrite Hnp, Ht. cbn [negb app]. cbv zeta. rewrite sort_limit_nil.
  split; by destruct (limit <=? 0).
Qed.

(** C27: Replaying a selection. With the request accepted, an empty selection is
    refused as not found and one above the limit as a conflict. A successful
    replay has copied every selected event exactly once, all of them delivered
    or dead: the clones carry the source's content under fresh identifiers and
    one batch, are pending and unordered, and every event that was there before
    is unchanged. *)
Theorem replay_batch_spec trace us newV7 d now f m f' d' ns r :
  db_inv d -> normalizeEventFilter f true = Ok f' -> AdminStore.filter_text_ok f' = true ->
  is_ok (normalizeMutation trace m true) = true ->
  ReplayBatch trace us newV7 d now f m = (d', ns, r) ->
  let rows := AdminStore.matching d f' in
  (rows = [] -> r = Err ErrAdminNotFound) /\
  (f_Limit f' < Z.of_nat (length rows) -> 
     r = Err (ErrAdminConflict ("replay selector exceeds " +:+ Itoa (f_Limit f') +:+ " events"))) /\
  (forall row, row ∈ rows -> er_status row = Delivered \/ er_status row = Dead) /\
  match r with
  | Err _ => d' = d /\ ns = []
  | Ok result =>
      rp_Created result = Z.of_nat (length rows) /\
      (forall id row, db_outbox d !! id = Some row -> db_outbox d' !! id = Some row) /\
      exists pairs : list (uuid * event_row),
        pairs.*1 = rp_EventIDs result /\ NoDup pairs.*1 /\ pairs.*2 ≡ₚ rows /\
        forall id, match db_outbox d !! id, db_outbox d' !! id with
                   | None, Some c => exists row, (id, row) ∈ pairs /\
                                       clone_of (rp_ReplayBatchID result) now row c
                   | _, _ => id ∉ pairs.*1
                   end
  end.
Proof.
  intros Hinv Hf Ht Hm H rows.
  pose proof (normalizeEventFilter_normal _ _ _ Hf) as [Hnf _].
  pose proof (nf_limit _ _ Hnf) as Hl. unfold ReplayBatch in H. rewrite Hf in H.
  destruct (normalizeMutation trace m true) as [m'|] eqn:Em; [|done]. cbn [mutate] in H.
  destruct (ReplayBatch_refused us newV7 f' m' d now) as [Hr1 Hr2]; [lia|done|].
  split_and!.
  - intros Hr. rewrite Hr1 in H by done. by simplify_eq.
  - intros Hr. rewrite Hr2 in H by done. by simplify_eq.
  - intros row Hrow. by eapply matching_replayable.
  - destruct r as [result|e]; [|by eapply run_tx_err].
    apply AdminStore.ReplayBatch_ok in H
      as (sources & aid & ids & batchID & details & _ & Hs & _ & Hlim & Hlen & Hnd & Hfresh & _ & -> & -> & _).
    subst sources. rewrite (select_all d f' _ Hlim) in Hlen |- *.
    set (sorted := order_by _ _ _) in *. assert (sorted ≡ₚ rows) as Hp by apply order_by_Permutation.
    cbn [rp_Created rp_EventIDs rp_ReplayBatchID with_audit with_outbox db_outbox].
    assert ((zip ids (AdminStore.scanReplaySource <$> sorted)).*1 = ids) as Hz
      by (apply zip_ids; by rewrite length_fmap).
    split_and!.
    + by rewrite Hlen, Hp.
    + intros id row Hrow. apply add_clones_old; [by rewrite Hz|done].
    + exists (zip ids sorted). rewrite fst_zip, snd_zip by lia. split_and!; try done.
      intros id. destruct (decide (id ∈ ids)) as [Hin|Hin].
      * rewrite (Hfresh id Hin). apply list_elem_of_lookup in Hin as [i Hi].
        destruct (lookup_lt_is_Some_2 sorted i) as [row Hrow].
        { apply lookup_lt_Some in Hi. lia. }
        rewrite (AdminStore.add_clones_in _ _ _ _ _ _ (AdminStore.scanReplaySource row)).
        -- exists row. split; [|apply replay_row_clone]. apply list_elem_of_lookup. exists i.
           by rewrite lookup_zip_with, Hi, Hrow.
        -- by rewrite Hz.
        -- apply list_elem_of_lookup. exists i.
           by rewrite lookup_zip_with, Hi, list_lookup_fmap, Hrow.
      * rewrite AdminStore.add_clones_notin by by rewrite Hz. by destruct (db_outbox d !! id).
Qed.

End Service.
