(* ===== verification/System.v ===== *)
(** * Ordered delivery of the whole system

    An interleaving model: relays claim, attempt, publish and acknowledge,
    partitions are reconciled and released, producers enqueue, operators revive
    dead events and the retention cleanup runs, in any order. A publication is
    in flight from its database fence until it lands in the broker's log or is
    lost. The theorem is the contract of ordered delivery: in the log of every
    stream each record repeats its predecessor or is the next one. *)
From Stdlib Require Import ZArith String.
From stdpp Require Import base gmap strings list sorting fin_maps sets relations.
From S2P Require Import Prelude GoStrings Ordering Schema Invariant Samples OutboxStore.
From S2P Require Import OrderedStore PartitionStore Presence Tx Outbox RelayConfig Relay PgStore.
From S2P Require Import AdminTypes AdminService.

Open Scope Z_scope.

(** ** Steps of the database that involve no partition lease *)

Inductive db_step : db -> db -> Prop :=
| d_enqueue d now uuid_Parse uuid_String trace w idFn e :
    db_step d (commit_tx d (Writer.Enqueue uuid_Parse uuid_String trace w idFn e (begin_tx d now)).1)
| d_claim d locked now owner limit lease :
    db_step d (Claim d locked now owner limit lease).1
| d_claim_ordered d locked now owner limit lease minimum :
    db_step d (ClaimOrdered d locked now owner limit lease minimum).1
| d_begin d now id owner m : db_step d (BeginAttempt d now id owner m).1
| d_begin_ordered d now id owner epoch m minimum : (* the reply is lost: nothing is published *)
    db_step d (BeginOrderedAttempt d now id owner epoch m minimum).1
| d_delivered d now cfg ev : st_matches d ev -> unordered ev = true ->
    db_step d (markDelivered d now cfg ev).1
| d_retry d now cfg ev delay msg : db_step d (markRetry d now cfg ev delay msg).1
| d_dead d now cfg ev msg : db_step d (markDeadCall d now cfg ev msg).1
| d_retry_dead d now id : db_step d (RetryDead d now id).1
| d_cleanup d locked now retention limit :
    db_step d (CleanupDelivered d locked now retention limit).1
| d_register d now presence d' : RegisterRelay d now presence = Ok d' -> db_step d d'
| d_heartbeat d now o d' : HeartbeatRelay d now o = Ok d' -> db_step d d'
| d_stopped d now o d' : MarkRelayStopped d now o = Ok d' -> db_step d d'
| d_admin d now trace us newV7 q m : (* pause, resume, retry, replay *)
    db_step d (Service.serve trace us newV7 d now q m).1.1.

(** ** The system *)

(** A publication that passed the attempt fence. *)
Record publication : Type := Publication {
  pb_owner : string;
  pb_stream : string * string;
  pb_sequence : Z;
  pb_deadline : time;
}.

Record sys : Type := MkSys {
  sy_clock : time;
  sy_db : db;
  sy_flight : list publication;           (* in the order of their fences *)
  sy_log : list ((string * string) * Z);  (* landed records, oldest first *)
}.

Definition same_lane (p q : publication) : bool :=
  bool_decide (pb_owner p = pb_owner q) && bool_decide (pb_stream p = pb_stream q).

Section system.
(** The configuration of every relay, and the longest time between a
    transaction's [NOW()] and its commit. *)
Context (conf : string -> Config) (lag : duration).

(** A publication fenced at [now] has landed, if ever, this long after. The
    relay cancels the publish after [PublishTimeout]; the safety margin, less
    the commit lag and the microsecond PostgreSQL rounds away, is what the
    client and the network may add. *)
Definition publish_window (o : string) : duration :=
  PublishTimeout (conf o) + OrderingSafetyMargin (conf o) - lag - 1000.

Inductive sys_step : sys -> sys -> Prop :=
| s_tick s t : sy_clock s <= t ->
    sys_step s (MkSys t (sy_db s) (sy_flight s) (sy_log s))
| s_db s d' : db_step (sy_db s) d' ->
    sys_step s (MkSys (sy_clock s) d' (sy_flight s) (sy_log s))
| s_fence s o ev n d' : (* the last database fence, then the publish starts *)
    OrderingKey ev <> ""%string -> st_matches (sy_db s) ev ->
    BeginOrderedAttempt (sy_db s) (sy_clock s) (ID ev) o (OrderingEpoch ev) (MaxAttempts (conf o))
      (minimum_lease (conf o)) = (d', Ok n) ->
    sys_step s (MkSys (sy_clock s) d'
      (sy_flight s ++ [{| pb_owner := o; pb_stream := (Destination ev, OrderingKey ev);
                          pb_sequence := OrderingSequence ev;
                          pb_deadline := sy_clock s + publish_window o |}]) (sy_log s))
| s_land s before p after : (* one client keeps the order of its own records *)
    sy_flight s = before ++ p :: after -> sy_clock s < pb_deadline p ->
    sys_step s (MkSys (sy_clock s) (sy_db s)
      (filter (fun q => same_lane q p = false) before ++ after)
      (sy_log s ++ [(pb_stream p, pb_sequence p)]))
| s_lose s before p after : sy_flight s = before ++ p :: after ->
    sys_step s (MkSys (sy_clock s) (sy_db s) (before ++ after) (sy_log s))
| s_ack s now o ev d' : (* only after the broker acknowledged the record *)
    ((Destination ev, OrderingKey ev), OrderingSequence ev) ∈ sy_log s ->
    st_matches (sy_db s) ev ->
    MarkOrderedDelivered (sy_db s) now ev o = (d', Ok tt) ->
    sys_step s (MkSys (sy_clock s) d' (sy_flight s) (sy_log s))
| s_reconcile s now o d' views :
    sy_clock s - lag <= now <= sy_clock s -> pg_time now = now -> btrim_nonempty o = true ->
    ReconcileOrderingPartitions (sy_db s) now o (OrderingLeaseDuration (conf o))
      (PublishTimeout (conf o)) (PresenceStaleAfter (conf o)) (OrderingSafetyMargin (conf o))
      = (d', Ok views) ->
    sys_step s (MkSys (sy_clock s) d' (sy_flight s) (sy_log s))
| s_release s now o d' :
    sy_clock s - lag <= now <= sy_clock s -> pg_time now = now ->
    ReleaseOrderingPartitions (sy_db s) now o (OrderingSafetyMargin (conf o)) = (d', Ok tt) ->
    sys_step s (MkSys (sy_clock s) d' (sy_flight s) (sy_log s)).

Definition sys_init (now : time) : sys := MkSys now (migrated now) [] [].

(** The landed sequence numbers of one stream, in order. *)
Definition stream_log (st : string * string) (log : list ((string * string) * Z)) : list Z :=
  (filter (fun e => e.1 = st) log).*2.

(** "1,2,2,3" but neither "1,3,2" nor "1,2,1": the first record is [start] and
    every later one repeats its predecessor or is the next. *)
Definition contiguous (start : Z) (l : list Z) : Prop :=
  (forall x, l !! 0%nat = Some x -> x = start) /\
  forall i x y, l !! i = Some x -> l !! S i = Some y -> y = x \/ y = x + 1.

End system.

(** * Lemmas *)

(** Existing streams are untouched and a new stream is at its start. *)
Definition streams_ext (d d' : db) : Prop :=
  (forall k s, db_streams d !! k = Some s -> db_streams d' !! k = Some s) /\
  (forall k s, db_streams d' !! k = Some s ->
     db_streams d !! k = Some s \/ (db_streams d !! k = None /\ sr_next_sequence s = sr_start_sequence s)).

Lemma streams_ext_same d d' : db_streams d' = db_streams d -> streams_ext d d'.
Proof. intros H. split; rewrite H; auto. Qed.
Lemma streams_ext_refl d : streams_ext d d.
Proof. by apply streams_ext_same. Qed.
#[local] Hint Resolve streams_ext_same streams_ext_refl : emitlane.

(** What a database step leaves alone. *)
Definition lease_frame (d d' : db) : Prop :=
  db_partitions d' = db_partitions d /\ streams_ext d d' /\
  (partition_inv d -> partition_inv d') /\ (db_inv d -> inbox_inv d').

Lemma lease_frame_outbox d d' : same_but_outbox d d' -> lease_frame d d'.
Proof.
  intros (Hs & Hp & Hr & _ & Hi & _). split_and!; [done|by apply streams_ext_same| |].
  - by apply partition_inv_frame.
  - intros H. by apply (inbox_inv_frame d), H.
Qed.

Lemma lease_frame_refl d : lease_frame d d.
Proof. split_and!; auto using streams_ext_refl. by intros []. Qed.

Lemma lease_frame_update d now id cond upd d' o :
  update_event d now id cond upd = (d', o) -> lease_frame d d'.
Proof. intros H. by eapply lease_frame_outbox, update_event_same. Qed.

Lemma lease_frame_require (u : db * option event_row) d :
  lease_frame d u.1 -> lease_frame d (require_row u).1.
Proof. by destruct u as [? [?|]]. Qed.
Lemma lease_frame_fence (u : db * option event_row) d :
  lease_frame d u.1 -> lease_frame d (require_fence u).1.
Proof. by destruct u as [? [?|]]. Qed.

Ltac frame_update :=
  first [apply lease_frame_require|apply lease_frame_fence];
  match goal with |- lease_frame _ (update_event ?d ?n ?i ?c ?u).1 =>
    let E := fresh "E" in destruct (update_event d n i c u) eqn:E; by eapply lease_frame_update end.

Lemma lease_frame_enqueue up us tr w idFn e d now :
  lease_frame d (commit_tx d (Writer.Enqueue up us tr w idFn e (begin_tx d now)).1).
Proof.
  unfold commit_tx. case_match; [apply lease_frame_refl|].
  refine (Writer.Enqueue_tx_safe up us tr (lease_frame d) w idFn e _ _ (begin_tx d now)
    (lease_frame_refl d)).
  - intros dest key p start d0 now0 d1 u (H1 & [H2 H3] & H4 & H5) Hi. unfold Writer.insert_stream in Hi.
    repeat (destruct_match Hi; [done|]). destruct (db_streams d0 !! (dest, key)) eqn:Es; simplify_eq;
      [by split_and!|]. split_and!; [done| | |].
    + split; cbn [with_streams db_streams].
      * intros k s Hk. rewrite lookup_insert_ne; [by apply H2|]. intros <-.
        rewrite (H2 _ _ Hk) in Es. done.
      * intros k s. rewrite lookup_insert. case_decide as E; [|by apply H3].
        subst k. intros [= <-]. right. split; [|done].
        destruct (db_streams d !! (dest, key)) eqn:Ed; [|done]. rewrite (H2 _ _ Ed) in Es. done.
    + intros Hp. eapply (partition_inv_frame d0); [done..|by apply H4].
    + intros Hp. by apply (inbox_inv_frame d0), H5.
  - intros d0 r d1 (H1 & H2 & H4 & H5) Hi. apply insert_event_ok in Hi as (_ & _ & _ & _ & _ & ->).
    split_and!; [done|done| |]; intros Hp.
    + eapply (partition_inv_frame d0); [done..|by apply H4].
    + by apply (inbox_inv_frame d0), H5.
Qed.

Lemma lease_frame_relays d o r :
  btrim_nonempty o = true -> lease_frame d (with_relays d (<[o := r]> (db_relays d))).
Proof.
  intros Ho. split_and!; [done|by apply streams_ext_same| |]; intros H.
  - by apply relay_row_inv_insert.
  - by apply (inbox_inv_frame d), H.
Qed.

Lemma serve_db_inv trace us newV7 d now q m :
  db_inv d -> db_inv (Service.serve trace us newV7 d now q m).1.1.
Proof.
  intros Hinv. destruct (Service.serve trace us newV7 d now q m) as [[d' ns] r] eqn:E.
  pose proof (Service.serve_audited _ _ _ _ _ _ _ _ _ _ Hinv E) as H. cbn [fst].
  destruct r; [apply H|]. by destruct H as [-> _].
Qed.

Lemma db_step_frame d d' : db_step d d' -> partition_inv d -> lease_frame d d'.
Proof.
  intros H Hp. destruct H.
  - apply lease_frame_enqueue.
  - rewrite Claim_picked. apply lease_frame_outbox, claim_rows_same.
  - rewrite ClaimOrdered_picked. apply lease_frame_outbox, claim_rows_same.
  - unfold BeginAttempt. case_match; [apply lease_frame_refl|].
    destruct (update_event _ _ _ _ _) as [d1 [r|]] eqn:E; by eapply lease_frame_update.
  - unfold BeginOrderedAttempt. case_match; [apply lease_frame_refl|].
    destruct (update_event _ _ _ _ _) as [d1 [r|]] eqn:E; by eapply lease_frame_update.
  - unfold markDelivered, MarkDelivered. rewrite H0. frame_update.
  - unfold markRetry, MarkRetry, MarkOrderedRetry. destruct (unordered ev); frame_update.
  - unfold markDeadCall, MarkDead, MarkOrderedDead. destruct (unordered ev); frame_update.
  - unfold RetryDead. frame_update.
  - unfold CleanupDelivered. case_match; [apply lease_frame_refl|].
    apply lease_frame_outbox, same_but_outbox_with.
  - unfold RegisterRelay in H. repeat (destruct_match H; [done|]). simplify_eq. bool_to_prop.
    by apply lease_frame_relays.
  - unfold HeartbeatRelay, touch_relay in H. case_match; simplify_eq.
    apply lease_frame_relays. by eapply inv_relay_id.
  - unfold MarkRelayStopped, touch_relay in H. case_match; simplify_eq.
    apply lease_frame_relays. by eapply inv_relay_id.
  - destruct (Service.serve_frame trace us newV7 d now q m) as (H1 & H2 & H3).
    split_and!; [done|by apply streams_ext_same|by apply partition_inv_frame|].
    intros H. by apply serve_db_inv.
Qed.

Lemma db_step_outbox d d' : db_step d d' -> db_inv d -> outbox_inv d'.
Proof.
  intros H Hdb. pose proof (inv_outbox _ Hdb) as Hinv. destruct H; eauto with emitlane.
  - unfold commit_tx. case_match; [done|].
    by apply (Writer.Enqueue_inv_lemma uuid_Parse uuid_String trace w idFn e (begin_tx d now)).
  - unfold RegisterRelay in H. repeat (destruct_match H; [done|]). simplify_eq.
    by apply (outbox_inv_frame d).
  - unfold HeartbeatRelay, touch_relay in H. case_match; simplify_eq. by apply (outbox_inv_frame d).
  - unfold MarkRelayStopped, touch_relay in H. case_match; simplify_eq. by apply (outbox_inv_frame d).
  - by apply serve_db_inv.
Qed.

(** ** Partition leases and live publications *)

Lemma pg_time_fix t : pg_time t = t <-> t mod 1000 = 0.
Proof. unfold pg_time. pose proof (Z.div_mod t 1000). lia. Qed.

Lemma pg_time_idemp t : pg_time (pg_time t) = pg_time t.
Proof. unfold pg_time. by rewrite Z.div_mul. Qed.

Section leases.
Context (conf : string -> Config) (lag : duration).
Context (Hlag : 0 <= lag) (Hconf : forall o, valid_config (conf o)).
Context (Hsum : forall o, intervalMS (PublishTimeout (conf o)) * Millisecond
                          + OrderingSafetyMargin (conf o) < 2 ^ 63).

(** The partition of a publication is still leased to its owner beyond the
    deadline, or nobody may use it before the deadline. *)
Definition covers (q : publication) (r : partition_row) : Prop :=
  (pr_lease_owner r = Some (pb_owner q) /\
   exists u, pr_lease_until r = Some u /\ pb_deadline q <= u) \/
  (exists h, pr_handoff_not_before r = Some h /\ pb_deadline q <= h).

Definition pb_partition (q : publication) : Z := Partition (pb_stream q).1 (pb_stream q).2.

(** The holder of a partition has stored its own publish timeout, and barriers
    have microsecond precision. *)
Record lease_inv (d : db) : Prop := {
  li_timeout : forall p r o, db_partitions d !! p = Some r -> pr_lease_owner r = Some o ->
    pr_publish_timeout_ms r = Some (intervalMS (PublishTimeout (conf o)));
  li_barrier : forall p r h, db_partitions d !! p = Some r ->
    pr_handoff_not_before r = Some h -> pg_time h = h;
}.

Lemma publish_ms_bounds o :
  PublishTimeout (conf o) <= intervalMS (PublishTimeout (conf o)) * Millisecond.
Proof. apply intervalMS_bounds. apply (vc_publish _ (Hconf o)). Qed.

Lemma config_sum o :
  PublishTimeout (conf o) + OrderingSafetyMargin (conf o) < OrderingLeaseDuration (conf o) /\
  minimum_lease (conf o) = PublishTimeout (conf o) + OrderingSafetyMargin (conf o).
Proof.
  pose proof (publish_ms_bounds o). pose proof (Hsum o). pose proof (vc_publish _ (Hconf o)).
  pose proof (vc_margin _ (Hconf o)). pose proof (vc_lease _ (Hconf o)) as Hl.
  unfold minimum_lease, int64_add in *. rewrite wrap64_small in * by lia. lia.
Qed.

(** A release or takeover barrier covers the publications of the holder. *)
Lemma release_covers clock now o r q :
  clock - lag <= now -> pr_publish_timeout_ms r = Some (intervalMS (PublishTimeout (conf o))) ->
  pb_deadline q <= clock + publish_window conf lag o ->
  pb_deadline q <= pg_time (releaseBarrier now (pr_handoff_not_before r) (pr_publish_timeout_ms r)
                              (OrderingSafetyMargin (conf o))).
Proof.
  intros Hn Hms Hd. rewrite Hms. unfold publish_window in Hd.
  pose proof (publish_ms_bounds o). pose proof (Hsum o). pose proof (vc_publish _ (Hconf o)).
  pose proof (vc_margin _ (Hconf o)).
  assert (0 < intervalMS (PublishTimeout (conf o))).
  { unfold Millisecond in *. lia. }
  pose proof (releaseBarrier_window now (pr_handoff_not_before r)
    (intervalMS (PublishTimeout (conf o))) (OrderingSafetyMargin (conf o))).
  pose proof (pg_time_bounds (releaseBarrier now (pr_handoff_not_before r)
    (Some (intervalMS (PublishTimeout (conf o)))) (OrderingSafetyMargin (conf o)))). lia.
Qed.

Lemma reconciled_covers clock now o members p r q :
  clock - lag <= now <= clock -> clock < pb_deadline q ->
  pb_deadline q <= clock + publish_window conf lag (pb_owner q) ->
  (forall o', pr_lease_owner r = Some o' ->
     pr_publish_timeout_ms r = Some (intervalMS (PublishTimeout (conf o')))) ->
  (forall h, pr_handoff_not_before r = Some h -> pg_time h = h) ->
  covers q r ->
  covers q (reconciled now o (now + OrderingLeaseDuration (conf o))
              (intervalMS (PublishTimeout (conf o))) (OrderingSafetyMargin (conf o)) members p r).
Proof.
  intros Hn Hlive Hdl Hms Hb [(Ho & u & Hu & Hdu)|(h & Hh & Hdh)].
  - assert (sql_gt (pr_lease_until r) now = true) as Hgt by (rewrite Hu; apply Z.ltb_lt; lia).
    unfold reconciled. rewrite Ho, Hgt.
    destruct (bool_decide (pb_owner q = o)) eqn:Eo.
    + apply bool_decide_eq_true in Eo. rewrite Eo in Hdl. destruct (negb _) eqn:Ed.
      * right. eexists. split; [reflexivity|].
        apply (release_covers clock); [lia|apply Hms; congruence|done].
      * left. split; [by cbn [renewed_partition pr_lease_owner]|]. eexists. split; [reflexivity|].
        pose proof (pg_time_bounds (now + OrderingLeaseDuration (conf o))).
        pose proof (config_sum o). unfold publish_window in Hdl. lia.
    + rewrite andb_false_r. left. eauto.
  - right. destruct (reconciled_barrier now o (now + OrderingLeaseDuration (conf o))
      (intervalMS (PublishTimeout (conf o))) (OrderingSafetyMargin (conf o)) members p r) as [H _].
    destruct (H h Hh) as (h' & Hh' & Hle). exists h'. split; [done|]. rewrite (Hb h Hh) in Hle. lia.
Qed.

Lemma release_row_covers clock now o r q :
  clock - lag <= now <= clock ->
  pb_deadline q <= clock + publish_window conf lag (pb_owner q) ->
  (forall o', pr_lease_owner r = Some o' ->
     pr_publish_timeout_ms r = Some (intervalMS (PublishTimeout (conf o')))) ->
  covers q r -> covers q (release_row now o (intervalMS (OrderingSafetyMargin (conf o))) r).
Proof.
  intros Hn Hdl Hms Hc. unfold release_row. destruct (sql_eq (pr_lease_owner r) o) eqn:E; [|done].
  apply sql_eq_true in E. right. eexists. split; [reflexivity|]. unfold greatest.
  destruct Hc as [(Ho & _)|(h & Hh & Hdh)].
  - rewrite E in Ho. injection Ho as Ho. rewrite <- Ho in Hdl. rewrite (Hms _ E). cbn [default from_option Datatypes.id].
    unfold publish_window in Hdl. pose proof (publish_ms_bounds o).
    pose proof (intervalMS_bounds (OrderingSafetyMargin (conf o)) (vc_margin _ (Hconf o))).
    case_match; lia.
  - rewrite Hh. lia.
Qed.

Lemma reconciled_lease_inv now o members p r :
  (forall o', pr_lease_owner r = Some o' ->
     pr_publish_timeout_ms r = Some (intervalMS (PublishTimeout (conf o')))) ->
  (forall h, pr_handoff_not_before r = Some h -> pg_time h = h) ->
  let r' := reconciled now o (now + OrderingLeaseDuration (conf o))
              (intervalMS (PublishTimeout (conf o))) (OrderingSafetyMargin (conf o)) members p r in
  (forall o', pr_lease_owner r' = Some o' ->
     pr_publish_timeout_ms r' = Some (intervalMS (PublishTimeout (conf o')))) /\
  (forall h, pr_handoff_not_before r' = Some h -> pg_time h = h).
Proof.
  intros Hms Hb. unfold reconciled.
  destruct (pr_lease_owner r) as [o0|] eqn:Eo; repeat case_match; bool_to_prop; simpl;
    rewrite ?Eo; split; intros x Hx; simplify_eq; rewrite ?pg_time_idemp; try done; auto.
  destruct (pr_handoff_not_before r); simplify_eq/=. by rewrite pg_time_idemp.
Qed.

(** ** The invariant of the system *)

Definition live (s : sys) (q : publication) : Prop :=
  q ∈ sy_flight s /\ sy_clock s < pb_deadline q.

Definition seq_le (q1 q2 : publication) : Prop :=
  pb_stream q1 = pb_stream q2 -> pb_sequence q1 <= pb_sequence q2.

Record sys_inv (s : sys) : Prop := {
  si_outbox : outbox_inv (sy_db s);
  si_partitions : partition_inv (sy_db s);
  si_lease : lease_inv (sy_db s);
  (** publications are at or behind the cursor, everything before them landed *)
  si_flight : forall q, q ∈ sy_flight s -> exists st,
    db_streams (sy_db s) !! pb_stream q = Some st /\
    sr_start_sequence st <= pb_sequence q <= sr_next_sequence st /\
    pb_deadline q <= sy_clock s + publish_window conf lag (pb_owner q) /\
    forall m, sr_start_sequence st <= m < pb_sequence q -> (pb_stream q, m) ∈ sy_log s;
  si_covered : forall q, live s q ->
    exists r, db_partitions (sy_db s) !! pb_partition q = Some r /\ covers q r;
  si_order : StronglySorted seq_le (sy_flight s);
  si_owner : forall q1 q2, live s q1 -> live s q2 -> pb_stream q1 = pb_stream q2 ->
    pb_owner q1 = pb_owner q2;
  si_log : forall k m, (k, m) ∈ sy_log s -> exists st, db_streams (sy_db s) !! k = Some st /\
    sr_start_sequence st <= m <= sr_next_sequence st;
  si_log_live : forall q m, live s q -> (pb_stream q, m) ∈ sy_log s -> m <= pb_sequence q;
  si_passed : forall k st m, db_streams (sy_db s) !! k = Some st ->
    sr_start_sequence st <= m < sr_next_sequence st -> (k, m) ∈ sy_log s;
  si_contiguous : forall k st, db_streams (sy_db s) !! k = Some st ->
    contiguous (sr_start_sequence st) (stream_log k (sy_log s));
  si_inbox : inbox_inv (sy_db s);
}.

Lemma sys_inv_database s : sys_inv s -> db_inv (sy_db s).
Proof. by intros []. Qed.

Lemma sys_init_inv now : sys_inv (sys_init now).
Proof.
  pose proof (migrated_inv now) as [Ho Hp Hi].
  split; try assumption;
    try (intros *; cbn [sys_init sy_flight sy_log]; intros H; by apply elem_of_nil in H);
    try (intros * [H _]; by apply elem_of_nil in H).
  - assert (forall p r, db_partitions (sy_db (sys_init now)) !! p = Some r -> r = seed_partition now)
      as Hseed by (intros p r Hr; exact (proj1 (lookup_seed now p r Hr))).
    split; intros p r x Hr Hx; rewrite (Hseed _ _ Hr) in Hx; discriminate Hx.
  - constructor.
  - intros k st m H. cbn [sys_init sy_db migrated db_streams] in H. by rewrite lookup_empty in H.
  - intros k st H. cbn [sys_init sy_db migrated db_streams] in H. by rewrite lookup_empty in H.
Qed.

(** Streams only grow. *)
Definition streams_grow (d d' : db) : Prop :=
  forall k st, db_streams d !! k = Some st -> exists st', db_streams d' !! k = Some st' /\
    sr_start_sequence st' = sr_start_sequence st /\ sr_next_sequence st <= sr_next_sequence st'.

Lemma streams_ext_grow d d' : streams_ext d d' -> streams_grow d d'.
Proof. intros [H _] k st Hk. exists st. split_and!; [by apply H|done|lia]. Qed.

Lemma elem_of_stream_log k log m : m ∈ stream_log k log <-> (k, m) ∈ log.
Proof.
  unfold stream_log. rewrite list_elem_of_fmap. split.
  - intros ([k' m'] & -> & [Hk Hin]%list_elem_of_filter). cbn in *. by subst.
  - intros H. exists (k, m). split; [done|]. by apply list_elem_of_filter.
Qed.

(** A step that changes only the database. *)
Lemma sys_inv_db s d' :
  sys_inv s -> db_inv d' -> lease_inv d' ->
  streams_grow (sy_db s) d' ->
  (forall q, live s q -> exists r, db_partitions d' !! pb_partition q = Some r /\ covers q r) ->
  (forall k st m, db_streams d' !! k = Some st ->
     sr_start_sequence st <= m < sr_next_sequence st -> (k, m) ∈ sy_log s) ->
  (forall k st, db_streams d' !! k = Some st -> db_streams (sy_db s) !! k = None \/
     exists st0, db_streams (sy_db s) !! k = Some st0 /\
                 sr_start_sequence st0 = sr_start_sequence st) ->
  sys_inv (MkSys (sy_clock s) d' (sy_flight s) (sy_log s)).
Proof.
  intros Hs [Ho Hp Hi] Hl Hg Hc Hpass Hold. destruct Hs.
  split; cbn [sy_db sy_flight sy_log sy_clock]; try done.
  - intros q Hq. destruct (si_flight0 q Hq) as (st & Hst & Hn & Hd & Hm).
    destruct (Hg _ _ Hst) as (st' & Hst' & Hs' & Hn'). exists st'.
    rewrite Hs'. split_and!; [done|lia|lia|done|done].
  - intros k m Hk. destruct (si_log0 k m Hk) as (st & Hst & Hn).
    destruct (Hg _ _ Hst) as (st' & Hst' & Hs' & Hn'). exists st'. split; [done|lia].
  - intros k st Hst. destruct (Hold k st Hst) as [Hnone|(st0 & Hst0 & <-)]; [|by apply si_contiguous0].
    assert (stream_log k (sy_log s) = []) as ->.
    { destruct (stream_log k (sy_log s)) as [|m l] eqn:E; [done|].
      assert (m ∈ stream_log k (sy_log s)) as Hm by (rewrite E; left).
      apply elem_of_stream_log, si_log0 in Hm as (st0 & Hst0 & _). congruence. }
    split; intros *; done.
Qed.

Lemma StronglySorted_sublist {A} (R : relation A) l1 l2 :
  l1 `sublist_of` l2 -> StronglySorted R l2 -> StronglySorted R l1.
Proof.
  induction 1 as [|x l1 l2 Hs IH|x l1 l2 Hs IH]; intros Hl; [done|..];
    apply StronglySorted_inv in Hl as [Hl Hx]; [|by apply IH].
  constructor; [by apply IH|]. rewrite Forall_forall in *. intros y Hy.
  apply Hx. eapply elem_of_sublist; eauto.
Qed.

(** A step that only forgets publications. *)
Lemma sys_inv_forget s flight :
  sys_inv s -> flight `sublist_of` sy_flight s ->
  sys_inv (MkSys (sy_clock s) (sy_db s) flight (sy_log s)).
Proof.
  intros [] Hsub.
  assert (forall q, q ∈ flight -> q ∈ sy_flight s) as Hin by (intros; by eapply elem_of_sublist).
  assert (forall q, live (MkSys (sy_clock s) (sy_db s) flight (sy_log s)) q -> live s q) as Hlive
    by (intros q [? ?]; split; auto).
  split; cbn [sy_db sy_flight sy_log sy_clock]; eauto using StronglySorted_sublist.
Qed.

Lemma sys_inv_tick s t :
  sys_inv s -> sy_clock s <= t -> sys_inv (MkSys t (sy_db s) (sy_flight s) (sy_log s)).
Proof.
  intros [] Ht.
  assert (forall q, live (MkSys t (sy_db s) (sy_flight s) (sy_log s)) q -> live s q) as Hlive
    by (intros q [Hq Hd]; cbn [sy_flight sy_clock] in *; split; [done|lia]).
  split; cbn [sy_db sy_flight sy_log sy_clock]; eauto.
  intros q Hq. destruct (si_flight0 q Hq) as (st & ? & ? & ? & ?). exists st. split_and!; try done; lia.
Qed.

Lemma sys_inv_db_step s d' :
  sys_inv s -> db_step (sy_db s) d' -> sys_inv (MkSys (sy_clock s) d' (sy_flight s) (sy_log s)).
Proof.
  intros Hs Hstep. pose proof Hs as [Ho Hp Hl _ Hc _ _ _ _ Hpass _ Hi].
  destruct (db_step_frame _ _ Hstep Hp) as (Hpt & Hext & Hp' & Hi').
  pose proof (sys_inv_database _ Hs) as Hdb. apply sys_inv_db; try done; auto.
  - split; [by eapply db_step_outbox|by apply Hp'|by apply Hi'].
  - destruct Hl. split; rewrite Hpt; done.
  - by apply streams_ext_grow.
  - by rewrite Hpt.
  - intros k st m Hst Hm. destruct (proj2 Hext _ _ Hst) as [Hst0|[_ Heq]]; [by eapply Hpass|lia].
  - intros k st Hst. destruct (proj2 Hext _ _ Hst) as [Hst0|[Hn _]]; eauto.
Qed.

(** The row and the stream of an event in flight. *)
Lemma inflight_position d ev r :
  outbox_inv d -> st_matches d ev -> OrderingKey ev <> ""%string ->
  db_outbox d !! ID ev = Some r -> er_status r = Inflight ->
  exists st, db_streams d !! (Destination ev, OrderingKey ev) = Some st /\
    OrderingSequence ev = sr_next_sequence st /\
    ed_ordering_partition (er_data r) = Some (Partition (Destination ev) (OrderingKey ev)) /\
    sr_start_sequence st <= sr_next_sequence st.
Proof.
  intros Hinv Hm Hk Hr Hi.
  destruct (Hm r Hr) as (HD & _ & _ & _ & _ & _ & HK & HS & HP).
  pose proof (inv_row _ Hinv _ _ Hr) as Hok. apply event_row_ok_spec in Hok as (Hok & _).
  unfold event_data_ok in Hok. apply andb_true_iff in Hok as [_ Hord].
  unfold outbox_ordering_state_check in Hord.
  destruct (ed_ordering_key (er_data r)) as [k|] eqn:Ek; [|done].
  destruct (ed_ordering_sequence (er_data r)) as [n|] eqn:En; [|done].
  cbn [deref default from_option Datatypes.id] in HK, HS.
  destruct (inv_cursor _ Hinv _ _ (ed_destination (er_data r)) k n Hr) as (st & Hst & Hpt & Hsn & Hc).
  { unfold stream_position. by rewrite Ek, En. }
  rewrite Hi in Hc. cbn [cursor_ok] in Hc. rewrite HD, HK. exists st.
  destruct (inv_stream _ Hinv _ _ _ Hst) as [_ <-]. split_and!; try done; lia.
Qed.

Lemma covers_holder s q r o :
  live s q -> covers q r -> pr_lease_owner r = Some o ->
  sql_coalesce_le (pr_handoff_not_before r) (sy_clock s) = true -> pb_owner q = o.
Proof.
  intros [_ Hl] [(Ho & _)|(h & Hh & Hd)] Hr Hb; [congruence|].
  rewrite Hh in Hb. cbn [sql_coalesce_le] in Hb. bool_to_prop. lia.
Qed.

Lemma sys_inv_fence s o ev n d' :
  sys_inv s -> OrderingKey ev <> ""%string -> st_matches (sy_db s) ev ->
  BeginOrderedAttempt (sy_db s) (sy_clock s) (ID ev) o (OrderingEpoch ev) (MaxAttempts (conf o))
    (minimum_lease (conf o)) = (d', Ok n) ->
  sys_inv (MkSys (sy_clock s) d'
    (sy_flight s ++ [{| pb_owner := o; pb_stream := (Destination ev, OrderingKey ev);
                        pb_sequence := OrderingSequence ev;
                        pb_deadline := sy_clock s + publish_window conf lag o |}]) (sy_log s)).
Proof.
  intros Hs Hk Hm H. set (q0 := Publication o _ _ _).
  assert (sys_inv (MkSys (sy_clock s) d' (sy_flight s) (sy_log s))) as Hs1.
  { apply sys_inv_db_step; [done|]. replace d' with (d', Ok (E := error) n).1 by done.
    rewrite <- H. constructor. }
  apply BeginOrderedAttempt_ok in H as (r & Hr & Ha & _ & _ & Hd').
  destruct (attempt_allowed_inflight _ _ _ _ _ _ _ Ha) as [_ Hi].
  destruct (inflight_position _ _ _ (si_outbox _ Hs) Hm Hk Hr Hi) as (st & Hst & Hn & Hpt & Hsn).
  unfold attempt_allowed in Ha. apply andb_true_iff in Ha as [_ Hf].
  apply ordered_fence_true in Hf as (p & Hp & Hpo & _ & Hpu & Hb).
  unfold partition_of in Hp. rewrite Hpt in Hp. cbn [mbind option_bind] in Hp.
  assert (db_streams d' = db_streams (sy_db s) /\ db_partitions d' = db_partitions (sy_db s))
    as [Hds Hdp] by (by subst d').
  assert (covers q0 p) as Hcov.
  { left. split; [done|]. apply sql_ge_true in Hpu as (u & Hu & Hle). exists u. split; [done|].
    destruct (config_sum o) as [_ Hmin]. rewrite Hmin in Hle.
    pose proof (vc_publish _ (Hconf o)). pose proof (vc_margin _ (Hconf o)).
    pose proof (intervalMS_bounds (PublishTimeout (conf o) + OrderingSafetyMargin (conf o))).
    cbn [q0 pb_deadline]. unfold publish_window. lia. }
  assert (pb_stream q0 = (Destination ev, OrderingKey ev)) as Hqs by done.
  assert (db_partitions d' !! pb_partition q0 = Some p) as Hq0p by (rewrite Hdp; exact Hp).
  clear Hm Hd' Hpt Hp. destruct Hs1 as [Ho1 Hp1 Hl1 Hfl1 Hc1 Hor1 How1 Hlg1 Hll1 Hps1 Hct1 Hi1].
  cbn [sy_db sy_flight sy_log sy_clock] in *.
  assert (forall q, live (MkSys (sy_clock s) d' (sy_flight s ++ [q0]) (sy_log s)) q ->
    q = q0 \/ live (MkSys (sy_clock s) d' (sy_flight s) (sy_log s)) q) as Hlive.
  { intros q [[Hq|Hq%list_elem_of_singleton]%elem_of_app Hd]; [right|by left]. by split. }
  assert (forall q, live (MkSys (sy_clock s) d' (sy_flight s) (sy_log s)) q ->
    pb_stream q = pb_stream q0 -> pb_owner q = o) as Hown.
  { intros q Hq Hst'. destruct (Hc1 q Hq) as (r' & Hr' & Hcr). unfold pb_partition in *.
    rewrite Hst', Hq0p in Hr'. simplify_eq. by eapply covers_holder. }
  split; cbn [sy_db sy_flight sy_log sy_clock]; try done.
  - intros q [Hq| ->%list_elem_of_singleton]%elem_of_app; [by apply Hfl1|].
    exists st. rewrite Hqs, Hds. cbn [q0 pb_sequence pb_deadline pb_owner]. rewrite Hn.
    split_and!; [done|lia|lia|lia|]. intros m Hm. eapply Hps1; [by rewrite Hds|lia].
  - intros q [->|Hq]%Hlive; [by exists p|by apply Hc1].
  - apply StronglySorted_app_2; [|done|repeat constructor].
    intros q1 q2 Hq1 ->%list_elem_of_singleton Hst'. destruct (Hfl1 q1 Hq1) as (st1 & Hst1 & Hb1 & _).
    rewrite Hst', Hqs, Hds, Hst in Hst1. simplify_eq. cbn [q0 pb_sequence]. lia.
  - intros q1 q2 [->|Hq1]%Hlive [->|Hq2]%Hlive Hst'; [done|symmetry; by apply Hown|by apply Hown|by apply How1].
  - intros q m [->|Hq]%Hlive Hlog; [|by apply Hll1]. destruct (Hlg1 _ _ Hlog) as (st1 & Hst1 & Hb1).
    rewrite Hqs, Hds, Hst in Hst1. simplify_eq. cbn [q0 pb_sequence]. lia.
Qed.

(** ** Landing *)

Lemma contiguous_mono start l i j x y :
  contiguous start l -> l !! i = Some x -> l !! j = Some y -> (i <= j)%nat -> x <= y.
Proof.
  intros [_ Hc]. revert y. induction j as [|j IH]; intros y Hx Hy Hij.
  - replace i with 0%nat in Hx by lia. simplify_eq. lia.
  - destruct (decide (i = S j)) as [->|]; [simplify_eq; lia|].
    destruct (lookup_lt_is_Some_2 l j) as [z Hz]; [apply lookup_lt_Some in Hy; lia|].
    assert (x <= z) by (apply IH; [done..|lia]). destruct (Hc _ _ _ Hz Hy); lia.
Qed.

(** A record lands of which all predecessors have landed and no successor. *)
Lemma contiguous_snoc start l n :
  contiguous start l -> start <= n -> (forall m, m ∈ l -> m <= n) ->
  (forall m, start <= m < n -> m ∈ l) -> contiguous start (l ++ [n]).
Proof.
  intros Hc Hn Hle Hall. split.
  - intros x Hx. destruct l as [|y l]; [|by apply Hc]. simplify_eq/=.
    destruct (decide (x = start)) as [|Hne]; [done|].
    assert (start ∈ @nil Z) as H%elem_of_nil by (apply Hall; lia). done.
  - intros i x y Hx Hy.
    assert (i < length l)%nat as Hi by (apply lookup_lt_Some in Hy; rewrite length_app in Hy; simpl in Hy; lia).
    rewrite lookup_app_l in Hx by done.
    apply lookup_snoc_Some in Hy as [[_ Hy]|[Hlen <-]]; [by apply (proj2 Hc i)|].
    assert (x <= n) by (apply Hle; by eapply list_elem_of_lookup_2).
    destruct (decide (x < n)) as [Hlt|]; [right|left; lia].
    destruct (lookup_lt_is_Some_2 l 0%nat) as [z Hz]; [lia|].
    assert (z <= x) by (apply (contiguous_mono start l 0 i); [done..|lia]).
    apply (proj1 Hc) in Hz. destruct (list_elem_of_lookup_1 l (n - 1)) as [j Hj]; [apply Hall; lia|].
    assert (n - 1 <= x); [|lia]. apply (contiguous_mono start l j i); [done..|].
    apply lookup_lt_Some in Hj. lia.
Qed.

Lemma stream_log_snoc k log k' n :
  stream_log k (log ++ [(k', n)]) = stream_log k log ++ (if decide (k' = k) then [n] else []).
Proof.
  unfold stream_log. rewrite filter_app, fmap_app. f_equal. rewrite filter_cons. cbn [fst].
  by destruct (decide (k' = k)).
Qed.

Lemma sys_inv_land s before p after :
  sys_inv s -> sy_flight s = before ++ p :: after -> sy_clock s < pb_deadline p ->
  sys_inv (MkSys (sy_clock s) (sy_db s)
    (filter (fun q => same_lane q p = false) before ++ after)
    (sy_log s ++ [(pb_stream p, pb_sequence p)])).
Proof.
  intros Hs Hf Hd. set (flight := _ ++ after).
  assert (flight `sublist_of` sy_flight s) as Hsub.
  { rewrite Hf. apply sublist_app; [apply sublist_filter|by apply sublist_cons]. }
  assert (live s p) as Hp by (split; [rewrite Hf; set_solver|done]).
  assert (forall q, live (MkSys (sy_clock s) (sy_db s) flight (sy_log s)) q ->
    pb_stream q = pb_stream p -> pb_sequence p <= pb_sequence q) as Hafter.
  { intros q [Hq Hdq] Hst. apply elem_of_app in Hq as [[Hl Hq]%list_elem_of_filter|Hq].
    - assert (live s q) as Hlq by (split; [rewrite Hf; set_solver|done]).
      pose proof (si_owner _ Hs q p Hlq Hp Hst) as Ho. unfold same_lane in Hl.
      by rewrite !bool_decide_true in Hl.
    - pose proof (si_order _ Hs) as Hord. rewrite Hf in Hord.
      apply StronglySorted_app_1_r in Hord. apply StronglySorted_inv in Hord as [_ Hall].
      rewrite Forall_forall in Hall. by apply Hall. }
  destruct (si_flight _ Hs p (proj1 Hp)) as (stp & Hstp & Hbp & _ & Hall).
  pose proof (si_log_live _ Hs p) as Hup.
  pose proof (sys_inv_forget s flight Hs Hsub) as [Ho1 Hp1 Hl1 Hfl1 Hc1 Hor1 How1 Hlg1 Hll1 Hps1 Hct1 Hi1].
  split; cbn [sy_db sy_flight sy_log sy_clock] in *; try done.
  - intros q Hq. destruct (Hfl1 q Hq) as (st & Hst & Hb & Hdl & Hm). exists st.
    split_and!; [done|lia|lia|done|]. intros m Hlt. apply elem_of_app. left. by apply Hm.
  - intros k m [Hk|[= -> ->]%list_elem_of_singleton]%elem_of_app; [by apply Hlg1|]. eauto.
  - intros q m Hq [Hk|Hk%list_elem_of_singleton]%elem_of_app; [by apply Hll1|].
    apply pair_eq in Hk as [Hk ->]. by apply Hafter.
  - intros k st m Hst Hm. apply elem_of_app. left. by eapply Hps1.
  - intros k st Hst. rewrite stream_log_snoc. destruct (decide (pb_stream p = k)) as [<-|];
      [|rewrite app_nil_r; by apply Hct1].
    simplify_eq. apply contiguous_snoc; [by apply Hct1|lia| |];
      intros m Hm; rewrite elem_of_stream_log in *; auto.
Qed.

(** ** Acknowledging *)

Lemma sys_inv_ack s now o ev d' :
  sys_inv s -> ((Destination ev, OrderingKey ev), OrderingSequence ev) ∈ sy_log s ->
  st_matches (sy_db s) ev -> MarkOrderedDelivered (sy_db s) now ev o = (d', Ok tt) ->
  sys_inv (MkSys (sy_clock s) d' (sy_flight s) (sy_log s)).
Proof.
  intros Hs Hlog Hm H. pose proof (MarkOrderedDelivered_inv _ now ev o (si_outbox _ Hs)) as Ho'.
  rewrite H in Ho'. cbn [fst] in Ho'.
  apply MarkOrderedDelivered_ok in H as (r & k & st & Hr & _ & Hk & _ & Hn & Hst & _ & _ & ->).
  destruct (Hm r Hr) as (HD & _ & _ & _ & _ & _ & HK & _).
  rewrite Hk in HK. cbn [deref default from_option Datatypes.id] in HK. rewrite HD, HK, Hn in Hlog.
  assert (forall k0 st0,
    db_streams (deliver_at (sy_db s) now (ID ev) r k st) !! k0 = Some st0 ->
    (k0 = (ed_destination (er_data r), k) /\ st0 = advanced_stream now st (sr_next_sequence st)) \/
    (k0 <> (ed_destination (er_data r), k) /\ db_streams (sy_db s) !! k0 = Some st0)) as Hin.
  { intros k0 st0. unfold deliver_at. cbn [with_outbox with_streams db_streams].
    rewrite lookup_insert. case_decide as E; [intros [= <-]; by left|by right]. }
  pose proof Hs as [_ Hp Hl _ Hc _ _ _ _ Hpass _ Hi].
  apply sys_inv_db; try done.
  - split; [done|by apply (partition_inv_frame (sy_db s))|by apply (inbox_inv_frame (sy_db s))].
  - by destruct Hl.
  - intros k0 st0 Hst0. unfold deliver_at. cbn [with_outbox with_streams db_streams].
    rewrite lookup_insert. case_decide as E; [|exists st0; split_and!; [done|done|lia]].
    subst. simplify_eq. eexists. split_and!; [done|done|]. cbn [advanced_stream sr_next_sequence]. lia.
  - intros k0 st0 m [[-> ->]|[_ H0]]%Hin Hb; [|by eapply Hpass].
    cbn [advanced_stream sr_next_sequence sr_start_sequence] in Hb.
    destruct (decide (m = sr_next_sequence st)) as [->|]; [done|]. eapply Hpass; [done|lia].
  - intros k0 st0 [[-> ->]|[_ H0]]%Hin; right; eauto.
Qed.

(** ** Reconciling and releasing *)

(** A step that maps every partition row. *)
Lemma sys_inv_partitions s d' f :
  sys_inv s -> same_but_partitions (sy_db s) d' -> partition_inv d' ->
  (forall p r, db_partitions (sy_db s) !! p = Some r -> db_partitions d' !! p = Some (f p r)) ->
  (forall p, db_partitions (sy_db s) !! p = None -> db_partitions d' !! p = None) ->
  (forall p r, db_partitions (sy_db s) !! p = Some r ->
     (forall o, pr_lease_owner (f p r) = Some o ->
        pr_publish_timeout_ms (f p r) = Some (intervalMS (PublishTimeout (conf o)))) /\
     (forall h, pr_handoff_not_before (f p r) = Some h -> pg_time h = h) /\
     (forall q, live s q -> pb_deadline q <= sy_clock s + publish_window conf lag (pb_owner q) ->
        covers q r -> covers q (f p r))) ->
  sys_inv (MkSys (sy_clock s) d' (sy_flight s) (sy_log s)).
Proof.
  intros Hs [t Ht] Hp' Hin Hout Hf.
  assert (db_streams d' = db_streams (sy_db s)) as Hds by (by rewrite Ht).
  assert (forall p r', db_partitions d' !! p = Some r' -> exists r,
    db_partitions (sy_db s) !! p = Some r /\ r' = f p r) as Hback.
  { intros p r' Hr'. destruct (db_partitions (sy_db s) !! p) as [r|] eqn:E.
    - exists r. rewrite (Hin _ _ E) in Hr'. by simplify_eq.
    - by rewrite (Hout _ E) in Hr'. }
  pose proof Hs as [Ho Hp Hl Hfl Hc _ _ _ _ Hpass _ Hi].
  apply sys_inv_db; try done.
  - split; [|done|]; rewrite Ht; [by apply (outbox_inv_frame (sy_db s))|by apply (inbox_inv_frame (sy_db s))].
  - split; intros p r' x Hr' Hx; apply Hback in Hr' as (r & Hr & ->);
      destruct (Hf _ _ Hr) as (H1 & H2 & _); auto.
  - intros k st Hst. exists st. rewrite Hds. split_and!; [done|done|lia].
  - intros q Hq. destruct (Hc q Hq) as (r & Hr & Hcv). exists (f (pb_partition q) r).
    split; [by apply Hin|]. apply (Hf _ _ Hr); [done| |done].
    destruct Hq as [Hq _]. by destruct (Hfl q Hq) as (st & _ & _ & Hd & _).
  - rewrite Hds. exact Hpass.
  - rewrite Hds. eauto.
Qed.

Lemma sys_inv_reconcile s now o d' views :
  sys_inv s -> sy_clock s - lag <= now <= sy_clock s -> btrim_nonempty o = true ->
  ReconcileOrderingPartitions (sy_db s) now o (OrderingLeaseDuration (conf o))
    (PublishTimeout (conf o)) (PresenceStaleAfter (conf o)) (OrderingSafetyMargin (conf o))
    = (d', Ok views) ->
  sys_inv (MkSys (sy_clock s) d' (sy_flight s) (sy_log s)).
Proof.
  intros Hs Hnow Ho H. pose proof (si_partitions _ Hs) as Hp. pose proof (si_lease _ Hs) as [Hms Hb].
  pose proof (Reconcile_partition_inv (sy_db s) now o (OrderingLeaseDuration (conf o))
    (PublishTimeout (conf o)) (PresenceStaleAfter (conf o)) (OrderingSafetyMargin (conf o)) Hp Ho)
    as Hp'. rewrite H in Hp'. cbn [fst] in Hp'.
  destruct (Reconcile_ok _ _ _ _ _ _ _ _ _ Hp Ho H) as (Hsame & Hin & Hout).
  eapply sys_inv_partitions; [done..|intros p r Hr; apply (Hin p r Hr)|done|].
  intros p r Hr. cbv beta.
  destruct (reconciled_lease_inv now o
    (activeOrderingMembers (sy_db s) now (PresenceStaleAfter (conf o))) p r) as [H1 H2]; eauto.
  split_and!; [done..|]. intros q [_ Hq] Hd Hcv. eapply reconciled_covers; eauto.
Qed.

Lemma sys_inv_release s now o d' :
  sys_inv s -> sy_clock s - lag <= now <= sy_clock s -> pg_time now = now ->
  ReleaseOrderingPartitions (sy_db s) now o (OrderingSafetyMargin (conf o)) = (d', Ok tt) ->
  sys_inv (MkSys (sy_clock s) d' (sy_flight s) (sy_log s)).
Proof.
  intros Hs Hnow Hpg H. pose proof (si_partitions _ Hs) as Hp. pose proof (si_lease _ Hs) as [Hms Hb].
  pose proof (Release_partition_inv (sy_db s) now o (OrderingSafetyMargin (conf o)) Hp)
    as Hp'. rewrite H in Hp'. cbn [fst] in Hp'.
  pose proof H as Hd'%Release_ok.
  apply (sys_inv_partitions s d'
    (fun _ => release_row now o (intervalMS (OrderingSafetyMargin (conf o))))); [done| |done|..].
  - by eexists.
  - intros p r Hr. rewrite Hd'. cbn [with_partitions db_partitions]. by rewrite lookup_fmap, Hr.
  - intros p Hr. rewrite Hd'. cbn [with_partitions db_partitions]. by rewrite lookup_fmap, Hr.
  - intros p r Hr. split_and!; [| |intros q _ Hd Hc; eapply release_row_covers; eauto];
      unfold release_row; destruct (sql_eq (pr_lease_owner r) o); eauto; cbn; [done|].
    intros h [= <-]. rewrite pg_time_fix in *. unfold greatest, Millisecond.
    destruct (pr_handoff_not_before r) as [h|] eqn:Eh;
      [apply (Hb p r h Hr), pg_time_fix in Eh|clear Hb];
      Z.to_euclidean_division_equations; lia.
Qed.

Theorem sys_inv_reachable t0 s : rtc (sys_step conf lag) (sys_init t0) s -> sys_inv s.
Proof.
  intros H. remember (sys_init t0) as i eqn:Ei.
  assert (sys_inv i) as Hi by (subst i; apply sys_init_inv). clear Ei.
  induction H as [|s1 s2 s3 Hstep _ IH]; [done|]. apply IH. clear IH. destruct Hstep.
  - by apply sys_inv_tick.
  - by apply sys_inv_db_step.
  - by eapply sys_inv_fence.
  - by apply sys_inv_land.
  - apply sys_inv_forget; [done|]. rewrite H. apply sublist_app; [done|by apply sublist_cons].
  - by eapply sys_inv_ack.
  - by eapply sys_inv_reconcile.
  - by eapply sys_inv_release.
Qed.

End leases.

(** * Properties *)

(** C1: Ordered delivery, end to end. However relays claim, publish, crash,
    lose partitions and take them over, and however slowly publishes land, the
    broker's log of every stream starts at the stream's start sequence and each
    record repeats its predecessor or is the next one: no gap, no step back, only
    adjacent duplicates. Everything before the stream's cursor has landed and
    nothing beyond the cursor has. *)
Theorem ordered_delivery conf lag t0 s key st :
  0 <= lag -> (forall o, valid_config (conf o)) ->
  (forall o, intervalMS (PublishTimeout (conf o)) * Millisecond + OrderingSafetyMargin (conf o)
             < 2 ^ 63) ->
  rtc (sys_step conf lag) (sys_init t0) s -> db_streams (sy_db s) !! key = Some st ->
  contiguous (sr_start_sequence st) (stream_log key (sy_log s)) /\
  (forall n, sr_start_sequence st <= n < sr_next_sequence st -> n ∈ stream_log key (sy_log s)) /\
  (forall n, n ∈ stream_log key (sy_log s) -> sr_start_sequence st <= n <= sr_next_sequence st).
Proof.
  intros Hlag Hconf Hsum Hr Hst.
  destruct (sys_inv_reachable conf lag Hlag Hconf Hsum t0 s Hr) as [_ _ _ _ _ _ _ Hlog _ Hpass Hc _].
  split_and!; [by apply Hc| |]; intros n Hn.
  - apply elem_of_stream_log. by eapply Hpass.
  - apply elem_of_stream_log in Hn. apply Hlog in Hn as (st' & Hst' & Hb). by simplify_eq.
Qed.

(** C2: No split brain. At every moment all publications of a stream that can
    still reach the broker belong to one relay, and their partition is either
    leased to that relay or closed by a handoff barrier until they have expired. *)
Theorem single_publisher conf lag t0 s q1 q2 :
  0 <= lag -> (forall o, valid_config (conf o)) ->
  (forall o, intervalMS (PublishTimeout (conf o)) * Millisecond + OrderingSafetyMargin (conf o)
             < 2 ^ 63) ->
  rtc (sys_step conf lag) (sys_init t0) s -> live s q1 -> live s q2 ->
  pb_stream q1 = pb_stream q2 ->
  pb_owner q1 = pb_owner q2 /\
  exists r, db_partitions (sy_db s) !! pb_partition q1 = Some r /\ covers q1 r /\ covers q2 r.
Proof.
  intros Hlag Hconf Hsum Hr H1 H2 Hst.
  destruct (sys_inv_reachable conf lag Hlag Hconf Hsum t0 s Hr) as [_ _ _ _ Hc _ Ho _ _ _ _ _].
  split; [by apply Ho|]. destruct (Hc q1 H1) as (r & Hp & Hr1). exists r. split_and!; [done..|].
  destruct (Hc q2 H2) as (r2 & Hp2 & Hr2). unfold pb_partition in *. rewrite Hst, Hp2 in Hp.
  by simplify_eq.
Qed.

(** * Witnesses *)

Module Demo.

(** Two relays with the default configuration and the two ordered events of a
    stream. [relay-1] publishes the first event and dies before the
    acknowledgement; two minutes later [relay-2] takes the partition over,
    publishes the first event again and then the second. *)
Definition ok_or {A} (x : res A) (a : A) : A := match x with Ok a => a | Err _ => a end.
Definition conf (_ : string) : Config := sample_config.
Definition demo_presence (o : string) : RelayPresence := MkPresence o "host" "v1" 0 true.
Definition demo_enqueue (d : db) (id : uuid) (seq : Z) : db :=
  commit_tx d (Writer.Enqueue (fun _ => None) (fun _ => "event"%string) (""%string, ""%string)
    Writer.NewWriter (Some id) (Writer.sample_event seq) (begin_tx d 0)).1.
#[local] Abbreviation demo_reconcile d now o := (
  ReconcileOrderingPartitions d now o (OrderingLeaseDuration (conf o))
    (PublishTimeout (conf o)) (PresenceStaleAfter (conf o))
    (OrderingSafetyMargin (conf o))).
#[local] Abbreviation demo_claim d now o := (
  ClaimOrdered d ∅ now o 1 (LeaseDuration (conf o)) (minimum_lease (conf o))).
Definition demo_event (d : db) (now : time) (o : string) : Event :=
  match (demo_claim d now o).2 with e :: _ => e | [] => sample_first end.
#[local] Abbreviation demo_begin d now o e := (
  BeginOrderedAttempt d now (ID e) o (OrderingEpoch e) (MaxAttempts (conf o))
    (minimum_lease (conf o))).

Definition t1 : time := Second.
Definition t2 : time := 120 * Second.
Definition t3 : time := 135 * Second.
Definition d1 : db := ok_or (RegisterRelay (migrated 0) 0 (demo_presence "relay-1")) (migrated 0).
Definition d2 : db := demo_enqueue (demo_enqueue d1 21%N 1) 22%N 2.
Definition d3 : db := (demo_reconcile d2 t1 "relay-1").1.
Definition d4 : db := (demo_claim d3 t1 "relay-1").1.
Definition e1 : Event := demo_event d3 t1 "relay-1".
Definition d5 : db := (demo_begin d4 t1 "relay-1" e1).1.
Definition d6 : db := ok_or (RegisterRelay d5 t2 (demo_presence "relay-2")) d5.
Definition d7 : db := (demo_reconcile d6 t2 "relay-2").1.
Definition d8 : db := ok_or (HeartbeatRelay d7 t3 "relay-2") d7.
Definition d9 : db := (demo_reconcile d8 t3 "relay-2").1.
Definition e1' : Event := demo_event d9 t3 "relay-2".
Definition d10 : db := (demo_claim d9 t3 "relay-2").1.
Definition d11 : db := (demo_begin d10 t3 "relay-2" e1').1.
Definition d12 : db := (MarkOrderedDelivered d11 t3 e1' "relay-2").1.
Definition e2 : Event := demo_event d12 t3 "relay-2".
Definition d13 : db := (demo_claim d12 t3 "relay-2").1.
Definition d14 : db := (demo_begin d13 t3 "relay-2" e2).1.

Definition pub (o : string) (n : Z) (t : time) : publication :=
  Publication o ("orders", "k")%string n (t + publish_window conf 0 o).
Definition record (n : Z) : (string * string) * Z := (("orders", "k")%string, n).

Lemma conf_ok : forall o, valid_config (conf o).
Proof. intros o. exact sample_config_valid. Qed.

Lemma conf_sum : forall o, intervalMS (PublishTimeout (conf o)) * Millisecond
                           + OrderingSafetyMargin (conf o) < 2 ^ 63.
Proof. intros o. vm_compute. reflexivity. Qed.

Definition views (x : db * res (list ordering_partition)) : list ordering_partition := ok_or x.2 [].

Lemma register_1 : RegisterRelay (migrated 0) 0 (demo_presence "relay-1") = Ok d1.
Proof. vm_compute. reflexivity. Qed.
Lemma reconcile_1 : demo_reconcile d2 t1 "relay-1" = (d3, Ok (views (demo_reconcile d2 t1 "relay-1"))).
Proof. vm_compute. reflexivity. Qed.
Lemma begin_1 : demo_begin d4 t1 "relay-1" e1 = (d5, Ok 1).
Proof. vm_compute. reflexivity. Qed.
Lemma register_2 : RegisterRelay d5 t2 (demo_presence "relay-2") = Ok d6.
Proof. vm_compute. reflexivity. Qed.
Lemma reconcile_2 : demo_reconcile d6 t2 "relay-2" = (d7, Ok (views (demo_reconcile d6 t2 "relay-2"))).
Proof. vm_compute. reflexivity. Qed.
Lemma heartbeat_2 : HeartbeatRelay d7 t3 "relay-2" = Ok d8.
Proof. vm_compute. reflexivity. Qed.
Lemma reconcile_3 : demo_reconcile d8 t3 "relay-2" = (d9, Ok (views (demo_reconcile d8 t3 "relay-2"))).
Proof. vm_compute. reflexivity. Qed.
Lemma begin_2 : demo_begin d10 t3 "relay-2" e1' = (d11, Ok 2).
Proof. vm_compute. reflexivity. Qed.
Lemma delivered_1 : MarkOrderedDelivered d11 t3 e1' "relay-2" = (d12, Ok tt).
Proof. vm_compute. reflexivity. Qed.
Lemma begin_3 : demo_begin d13 t3 "relay-2" e2 = (d14, Ok 1).
Proof. vm_compute. reflexivity. Qed.

Ltac matches :=
  let r := fresh in let Hr := fresh in
  intros r Hr; vm_compute in Hr; injection Hr; intros <-; vm_compute; repeat split.
Lemma matches_1 : st_matches d4 e1.
Proof. matches. Qed.
Lemma matches_2 : st_matches d10 e1'.
Proof. matches. Qed.
Lemma matches_3 : st_matches d11 e1'.
Proof. matches. Qed.
Lemma matches_4 : st_matches d13 e2.
Proof. matches. Qed.

(** [relay-1] is publishing. *)
Definition publishing : sys := MkSys t1 d5 [pub "relay-1" 1 t1] [].
(** [relay-2] has published both events. *)
Definition published : sys := MkSys t3 d14 [] [record 1; record 1; record 2].

#[local] Abbreviation run := (rtc (sys_step conf 0)).

Lemma run_db d' t d fl log s : db_step d d' -> run (MkSys t d' fl log) s -> run (MkSys t d fl log) s.
Proof. intros H. apply rtc_l. exact (s_db conf 0 (MkSys t d fl log) d' H). Qed.
Lemma run_tick t' t d fl log s : t <= t' -> run (MkSys t' d fl log) s -> run (MkSys t d fl log) s.
Proof. intros H. apply rtc_l. exact (s_tick conf 0 (MkSys t d fl log) t' H). Qed.
Lemma run_reconcile o d' t d fl log s :
  pg_time t = t -> btrim_nonempty o = true ->
  demo_reconcile d t o = (d', Ok (views (demo_reconcile d t o))) ->
  run (MkSys t d' fl log) s -> run (MkSys t d fl log) s.
Proof.
  intros Ht Ho H. apply rtc_l.
  apply (s_reconcile conf 0 (MkSys t d fl log) t o d' (views (demo_reconcile d t o)));
    [cbn [sy_clock]; lia|exact Ht|exact Ho|exact H].
Qed.
Lemma run_fence o e n d' t d fl log s :
  OrderingKey e = "k"%string -> Destination e = "orders"%string -> st_matches d e ->
  demo_begin d t o e = (d', Ok n) ->
  run (MkSys t d' (fl ++ [pub o (OrderingSequence e) t]) log) s -> run (MkSys t d fl log) s.
Proof.
  intros Hk Hd Hm H. apply rtc_l. unfold pub. rewrite <- Hk, <- Hd.
  apply (s_fence conf 0 (MkSys t d fl log) o e n d'); [by rewrite Hk|exact Hm|exact H].
Qed.
Lemma run_land p t d log s :
  t < pb_deadline p -> run (MkSys t d [] (log ++ [(pb_stream p, pb_sequence p)])) s ->
  run (MkSys t d [p] log) s.
Proof. intros H. apply rtc_l. exact (s_land conf 0 (MkSys t d [p] log) [] p [] eq_refl H). Qed.
Lemma run_ack o e d' t d fl log s :
  ((Destination e, OrderingKey e), OrderingSequence e) ∈ log -> st_matches d e ->
  MarkOrderedDelivered d t e o = (d', Ok tt) ->
  run (MkSys t d' fl log) s -> run (MkSys t d fl log) s.
Proof. intros Hl Hm H. apply rtc_l. exact (s_ack conf 0 (MkSys t d fl log) t o e d' Hl Hm H). Qed.

Lemma reach_publishing : run (sys_init 0) publishing.
Proof.
  apply (run_db d1); [exact (d_register _ _ _ _ register_1)|].
  eapply run_db; [apply d_enqueue|]. apply (run_db d2); [apply d_enqueue|].
  apply (run_tick t1); [done|].
  apply (run_reconcile "relay-1" d3); [done|done|exact reconcile_1|].
  apply (run_db d4); [apply d_claim_ordered|].
  apply (run_fence "relay-1" e1 1 d5); [vm_compute; reflexivity..|exact matches_1|exact begin_1|].
  apply rtc_refl.
Qed.

Lemma publishing_published : run publishing published.
Proof.
  apply run_land; [done|].
  apply (run_tick t2); [done|]. apply (run_db d6); [exact (d_register _ _ _ _ register_2)|].
  apply (run_reconcile "relay-2" d7); [done|done|exact reconcile_2|].
  apply (run_tick t3); [done|]. apply (run_db d8); [exact (d_heartbeat _ _ _ _ heartbeat_2)|].
  apply (run_reconcile "relay-2" d9); [done|done|exact reconcile_3|].
  apply (run_db d10); [apply d_claim_ordered|].
  apply (run_fence "relay-2" e1' 2 d11); [vm_compute; reflexivity..|exact matches_2|exact begin_2|].
  apply run_land; [done|].
  apply (run_ack "relay-2" e1' d12); [vm_compute; left|exact matches_3|exact delivered_1|].
  apply (run_db d13); [apply d_claim_ordered|].
  apply (run_fence "relay-2" e2 1 d14); [vm_compute; reflexivity..|exact matches_4|exact begin_3|].
  apply run_land; [done|]. apply rtc_refl.
Qed.

Lemma reach_published : run (sys_init 0) published.
Proof. transitivity publishing; [exact reach_publishing|exact publishing_published]. Qed.

Lemma ordered_delivery_witness :
  rtc (sys_step conf 0) (sys_init 0) published /\
  stream_log ("orders", "k")%string (sy_log published) = [1; 1; 2] /\ contiguous 1 [1; 1; 2].
Proof.
  split; [exact reach_published|]. split; [reflexivity|].
  destruct (db_streams d14 !! ("orders", "k")%string) as [st|] eqn:E;
    [|vm_compute in E; discriminate].
  pose proof (proj1 (ordered_delivery conf 0 0 published ("orders", "k")%string st
    (Z.le_refl 0) conf_ok conf_sum reach_published E)) as H.
  vm_compute in E. injection E as <-. exact H.
Defined.

Lemma single_publisher_witness :
  rtc (sys_step conf 0) (sys_init 0) publishing /\
  exists r, db_partitions (sy_db publishing) !! pb_partition (pub "relay-1" 1 t1) = Some r /\
            covers (pub "relay-1" 1 t1) r.
Proof.
  split; [exact reach_publishing|].
  assert (live publishing (pub "relay-1" 1 t1)) as Hl by (split; [left|done]).
  destruct (single_publisher conf 0 0 publishing _ _ (Z.le_refl 0) conf_ok conf_sum
    reach_publishing Hl Hl eq_refl) as (_ & r & Hr & Hc & _).
  exists r. split; [exact Hr|exact Hc].
Defined.

End Demo.
