(* ===== verification/Durability.v ===== *)
(** * No event is lost

    Across every step of the delivery system ([System.v]): producers, relays,
    handoffs, retries, dead-lettering, operators and retention. An event of the
    outbox keeps its immutable columns and leaves the table only after it was
    delivered; an ordered one only after its record reached the broker. *)
From Stdlib Require Import ZArith String.
From stdpp Require Import base gmap strings list sorting fin_maps sets relations.
From S2P Require Import Prelude GoStrings Ordering Schema Invariant Samples OutboxStore.
From S2P Require Import OrderedStore PartitionStore Presence Tx Outbox RelayConfig Relay PgStore.
From S2P Require Import AdminTypes AdminStore AdminService System.

Module Durability.

(** ** One step *)

(** Rows stay, with their immutable columns, or were delivered. *)
Definition durable (d d' : db) : Prop :=
  forall i r, db_outbox d !! i = Some r ->
    (exists r', db_outbox d' !! i = Some r' /\ er_data r' = er_data r) \/
    (db_outbox d' !! i = None /\ er_status r = Delivered).

Lemma durable_same d d' : db_outbox d' = db_outbox d -> durable d d'.
Proof. intros H i r Hr. left. rewrite H. eauto. Qed.

Lemma durable_insert d d' id r r' :
  db_outbox d !! id = Some r -> er_data r' = er_data r ->
  db_outbox d' = <[id := r']> (db_outbox d) -> durable d d'.
Proof.
  intros Hr Hd Ho i x Hx. left. rewrite Ho, lookup_insert. case_decide; simplify_eq; eauto.
Qed.

Lemma durable_fresh d d' id r :
  db_outbox d !! id = None -> db_outbox d' = <[id := r]> (db_outbox d) -> durable d d'.
Proof.
  intros Hr Ho i x Hx. left. rewrite Ho, lookup_insert. case_decide; simplify_eq; eauto.
Qed.

Lemma durable_update d now id cond upd d' o :
  update_event d now id cond upd = (d', o) -> (forall r, er_data (upd r) = er_data r) -> durable d d'.
Proof.
  intros H Hd. destruct o as [r'|].
  - apply update_event_some in H as (r & Hr & _ & _ & _ & ->). eapply durable_insert; [exact Hr|apply Hd|done].
  - apply update_event_none in H as [-> _]. by apply durable_same.
Qed.

Ltac durable_update :=
  match goal with |- context [update_event ?d ?n ?i ?c ?u] =>
    let E := fresh "E" in destruct (update_event d n i c u) as [? [?|]] eqn:E;
    (apply durable_update in E; [|done]); cbn [require_row require_fence fst]; exact E end.

Lemma durable_claim d now o u picked : durable d (claim_rows d now o u picked).1.
Proof.
  intros i r Hr. left. rewrite claim_rows_lookup, Hr. case_decide; cbn; [|eauto].
  eexists. split; [done|]. unfold leased. by case_match.
Qed.

Lemma durable_cleanup d locked now retention limit :
  outbox_inv d -> durable d (CleanupDelivered d locked now retention limit).1.
Proof.
  intros Hinv i r Hr. unfold CleanupDelivered. case_match; [left; eauto|].
  cbn [fst with_outbox db_outbox]. rewrite foldr_delete_lookup. case_decide as Hin; [|left; eauto].
  right. split; [done|]. apply list_elem_of_fmap in Hin as ([t j] & -> & Hin).
  apply elem_of_sort_limit, list_elem_of_fmap in Hin as (r0 & [= -> ->] & [[Hd _] Hin]%list_elem_of_filter).
  apply elem_of_outbox_rows in Hin as [j Hj]. cbn in Hr. rewrite (inv_id _ Hinv _ _ Hj), Hj in Hr.
  injection Hr as ->. unfold doomed in Hd. by bool_to_prop.
Qed.

Lemma durable_enqueue up us tr w idFn e d now :
  durable d (commit_tx d (Writer.Enqueue up us tr w idFn e (begin_tx d now)).1).
Proof.
  unfold commit_tx. case_match; [by apply durable_same|]. intros i r Hr. left. exists r. split; [|done].
  revert i r Hr. refine (Writer.Enqueue_tx_safe up us tr (fun d0 => forall i r,
    db_outbox d !! i = Some r -> db_outbox d0 !! i = Some r) w idFn e _ _ (begin_tx d now) _); [| |done].
  - intros dest key p start d0 now0 d1 u Hd Hi. unfold Writer.insert_stream in Hi.
    repeat (destruct_match Hi; [done|]). by destruct (db_streams d0 !! (dest, key)); simplify_eq.
  - intros d0 r0 d1 Hd Hi i r Hr. apply insert_event_ok in Hi as (_ & _ & _ & Hf & _ & ->).
    cbn [with_outbox db_outbox]. rewrite lookup_insert_ne; [by apply Hd|]. intros <-.
    by rewrite (Hd _ _ Hr) in Hf.
Qed.

Lemma durable_admin trace us newV7 d now q m :
  db_inv d -> durable d (Service.serve trace us newV7 d now q m).1.1.
Proof.
  intros Hinv. destruct (Service.serve trace us newV7 d now q m) as [[d' ns] r] eqn:E.
  pose proof (Service.serve_audited _ _ _ _ _ _ _ _ _ _ Hinv E) as H. cbn [fst].
  destruct r; [|destruct H as [-> _]; by apply durable_same].
  destruct H as (_ & _ & Hold & _). intros i row Hrow. left.
  destruct (Hold i row Hrow) as [H|(_ & _ & H)]; eauto.
Qed.

Lemma db_step_durable d d' : db_step d d' -> db_inv d -> durable d d'.
Proof.
  intros H Hinv. destruct H.
  - apply durable_enqueue.
  - rewrite Claim_picked. apply durable_claim.
  - rewrite ClaimOrdered_picked. apply durable_claim.
  - unfold BeginAttempt. case_match; [by apply durable_same|durable_update].
  - unfold BeginOrderedAttempt. case_match; [by apply durable_same|durable_update].
  - unfold markDelivered, MarkDelivered. rewrite H0. durable_update.
  - unfold markRetry, MarkRetry, MarkOrderedRetry. destruct (unordered ev); durable_update.
  - unfold markDeadCall, MarkDead, MarkOrderedDead. destruct (unordered ev); durable_update.
  - unfold RetryDead. durable_update.
  - apply durable_cleanup, Hinv.
  - unfold RegisterRelay in H. repeat (destruct_match H; [done|]). simplify_eq. by apply durable_same.
  - unfold HeartbeatRelay, touch_relay in H. case_match; simplify_eq. by apply durable_same.
  - unfold MarkRelayStopped, touch_relay in H. case_match; simplify_eq. by apply durable_same.
  - by apply durable_admin.
Qed.

(** ** Runs *)

(** The record of an ordered event is in the broker's log. *)
Definition landed (data : event_data) (s : sys) : Prop :=
  forall dest key n, stream_position data = Some (dest, key, n) -> ((dest, key), n) ∈ sy_log s.

(** The event of the row [r0] at [i], some time after it was in state [s0]. *)
Definition accounted (step : relation sys) (s0 : sys) (i : uuid) (r0 : event_row) (s : sys) : Prop :=
  (exists r, db_outbox (sy_db s) !! i = Some r /\ er_data r = er_data r0) \/
  (landed (er_data r0) s /\ exists s1 r1, rtc step s0 s1 /\ rtc step s1 s /\
     db_outbox (sy_db s1) !! i = Some r1 /\ er_data r1 = er_data r0 /\ er_status r1 = Delivered).

Section runs.
Context (conf : string -> Config) (lag : duration).

Lemma sys_step_durable s s' :
  sys_inv conf lag s -> sys_step conf lag s s' -> durable (sy_db s) (sy_db s').
Proof.
  intros Hs H. pose proof (sys_inv_database conf lag s Hs) as Hinv.
  destruct H; cbn [sy_db]; try (by apply durable_same).
  - by apply db_step_durable.
  - apply BeginOrderedAttempt_ok in H1 as (r & Hr & _ & _ & _ & ->).
    by apply (durable_insert _ _ (ID ev) r (attempt_row r)).
  - apply MarkOrderedDelivered_ok in H1 as (r & k & st & Hr & _ & _ & _ & _ & _ & _ & _ & ->).
    by apply (durable_insert _ _ (ID ev) r (delivered_row now r)).
  - destruct (Reconcile_ok _ _ _ _ _ _ _ _ _ (inv_partitions _ Hinv) H1 H2) as ([t ->] & _).
    by apply durable_same.
  - apply Release_ok in H1 as ->. by apply durable_same.
Qed.

Lemma sys_step_log s s' : sys_step conf lag s s' -> sy_log s ⊆ sy_log s'.
Proof. intros H. destruct H; cbn [sy_log]; set_solver. Qed.

Lemma sys_step_streams s s' :
  sys_inv conf lag s -> sys_step conf lag s s' -> streams_grow (sy_db s) (sy_db s').
Proof.
  intros Hs H. pose proof (sys_inv_database conf lag s Hs) as Hinv.
  assert (forall d', db_streams d' = db_streams (sy_db s) -> streams_grow (sy_db s) d') as Hsame
    by (intros d' Hd; apply streams_ext_grow, streams_ext_same, Hd).
  destruct H; cbn [sy_db]; try (by apply Hsame).
  - apply streams_ext_grow. by apply (db_step_frame _ _ H), inv_partitions.
  - apply BeginOrderedAttempt_ok in H1 as (r & Hr & _ & _ & _ & ->). by apply Hsame.
  - apply MarkOrderedDelivered_ok in H1 as (r & k & st & _ & _ & _ & _ & _ & Hst & _ & _ & ->).
    intros k0 st0 Hst0. unfold deliver_at. cbn [with_outbox with_streams db_streams].
    rewrite lookup_insert. case_decide as E; [|exists st0; split_and!; [done|done|lia]].
    subst. simplify_eq. eexists. split_and!; [done|done|]. cbn [advanced_stream sr_next_sequence]. lia.
  - destruct (Reconcile_ok _ _ _ _ _ _ _ _ _ (inv_partitions _ Hinv) H1 H2) as ([t ->] & _).
    by apply Hsame.
  - apply Release_ok in H1 as ->. by apply Hsame.
Qed.

(** Everything that landed or may still land. *)
Definition traffic (s : sys) : list ((string * string) * Z) :=
  sy_log s ++ ((fun p => (pb_stream p, pb_sequence p)) <$> sy_flight s).

(** Only events of the outbox are published. *)
Lemma sys_step_traffic s s' x :
  sys_inv conf lag s -> sys_step conf lag s s' -> x ∈ traffic s' ->
  x ∈ traffic s \/ exists i r, db_outbox (sy_db s) !! i = Some r /\
    stream_position (er_data r) = Some (x.1.1, x.1.2, x.2).
Proof.
  unfold traffic. intros Hs H. destruct H; cbn [sy_log sy_flight]; try by left.
  - rewrite fmap_app. intros [Hx|[Hx|Hx]%elem_of_app]%elem_of_app; [set_solver..|].
    apply list_elem_of_singleton in Hx as ->. right. cbn [pb_stream pb_sequence fst snd].
    apply BeginOrderedAttempt_ok in H1 as (r & Hr & Ha & _). exists (ID ev), r. split; [done|].
    destruct (H0 r Hr) as (HD & _ & _ & _ & _ & _ & HK & HS & _).
    destruct (inflight_position _ _ _ (si_outbox _ _ _ Hs) H0 H Hr
      (proj2 (attempt_allowed_inflight _ _ _ _ _ _ _ Ha))) as (st & _ & Hn & _ & _).
    pose proof (inv_row _ (si_outbox _ _ _ Hs) _ _ Hr) as Hok. apply event_row_ok_spec in Hok as (Hok & _).
    unfold event_data_ok in Hok. apply andb_true_iff in Hok as [_ Hord].
    unfold outbox_ordering_state_check in Hord. unfold stream_position.
    destruct (ed_ordering_key (er_data r)) as [k|]; [|done].
    destruct (ed_ordering_sequence (er_data r)) as [m|]; [|done].
    cbn [deref default from_option Datatypes.id] in HK, HS. congruence.
  - intros [[Hx|Hx%list_elem_of_singleton]%elem_of_app|Hx]%elem_of_app; left; rewrite H.
    + set_solver.
    + subst x. rewrite fmap_app. set_solver.
    + apply elem_of_app. right. apply list_elem_of_fmap in Hx as (q & -> & Hq).
      apply list_elem_of_fmap. exists q. split; [done|].
      apply elem_of_app in Hq as [[_ Hq]%list_elem_of_filter|Hq]; set_solver.
  - intros Hx. left. rewrite H. rewrite !fmap_app in *. set_solver.
Qed.

Lemma delivered_landed s i r :
  sys_inv conf lag s -> db_outbox (sy_db s) !! i = Some r -> er_status r = Delivered ->
  landed (er_data r) s.
Proof.
  intros Hs Hr Hd dest key n Hp.
  destruct (inv_cursor _ (si_outbox _ _ _ Hs) _ _ _ _ _ Hr Hp) as (st & Hst & _ & Hn & Hc).
  rewrite Hd in Hc. cbn in Hc. apply (si_passed _ _ _ Hs _ _ _ Hst). lia.
Qed.

Lemma landed_step data s s' : sys_step conf lag s s' -> landed data s -> landed data s'.
Proof. intros Hs%sys_step_log H dest key n Hp. by apply Hs, H. Qed.

Lemma accounted_step s0 i r0 s s' :
  sys_inv conf lag s -> rtc (sys_step conf lag) s0 s -> sys_step conf lag s s' ->
  accounted (sys_step conf lag) s0 i r0 s -> accounted (sys_step conf lag) s0 i r0 s'.
Proof.
  intros Hs H0 H [(r & Hr & Hd)|(Hl & s1 & r1 & H1 & H2 & Hx)].
  - destruct (sys_step_durable s s' Hs H i r Hr) as [(r' & Hr' & Hd')|[_ Hdel]].
    + left. exists r'. split; [done|congruence].
    + right. rewrite <- Hd. split; [by eapply landed_step, delivered_landed|].
      exists s, r. split_and!; try done. by apply rtc_once.
  - right. split; [by eapply landed_step|]. exists s1, r1. split_and!; try done; try apply Hx.
    by eapply rtc_r.
Qed.
End runs.

(** Every event committed in a reachable state is accounted for ever after. *)
Lemma event_accounted conf lag t0 s s' i r :
  0 <= lag -> (forall o, valid_config (conf o)) ->
  (forall o, intervalMS (PublishTimeout (conf o)) * Millisecond + OrderingSafetyMargin (conf o)
             < 2 ^ 63) ->
  rtc (sys_step conf lag) (sys_init t0) s -> rtc (sys_step conf lag) s s' ->
  db_outbox (sy_db s) !! i = Some r ->
  accounted (sys_step conf lag) s i r s' /\
  (forall r', db_outbox (sy_db s') !! i = Some r' -> er_status r' = Delivered -> landed (er_data r') s').
Proof.
  intros Hlag Hconf Hsum H0 Hr Hrow.
  pose proof (fun s Hs => sys_inv_reachable conf lag Hlag Hconf Hsum t0 s Hs) as Hinv. split.
  - revert s' Hr. apply rtc_ind_r; [left; eauto|]. intros s1 s2 H1 Hstep IH.
    eapply (accounted_step _ _ s i r s1); eauto. apply Hinv. by transitivity s.
  - intros r' Hr' Hd. eapply delivered_landed; eauto. apply Hinv. by transitivity s.
Qed.

(** * Properties *)

(** C3: At least once. From the moment an event is committed to the outbox, and
    however relays, handoffs, operators and retention proceed, its row is there
    with the same immutable columns, or it was delivered at some point since; an
    ordered event is delivered, or gone, only after its record is in the
    broker's log. *)
Theorem no_event_lost conf lag t0 s s' i r :
  0 <= lag -> (forall o, valid_config (conf o)) ->
  (forall o, intervalMS (PublishTimeout (conf o)) * Millisecond + OrderingSafetyMargin (conf o)
             < 2 ^ 63) ->
  rtc (sys_step conf lag) (sys_init t0) s -> rtc (sys_step conf lag) s s' ->
  db_outbox (sy_db s) !! i = Some r ->
  accounted (sys_step conf lag) s i r s' /\
  (forall r', db_outbox (sy_db s') !! i = Some r' -> er_status r' = Delivered -> landed (er_data r') s').
Proof. apply event_accounted. Qed.

(** Of the two events of [System.Demo], the first is published twice across a
    takeover and then delivered; an hour later retention removes its row. *)
Definition retained : sys :=
  MkSys Demo.t3 (CleanupDelivered Demo.d14 ∅ (Demo.t3 + Hour) Second 10).1 []
    [Demo.record 1; Demo.record 1; Demo.record 2].

Lemma reach_retained : rtc (sys_step Demo.conf 0) Demo.publishing retained.
Proof.
  transitivity Demo.published; [exact Demo.publishing_published|].
  apply rtc_once, (s_db _ _ Demo.published), d_cleanup.
Qed.

Lemma no_event_lost_witness :
  exists r, db_outbox (sy_db Demo.publishing) !! 21%N = Some r /\
    db_outbox (sy_db retained) !! 21%N = None /\
    accounted (sys_step Demo.conf 0) Demo.publishing 21%N r retained /\
    stream_position (er_data r) = Some ("orders", "k", 1)%string.
Proof.
  destruct (db_outbox (sy_db Demo.publishing) !! 21%N) as [r|] eqn:E; [|vm_compute in E; discriminate].
  exists r. split; [reflexivity|]. split; [vm_compute; reflexivity|]. split.
  - exact (proj1 (no_event_lost Demo.conf 0 0 Demo.publishing retained 21%N r (Z.le_refl 0) Demo.conf_ok
      Demo.conf_sum Demo.reach_publishing reach_retained E)).
  - vm_compute in E. injection E as <-. reflexivity.
Defined.
End Durability.
