(* ===== verification/Ecommerce.v ===== *)
(** * The example shop ([examples/ecommerce/main.go])

    A service that writes its own rows and its events in one transaction: the
    order handlers, the payment handler of its managed consumer, and the shop
    running beside relays, operators and other producers. *)
From Stdlib Require Import ZArith String.
From stdpp Require Import base gmap strings list sorting fin_maps sets relations.
From S2P Require Import Prelude GoStrings Ordering Schema Invariant Samples OutboxStore.
From S2P Require Import OrderedStore PartitionStore Presence Tx Outbox RelayConfig Relay PgStore.
From S2P Require Import AdminTypes AdminService System Durability.

Module Ecommerce.
Import Durability.

Open Scope Z_scope.
Open Scope emitlane_scope.

(** [public.orders] and [public.payments], keyed by their primary keys. *)
Record order_row : Type := MkOrder {
  or_amount : Z;
  or_status : string;
  or_version : Z;
  or_created_at : time;
}.
Record payment_row : Type := MkPayment { py_amount : Z; py_created_at : time }.

Record shop : Type := MkShop {
  sh_orders : gmap string order_row;
  sh_payments : gmap string payment_row;
}.

(** The tables of the shop and of EmitLane are one database. *)
Record store : Type := MkStore { st_shop : shop; st_db : db }.

Inductive response : Type :=
| Status (code : Z) (message : string)
| CreatedOrder (id : string) (amount : Z)
| PaidOrder (id : string) (version : Z)
| OrderView (id : string) (amount : Z) (status : string) (version : Z)
| PaymentView (order_id : string) (amount : Z).

Definition internalError : response := Status 500 "internal server error".

(** What the connection does to one request: [pool.Begin] and the statement on
    the shop's table may fail, the statements of [Enqueue] may fail, and the
    commit may fail or succeed without its reply. *)
Record fate : Type := MkFate {
  ft_now : time;
  ft_begin : bool;
  ft_statement : bool;
  ft_enqueue : bool;
  ft_commit : fault;
}.

(** [INTEGER] *)
Definition int32_ok (z : Z) : bool := (- 2 ^ 31 <=? z) && (z <? 2 ^ 31).

(** [INSERT INTO public.orders (id, amount) VALUES ($1, $2)] *)
Definition insert_order (sh : shop) (now : time) (id : string) (amount : Z) : res shop :=
  fail_if negb (pg_text_ok id) with ErrSQL InvalidText;
  fail_if negb (int32_ok amount) with ErrSQL OutOfRange;
  match sh_orders sh !! id with
  | Some _ => Err (ErrSQL (UniqueViolation "orders_pkey"))
  | None => Ok (MkShop (<[id := MkOrder amount "created" 1 now]> (sh_orders sh)) (sh_payments sh))
  end.

(** [UPDATE public.orders SET status='paid', version=version+1
     WHERE id=$1 AND status='created' RETURNING amount, version] *)
Definition mark_paid (sh : shop) (id : string) : res (option (shop * Z * Z)) :=
  fail_if negb (pg_text_ok id) with ErrSQL InvalidText;
  match sh_orders sh !! id with
  | Some o =>
      if String.eqb (or_status o) "created" then
        fail_if negb (int64_ok (or_version o + 1)) with ErrSQL OutOfRange;
        Ok (Some (MkShop (<[id := MkOrder (or_amount o) "paid" (or_version o + 1) (or_created_at o)]>
                            (sh_orders sh)) (sh_payments sh), or_amount o, or_version o + 1))
      else Ok None
  | None => Ok None
  end.

Section handlers.
(** [encoding/json] on the request body and on [orderCreated], [uuid] and the
    trace of the request's context. *)
Context (decode_amount : string -> option Z) (order_JSON : string -> Z -> res string).
Context (order_Unmarshal : string -> option (string * Z)).
Context (uuid_Parse : string -> option uuid) (uuid_String : uuid -> string) (trace : string * string).
Context (topic : string).

Definition order_key (orderID : string) : string := "order:" +:+ orderID.

Definition order_event (type payload orderID : string) (version : Z) : Writer.Event :=
  {| Writer.ID := ""; Writer.Destination := topic; Writer.Type_ := type; Writer.Key := None;
     Writer.Payload := payload; Writer.ContentType := "application/json"; Writer.Headers := ∅;
     Writer.SchemaVersion := 0; Writer.CorrelationID := ""; Writer.CausationID := "";
     Writer.AvailableAt := None; Writer.OrderingKey := order_key orderID; Writer.Sequence := version;
     Writer.OrderingStartSequence := 0 |}.

(** The rest of both order handlers once the shop's statement succeeded:
    [writer.Enqueue], [tx.Commit], and the deferred rollback on every error. *)
Definition enqueue_commit (f : fate) (idFn : option uuid) (e : Writer.Event) (s : store) (sh' : shop)
    (reply : response) : store * response :=
  if ft_enqueue f then (s, internalError) else
  match Writer.Enqueue uuid_Parse uuid_String trace Writer.NewWriter idFn e (begin_tx (st_db s) (ft_now f)) with
  | (t, Ok _) =>
      let committed := MkStore sh' (commit_tx (st_db s) t) in
      match ft_commit f with
      | NoFault => (committed, reply)
      | FailBefore => (s, internalError)
      | FailAfter => (committed, internalError)
      end
  | (_, Err _) => (s, internalError)
  end.

(** [POST /orders]; [orderID] is [uuid.NewString()]. *)
Definition create_order (f : fate) (orderID : string) (idFn : option uuid) (body : string) (s : store)
  : store * response :=
  match decode_amount body with
  | Some amount =>
      if amount <=? 0 then (s, Status 400 "amount is required") else
      match order_JSON orderID amount with
      | Err _ => (s, internalError)
      | Ok payload =>
          if ft_begin f || ft_statement f then (s, internalError) else
          match insert_order (st_shop s) (ft_now f) orderID amount with
          | Err _ => (s, internalError)
          | Ok sh' => enqueue_commit f idFn (order_event "order.created" payload orderID 1) s sh'
                        (CreatedOrder orderID amount)
          end
      end
  | None => (s, Status 400 "amount is required")
  end.

(** [POST /orders/{id}/paid] *)
Definition pay_order (f : fate) (orderID : string) (idFn : option uuid) (s : store) : store * response :=
  if ft_begin f || ft_statement f then (s, internalError) else
  match mark_paid (st_shop s) orderID with
  | Err _ => (s, internalError)
  | Ok None => (s, Status 409 "order not found or already paid")
  | Ok (Some (sh', amount, version)) =>
      match order_JSON orderID amount with
      | Err _ => (s, internalError)
      | Ok payload => enqueue_commit f idFn (order_event "order.paid" payload orderID version) s sh'
                        (PaidOrder orderID version)
      end
  end.

(** [GET /orders/{id}] and [GET /payments/{order_id}] *)
Definition get_order (failed : bool) (id : string) (s : store) : response :=
  if failed || negb (pg_text_ok id) then internalError else
  match sh_orders (st_shop s) !! id with
  | Some o => OrderView id (or_amount o) (or_status o) (or_version o)
  | None => Status 404 "404 page not found"
  end.
Definition get_payment (failed : bool) (id : string) (s : store) : response :=
  if failed || negb (pg_text_ok id) then internalError else
  match sh_payments (st_shop s) !! id with
  | Some p => PaymentView id (py_amount p)
  | None => Status 404 "404 page not found"
  end.

(** [handlePayment], in the consumer's transaction. *)
Definition handlePayment (now : time) (payload : string) (sh : shop) : res shop :=
  match order_Unmarshal payload with
  | None => Err (ErrOther "json")
  | Some (orderID, amount) =>
      fail_if negb (pg_text_ok orderID) with ErrSQL InvalidText;
      fail_if negb (int32_ok amount) with ErrSQL OutOfRange;
      match sh_payments sh !! orderID with
      | Some _ => Ok sh
      | None => Ok (MkShop (sh_orders sh) (<[orderID := MkPayment amount now]> (sh_payments sh)))
      end
  end.

(** ** The shop beside the delivery system *)

Record world : Type := MkWorld { w_shop : shop; w_sys : sys }.

Definition with_db (s : sys) (d : db) : sys := MkSys (sy_clock s) d (sy_flight s) (sy_log s).
Definition store_of (w : world) : store := MkStore (w_shop w) (sy_db (w_sys w)).
Definition set_store (w : world) (st : store) : world := MkWorld (st_shop st) (with_db (w_sys w) (st_db st)).

(** Other producers keep away from the streams of the orders. *)
Record foreign (s s' : sys) : Prop := {
  fo_rows : forall i r id n, db_outbox (sy_db s') !! i = Some r ->
    stream_position (er_data r) = Some (topic, order_key id, n) ->
    exists r0, db_outbox (sy_db s) !! i = Some r0 /\ er_data r0 = er_data r;
  fo_streams : forall id, is_Some (db_streams (sy_db s') !! (topic, order_key id)) ->
    is_Some (db_streams (sy_db s) !! (topic, order_key id));
}.

Context (conf : string -> Config) (lag : duration).

Inductive world_step : world -> world -> Prop :=
| e_create w f orderID idFn body :
    world_step w (set_store w (create_order f orderID idFn body (store_of w)).1)
| e_pay w f orderID idFn :
    world_step w (set_store w (pay_order f orderID idFn (store_of w)).1)
| e_payment w now payload sh' : handlePayment now payload (w_shop w) = Ok sh' ->
    world_step w (MkWorld sh' (w_sys w))
| e_other w s' : sys_step conf lag (w_sys w) s' -> foreign (w_sys w) s' ->
    world_step w (MkWorld (w_shop w) s').

Definition world_init (now : time) : world := MkWorld (MkShop ∅ ∅) (sys_init now).

(** *** Lemmas *)

Lemma order_key_inj a b : order_key a = order_key b -> a = b.
Proof. unfold order_key. by intros [=]. Qed.

(** Both handlers leave the store alone or commit the shop's change with
    exactly one event. *)
Definition committed (f : fate) (idFn : option uuid) (e : Writer.Event) (s : store) (sh' : shop)
    (st : store) : Prop :=
  exists t sid, Writer.Enqueue uuid_Parse uuid_String trace Writer.NewWriter idFn e
                  (begin_tx (st_db s) (ft_now f)) = (t, Ok sid) /\
                st = MkStore sh' (commit_tx (st_db s) t).

Lemma enqueue_commit_cases f idFn e s sh' reply :
  (enqueue_commit f idFn e s sh' reply).1 = s \/
  committed f idFn e s sh' (enqueue_commit f idFn e s sh' reply).1.
Proof.
  unfold enqueue_commit, committed. case_match; [by left|].
  destruct (Writer.Enqueue _ _ _ _ _ _ _) as [t [sid|]] eqn:E; [|by left].
  destruct (ft_commit f); [right|by left|right]; eauto.
Qed.

(** An order after its [version]-th change. *)
Definition order_type (version : Z) : string := if version =? 1 then "order.created" else "order.paid".
Definition order_status (version : Z) : string := if version =? 1 then "created" else "paid".

Record order_change (sh : shop) (id payload : string) (o : order_row) (sh' : shop) : Prop := {
  oc_shop : sh' = MkShop (<[id := o]> (sh_orders sh)) (sh_payments sh);
  oc_status : or_status o = order_status (or_version o);
  oc_payload : order_JSON id (or_amount o) = Ok payload;
  oc_before : (sh_orders sh !! id = None /\ or_version o = 1) \/
    exists o0, sh_orders sh !! id = Some o0 /\ or_amount o0 = or_amount o /\ or_version o0 = 1 /\
      or_version o = 2;
}.

Lemma create_order_cases f id idFn body s :
  (create_order f id idFn body s).1 = s \/
  exists payload o sh', order_change (st_shop s) id payload o sh' /\
    committed f idFn (order_event (order_type (or_version o)) payload id (or_version o)) s sh'
      (create_order f id idFn body s).1.
Proof.
  unfold create_order. destruct (decode_amount body) as [amount|]; [|by left].
  case_match; [by left|]. destruct (order_JSON id amount) as [payload|] eqn:Ej; [|by left].
  case_match; [by left|]. destruct (insert_order _ _ _ _) as [sh'|] eqn:Ei; [|by left].
  destruct (enqueue_commit_cases f idFn (order_event "order.created" payload id 1) s sh'
    (CreatedOrder id amount)) as [Hc|Hc]; [by left|right].
  unfold insert_order in Ei. do 2 (destruct_match Ei; [done|]).
  destruct (sh_orders (st_shop s) !! id) eqn:Eo; [done|]. simplify_eq.
  eexists payload, (MkOrder amount "created" 1 (ft_now f)), _. split; [|exact Hc].
  split; auto.
Qed.

Definition order_ok (o : order_row) : Prop :=
  1 <= or_version o <= 2 /\ or_status o = order_status (or_version o).

Lemma pay_order_cases f id idFn s :
  (forall o, sh_orders (st_shop s) !! id = Some o -> order_ok o) ->
  (pay_order f id idFn s).1 = s \/
  exists payload o sh', order_change (st_shop s) id payload o sh' /\
    committed f idFn (order_event (order_type (or_version o)) payload id (or_version o)) s sh'
      (pay_order f id idFn s).1.
Proof.
  intros Hok. unfold pay_order. case_match; [by left|].
  destruct (mark_paid _ _) as [[[[sh' amount] version]|]|] eqn:Em; [|by left..].
  destruct (order_JSON id amount) as [payload|] eqn:Ej; [|by left].
  destruct (enqueue_commit_cases f idFn (order_event "order.paid" payload id version) s sh'
    (PaidOrder id version)) as [Hc|Hc]; [by left|right].
  unfold mark_paid in Em. destruct_match Em; [done|].
  destruct (sh_orders (st_shop s) !! id) as [o|] eqn:Eo; [|done].
  destruct (String.eqb_spec (or_status o) "created") as [Es|]; [|done]. destruct_match Em; [done|].
  destruct (Hok o eq_refl) as [Hv Hs]. assert (or_version o = 1) as Hv1.
  { rewrite Es in Hs. unfold order_status in Hs. destruct (Z.eqb_spec (or_version o) 1); [done|discriminate]. }
  rewrite Hv1 in Em. simplify_eq. eexists payload, (MkOrder (or_amount o) "paid" 2 (or_created_at o)), _.
  split; [|exact Hc]. split; [done..|]. right. by exists o.
Qed.

Lemma with_db_same s : with_db s (sy_db s) = s.
Proof. by destruct s. Qed.

Lemma set_store_same w : set_store w (store_of w) = w.
Proof. destruct w as [sh s]. unfold set_store, store_of. cbn. by rewrite with_db_same. Qed.

Lemma committed_step f idFn e w sh' st :
  committed f idFn e (store_of w) sh' st -> sys_step conf lag (w_sys w) (with_db (w_sys w) (st_db st)).
Proof.
  intros (t & sid & Ht & ->). cbn [store_of st_db] in *. apply s_db.
  replace t with (t, Ok (E := error) sid).1 by done. rewrite <- Ht. apply d_enqueue.
Qed.

(** The event of the [n]-th change of an order. *)
Definition describes (id : string) (amount n : Z) (data : event_data) : Prop :=
  stream_position data = Some (topic, order_key id, n) /\
  ed_event_type data = order_type n /\ order_JSON id amount = Ok (ed_payload data).

Definition stored (d : db) (id : string) (amount n : Z) : Prop :=
  exists i r, db_outbox d !! i = Some r /\ describes id amount n (er_data r).
Definition passed (d : db) (id : string) (n : Z) : Prop :=
  exists st, db_streams d !! (topic, order_key id) = Some st /\ n < sr_next_sequence st.

Record order_inv (w : world) : Prop := {
  oi_order : forall id o, sh_orders (w_shop w) !! id = Some o -> order_ok o;
  oi_event : forall id o n, sh_orders (w_shop w) !! id = Some o -> 1 <= n <= or_version o ->
    passed (sy_db (w_sys w)) id n \/ stored (sy_db (w_sys w)) id (or_amount o) n;
  oi_row : forall id n i r, db_outbox (sy_db (w_sys w)) !! i = Some r ->
    stream_position (er_data r) = Some (topic, order_key id, n) ->
    exists o, sh_orders (w_shop w) !! id = Some o /\ n <= or_version o /\
              describes id (or_amount o) n (er_data r);
  oi_stream : forall id st, db_streams (sy_db (w_sys w)) !! (topic, order_key id) = Some st ->
    is_Some (sh_orders (w_shop w) !! id) /\ sr_start_sequence st = 1;
  oi_traffic : forall id n, ((topic, order_key id), n) ∈ traffic (w_sys w) ->
    exists o, sh_orders (w_shop w) !! id = Some o /\ n <= or_version o;
}.

(** What an [Enqueue] of the shop does to the database. *)
Record appended (d d' : db) (id : string) (amount n : Z) : Prop := {
  ap_rows : exists i r, db_outbox d !! i = None /\ db_outbox d' = <[i := r]> (db_outbox d) /\
    describes id amount n (er_data r);
  ap_streams : streams_ext d d';
  ap_others : forall k, k <> (topic, order_key id) -> db_streams d' !! k = db_streams d !! k;
  ap_cursor : exists st, db_streams d' !! (topic, order_key id) = Some st /\ sr_next_sequence st <= n /\
    1 <= sr_start_sequence st;
}.

Lemma committed_appended f idFn w id payload o sh' st :
  db_inv (sy_db (w_sys w)) -> order_change (w_shop w) id payload o sh' ->
  committed f idFn (order_event (order_type (or_version o)) payload id (or_version o)) (store_of w) sh' st ->
  st_shop st = sh' /\ appended (sy_db (w_sys w)) (st_db st) id (or_amount o) (or_version o).
Proof.
  intros Hinv [_ _ Hj _] (t & sid & Ht & ->). split; [done|]. cbn [store_of st_db] in *.
  pose proof (lease_frame_enqueue uuid_Parse uuid_String trace Writer.NewWriter idFn
    (order_event (order_type (or_version o)) payload id (or_version o)) (sy_db (w_sys w)) (ft_now f))
    as (_ & Hext & _). rewrite Ht in Hext. cbn [fst] in Hext.
  apply Writer.Enqueue_effect in Ht; [|apply Hinv].
  destruct Ht as (Ho' & Ha & _ & i & r & _ & _ & Hf & Hout & _ & _ & _ & _ & _ & Hty & Hpl & _ & Hk).
  unfold commit_tx in *. rewrite Ha in *. change (Writer.is_empty _) with false in Hk.
  destruct Hk as (Hpos & _ & _ & (s & Hs & Hn) & Hoth). split; try done.
  - exists i, r. split; [done|]. split; [done|]. unfold describes. rewrite Hpl. by split_and!.
  - exists s. split_and!; try done. destruct (inv_stream _ Ho' _ _ _ Hs) as [Hok _].
    unfold stream_row_ok in Hok. bool_to_prop. lia.
Qed.

Lemma stored_insert d d' i r0 id amount n :
  db_outbox d !! i = None -> db_outbox d' = <[i := r0]> (db_outbox d) ->
  stored d id amount n -> stored d' id amount n.
Proof.
  intros Hi Hd (j & r & Hj & Hr). exists j, r. split; [|done]. rewrite Hd, lookup_insert_ne; [done|].
  intros <-. congruence.
Qed.

Lemma passed_ext d d' id n : streams_ext d d' -> passed d id n -> passed d' id n.
Proof. intros [H _] (st & Hst & Hn). exists st. split; [by apply H|done]. Qed.

Lemma passed_grow d d' id n : streams_grow d d' -> passed d id n -> passed d' id n.
Proof.
  intros H (st & Hst & Hn). destruct (H _ _ Hst) as (st' & Hst' & _ & Hle). exists st'. split; [done|lia].
Qed.

(** An order that exists has its stream. *)
Lemma order_stream w id o :
  order_inv w -> db_inv (sy_db (w_sys w)) -> sh_orders (w_shop w) !! id = Some o ->
  is_Some (db_streams (sy_db (w_sys w)) !! (topic, order_key id)).
Proof.
  intros H Hinv Ho. destruct (oi_order _ H _ _ Ho) as [Hv _].
  destruct (oi_event _ H _ _ 1 Ho) as [(st & Hst & _)|(i & r & Hr & Hp & _)]; [lia|by exists st|].
  destruct (inv_cursor _ (inv_outbox _ Hinv) _ _ _ _ _ Hr Hp) as (st & Hst & _). by exists st.
Qed.

Section write.
Context (w : world) (id payload : string) (o : order_row) (sh' : shop) (d' : db).
Context (Hw : order_inv w) (Hinv : db_inv (sy_db (w_sys w))).
Context (Hc : order_change (w_shop w) id payload o sh').
Context (Ha : appended (sy_db (w_sys w)) d' id (or_amount o) (or_version o)).

Lemma write_before n o' :
  sh_orders (w_shop w) !! id = Some o' -> n <= or_version o' ->
  or_amount o' = or_amount o /\ n < or_version o.
Proof.
  intros Ho Hn. destruct (oc_before _ _ _ _ _ Hc) as [[Hx _]|(o0 & Hx & ? & ? & ?)]; [congruence|].
  rewrite Hx in Ho. injection Ho as <-. split; [done|lia].
Qed.

Lemma write_lookup id' o' :
  sh_orders sh' !! id' = Some o' -> (id' = id /\ o' = o) \/ (id' <> id /\ sh_orders (w_shop w) !! id' = Some o').
Proof.
  rewrite (oc_shop _ _ _ _ _ Hc). cbn. rewrite lookup_insert. case_decide as E; [|auto].
  intros [= <-]. auto.
Qed.

Lemma write_order id' o' : sh_orders sh' !! id' = Some o' -> order_ok o'.
Proof.
  intros [[-> ->]|[_ H]]%write_lookup; [|by eapply oi_order].
  split; [|apply (oc_status _ _ _ _ _ Hc)].
  destruct (oc_before _ _ _ _ _ Hc) as [[_ ->]|(o0 & _ & _ & _ & ->)]; lia.
Qed.

Lemma write_event id' o' n :
  sh_orders sh' !! id' = Some o' -> 1 <= n <= or_version o' ->
  passed d' id' n \/ stored d' id' (or_amount o') n.
Proof.
  intros Ho Hn. destruct (ap_rows _ _ _ _ _ Ha) as (i & r & Hi & Hd & Hr).
  assert (forall o1, sh_orders (w_shop w) !! id' = Some o1 -> n <= or_version o1 ->
    passed d' id' n \/ stored d' id' (or_amount o1) n) as Hold.
  { intros o1 H1 Hn1. destruct (oi_event _ Hw _ _ n H1) as [Hp|Hp]; [lia| |].
    - left. eapply passed_ext; [apply Ha|done].
    - right. by eapply stored_insert. }
  destruct (write_lookup _ _ Ho) as [[-> ->]|[_ H]]; [|apply Hold; [done|lia]].
  destruct (decide (n = or_version o)) as [->|Hne]; [right; exists i, r; by rewrite Hd, lookup_insert_eq|].
  destruct (oc_before _ _ _ _ _ Hc) as [[_ Hv]|(o0 & H0 & Hamt & Hv0 & Hv)]; [lia|].
  rewrite <- Hamt. apply Hold; [done|lia].
Qed.

Lemma write_row id' n i r :
  db_outbox d' !! i = Some r -> stream_position (er_data r) = Some (topic, order_key id', n) ->
  exists o', sh_orders sh' !! id' = Some o' /\ n <= or_version o' /\
             describes id' (or_amount o') n (er_data r).
Proof.
  destruct (ap_rows _ _ _ _ _ Ha) as (j & r0 & Hj & -> & Hr0). rewrite (oc_shop _ _ _ _ _ Hc).
  cbn [sh_orders]. rewrite lookup_insert. case_decide as E.
  - intros [= <-] Hp. pose proof Hr0 as (Hp0 & _). rewrite Hp0 in Hp.
    assert (order_key id = order_key id' /\ or_version o = n) as [Hk <-] by (split; congruence).
    apply order_key_inj in Hk as <-. exists o. rewrite lookup_insert_eq. split; [done|]. split; [lia|done].
  - intros Hr Hp. destruct (oi_row _ Hw _ _ _ _ Hr Hp) as (o' & Ho' & Hn & Hd).
    destruct (decide (id' = id)) as [->|Hne].
    + exists o. rewrite lookup_insert_eq. destruct (write_before n o' Ho' Hn) as [<- Hlt].
      split; [done|]. split; [lia|done].
    + exists o'. by rewrite lookup_insert_ne.
Qed.

Lemma write_stream id' st :
  db_streams d' !! (topic, order_key id') = Some st ->
  is_Some (sh_orders sh' !! id') /\ sr_start_sequence st = 1.
Proof.
  rewrite (oc_shop _ _ _ _ _ Hc). cbn [sh_orders]. destruct (decide (id' = id)) as [->|Hne].
  - intros Hst. split; [rewrite lookup_insert_eq; eauto|].
    destruct (proj2 (ap_streams _ _ _ _ _ Ha) _ _ Hst) as [Hst0|[Hnone Heq]]; [by eapply oi_stream|].
    destruct (ap_cursor _ _ _ _ _ Ha) as (st' & Hst' & Hle & H1). rewrite Hst in Hst'. simplify_eq.
    destruct (oc_before _ _ _ _ _ Hc) as [[_ Hv]|(o0 & H0 & _)]; [lia|].
    destruct (order_stream _ _ _ Hw Hinv H0) as [? Hx]. congruence.
  - intros Hst. rewrite (ap_others _ _ _ _ _ Ha) in Hst; [|intros Hx; apply Hne, order_key_inj; congruence].
    rewrite lookup_insert_ne by done. by eapply oi_stream.
Qed.

Lemma order_inv_write : order_inv (MkWorld sh' (with_db (w_sys w) d')).
Proof.
  split; cbn [w_shop w_sys with_db sy_db].
  - apply write_order.
  - apply write_event.
  - apply write_row.
  - apply write_stream.
  - intros id' n Hn. destruct (oi_traffic _ Hw id' n Hn) as (o' & Ho' & Hle).
    rewrite (oc_shop _ _ _ _ _ Hc). cbn [sh_orders]. destruct (decide (id' = id)) as [->|Hne].
    + exists o. rewrite lookup_insert_eq. split; [done|]. destruct (write_before n o' Ho' Hle). lia.
    + exists o'. by rewrite lookup_insert_ne.
Qed.
End write.

Lemma order_inv_other w s' :
  order_inv w -> sys_inv conf lag (w_sys w) -> sys_step conf lag (w_sys w) s' -> foreign (w_sys w) s' ->
  order_inv (MkWorld (w_shop w) s').
Proof.
  intros Hw Hs Hstep [Hrows Hstreams]. pose proof (sys_step_durable _ _ _ _ Hs Hstep) as Hdur.
  pose proof (sys_step_streams _ _ _ _ Hs Hstep) as Hgrow. split; cbn [w_shop w_sys].
  - apply Hw.
  - intros id o n Ho Hn. destruct (oi_event _ Hw _ _ n Ho Hn) as [Hp|(i & r & Hr & Hd)];
      [left; by eapply passed_grow|].
    destruct (Hdur i r Hr) as [(r' & Hr' & He)|[_ Hdel]].
    + right. exists i, r'. by rewrite He.
    + left. eapply passed_grow; [done|]. destruct Hd as (Hp & _).
      destruct (inv_cursor _ (si_outbox _ _ _ Hs) _ _ _ _ _ Hr Hp) as (st & Hst & _ & _ & Hcur).
      rewrite Hdel in Hcur. by exists st.
  - intros id n i r Hr Hp. destruct (Hrows i r id n Hr Hp) as (r0 & Hr0 & He). rewrite <- He in *.
    by eapply (oi_row _ Hw id n i r0).
  - intros id st Hst. destruct (Hstreams id (ex_intro _ st Hst)) as [st0 Hst0].
    destruct (oi_stream _ Hw id st0 Hst0) as [Ho H1]. split; [done|].
    destruct (Hgrow _ _ Hst0) as (st' & Hst' & Hse & _). rewrite Hst in Hst'. simplify_eq. by rewrite Hse.
  - intros id n Hn. destruct (sys_step_traffic _ _ _ _ _ Hs Hstep Hn) as [Ht|(i & r & Hr & Hp)];
      [by apply (oi_traffic _ Hw)|].
    destruct (oi_row _ Hw id n i r Hr Hp) as (o & Ho & Hle & _). eauto.
Qed.

Lemma order_inv_init now : order_inv (world_init now).
Proof.
  split; cbn; intros *; rewrite ?lookup_empty; try done. unfold traffic. cbn. by intros ?%elem_of_nil.
Qed.

(** A write of the shop, or no change. *)
Lemma order_inv_store f idFn w st :
  order_inv w -> sys_inv conf lag (w_sys w) ->
  st = store_of w \/ (exists id payload o sh', order_change (w_shop w) id payload o sh' /\
    committed f idFn (order_event (order_type (or_version o)) payload id (or_version o)) (store_of w) sh' st) ->
  order_inv (set_store w st) /\ rtc (sys_step conf lag) (w_sys w) (w_sys (set_store w st)).
Proof.
  intros Hw Hs [->|(id & payload & o & sh' & Hc & Hm)].
  { rewrite set_store_same. by split. }
  pose proof (sys_inv_database _ _ _ Hs) as Hinv.
  destruct (committed_appended _ _ _ _ _ _ _ _ Hinv Hc Hm) as [Hst Ha]. split.
  - unfold set_store. rewrite Hst. by eapply order_inv_write.
  - apply rtc_once. by eapply committed_step.
Qed.

Lemma shop_step_inv w w' :
  world_step w w' -> order_inv w -> sys_inv conf lag (w_sys w) ->
  order_inv w' /\ rtc (sys_step conf lag) (w_sys w) (w_sys w').
Proof.
  intros H Hw Hs. destruct H as [w f id idFn body|w f id idFn|w now payload sh' H|w s' H Hf].
  - apply (order_inv_store f idFn); [done..|].
    destruct (create_order_cases f id idFn body (store_of w)) as [H|H]; [by left|right; by exists id].
  - apply (order_inv_store f idFn); [done..|].
    destruct (pay_order_cases f id idFn (store_of w) (oi_order _ Hw id)) as [H|H];
      [by left|right; by exists id].
  - split; [|done]. unfold handlePayment in H. destruct (order_Unmarshal payload) as [[id amount]|]; [|done].
    do 2 (destruct_match H; [done|]). destruct (sh_payments (w_shop w) !! id); simplify_eq;
      destruct Hw as [H1 H2 H3 H4 H5]; by split.
  - split; [by apply order_inv_other|by apply rtc_once].
Qed.
End handlers.

(** * Properties *)

(** C4: The transactional outbox, from the shop's tables to the broker. Whatever
    requests fail at whatever point, and however relays, operators and other
    producers proceed, in every reachable state each order is [created] at
    version 1 or [paid] at version 2; every change of an order has its event,
    with the type of the change and the order's identifier and amount, in the
    outbox or its record in the broker's log; and the log holds, for the order's
    stream, only changes that were committed. *)
Theorem order_events_exact decode order_JSON unmarshal up us trace topic conf lag t0 w :
  0 <= lag -> (forall o, valid_config (conf o)) ->
  (forall o, intervalMS (PublishTimeout (conf o)) * Millisecond + OrderingSafetyMargin (conf o)
             < 2 ^ 63) ->
  rtc (world_step decode order_JSON unmarshal up us trace topic conf lag) (world_init t0) w ->
  (forall id o, sh_orders (w_shop w) !! id = Some o ->
     order_ok o /\ forall n, 1 <= n <= or_version o ->
       stored order_JSON topic (sy_db (w_sys w)) id (or_amount o) n \/
       ((topic, order_key id), n) ∈ sy_log (w_sys w)) /\
  (forall id n, ((topic, order_key id), n) ∈ sy_log (w_sys w) ->
     exists o, sh_orders (w_shop w) !! id = Some o /\ 1 <= n <= or_version o).
Proof.
  intros Hlag Hconf Hsum Hr.
  assert (order_inv order_JSON topic w /\ rtc (sys_step conf lag) (sys_init t0) (w_sys w)) as [Hw Hreach].
  { revert w Hr. apply rtc_ind_r; [split; [apply order_inv_init|done]|].
    intros w w' _ Hstep [Hw Hreach]. destruct (shop_step_inv _ _ _ _ _ _ _ _ _ _ _ Hstep Hw) as [Hw' Hs'].
    - by eapply sys_inv_reachable.
    - split; [done|by transitivity (w_sys w)]. }
  destruct (sys_inv_reachable conf lag Hlag Hconf Hsum t0 _ Hreach) as [_ _ _ _ _ _ _ Hlog _ Hpass _ _].
  split.
  - intros id o Ho. split; [by eapply oi_order|]. intros n Hn.
    destruct (oi_event _ _ _ Hw id o n Ho Hn) as [(st & Hst & Hlt)|Hst]; [right|by left].
    apply (Hpass _ st); [done|]. destruct (oi_stream _ _ _ Hw id st Hst) as [_ ->]. lia.
  - intros id n Hn. destruct (oi_traffic _ _ _ Hw id n) as (o & Ho & Hle); [apply elem_of_app; by left|].
    exists o. split; [done|]. destruct (Hlog _ _ Hn) as (st & Hst & Hb & _).
    destruct (oi_stream _ _ _ Hw id st Hst) as [_ H1]. lia.
Qed.

(** The payment handler is idempotent: handling a message again, at any time and
    after any other payments, changes nothing, and no payment is ever altered. *)
Theorem payment_idempotent unmarshal now now' payload sh sh1 :
  handlePayment unmarshal now payload sh = Ok sh1 ->
  handlePayment unmarshal now' payload sh1 = Ok sh1 /\ sh_orders sh1 = sh_orders sh /\
  sh_payments sh ⊆ sh_payments sh1.
Proof.
  unfold handlePayment. destruct (unmarshal payload) as [[id amount]|]; [|done].
  destruct (negb (pg_text_ok id)); [done|]. destruct (negb (int32_ok amount)); [done|].
  destruct (sh_payments sh !! id) as [p|] eqn:E; intros [= <-]; cbn; [by rewrite E|].
  rewrite lookup_insert_eq. split_and!; [done..|]. by apply insert_subseteq.
Qed.

(** * A concrete run *)

Module Demo.
Import System.Demo.

Lemma foreign_same topic s s' :
  db_outbox (sy_db s') = db_outbox (sy_db s) -> db_streams (sy_db s') = db_streams (sy_db s) ->
  foreign topic s s'.
Proof. intros H1 H2. split; intros *; rewrite ?H1, ?H2; eauto. Qed.

Lemma foreign_kept topic s s' :
  data_kept (sy_db s) (sy_db s') -> db_streams (sy_db s') = db_streams (sy_db s) -> foreign topic s s'.
Proof.
  intros H1 H2. split; [|by intros id; rewrite H2].
  intros i r id n Hr _. destruct (H1 i r Hr) as (r0 & Hr0 & ->). eauto.
Qed.

Lemma ClaimOrdered_kept d locked now owner limit lease minimum :
  data_kept d (ClaimOrdered d locked now owner limit lease minimum).1.
Proof. rewrite ClaimOrdered_picked. apply claim_rows_kept. Qed.

Lemma BeginOrderedAttempt_kept d now id owner epoch m minimum :
  data_kept d (BeginOrderedAttempt d now id owner epoch m minimum).1.
Proof.
  unfold BeginOrderedAttempt. case_match; [done|].
  destruct (update_event _ _ _ _ _) as [d' [r|]] eqn:E; by eapply update_kept in E.
Qed.

(** A relay registers, an order is created, the relay publishes its event, the
    payment commits although its reply is lost. *)
Definition decode (body : string) : option Z := Some 500.
Definition encode (id : string) (amount : Z) : res string := Ok id.
Definition unmarshal (payload : string) : option (string * Z) := Some (payload, 500).
#[local] Abbreviation step := (world_step decode encode unmarshal (fun _ => None) (fun _ => "event"%string)
  (""%string, ""%string) "orders" conf 0).

Definition up (commit : fault) : fate := MkFate 0 false false false commit.
Definition created (w : world) : world :=
  set_store w (create_order decode encode (fun _ => None) (fun _ => "event"%string) (""%string, ""%string)
    "orders" (up NoFault) "o1" (Some 31%N) "{}" (store_of w)).1.
Definition paid (w : world) : world :=
  set_store w (pay_order encode (fun _ => None) (fun _ => "event"%string) (""%string, ""%string)
    "orders" (up FailAfter) "o1" (Some 32%N) (store_of w)).1.

Definition w1 : world := MkWorld (MkShop ∅ ∅) (MkSys 0 d1 [] []).
Definition w2 : world := created w1.
Definition b2 : db := sy_db (w_sys w2).
Definition reconciled : db * res (list ordering_partition) :=
  ReconcileOrderingPartitions b2 t1 "relay-1" (OrderingLeaseDuration sample_config)
    (PublishTimeout sample_config) (PresenceStaleAfter sample_config) (OrderingSafetyMargin sample_config).
Definition b3 : db := reconciled.1.
Definition claimed : db * list Event :=
  ClaimOrdered b3 ∅ t1 "relay-1" 1 (LeaseDuration sample_config) (minimum_lease sample_config).
Definition b4 : db := claimed.1.
Definition ev : Event := match claimed.2 with e :: _ => e | [] => sample_first end.
Definition begun : db * res Z :=
  BeginOrderedAttempt b4 t1 (ID ev) "relay-1" (OrderingEpoch ev) (MaxAttempts sample_config)
    (minimum_lease sample_config).
Definition b5 : db := begun.1.
Definition flying : publication :=
  Publication "relay-1" ("orders", "order:o1")%string 1 (t1 + publish_window conf 0 "relay-1").
Definition w3 (d : db) (fl : list publication) (log : list ((string * string) * Z)) : world :=
  MkWorld (w_shop w2) (MkSys t1 d fl log).
Definition w4 : world := w3 b5 [] [(("orders", "order:o1")%string, 1)].
Definition w5 : world := paid w4.

Lemma ev_matches : st_matches b4 ev.
Proof. matches. Qed.

Lemma shop_claim : step (w3 b3 [] []) (w3 b4 [] []).
Proof.
  apply (e_other _ _ _ _ _ _ _ _ _ (w3 b3 [] [])).
  - exact (s_db _ _ (w_sys (w3 b3 [] [])) b4 (d_claim_ordered b3 ∅ t1 "relay-1" 1 (LeaseDuration sample_config)
    (minimum_lease sample_config))).
  - apply foreign_kept; [|vm_compute; reflexivity].
    exact (ClaimOrdered_kept b3 ∅ t1 "relay-1" 1 (LeaseDuration sample_config)
    (minimum_lease sample_config)).
Qed.

Lemma shop_fence : step (w3 b4 [] []) (w3 b5 [flying] []).
Proof.
  apply (e_other _ _ _ _ _ _ _ _ _ (w3 b4 [] [])).
  - apply (s_fence conf 0 (w_sys (w3 b4 [] [])) "relay-1" ev 1 b5);
      [vm_compute; discriminate|exact ev_matches|vm_compute; reflexivity].
  - apply foreign_kept; [|vm_compute; reflexivity].
    exact (BeginOrderedAttempt_kept b4 t1 (ID ev) "relay-1" (OrderingEpoch ev) (MaxAttempts sample_config)
      (minimum_lease sample_config)).
Qed.

Lemma shop_land_any d p log sh :
  t1 < pb_deadline p -> step (MkWorld sh (MkSys t1 d [p] log))
    (MkWorld sh (MkSys t1 d [] (log ++ [(pb_stream p, pb_sequence p)]))).
Proof.
  intros H. apply (e_other _ _ _ _ _ _ _ _ _ (MkWorld sh (MkSys t1 d [p] log))); [|by apply foreign_same].
  by apply (s_land conf 0 (MkSys t1 d [p] log) [] p []).
Qed.

Lemma shop_land : step (w3 b5 [flying] []) w4.
Proof. apply shop_land_any. vm_compute. reflexivity. Qed.

Lemma reach_paid : rtc step (world_init 0) w5.
Proof.
  apply (rtc_l _ _ w1).
  { apply (e_other _ _ _ _ _ _ _ _ _ (world_init 0)); [|by apply foreign_same].
    exact (s_db _ _ (sys_init 0) d1 (d_register _ _ _ _ register_1)). }
  apply (rtc_l _ _ w2); [apply e_create|].
  apply (rtc_l _ _ (w3 b2 [] [])).
  { apply (e_other _ _ _ _ _ _ _ _ _ w2); [|by apply foreign_same]. by apply (s_tick conf 0 (w_sys w2) t1). }
  apply (rtc_l _ _ (w3 b3 [] [])).
  { apply (e_other _ _ _ _ _ _ _ _ _ (w3 b2 [] [])); [|apply foreign_same; vm_compute; reflexivity].
    apply (s_reconcile conf 0 (w_sys (w3 b2 [] [])) t1 "relay-1" b3 (views reconciled));
      [cbn; lia|done|done|vm_compute; reflexivity]. }
  apply (rtc_l _ _ _ _ shop_claim), (rtc_l _ _ _ _ shop_fence), (rtc_l _ _ w4).
  { exact shop_land. }
  apply rtc_once, e_pay.
Qed.

Lemma order_events_exact_witness :
  or_status <$> sh_orders (w_shop w5) !! "o1"%string = Some "paid"%string /\
  (forall n, 1 <= n <= 2 ->
     stored encode "orders" (sy_db (w_sys w5)) "o1" 500 n \/
     (("orders", order_key "o1")%string, n) ∈ sy_log (w_sys w5)).
Proof.
  split; [vm_compute; reflexivity|].
  destruct (sh_orders (w_shop w5) !! "o1"%string) as [o|] eqn:E; [|vm_compute in E; discriminate].
  pose proof (proj2 (proj1 (order_events_exact decode encode unmarshal _ _ _ "orders" conf 0 0 w5
    (Z.le_refl 0) conf_ok conf_sum reach_paid) "o1"%string o E)) as H.
  vm_compute in E. injection E as <-. exact H.
Defined.

Lemma payment_idempotent_witness :
  exists sh, handlePayment unmarshal 5 "o1" (MkShop ∅ ∅) = Ok sh /\ handlePayment unmarshal 9 "o1" sh = Ok sh.
Proof.
  eexists. split; [vm_compute; reflexivity|].
  apply (payment_idempotent unmarshal 5 9 "o1" (MkShop ∅ ∅)). vm_compute. reflexivity.
Defined.
End Demo.
End Ecommerce.
