(* ===== verification/AdminListing.v ===== *)
(** * Complete listings

    A client of the administrative API that follows [next_cursor] until it is
    empty, as the command line does, and what it sees. *)
From Stdlib Require Import ZArith String.
From stdpp Require Import base gmap strings list sorting fin_maps.
From S2P Require Import Prelude GoStrings Base64 Ordering Schema Invariant Samples OutboxStore.
From S2P Require Import Tx Outbox AdminTypes Pages AdminStore AdminService.

Open Scope Z_scope.
Local Open Scope emitlane_scope.

Module Listing.
Import Admin.

#[global] Instance newest_first_trans : Transitive AdminStore.newest_first.
Proof.
  intros [a1 a2] [b1 b2] [c1 c2]. unfold AdminStore.newest_first, flip, time_id_le. cbn.
  rewrite !orb_true_iff, !andb_true_iff, !Z.ltb_lt, !Z.eqb_eq, !N.leb_le. lia.
Qed.
#[global] Instance newest_first_total : Total AdminStore.newest_first.
Proof.
  intros [a1 a2] [b1 b2]. unfold AdminStore.newest_first, flip, time_id_le. cbn.
  rewrite !orb_true_iff, !andb_true_iff, !Z.ltb_lt, !Z.eqb_eq, !N.leb_le. lia.
Qed.
#[global] Instance newest_first_antisymm : AntiSymm (=) AdminStore.newest_first.
Proof.
  intros [a1 a2] [b1 b2]. unfold AdminStore.newest_first, flip, time_id_le. cbn.
  rewrite !orb_true_iff, !andb_true_iff, !Z.ltb_lt, !Z.eqb_eq, !N.leb_le. intros ??.
  f_equal; lia.
Qed.

Definition with_cursor (f : EventFilter) (c : option Cursor) : EventFilter :=
  {| f_Statuses := f_Statuses f; f_Destination := f_Destination f; f_EventType := f_EventType f;
     f_CreatedFrom := f_CreatedFrom f; f_CreatedTo := f_CreatedTo f;
     f_ReplayBatchID := f_ReplayBatchID f; f_Cursor := c; f_Limit := f_Limit f |}.

Lemma normalize_with_cursor f c :
  Service.normalizeEventFilter (with_cursor f c) false =
  let! g := Service.normalizeEventFilter f false in Ok (with_cursor g c).
Proof.
  unfold Service.normalizeEventFilter. cbn [with_cursor f_CreatedFrom f_CreatedTo f_Statuses
    f_Destination f_EventType f_Limit].
  destruct (match f_CreatedFrom f with Some _ => _ | None => _ end); [done|].
  destruct (Service.normalize_statuses false [] (f_Statuses f)); cbn [result_bind]; [|done].
  by destruct (_ || _).
Qed.

(** The rows of a page with a cursor are the rows without, after the cursor. *)
Lemma matching_cursor d f c :
  AdminStore.matching d (with_cursor f (Some c)) =
  filter (fun r => after AdminStore.page_key AdminStore.newest_first (AdminStore.cursor_key c) r = true)
    (AdminStore.matching d (with_cursor f None)).
Proof.
  unfold AdminStore.matching. rewrite list_filter_filter. apply list_filter_iff. intros r.
  unfold AdminStore.eventWhere. cbn [with_cursor f_Statuses f_Destination f_EventType f_CreatedFrom
    f_CreatedTo f_ReplayBatchID f_Cursor]. rewrite !andb_true_iff. tauto.
Qed.

Lemma NoDup_page_keys d f : outbox_inv d -> NoDup (AdminStore.page_key <$> AdminStore.matching d f).
Proof.
  intros Hinv. apply (NoDup_fmap_1 snd). rewrite <- list_fmap_compose. unfold AdminStore.matching.
  apply NoDup_fmap_filter. by apply outbox_rows_ids.
Qed.

Section listing.
Context (json_Marshal : Cursor -> string) (json_Decode : string -> option (Cursor * string)).

(** The client's loop; [fuel] bounds the number of requests. *)
Fixpoint list_all (fuel : nat) (d : db) (f : EventFilter) : res (list Event) :=
  match fuel with
  | O => Err (ErrOther "too many pages")
  | S fuel =>
      let! page := Service.ListEvents json_Marshal d f in
      let! next := DecodeCursor json_Decode (NextCursor page) in
      match next with
      | None => Ok (Events page)
      | Some c => let! rest := list_all fuel d (with_cursor f (Some c)) in Ok (Events page ++ rest)
      end
  end.

Definition row_cursor (r : event_row) : Cursor :=
  {| cur_CreatedAt := ed_created_at (er_data r); cur_ID := ed_id (er_data r) |}.

(** Rows a cursor can name: identified, dated to the microsecond, and within
    what the JSON codec represents. *)
Definition listable (r : event_row) : Prop :=
  ed_id (er_data r) <> uuid_Nil /\ IsZero (ed_created_at (er_data r)) = false /\
  pg_time (ed_created_at (er_data r)) = ed_created_at (er_data r) /\
  cursor_codec json_Marshal json_Decode (row_cursor r).

Definition scan_page (r : event_row) : Event := AdminStore.scanAdminEvent r false.

(** One request: the rest of the rows, or a full page and the cursor of its
    last row. *)
Lemma ListEvents_page d f g limit :
  Service.normalizeEventFilter f false = Ok g -> AdminStore.filter_text_ok g = true ->
  f_Limit g = Z.of_nat (S limit) ->
  (forall r, r ∈ AdminStore.matching d g -> listable r) ->
  let sorted := order_by AdminStore.page_key AdminStore.newest_first (AdminStore.matching d g) in
  exists page, Service.ListEvents json_Marshal d f = Ok page /\
  if (length sorted <=? S limit)%nat
  then Events page = scan_page <$> sorted /\ DecodeCursor json_Decode (NextCursor page) = Ok None
  else exists last, sorted !! limit = Some last /\ Events page = scan_page <$> take (S limit) sorted /\
       DecodeCursor json_Decode (NextCursor page) = Ok (Some (row_cursor last)).
Proof.
  intros Hn Ht Hl Hok sorted. unfold Service.ListEvents. rewrite Hn. cbn [result_bind].
  unfold AdminStore.ListEvents. rewrite Ht. cbn [negb]. unfold AdminStore.select_events, order_by_limit.
  fold sorted. rewrite Hl. replace (Z.to_nat (Z.of_nat (S limit) + 1)) with (S (S limit)) by lia.
  unfold AdminStore.normalizePageResult. rewrite length_fmap, length_take.
  destruct (length sorted <=? S limit)%nat eqn:E.
  - apply Nat.leb_le in E. assert ((Z.of_nat (S (S limit) `min` length sorted)%nat
      <=? Z.of_nat (S limit)) = true) as -> by (apply Z.leb_le; lia).
    rewrite take_ge by lia. eexists. split; [done|]. by split.
  - apply Nat.leb_gt in E. assert ((Z.of_nat (S (S limit) `min` length sorted)%nat
      <=? Z.of_nat (S limit)) = false) as -> by (apply Z.leb_gt; lia).
    replace (Z.to_nat (Z.of_nat (S limit)) - 1)%nat with limit by lia.
    destruct (lookup_lt_is_Some_2 sorted limit) as [last Hlast]; [lia|].
    rewrite list_lookup_fmap, lookup_take_lt by lia. rewrite Hlast. cbn [fmap option_fmap option_map].
    assert (listable last) as (Hid & Hz & _ & Hc).
    { apply Hok. rewrite <- (order_by_Permutation AdminStore.page_key AdminStore.newest_first).
      by eapply list_elem_of_lookup_2. }
    destruct (DecodeCursor_EncodeCursor json_Marshal json_Decode (row_cursor last) Hc Hz Hid)
      as (s & Hs & Hd).
    cbn [AdminStore.scanAdminEvent CreatedAt ID]. unfold row_cursor in Hs. rewrite Hs.
    cbn [result_bind]. eexists. split; [done|]. exists last. split; [done|].
    cbn [Events NextCursor]. split; [|done]. rewrite <- fmap_take, take_take. f_equal. f_equal. lia.
Qed.

(** After a full page, the rows of the next request are the remaining ones. *)
Lemma next_matching d g last n c :
  outbox_inv d -> pg_time (ed_created_at (er_data last)) = ed_created_at (er_data last) ->
  order_by AdminStore.page_key AdminStore.newest_first (AdminStore.matching d (with_cursor g c)) !! n
    = Some last ->
  order_by AdminStore.page_key AdminStore.newest_first
    (AdminStore.matching d (with_cursor g (Some (row_cursor last))))
  = drop (S n) (order_by AdminStore.page_key AdminStore.newest_first
                  (AdminStore.matching d (with_cursor g c))).
Proof.
  intros Hinv Hpg Hn.
  assert (AdminStore.cursor_key (row_cursor last) = AdminStore.page_key last) as Hk.
  { unfold AdminStore.cursor_key, AdminStore.page_key. cbn. by rewrite Hpg. }
  rewrite <- (next_page _ _ _ n last) by (try apply NoDup_page_keys; done).
  f_equal. rewrite matching_cursor, Hk. destruct c as [c|]; [|done].
  rewrite matching_cursor, list_filter_filter. apply list_filter_iff. intros r.
  assert (after AdminStore.page_key AdminStore.newest_first (AdminStore.cursor_key c) last = true) as Hl.
  { apply list_elem_of_lookup_2 in Hn. rewrite order_by_Permutation, matching_cursor in Hn.
    by apply list_elem_of_filter in Hn as [? _]. }
  split; [|tauto]. intros Hr. split; [done|].
  unfold after in *. bool_to_prop. apply andb_true_iff. rewrite bool_decide_eq_true, negb_true_iff,
    bool_decide_eq_false. split; [by etrans|]. intros He. rewrite He in *.
  match goal with H : AdminStore.page_key last <> _ |- _ => destruct H end.
  by apply (anti_symm AdminStore.newest_first).
Qed.

Lemma list_all_rows d f g limit fuel c :
  outbox_inv d -> Service.normalizeEventFilter f false = Ok g -> AdminStore.filter_text_ok g = true ->
  f_Limit g = Z.of_nat (S limit) ->
  (forall r, r ∈ AdminStore.matching d (with_cursor g None) -> listable r) ->
  (length (AdminStore.matching d (with_cursor g c)) < fuel)%nat ->
  list_all fuel d (with_cursor f c)
  = Ok (scan_page <$> order_by AdminStore.page_key AdminStore.newest_first
          (AdminStore.matching d (with_cursor g c))).
Proof.
  intros Hinv Hn Ht Hl Hok. revert c. induction fuel as [|fuel IH]; intros c Hf; [lia|].
  assert (forall r, r ∈ AdminStore.matching d (with_cursor g c) -> listable r) as Hok'.
  { intros r Hr. apply Hok. destruct c as [c|]; [|done]. rewrite matching_cursor in Hr.
    by apply list_elem_of_filter in Hr as [_ ?]. }
  destruct (ListEvents_page d (with_cursor f c) (with_cursor g c) limit) as (page & Hp & Hpage);
    [by rewrite normalize_with_cursor, Hn|done|done|done|].
  set (sorted := order_by _ _ _) in *. cbn [list_all]. rewrite Hp. cbn [result_bind].
  assert (length sorted = length (AdminStore.matching d (with_cursor g c))) as Hlen
    by (unfold sorted; by rewrite order_by_Permutation).
  destruct (length sorted <=? S limit)%nat eqn:E.
  { destruct Hpage as [He ->]. cbn [result_bind]. by rewrite He. }
  apply Nat.leb_gt in E. destruct Hpage as (last & Hlast & He & ->). cbn [result_bind].
  assert (order_by AdminStore.page_key AdminStore.newest_first
    (AdminStore.matching d (with_cursor g (Some (row_cursor last)))) = drop (S limit) sorted) as Hnext.
  { apply next_matching; [done| |done]. apply Hok'.
    apply list_elem_of_lookup_2 in Hlast. unfold sorted in Hlast. by rewrite order_by_Permutation in Hlast. }
  change (with_cursor (with_cursor f c) (Some (row_cursor last)))
    with (with_cursor f (Some (row_cursor last))).
  rewrite IH, Hnext; cbn [result_bind].
  - by rewrite He, <- fmap_app, take_drop.
  - rewrite <- (order_by_Permutation AdminStore.page_key AdminStore.newest_first), Hnext, length_drop.
    lia.
Qed.

End listing.

(** * Properties *)

(** C28: Listing is complete. While the database stands still, a client that
    starts without a cursor and follows [next_cursor] until it is empty gets
    every event its filter selects exactly once, newest first, whatever the page
    size; as many requests as there are selected events, plus one, are enough. *)
Theorem listing_complete json_Marshal json_Decode d f g fuel :
  outbox_inv d -> f_Cursor f = None -> Service.normalizeEventFilter f false = Ok g ->
  AdminStore.filter_text_ok g = true ->
  (forall r, r ∈ AdminStore.matching d g -> listable json_Marshal json_Decode r) ->
  (length (AdminStore.matching d g) < fuel)%nat ->
  exists rows, list_all json_Marshal json_Decode fuel d f = Ok (scan_page <$> rows) /\
    rows ≡ₚ AdminStore.matching d g /\ NoDup (AdminStore.page_key <$> rows) /\
    StronglySorted (by_key AdminStore.page_key AdminStore.newest_first) rows.
Proof.
  intros Hinv Hc Hn Ht Hok Hf.
  destruct (Service.normalizeEventFilter_normal _ _ _ Hn) as [Hnf [Hcg _]]. rewrite Hc in Hcg.
  assert (with_cursor f None = f) as Hwf by (destruct f; cbn in *; by subst).
  assert (with_cursor g None = g) as Hwg by (destruct g; cbn in *; by subst).
  pose proof (Service.nf_limit _ _ Hnf) as Hl. cbn in Hl.
  pose proof (list_all_rows json_Marshal json_Decode d f g (Z.to_nat (f_Limit g) - 1) fuel None
    Hinv Hn Ht) as H. rewrite Hwf, Hwg in H.
  eexists. split; [apply H; [lia|done|done]|]. split; [apply order_by_Permutation|].
  split; [|apply order_by_sorted; apply _].
  rewrite order_by_Permutation. by apply NoDup_page_keys.
Qed.

(** * Witnesses *)

Definition sample_mutation : Mutation :=
  {| mu_Actor := " alice "; mu_Reason := "replay after fix"; mu_RequestID := "";
     mu_Traceparent := ""; mu_Tracestate := ""; mu_OrderingMode := "" |}.
Definition sample_filter (statuses : list string) (limit : Z) : EventFilter :=
  {| f_Statuses := statuses; f_Destination := "orders "; f_EventType := ""; f_CreatedFrom := None;
     f_CreatedTo := None; f_ReplayBatchID := None; f_Cursor := None; f_Limit := limit |}.
Definition sample_v7 (n : nat) : option uuid := Some (100 + N.of_nat n)%N.

Abbreviation sample_replay :=
  (Service.ReplayBatch (""%string, ""%string) (fun _ => "id"%string) sample_v7 sample_db Second
     (sample_filter ["Delivered"; " dead"]%string 0) sample_mutation).

Lemma admin_mutation_audited_witness :
  Service.audited_change (Service.ReplayMany (sample_filter ["Delivered"; " dead"]%string 0)) Second
    sample_mutation sample_db sample_replay.1.1 /\
  db_outbox sample_replay.1.1 !! 101%N <> None.
Proof.
  split; [|by vm_compute].
  apply (Service.admin_mutation_audited (""%string, ""%string) (fun _ => "id"%string) sample_v7
           sample_db Second (Service.ReplayMany (sample_filter ["Delivered"; " dead"]%string 0))
           sample_mutation sample_replay.1.1 sample_replay.1.2 (Ok tt)); [apply sample_db_db_inv|].
  vm_compute. reflexivity.
Defined.

Lemma pause_spec_witness :
  let d' := (Service.SetPaused (""%string, ""%string) sample_v7 sample_db Second true
               sample_mutation).1.1 in
  not_paused d' = false /\ Claim d' ∅ Second "relay-1" 10 Second = (d', []).
Proof.
  destruct (Service.pause_spec (""%string, ""%string) sample_v7 sample_db Second true sample_mutation
    (Service.SetPaused (""%string, ""%string) sample_v7 sample_db Second true sample_mutation).1.1
    [(controlChannel, "relay.pause"%string)]
    {| Paused := true; Reason := "replay after fix"; UpdatedAt := Second; UpdatedBy := "alice" |})
    as (Hp & _ & _ & _ & _ & _ & _ & _ & Hc); [vm_compute; reflexivity|].
  split; [exact Hp|]. exact (proj1 (Hc eq_refl ∅ Second "relay-1"%string 10 Second Second)).
Defined.

Definition sample_result : ReplayResult :=
  {| rp_ReplayBatchID := 100; rp_Created := 2; rp_EventIDs := [101; 102]%N |}.
Lemma sample_replay_eq : sample_replay = (sample_replay.1.1, sample_replay.1.2, Ok sample_result).
Proof. vm_compute. reflexivity. Qed.

Lemma replay_batch_spec_witness :
  rp_Created sample_result = 2 /\
  forall id row, db_outbox sample_db !! id = Some row ->
                 db_outbox sample_replay.1.1 !! id = Some row.
Proof.
  destruct (Service.replay_batch_spec (""%string, ""%string) (fun _ => "id"%string) sample_v7
    sample_db Second (sample_filter ["Delivered"; " dead"]%string 0) sample_mutation
    (Service.with_filter (sample_filter [] 0) ["delivered"; "dead"]%string "orders" "" 1000)
    sample_replay.1.1 sample_replay.1.2 (Ok sample_result) sample_db_db_inv)
    as (_ & _ & _ & _ & H & _).
  - vm_compute. reflexivity.
  - vm_compute. reflexivity.
  - vm_compute. reflexivity.
  - apply sample_replay_eq.
  - split; [reflexivity|exact H].
Defined.

(** A codec for the cursors of the sample rows. *)
Definition sample_marshal (c : Cursor) : string := Itoa (Z.of_N (cur_ID c)).
Definition sample_decode (s : string) : option (Cursor * string) :=
  (fun c => (c, ""%string)) <$>
  find (fun c => bool_decide (sample_marshal c = s))
    ((fun i => {| cur_CreatedAt := 0; cur_ID := i |}) <$> [1; 2; 3; 4]%N).

Lemma listing_complete_witness :
  (exists rows,
    list_all sample_marshal sample_decode 5 sample_db (sample_filter [] 2) = Ok (scan_page <$> rows) /\
    rows ≡ₚ AdminStore.matching sample_db (Service.with_filter (sample_filter [] 2) [] "orders" "" 2)) /\
  match list_all sample_marshal sample_decode 5 sample_db (sample_filter [] 2) with
  | Ok events => ID <$> events = [4; 3; 2; 1]%N
  | Err _ => False
  end.
Proof.
  destruct (listing_complete sample_marshal sample_decode sample_db (sample_filter [] 2)
    (Service.with_filter (sample_filter [] 2) [] "orders" "" 2) 5) as (rows & H & Hp & _).
  - apply sample_db_inv.
  - done.
  - vm_compute. reflexivity.
  - vm_compute. reflexivity.
  - assert (forallb (fun r => bool_decide (ed_id (er_data r) ∈ [1; 2; 3; 4]%N)
              && (ed_created_at (er_data r) =? 0)) (outbox_rows sample_db) = true) as Hall
      by (vm_compute; reflexivity).
    intros r Hr. apply Service.elem_of_matching in Hr as [_ Hr].
    rewrite forallb_forall in Hall. apply elem_of_outbox_rows, list_elem_of_In in Hr.
    specialize (Hall r Hr). bool_to_prop. unfold listable, row_cursor.
    destruct (er_data r) as [i ? ? ? ? ? ? ? ? ? ? ? created]. cbn in *. subst created.
    repeat match goal with H : _ ∈ _ :: _ |- _ => apply elem_of_cons in H as [->|H] end;
      try match goal with H : _ ∈ [] |- _ => by apply elem_of_nil in H end;
      repeat split; vm_compute; try reflexivity; discriminate.
  - vm_compute. lia.
  - split; [by exists rows|]. vm_compute. reflexivity.
Defined.

Lemma filter_normal_form_witness :
  match Service.normalizeEventFilter (sample_filter ["Delivered"; " dead"; "DEAD "]%string 0) true with
  | Ok f => f_Statuses f = ["delivered"; "dead"]%string /\ f_Limit f = 1000 /\
            Service.normal_filter true f
  | Err _ => False
  end.
Proof.
  destruct (Service.normalizeEventFilter _ true) as [f|] eqn:E; [|vm_compute in E; discriminate E].
  split_and!; [vm_compute in E; injection E as <-; reflexivity..|].
  exact (proj1 (Service.filter_normal_form _ true f E)).
Defined.

End Listing.
