(* ===== verification/Integrity.v ===== *)
(** * The integrity verifier ([integrity/])

    Diagnosis of the durable protocol state in one read-only snapshot: the
    catalog, the control row, partitions, relays, events, inbox and streams. A
    snapshot is a database and the names the catalog holds; the reports' wall
    clock times are arguments. *)
From Stdlib Require Import ZArith String.
From stdpp Require Import base gmap strings list sorting fin_maps.
From S2P Require Import Prelude GoStrings Ordering Schema Invariant OutboxStore PartitionStore.
From S2P Require Import AdminTypes AdminStore InboxStore OrderingAdmin InboxAdmin.

Open Scope Z_scope.
Local Open Scope emitlane_scope.

Module Integrity.

(** ** Findings and reports ([integrity/types.go]) *)

Inductive Mode : Type := ModeSummary | ModeFull | ModeStream.
#[global] Instance Mode_eq_dec : EqDecision Mode.
Proof. solve_decision. Defined.

Inductive Severity : Type := SeverityInfo | SeverityWarning | SeverityViolation.
#[global] Instance Severity_eq_dec : EqDecision Severity.
Proof. solve_decision. Defined.

Abbreviation Code := string (only parsing).
Definition CodeSchemaVersionMismatch : Code := "SCHEMA_VERSION_MISMATCH".
Definition CodePartitionCountInvalid : Code := "PARTITION_COUNT_INVALID".
Definition CodePartitionIDInvalid : Code := "PARTITION_ID_INVALID".
Definition CodePartitionEpochInvalid : Code := "PARTITION_EPOCH_INVALID".
Definition CodePartitionLeaseShapeInvalid : Code := "PARTITION_LEASE_SHAPE_INVALID".
Definition CodePartitionOwnerStale : Code := "PARTITION_OWNER_STALE".
Definition CodePartitionHandoffOverdue : Code := "PARTITION_HANDOFF_OVERDUE".
Definition CodeOrderingFieldsPartial : Code := "ORDERING_FIELDS_PARTIAL".
Definition CodeOrderingPartitionMismatch : Code := "ORDERING_PARTITION_MISMATCH".
Definition CodeStreamPartitionMismatch : Code := "STREAM_PARTITION_MISMATCH".
Definition CodeStreamCursorInvalid : Code := "STREAM_CURSOR_INVALID".
Definition CodeActiveSequenceBehindCursor : Code := "ACTIVE_SEQUENCE_BEHIND_CURSOR".
Definition CodeExpectedSequenceDuplicate : Code := "EXPECTED_SEQUENCE_DUPLICATE".
Definition CodeStreamGap : Code := "STREAM_GAP".
Definition CodeStreamDeadBlocked : Code := "STREAM_DEAD_BLOCKED".
Definition CodeStreamRetryWait : Code := "STREAM_RETRY_WAIT".
Definition CodeStaleEventLease : Code := "STALE_EVENT_LEASE".
Definition CodeRuntimeControlInvalid : Code := "RUNTIME_CONTROL_INVALID".
Definition CodeRelayPresenceStale : Code := "RELAY_PRESENCE_STALE".
Definition CodeInboxStateInvalid : Code := "INBOX_STATE_INVALID".
Definition CodeInboxLeaseShapeInvalid : Code := "INBOX_LEASE_SHAPE_INVALID".
Definition CodeInboxSourceMetadataInvalid : Code := "INBOX_SOURCE_METADATA_INVALID".
Definition CodeInboxProcessedTimestampInvalid : Code := "INBOX_PROCESSED_TIMESTAMP_INVALID".
Definition CodeInboxAttemptsInvalid : Code := "INBOX_ATTEMPTS_INVALID".
Definition CodeInboxStaleLease : Code := "INBOX_STALE_LEASE".
Definition CodeInboxDeadBlocked : Code := "INBOX_DEAD_BLOCKED".
Definition CodeInboxRetryWait : Code := "INBOX_RETRY_WAIT".

Definition stableCodes : list Code :=
  [CodeSchemaVersionMismatch; CodePartitionCountInvalid; CodePartitionIDInvalid;
   CodePartitionEpochInvalid; CodePartitionLeaseShapeInvalid; CodePartitionOwnerStale;
   CodePartitionHandoffOverdue; CodeOrderingFieldsPartial; CodeOrderingPartitionMismatch;
   CodeStreamPartitionMismatch; CodeStreamCursorInvalid; CodeActiveSequenceBehindCursor;
   CodeExpectedSequenceDuplicate; CodeStreamGap; CodeStreamDeadBlocked; CodeStreamRetryWait;
   CodeStaleEventLease; CodeRuntimeControlInvalid; CodeRelayPresenceStale; CodeInboxStateInvalid;
   CodeInboxLeaseShapeInvalid; CodeInboxSourceMetadataInvalid; CodeInboxProcessedTimestampInvalid;
   CodeInboxAttemptsInvalid; CodeInboxStaleLease; CodeInboxDeadBlocked; CodeInboxRetryWait].

Definition Valid (c : Code) : bool := existsb (fun candidate => bool_decide (c = candidate)) stableCodes.

(** The values of [Expected] and [Observed]. *)
Inductive detail : Type :=
| DNone
| DInt (n : Z)
| DText (s : string)
| DTime (t : option time)
| DSequence (n : option Z)
| DCounts (l : list (string * Z))
| DTexts (l : list (string * string)).

Record Finding : Type := MkFinding {
  fi_Code : Code;
  fi_Severity : Severity;
  fi_Message : string;
  fi_Destination : string;
  fi_OrderingKey : string;
  fi_EventID : string;
  fi_PartitionID : option Z;
  fi_Consumer : string;
  fi_SourcePartition : option Z;
  fi_Expected : detail;
  fi_Observed : detail;
}.

(** The counters of [Summary]; a summary gives each its value. *)
Inductive counter : Type :=
| Violations | Warnings | Infos | PendingEvents | InflightEvents | DeadEvents
| ActiveOrderedEvents | OrderedStreams | ReadyStreams | InflightStreams | BlockedStreams
| GapStreams | DeadBlockedStreams | RetryWaitStreams | StaleEventLeases | OrderingPartitions
| OwnedPartitions | HandoffPartitions | StaleRelays | InboxPending | InboxInflight
| InboxRetryWait | InboxProcessed | InboxDead | InboxStaleLeases.
#[global] Instance counter_eq_dec : EqDecision counter.
Proof. solve_decision. Defined.

Definition Summary : Type := counter -> Z.
Definition set_counter (c : counter) (n : Z) (s : Summary) : Summary :=
  fun x => if decide (x = c) then n else s x.
Definition incr (c : counter) (s : Summary) : Summary := set_counter c (s c + 1) s.

Record Report : Type := MkReport {
  r_Result : string;
  r_StartedAt : time;
  r_FinishedAt : time;
  r_Mode : Mode;
  r_Clean : bool;
  r_Summary : Summary;
  r_Findings : list Finding;
  r_FindingsTruncated : bool;
}.

Definition ExitCode (report : Report) (strict : bool) : Z :=
  if (0 <? r_Summary report Violations) || (strict && (0 <? r_Summary report Warnings)) then 2 else 0.

(** ** The accumulator *)

Record accumulator : Type := MkAcc { a_report : Report; a_maxFindings : Z }.

Definition newAccumulator (mode : Mode) (maxFindings : Z) (startedAt : time) : accumulator :=
  {| a_report := {| r_Result := ""; r_StartedAt := startedAt; r_FinishedAt := zero_time;
                    r_Mode := mode; r_Clean := false; r_Summary := fun _ => 0; r_Findings := [];
                    r_FindingsTruncated := false |};
     a_maxFindings := maxFindings |}.

Definition with_summary (f : Summary -> Summary) (a : accumulator) : accumulator :=
  let r := a_report a in
  {| a_report := {| r_Result := r_Result r; r_StartedAt := r_StartedAt r;
                    r_FinishedAt := r_FinishedAt r; r_Mode := r_Mode r; r_Clean := r_Clean r;
                    r_Summary := f (r_Summary r); r_Findings := r_Findings r;
                    r_FindingsTruncated := r_FindingsTruncated r |};
     a_maxFindings := a_maxFindings a |}.
Definition bump (c : counter) : accumulator -> accumulator := with_summary (incr c).

Definition severity_counter (s : Severity) : counter :=
  match s with
  | SeverityInfo => Infos | SeverityWarning => Warnings | SeverityViolation => Violations
  end.

Definition add (f : Finding) (a : accumulator) : accumulator :=
  let a := bump (severity_counter (fi_Severity f)) a in
  let r := a_report a in
  let room := Z.of_nat (length (r_Findings r)) <? a_maxFindings a in
  {| a_report := {| r_Result := r_Result r; r_StartedAt := r_StartedAt r;
                    r_FinishedAt := r_FinishedAt r; r_Mode := r_Mode r; r_Clean := r_Clean r;
                    r_Summary := r_Summary r;
                    r_Findings := if room then r_Findings r ++ [f] else r_Findings r;
                    r_FindingsTruncated := if room then r_FindingsTruncated r else true |};
     a_maxFindings := a_maxFindings a |}.

(** The comparison of [sort.SliceStable]. *)
Definition finding_less (l r : Finding) : bool :=
  if negb (bool_decide (fi_Code l = fi_Code r)) then String.ltb (fi_Code l) (fi_Code r)
  else if negb (bool_decide (fi_Destination l = fi_Destination r))
  then String.ltb (fi_Destination l) (fi_Destination r)
  else if negb (bool_decide (fi_Consumer l = fi_Consumer r))
  then String.ltb (fi_Consumer l) (fi_Consumer r)
  else if negb (bool_decide (fi_EventID l = fi_EventID r))
  then String.ltb (fi_EventID l) (fi_EventID r)
  else if negb (default (-1) (fi_PartitionID l) =? default (-1) (fi_PartitionID r))
  then default (-1) (fi_PartitionID l) <? default (-1) (fi_PartitionID r)
  else default (-1) (fi_SourcePartition l) <? default (-1) (fi_SourcePartition r).
Definition finding_le (l r : Finding) : Prop := finding_less r l = false.
#[global] Instance finding_le_dec l r : Decision (finding_le l r).
Proof. unfold finding_le. apply _. Defined.

Definition finish (finishedAt : time) (a : accumulator) : Report :=
  let r := a_report a in
  {| r_Result := if 0 <? r_Summary r Violations then "violations"
                 else if 0 <? r_Summary r Warnings then "warnings" else "clean";
     r_StartedAt := r_StartedAt r; r_FinishedAt := finishedAt; r_Mode := r_Mode r;
     r_Clean := r_Summary r Violations =? 0; r_Summary := r_Summary r;
     r_Findings := merge_sort finding_le (r_Findings r);
     r_FindingsTruncated := r_FindingsTruncated r |}.

(** ** [ClassifyCursor] *)

Inductive StreamState : Type :=
| StreamStateIdle | StreamStateReady | StreamStateInflight | StreamStateRetryWait
| StreamStateGap | StreamStateDeadBlocked.

Record CursorObservation : Type := MkObservation {
  ob_StartSequence : Z;
  ob_NextSequence : Z;
  ob_ExpectedCount : Z;
  ob_ExpectedStatus : string;
  ob_ExpectedAvailableAt : option time;
  ob_ExpectedLeaseUntil : option time;
  ob_LowestFutureSequence : option Z;
}.

Definition ClassifyCursor (now : time) (o : CursorObservation) : StreamState :=
  if ob_ExpectedCount o =? 0 then
    if not_null (ob_LowestFutureSequence o) then StreamStateGap else StreamStateIdle
  else if bool_decide (ob_ExpectedStatus o = "dead"%string) then StreamStateDeadBlocked
  else if bool_decide (ob_ExpectedStatus o = "inflight"%string) then StreamStateInflight
  else if bool_decide (ob_ExpectedStatus o = "pending"%string) then
    if sql_gt (ob_ExpectedAvailableAt o) now then StreamStateRetryWait else StreamStateReady
  else StreamStateIdle.

(** ** Configuration and snapshot ([integrity/verifier.go]) *)

Definition DefaultMaxFindings : Z := 100.
Definition MaximumMaxFindings : Z := 1000.

Record Config : Type := MkConfig {
  c_MaxFindings : Z;
  c_StatementTimeout : duration;
  c_PresenceStaleAfter : duration;
  c_HandoffLongAfter : duration;
}.

Definition DefaultConfig : Config :=
  {| c_MaxFindings := DefaultMaxFindings; c_StatementTimeout := 30 * Second;
     c_PresenceStaleAfter := 30 * Second; c_HandoffLongAfter := 30 * Second |}.

Definition or_default (n dflt : Z) : Z := if n =? 0 then dflt else n.

(** [NewVerifier] with a pool: the configuration it keeps. *)
Definition NewVerifier (c : Config) : res Config :=
  let c := {| c_MaxFindings := or_default (c_MaxFindings c) DefaultMaxFindings;
              c_StatementTimeout := or_default (c_StatementTimeout c) (30 * Second);
              c_PresenceStaleAfter := or_default (c_PresenceStaleAfter c) (30 * Second);
              c_HandoffLongAfter := or_default (c_HandoffLongAfter c) (30 * Second) |} in
  fail_if (c_MaxFindings c <? 1) || (MaximumMaxFindings <? c_MaxFindings c)
    with ErrOther "integrity: max findings must be between 1 and 1000";
  fail_if (c_StatementTimeout c <? Millisecond) || (c_PresenceStaleAfter c <=? 0)
          || (c_HandoffLongAfter c <=? 0)
    with ErrOther "integrity: timeouts and stale thresholds must be positive";
  Ok c.

(** What the catalog queries return; [cat_version] is the highest applied
    migration, zero when there is none. *)
Record catalog : Type := Catalog {
  cat_tables : gset string;
  cat_version : Z;
  cat_indexes : gset string;
  cat_constraints : gset string;
  cat_columns : gset (string * string);
}.

Definition requiredTables : list string :=
  ["schema_migrations"; "outbox_events"; "inbox_events"; "runtime_control"; "relay_instances";
   "admin_audit_log"; "ordering_streams"; "ordering_partitions"]%string.

Definition requiredIndexes : list string :=
  ["outbox_pending_idx"; "outbox_inflight_lease_idx"; "outbox_dead_idx"; "outbox_created_idx";
   "outbox_status_created_idx"; "outbox_destination_type_created_idx"; "outbox_replay_batch_idx";
   "admin_audit_created_idx"; "outbox_ordering_sequence_unique_idx"; "outbox_ordered_claim_idx";
   "ordering_stream_partition_idx"; "inbox_due_idx"; "inbox_expired_lease_idx"; "inbox_dead_idx";
   "inbox_source_unique_idx"; "inbox_processed_retention_idx"]%string.

Definition requiredConstraints : list string :=
  ["outbox_ordering_state_check"; "ordering_stream_partition_check"; "ordering_stream_start_check";
   "ordering_stream_next_check"; "ordering_partition_lease_check"; "ordering_partition_epoch_check";
   "inbox_status_check"; "inbox_attempts_check"; "inbox_lease_state_check";
   "inbox_processed_state_check"; "inbox_source_metadata_check"]%string.

Definition requiredColumns : list (string * list string) :=
  [("outbox_events", ["id"; "destination"; "status"; "available_at"; "lease_owner"; "lease_until";
                      "ordering_key"; "ordering_sequence"; "ordering_partition"]);
   ("runtime_control", ["singleton"; "paused"; "updated_at"; "updated_by"]);
   ("relay_instances", ["instance_id"; "last_heartbeat_at"; "stopped_at"; "ordering_capable"]);
   ("ordering_streams", ["destination"; "ordering_key"; "partition_id"; "start_sequence";
                         "next_sequence"]);
   ("ordering_partitions", ["partition_id"; "lease_owner"; "lease_until"; "epoch";
                            "handoff_not_before"; "publish_timeout_ms"; "updated_at"]);
   ("inbox_events", ["consumer"; "event_id"; "status"; "attempts"; "available_at"; "lease_owner";
                     "lease_token"; "lease_until"; "processed_at"; "source_topic";
                     "source_partition"; "source_offset"])]%string.

(** ** Building findings *)

Definition finding (code : Code) (sev : Severity) (msg : string) (expected observed : detail)
  : Finding :=
  {| fi_Code := code; fi_Severity := sev; fi_Message := msg; fi_Destination := "";
     fi_OrderingKey := ""; fi_EventID := ""; fi_PartitionID := None; fi_Consumer := "";
     fi_SourcePartition := None; fi_Expected := expected; fi_Observed := observed |}.
Definition for_event (dest key id : string) (partition : option Z) (f : Finding) : Finding :=
  {| fi_Code := fi_Code f; fi_Severity := fi_Severity f; fi_Message := fi_Message f;
     fi_Destination := dest; fi_OrderingKey := key; fi_EventID := id; fi_PartitionID := partition;
     fi_Consumer := ""; fi_SourcePartition := None; fi_Expected := fi_Expected f;
     fi_Observed := fi_Observed f |}.
Definition for_message (consumer id : string) (source : option Z) (f : Finding) : Finding :=
  {| fi_Code := fi_Code f; fi_Severity := fi_Severity f; fi_Message := fi_Message f;
     fi_Destination := ""; fi_OrderingKey := ""; fi_EventID := id; fi_PartitionID := None;
     fi_Consumer := consumer; fi_SourcePartition := source; fi_Expected := fi_Expected f;
     fi_Observed := fi_Observed f |}.

(** [if cond { step }] on the accumulator, and sequencing. *)
Definition when (b : bool) (f : accumulator -> accumulator) (a : accumulator) : accumulator :=
  if b then f a else a.
Definition andThen (f g : accumulator -> accumulator) (a : accumulator) : accumulator := g (f a).
Infix ";;;" := andThen (at level 62, left associativity).

Definition violation (code : Code) (msg : string) (expected observed : detail) : Finding :=
  finding code SeverityViolation msg expected observed.
Definition warning (code : Code) (msg : string) (expected observed : detail) : Finding :=
  finding code SeverityWarning msg expected observed.

Definition id_acc (a : accumulator) : accumulator := a.

(** Run a row check over the rows of a query. *)
Definition each {A} (step : A -> accumulator -> accumulator) (rows : list A) (a : accumulator)
  : accumulator := foldl (fun a r => step r a) a rows.

(** ** [checkSchema] *)

Definition missing (msg name : string) : accumulator -> accumulator :=
  add (violation CodeSchemaVersionMismatch msg (DText name) (DText "missing")).

(** The columns come in the fixed order of the table here; the source ranges
    over a map. *)
Definition schema_columns (cat : catalog) : list (string * string) :=
  filter (fun tc => tc ∉ cat_columns cat)
    (requiredColumns ≫= (fun tc => (fun c => (tc.1, c)) <$> tc.2)).

Definition checkSchema (cat : catalog) (a : accumulator) : accumulator * bool :=
  let absent := filter (fun t => t ∉ cat_tables cat) requiredTables in
  let a := each (missing "required v4 table is missing") absent a in
  let a := when (bool_decide ("schema_migrations"%string ∈ cat_tables cat)
                 && negb (cat_version cat =? 4))
             (add (violation CodeSchemaVersionMismatch
                     "applied migration version does not match this binary" (DInt 4)
                     (DInt (cat_version cat)))) a in
  let a := each (missing "required v4 index is missing")
             (filter (fun i => i ∉ cat_indexes cat) requiredIndexes) a in
  let a := each (missing "required v4 constraint is missing")
             (filter (fun c => c ∉ cat_constraints cat) requiredConstraints) a in
  let a := each (fun tc => missing "required v4 column is missing"
                             (tc.1 ++ "." ++ tc.2)%string) (schema_columns cat) a in
  (a, bool_decide (absent = []) && bool_decide (schema_columns cat = [])).

(** ** [checkRuntimeControl] *)

Definition checkRuntimeControl (d : db) (a : accumulator) : accumulator :=
  let total := match db_control d with Some _ => 1 | None => 0 end in
  let invalidActor := match db_control d with
                      | Some c => if btrim_nonempty (cr_updated_by c) then 0 else 1
                      | None => 0
                      end in
  when (negb (total =? 1) || negb (invalidActor =? 0))
    (add (violation CodeRuntimeControlInvalid "runtime-control singleton is invalid"
            (DCounts [("rows"%string, 1); ("singleton_rows"%string, 1); ("blank_actors"%string, 0)])
            (DCounts [("rows"%string, total); ("singleton_rows"%string, total);
                      ("blank_actors"%string, invalidActor)]))) a.

(** ** [checkPartitions] *)

Definition lease_shape_invalid (p : partition_row) : bool :=
  match pr_lease_owner p, pr_lease_until p with
  | None, Some _ | Some _, None => true
  | Some o, Some _ => is_blank o
  | None, None => false
  end || match pr_publish_timeout_ms p with Some ms => ms <=? 0 | None => false end.

(** The relay the active lease names is unknown, stopped, incapable or silent. *)
Definition owner_stale (d : db) (now : time) (cfg : Config) (o : string) : bool :=
  match db_relays d !! o with
  | None => true
  | Some r => not_null (rr_stopped_at r) || negb (rr_ordering_capable r)
              || (rr_last_heartbeat_at r <? now - c_PresenceStaleAfter cfg)
  end.

Definition check_partition (d : db) (now : time) (cfg : Config) (ip : Z * partition_row)
  : accumulator -> accumulator :=
  let '(id, p) := ip in
  let at_ f := for_event "" "" "" (Some id) f in
  bump OrderingPartitions ;;;
  when ((id <? 0) || (64 <=? id))
    (add (at_ (violation CodePartitionIDInvalid "unexpected ordering partition ID"
                 (DText "0..63") (DInt id)))) ;;;
  when (pr_epoch p <? 0)
    (add (at_ (violation CodePartitionEpochInvalid "ordering partition epoch is negative"
                 (DText ">= 0") (DInt (pr_epoch p))))) ;;;
  when (lease_shape_invalid p)
    (add (at_ (violation CodePartitionLeaseShapeInvalid
                 "ordering partition lease fields form an invalid shape" DNone DNone))) ;;;
  match pr_lease_owner p with
  | Some o => when (sql_gt (pr_lease_until p) now)
                (bump OwnedPartitions ;;;
                 when (owner_stale d now cfg o)
                   (add (at_ (warning CodePartitionOwnerStale
                                "active partition lease names an unavailable Relay" DNone DNone))))
  | None => id_acc
  end ;;;
  when (sql_gt (pr_handoff_not_before p) now)
    (bump HandoffPartitions ;;;
     when (pr_updated_at p <? now - c_HandoffLongAfter cfg)
       (add (at_ (warning CodePartitionHandoffOverdue
          "ordering partition handoff has remained pending beyond the diagnostic threshold" DNone
          (DTime (pr_handoff_not_before p)))))).

Definition checkPartitions (d : db) (now : time) (cfg : Config) (a : accumulator) : accumulator :=
  let rows := omap (fun id => (fun p => (id, p)) <$> db_partitions d !! id)
                (merge_sort Z.le (map_to_list (db_partitions d)).*1) in
  let a := each (check_partition d now cfg) rows a in
  let seen := rows.*1 in
  let a := when (negb (Z.of_nat (length (remove_dups seen)) =? 64))
             (add (violation CodePartitionCountInvalid "ordering partition seed count is invalid"
                     (DInt 64) (DInt (Z.of_nat (length (remove_dups seen)))))) a in
  each (fun id => add (for_event "" "" "" (Some id)
                   (violation CodePartitionIDInvalid "required ordering partition ID is missing"
                      (DInt id) (DText "missing"))))
    (filter (fun id => id ∉ seen) (seqZ 0 64)) a.

(** ** [checkRelayPresence] *)

Definition relay_silent (now : time) (cfg : Config) (r : relay_row) : bool :=
  is_null (rr_stopped_at r) && (rr_last_heartbeat_at r <? pg_time (now - c_PresenceStaleAfter cfg)).

Definition checkRelayPresence (d : db) (now : time) (cfg : Config) (a : accumulator) : accumulator :=
  each (fun _ => bump StaleRelays ;;;
                 add (warning CodeRelayPresenceStale "Relay presence heartbeat is stale" DNone DNone))
    (filter (fun r => relay_silent now cfg r = true) (map_to_list (db_relays d)).*2) a.

Section checks.
(** [id::text] of a UUID column. *)
Context (uuid_text : uuid -> string).

(** ** [checkEvents] *)

Definition active (s : outbox_status) : bool :=
  match s with Pending | Inflight | Dead => true | Delivered => false end.

Definition has_ordering (e : event_data) : bool :=
  not_null (ed_ordering_key e) || not_null (ed_ordering_sequence e)
  || not_null (ed_ordering_partition e).

Definition ordered_fields (e : event_data) : Z :=
  (if not_null (ed_ordering_key e) then 1 else 0)
  + (if not_null (ed_ordering_sequence e) then 1 else 0)
  + (if not_null (ed_ordering_partition e) then 1 else 0).

Definition ordering_invalid (e : event_data) : bool :=
  (negb (ordered_fields e =? 0) && negb (ordered_fields e =? 3))
  || match ed_ordering_key e with Some k => is_blank k | None => false end
  || match ed_ordering_sequence e with Some n => n <=? 0 | None => false end.

(** The stream cursor of the LEFT JOIN. *)
Definition joined_next (d : db) (e : event_data) : option Z :=
  ed_ordering_key e ≫= (fun k => sr_next_sequence <$> db_streams d !! (ed_destination e, k)).

Definition check_cursor (d : db) (r : event_row) (seq : Z) : accumulator -> accumulator :=
  let e := er_data r in
  let at_ f := for_event (ed_destination e) "" (uuid_text (ed_id e)) None f in
  match joined_next d e with
  | None => when (active (er_status r))
              (add (at_ (violation CodeStreamCursorInvalid
                           "active ordered event has no durable stream cursor" DNone DNone)))
  | Some next =>
      if active (er_status r) && (seq <? next) then
        add (at_ (violation CodeActiveSequenceBehindCursor
                    "active ordered event is below the durable stream cursor"
                    (DCounts [("minimum_sequence"%string, next)]) (DInt seq)))
      else when (bool_decide (er_status r = Delivered) && (next <=? seq))
        (add (at_ (violation CodeStreamCursorInvalid
                     "retained delivered event is not below the durable stream cursor"
                     (DCounts [("next_sequence_above"%string, seq)]) (DInt next))))
  end.

Definition check_event (d : db) (now : time) (r : event_row) : accumulator -> accumulator :=
  let e := er_data r in
  let at_ f := for_event (ed_destination e) "" (uuid_text (ed_id e)) None f in
  when (bool_decide (er_status r = Inflight) && sql_le (er_lease_until r) now)
    (bump StaleEventLeases ;;;
     add (at_ (warning CodeStaleEventLease "inflight event lease has expired and awaits recovery"
                 DNone (DTime (er_lease_until r))))) ;;;
  if ordering_invalid e then
    add (at_ (violation CodeOrderingFieldsPartial
                "event has incomplete or invalid ordering metadata" DNone DNone))
  else
    match ed_ordering_key e, ed_ordering_sequence e, ed_ordering_partition e with
    | Some key, Some seq, Some partition =>
        let expected := Partition (ed_destination e) key in
        when (negb (partition =? expected))
          (add (for_event (ed_destination e) "" (uuid_text (ed_id e)) (Some partition)
                  (violation CodeOrderingPartitionMismatch
                     "ordered event partition differs from the deterministic mapping"
                     (DInt expected) (DInt partition)))) ;;;
        check_cursor d r seq
    | _, _, _ => id_acc
    end.

Definition id_le (a b : event_row) : Prop := (ed_id (er_data a) <= ed_id (er_data b))%N.

#[global] Instance id_le_dec a b : Decision (id_le a b).
Proof. unfold id_le. apply _. Defined.

Definition count_events (d : db) (P : event_row -> bool) : Z := OrderingAdmin.count P (outbox_rows d).

Definition in_scope (mode : Mode) (r : event_row) : bool :=
  active (er_status r) || (negb (bool_decide (mode = ModeSummary)) && has_ordering (er_data r)).

Definition checkEvents (d : db) (now : time) (mode : Mode) (a : accumulator) : accumulator :=
  let counts :=
    set_counter PendingEvents (count_events d (OrderingAdmin.has_status Pending)) ∘
    set_counter InflightEvents (count_events d (OrderingAdmin.has_status Inflight)) ∘
    set_counter DeadEvents (count_events d (OrderingAdmin.has_status Dead)) ∘
    set_counter ActiveOrderedEvents
      (count_events d (fun r => active (er_status r) && not_null (ed_ordering_key (er_data r)))) in
  each (check_event d now)
    (merge_sort id_le (filter (fun r => in_scope mode r = true) (outbox_rows d)))
    (with_summary counts a).

(** ** [checkInbox] *)

Definition inbox_lease_fields (r : inbox_row) : Z :=
  match ir_lease_owner r with Some o => if is_blank o then 0 else 1 | None => 0 end
  + (if not_null (ir_lease_token r) then 1 else 0) + (if not_null (ir_lease_until r) then 1 else 0).

(** The coordinates are present or absent together in the model. *)
Definition inbox_source_invalid (r : inbox_row) : bool :=
  match ir_source r with
  | Some s => is_blank (is_topic s) || (is_partition s <? 0) || (is_offset s <? 0)
  | None => negb (bool_decide (ir_status r = IProcessed))
  end.

Definition check_inbox (now : time) (kr : InboxAdmin.inbox_entry) : accumulator -> accumulator :=
  let '((consumer, eventID), r) := kr in
  let at_ f := for_message consumer (uuid_text eventID) None f in
  let source := is_partition <$> ir_source r in
  match ir_status r with
  | IPending => bump InboxPending
  | IInflight => bump InboxInflight
  | IRetryWait =>
      bump InboxRetryWait ;;;
      add (for_message consumer (uuid_text eventID) source
             (warning CodeInboxRetryWait "Inbox event is waiting for retry" DNone
                (DTime (Some (ir_available_at r)))))
  | IProcessed => bump InboxProcessed
  | IDead =>
      bump InboxDead ;;;
      add (for_message consumer (uuid_text eventID) source
             (warning CodeInboxDeadBlocked "dead Inbox event blocks its Kafka partition" DNone DNone))
  end ;;;
  when (ir_attempts r <? 0)
    (add (at_ (violation CodeInboxAttemptsInvalid "Inbox attempt count is negative" (DText ">= 0")
                 (DInt (ir_attempts r))))) ;;;
  when (if bool_decide (ir_status r = IInflight) then negb (inbox_lease_fields r =? 3)
        else negb (inbox_lease_fields r =? 0))
    (add (at_ (violation CodeInboxLeaseShapeInvalid "Inbox lease fields form an invalid shape"
                 DNone DNone))) ;;;
  when (bool_decide (ir_status r = IInflight) && sql_le (ir_lease_until r) now)
    (bump InboxStaleLeases ;;;
     add (for_message consumer (uuid_text eventID) source
            (warning CodeInboxStaleLease "Inbox lease expired and is reclaimable" DNone
               (DTime (ir_lease_until r))))) ;;;
  when (negb (Bool.eqb (bool_decide (ir_status r = IProcessed)) (not_null (ir_processed_at r))))
    (add (at_ (violation CodeInboxProcessedTimestampInvalid
                 "Inbox processed timestamp does not match status" DNone DNone))) ;;;
  when (inbox_source_invalid r)
    (add (for_message consumer (uuid_text eventID) source
            (violation CodeInboxSourceMetadataInvalid
               "Inbox Kafka source metadata forms an invalid shape" DNone DNone))).

Definition inbox_key_le (a b : InboxAdmin.inbox_entry) : Prop :=
  String.ltb a.1.1 b.1.1 || (bool_decide (a.1.1 = b.1.1) && (a.1.2 <=? b.1.2)%N) = true.
#[global] Instance inbox_key_le_dec a b : Decision (inbox_key_le a b).
Proof. unfold inbox_key_le. apply _. Defined.

Definition checkInbox (d : db) (now : time) (a : accumulator) : accumulator :=
  each (check_inbox now) (merge_sort inbox_key_le (map_to_list (db_inbox d))) a.

(** ** [checkStreams] *)

(** [MIN(x)] over the rows that have one. *)
Definition min_by {A} (lt : A -> A -> bool) (l : list A) : option A :=
  foldr (fun x m => match m with Some y => Some (if lt y x then y else x) | None => Some x end) None l.

Definition active_in (k : string * string) (P : Z -> bool) (r : event_row) : bool :=
  OrderingAdmin.in_stream k P r && active (er_status r).

Definition observe (d : db) (k : string * string) (s : stream_row) : CursorObservation :=
  let expected := filter (fun r => active_in k (Z.eqb (sr_next_sequence s)) r = true) (outbox_rows d) in
  let future := filter (fun r => active_in k (Z.ltb (sr_next_sequence s)) r = true) (outbox_rows d) in
  {| ob_StartSequence := sr_start_sequence s; ob_NextSequence := sr_next_sequence s;
     ob_ExpectedCount := Z.of_nat (length expected);
     ob_ExpectedStatus := deref (min_by String.ltb (status_text ∘ er_status <$> expected));
     ob_ExpectedAvailableAt := min_by Z.ltb (er_available_at <$> expected);
     ob_ExpectedLeaseUntil := min_by Z.ltb (omap er_lease_until expected);
     ob_LowestFutureSequence :=
       min_by Z.ltb (omap (fun r => ed_ordering_sequence (er_data r)) future) |}.

Definition check_stream (d : db) (now : time) (ks : (string * string) * stream_row)
  : accumulator -> accumulator :=
  let '((destination, key), s) := ks in
  let o := observe d (destination, key) s in
  let expected := Partition destination key in
  let at_ p f := for_event destination "" "" p f in
  bump OrderedStreams ;;;
  when (negb (sr_partition_id s =? expected))
    (add (at_ (Some (sr_partition_id s))
            (violation CodeStreamPartitionMismatch
               "stream partition differs from the deterministic mapping" (DInt expected)
               (DInt (sr_partition_id s))))) ;;;
  when ((ob_StartSequence o <=? 0) || (ob_NextSequence o <? ob_StartSequence o))
    (add (at_ None (violation CodeStreamCursorInvalid "stream cursor is outside its valid range"
            (DTexts [("start_sequence", "> 0"); ("next_sequence", ">= start_sequence")]%string)
            (DCounts [("start_sequence"%string, ob_StartSequence o);
                      ("next_sequence"%string, ob_NextSequence o)])))) ;;;
  when (1 <? ob_ExpectedCount o)
    (add (at_ None (violation CodeExpectedSequenceDuplicate
            "multiple active events occupy the expected sequence" (DInt 1)
            (DInt (ob_ExpectedCount o))))) ;;;
  match ClassifyCursor now o with
  | StreamStateIdle => id_acc
  | StreamStateReady => bump ReadyStreams
  | StreamStateInflight => bump InflightStreams ;;; bump BlockedStreams
  | StreamStateRetryWait =>
      bump RetryWaitStreams ;;; bump BlockedStreams ;;;
      add (at_ None (warning CodeStreamRetryWait
             "expected stream sequence is waiting for its retry time" (DInt (ob_NextSequence o))
             (DTime (ob_ExpectedAvailableAt o))))
  | StreamStateGap =>
      bump GapStreams ;;; bump BlockedStreams ;;;
      add (at_ None (warning CodeStreamGap
             "expected stream sequence is absent while a future sequence is retained"
             (DInt (ob_NextSequence o)) (DSequence (ob_LowestFutureSequence o))))
  | StreamStateDeadBlocked =>
      bump DeadBlockedStreams ;;; bump BlockedStreams ;;;
      add (at_ None (warning CodeStreamDeadBlocked "dead event blocks the expected stream sequence"
             (DInt (ob_NextSequence o)) (DText "dead")))
  end.

Definition stream_key_le (a b : (string * string) * stream_row) : Prop :=
  OrderingAdmin.pair_le a.1 b.1.
#[global] Instance stream_key_le_dec a b : Decision (stream_key_le a b).
Proof. unfold stream_key_le. apply _. Defined.

Definition checkStreams (d : db) (now : time) (a : accumulator) : accumulator :=
  each (check_stream d now) (merge_sort stream_key_le (map_to_list (db_streams d))) a.

(** ** [Check] *)

Definition run_checks (d : db) (now : time) (cfg : Config) (mode : Mode)
  : accumulator -> accumulator :=
  checkRuntimeControl d ;;; checkPartitions d now cfg ;;; checkRelayPresence d now cfg ;;;
  checkEvents d now mode ;;; checkInbox d now ;;; checkStreams d now.

Definition Check (cat : catalog) (d : db) (now : time) (startedAt finishedAt : time) (cfg : Config)
    (mode : Mode) : res Report :=
  fail_if negb (bool_decide (mode = ModeSummary) || bool_decide (mode = ModeFull))
    with ErrOther "integrity: unsupported check mode";
  let '(a, runtimeReady) := checkSchema cat (newAccumulator mode (c_MaxFindings cfg) startedAt) in
  Ok (finish finishedAt (when runtimeReady (run_checks d now cfg mode) a)).

End checks.

(** [IntegritySummary] ([storage/postgres/integrity.go]) *)
Definition IntegritySummary uuid_text (cat : catalog) (d : db) (now startedAt finishedAt : time)
    (staleAfter : duration) : res Report :=
  let! cfg := NewVerifier {| c_MaxFindings := 50; c_StatementTimeout := 5 * Second;
                             c_PresenceStaleAfter := staleAfter;
                             c_HandoffLongAfter := c_HandoffLongAfter DefaultConfig |} in
  Check uuid_text cat d now startedAt finishedAt cfg ModeSummary.

(** * Lemmas *)

Definition viol (a : accumulator) : Z := r_Summary (a_report a) Violations.

(** [flags f P]: the step [f] never lowers the violation count, and leaves it as
    it is exactly when [P] holds. *)
Definition flags (f : accumulator -> accumulator) (P : Prop) : Prop :=
  forall a, viol a <= viol (f a) /\ (viol (f a) = viol a <-> P).

Lemma flags_iff f P Q : flags f P -> (P <-> Q) -> flags f Q.
Proof. intros H HPQ a. destruct (H a). split; [done|]. by rewrite <- HPQ. Qed.

Lemma flags_id : flags id_acc True.
Proof. intros a. unfold id_acc. split; [lia|tauto]. Qed.

Lemma flags_bump c : c <> Violations -> flags (bump c) True.
Proof.
  intros Hc a. unfold viol, bump, with_summary, incr, set_counter. cbn.
  rewrite decide_False by done. split; [lia|tauto].
Qed.

Lemma flags_summary g : (forall s, g s Violations = s Violations) -> flags (with_summary g) True.
Proof. intros Hg a. unfold viol, with_summary. cbn. rewrite Hg. split; [lia|tauto]. Qed.

Lemma flags_warning f : fi_Severity f = SeverityWarning -> flags (add f) True.
Proof.
  intros Hf a. unfold viol, add, bump, with_summary, incr, set_counter.
  cbn [a_report r_Summary]. rewrite Hf. cbn [severity_counter]. rewrite decide_False by done.
  split; [lia|tauto].
Qed.

Lemma flags_violation f : fi_Severity f = SeverityViolation -> flags (add f) False.
Proof.
  intros Hf a. unfold viol, add, bump, with_summary, incr, set_counter.
  cbn [a_report r_Summary]. rewrite Hf. cbn [severity_counter]. rewrite decide_True by done.
  split; [lia|]. split; [lia|done].
Qed.

Lemma flags_seq f g P Q : flags f P -> flags g Q -> flags (f ;;; g) (P /\ Q).
Proof.
  intros Hf Hg a. unfold andThen. destruct (Hf a) as [Hf1 Hf2], (Hg (f a)) as [Hg1 Hg2].
  split; [lia|]. rewrite <- Hf2, <- Hg2. lia.
Qed.

Lemma flags_when b f P : flags f P -> flags (when b f) (b = true -> P).
Proof.
  intros Hf a. unfold when. destruct b; [|split; [lia|naive_solver]].
  destruct (Hf a) as [H1 H2]. split; [done|]. rewrite H2. tauto.
Qed.

Lemma flags_each {A} (step : A -> accumulator -> accumulator) (P : A -> Prop) rows :
  (forall r, r ∈ rows -> flags (step r) (P r)) -> flags (each step rows) (forall r, r ∈ rows -> P r).
Proof.
  induction rows as [|r rows IH]; intros H a; cbn.
  { split; [lia|]. split; [|done]. intros _ r Hr. by apply elem_of_nil in Hr. }
  destruct (H r) with (a := a) as [H1 H2]; [left|].
  destruct IH with (a := step r a) as [H3 H4]; [intros; apply H; by right|].
  unfold each in *. split; [lia|].
  assert (viol (foldl (fun a r0 => step r0 a) (step r a) rows) = viol a <->
          viol (step r a) = viol a /\ viol (foldl (fun a r0 => step r0 a) (step r a) rows)
                                     = viol (step r a)) as -> by lia.
  rewrite H2, H4. setoid_rewrite elem_of_cons. naive_solver.
Qed.

Create HintDb flags.
#[export] Hint Resolve flags_id flags_seq flags_when flags_each : flags.
(** Decompose a check into its leaves. *)
Ltac flags_tac :=
  lazymatch goal with
  | |- flags id_acc _ => apply flags_id
  | |- flags (bump _) _ => apply flags_bump; discriminate
  | |- flags (add _) _ => first [apply flags_warning; reflexivity | apply flags_violation; reflexivity]
  | |- flags (_ ;;; _) _ => apply flags_seq; flags_tac
  | |- flags (when _ _) _ => apply flags_when; flags_tac
  | |- flags (match ?x with _ => _ end) _ => idtac
  end.

(** ** What each check demands *)

Definition control_ok (d : db) : Prop :=
  exists c, db_control d = Some c /\ btrim_nonempty (cr_updated_by c) = true.

Lemma flags_control d : flags (checkRuntimeControl d) (control_ok d).
Proof.
  unfold checkRuntimeControl. cbv zeta.
  match goal with |- flags (fun a => when ?b ?f a) _ => change (fun a => when b f a) with (when b f) end.
  eapply flags_iff; [flags_tac|]. unfold control_ok.
  destruct (db_control d) as [c|]; cbn.
  - destruct (btrim_nonempty (cr_updated_by c)) eqn:E; cbn; split.
    + intros _. eauto.
    + done.
    + intros H. destruct (H eq_refl).
    + intros (c' & [= <-] & H) _. congruence.
  - split; [intros H; destruct (H eq_refl)|]. by intros (c & H & _).
Qed.

Definition partition_ok (id : Z) (p : partition_row) : Prop :=
  0 <= id < 64 /\ 0 <= pr_epoch p /\ lease_shape_invalid p = false.

Lemma flags_partition d now cfg ip :
  flags (check_partition d now cfg ip) (partition_ok ip.1 ip.2).
Proof.
  destruct ip as [id p]. unfold check_partition.
  eapply flags_iff.
  { flags_tac. instantiate (1 := True). destruct (pr_lease_owner p) as [o|]; [|flags_tac].
    eapply flags_iff; [flags_tac|tauto]. }
  unfold partition_ok. cbn [fst snd].
  rewrite <- (not_true_iff_false (lease_shape_invalid p)), orb_true_iff, !Z.ltb_lt, Z.leb_le.
  split; intros H; destruct_and? H; split_and!; try lia; tauto.
Qed.

Lemma partition_rows d :
  (forall ip, ip ∈ omap (fun id => (fun p => (id, p)) <$> db_partitions d !! id)
                (merge_sort Z.le (map_to_list (db_partitions d)).*1) <->
   db_partitions d !! ip.1 = Some ip.2).
Proof.
  intros [id p]. rewrite list_elem_of_omap. cbn. split.
  - intros (i & _ & H). destruct (db_partitions d !! i) eqn:E; cbn in H; by simplify_eq.
  - intros H. exists id. rewrite H. split; [|done]. rewrite merge_sort_Permutation.
    apply list_elem_of_fmap. exists (id, p). split; [done|]. by apply elem_of_map_to_list.
Qed.

Definition partitions_ok (d : db) : Prop :=
  (forall id p, db_partitions d !! id = Some p -> partition_ok id p) /\
  (forall id, 0 <= id < 64 -> is_Some (db_partitions d !! id)).

(** Exactly the 64 seeded identifiers are there. *)
Lemma seen_count (l : list Z) :
  NoDup l -> (forall x, x ∈ l <-> 0 <= x < 64) -> length l = 64%nat.
Proof.
  intros Hnd Hl. assert (l ≡ₚ seqZ 0 64) as ->; [|by vm_compute].
  apply NoDup_Permutation; [done|apply NoDup_seqZ|]. intros x. rewrite Hl, elem_of_seqZ. lia.
Qed.

Lemma flags_partitions d now cfg : flags (checkPartitions d now cfg) (partitions_ok d).
Proof.
  unfold checkPartitions. pose proof (partition_rows d) as Hrows.
  set (rows := omap _ _) in *.
  change (flags (each (check_partition d now cfg) rows ;;;
    when (negb (Z.of_nat (length (remove_dups rows.*1)) =? 64))
      (add (violation CodePartitionCountInvalid "ordering partition seed count is invalid"
              (DInt 64) (DInt (Z.of_nat (length (remove_dups rows.*1)))))) ;;;
    each (fun id => add (for_event "" "" "" (Some id)
                   (violation CodePartitionIDInvalid "required ordering partition ID is missing"
                      (DInt id) (DText "missing"))))
      (filter (fun id => id ∉ rows.*1) (seqZ 0 64))) (partitions_ok d)).
  eapply flags_iff.
  { apply flags_seq; [apply flags_seq|].
    - apply flags_each. intros ip _. apply flags_partition.
    - flags_tac.
    - apply (flags_each _ (fun _ => False)). intros id _. flags_tac. }
  assert (forall id, id ∈ rows.*1 <-> is_Some (db_partitions d !! id)) as Hseen.
  { intros id. rewrite list_elem_of_fmap. split.
    - intros ([i p] & -> & H). apply Hrows in H. by exists p.
    - intros [p H]. exists (id, p). split; [done|]. by apply Hrows. }
  unfold partitions_ok. split.
  - intros [[H1 H2] H3]. split.
    + intros id p H. apply (H1 (id, p)). by apply Hrows.
    + intros id Hid. apply Hseen. destruct (decide (id ∈ rows.*1)) as [|Hn]; [done|].
      destruct (H3 id). apply list_elem_of_filter. split; [done|]. apply elem_of_seqZ. lia.
  - intros [H1 H2]. split_and!.
    + intros [id p] H. apply H1. by apply Hrows in H.
    + intros Hc. apply negb_true_iff, Z.eqb_neq in Hc. apply Hc.
      rewrite (seen_count (remove_dups rows.*1)); [done|apply NoDup_remove_dups|].
      intros x. rewrite elem_of_remove_dups, Hseen. split; [|apply H2].
      intros [p Hp]. by apply (H1 x p Hp).
    + intros id [Hn Hin]%list_elem_of_filter. apply Hn, Hseen, H2. apply elem_of_seqZ in Hin. lia.
Qed.

Lemma flags_presence d now cfg : flags (checkRelayPresence d now cfg) True.
Proof.
  unfold checkRelayPresence. eapply flags_iff; [apply flags_each; intros r _; flags_tac|]. naive_solver.
Qed.

(** An ordered event fits its stream. *)
Definition event_consistent (d : db) (r : event_row) : Prop :=
  let e := er_data r in
  match ed_ordering_key e, ed_ordering_sequence e, ed_ordering_partition e with
  | None, None, None => True
  | Some k, Some n, Some p =>
      is_blank k = false /\ 0 < n /\ p = Partition (ed_destination e) k /\
      match db_streams d !! (ed_destination e, k) with
      | Some s => if active (er_status r) then sr_next_sequence s <= n else n < sr_next_sequence s
      | None => er_status r = Delivered
      end
  | _, _, _ => False
  end.

Lemma active_false s : active s = false <-> s = Delivered.
Proof. by destruct s. Qed.

Lemma flags_cursor ut d r seq k :
  ed_ordering_key (er_data r) = Some k ->
  flags (check_cursor ut d r seq)
    (match db_streams d !! (ed_destination (er_data r), k) with
     | Some s => if active (er_status r) then sr_next_sequence s <= seq else seq < sr_next_sequence s
     | None => er_status r = Delivered
     end).
Proof.
  intros Hk. unfold check_cursor, joined_next. rewrite Hk. cbn [mbind option_bind].
  destruct (db_streams d !! (ed_destination (er_data r), k)) as [s|]; cbn [fmap option_fmap option_map].
  - destruct (active (er_status r)) eqn:Ea; cbn [andb].
    + destruct (seq <? sr_next_sequence s) eqn:E; bool_to_prop.
      * eapply flags_iff; [flags_tac|]. lia.
      * eapply flags_iff; [flags_tac|]. rewrite bool_decide_false by by destruct (er_status r).
        split; [done|]. done.
    + apply active_false in Ea. rewrite Ea. eapply flags_iff; [flags_tac|].
      cbn [andb bool_decide]. rewrite bool_decide_true by done. cbn [andb].
      rewrite Z.leb_le. lia.
  - eapply flags_iff; [flags_tac|]. rewrite <- active_false. destruct (active (er_status r)); naive_solver.
Qed.

Lemma ordering_invalid_spec e :
  ordering_invalid e = false <->
  match ed_ordering_key e, ed_ordering_sequence e, ed_ordering_partition e with
  | None, None, None => True
  | Some k, Some n, Some _ => is_blank k = false /\ 0 < n
  | _, _, _ => False
  end.
Proof.
  unfold ordering_invalid, ordered_fields.
  destruct (ed_ordering_key e) as [k|], (ed_ordering_sequence e) as [n|],
    (ed_ordering_partition e) as [p|]; try done.
  change (negb (1 + 1 + 1 =? 0) && negb (1 + 1 + 1 =? 3)) with false. cbn [not_null is_null negb orb].
  rewrite orb_false_iff, Z.leb_gt. done.
Qed.

Lemma flags_event ut d now r : flags (check_event ut d now r) (event_consistent d r).
Proof.
  unfold check_event. cbv zeta. eapply flags_iff; [apply flags_seq; [flags_tac|]|].
  - instantiate (1 := event_consistent d r). unfold event_consistent. cbv zeta.
    pose proof (ordering_invalid_spec (er_data r)) as Hv.
    destruct (ordering_invalid (er_data r)).
    + eapply flags_iff; [flags_tac|]. split; [done|].
      destruct (ed_ordering_key (er_data r)) as [k|], (ed_ordering_sequence (er_data r)) as [n|],
        (ed_ordering_partition (er_data r)) as [p|]; try done;
        [intros (? & ? & _)|intros _]; assert (true = false) by (by apply Hv); done.
    + destruct (ed_ordering_key (er_data r)) as [k|] eqn:Ek,
        (ed_ordering_sequence (er_data r)) as [n|] eqn:En,
        (ed_ordering_partition (er_data r)) as [p|] eqn:Ep; try (destruct (proj1 Hv eq_refl); fail);
        [|flags_tac].
      destruct (proj1 Hv eq_refl) as [Hb Hn].
      eapply flags_iff; [apply flags_seq; [flags_tac|by apply flags_cursor]|].
      rewrite negb_true_iff, Z.eqb_neq.
      destruct (decide (p = Partition (ed_destination (er_data r)) k)); naive_solver.
  - tauto.
Qed.

Lemma flags_events ut d now mode :
  flags (checkEvents ut d now mode)
    (forall id r, db_outbox d !! id = Some r -> in_scope mode r = true -> event_consistent d r).
Proof.
  unfold checkEvents. set (counts := _ ∘ _).
  change (flags (with_summary counts ;;; each (check_event ut d now)
    (merge_sort id_le (filter (fun r => in_scope mode r = true) (outbox_rows d))))
    (forall id r, db_outbox d !! id = Some r -> in_scope mode r = true -> event_consistent d r)).
  eapply flags_iff; [apply flags_seq; [by apply flags_summary|apply flags_each; intros; apply flags_event]|].
  split.
  - intros [_ H] id r Hr Hs. apply H. rewrite merge_sort_Permutation. apply list_elem_of_filter.
    split; [done|]. apply elem_of_outbox_rows. eauto.
  - intros H. split; [done|]. intros r Hr. rewrite merge_sort_Permutation in Hr.
    apply list_elem_of_filter in Hr as [Hs Hr]. apply elem_of_outbox_rows in Hr as [id Hr]. eauto.
Qed.

Definition inbox_consistent (r : inbox_row) : Prop :=
  0 <= ir_attempts r /\
  inbox_lease_fields r = (if bool_decide (ir_status r = IInflight) then 3 else 0) /\
  (ir_status r = IProcessed <-> is_Some (ir_processed_at r)) /\ inbox_source_invalid r = false.

Lemma eqb_iff (P : Prop) `{!Decision P} {A} (o : option A) :
  Bool.eqb (bool_decide P) (not_null o) = true <-> (P <-> is_Some o).
Proof.
  rewrite Bool.eqb_true_iff. destruct o as [x|]; cbn.
  - rewrite bool_decide_eq_true. split; [intros ?; split; eauto|naive_solver].
  - rewrite bool_decide_eq_false. split; [|naive_solver].
    intros Hn. split; [done|]. by intros [? ?].
Qed.

Lemma flags_inbox ut now kr : flags (check_inbox ut now kr) (inbox_consistent kr.2).
Proof.
  destruct kr as [[consumer id] r]. unfold check_inbox. cbv zeta.
  eapply flags_iff.
  { flags_tac. instantiate (1 := True). destruct (ir_status r); try flags_tac;
      (eapply flags_iff; [flags_tac|tauto]). }
  unfold inbox_consistent. cbn [snd].
  rewrite <- (not_true_iff_false (inbox_source_invalid r)), Z.ltb_lt, negb_true_iff, <- not_true_iff_false,
    eqb_iff.
  assert ((if bool_decide (ir_status r = IInflight) then negb (inbox_lease_fields r =? 3)
           else negb (inbox_lease_fields r =? 0)) = true <->
          inbox_lease_fields r <> (if bool_decide (ir_status r = IInflight) then 3 else 0)) as ->.
  { by destruct (bool_decide (ir_status r = IInflight)); rewrite negb_true_iff, Z.eqb_neq. }
  assert (forall P : Prop, Decision P -> ((~ P -> False) <-> P)) as Hdn.
  { intros P HP. destruct HP; tauto. }
  assert ((~ (ir_status r = IProcessed <-> is_Some (ir_processed_at r)) -> False) <->
          (ir_status r = IProcessed <-> is_Some (ir_processed_at r))) as ->.
  { apply Hdn. apply _. }
  split; intros H; destruct_and? H; split_and!; try lia; tauto.
Qed.

Lemma flags_inboxes ut d now :
  flags (checkInbox ut d now) (forall k r, db_inbox d !! k = Some r -> inbox_consistent r).
Proof.
  unfold checkInbox. eapply flags_iff; [apply flags_each; intros; apply flags_inbox|].
  setoid_rewrite merge_sort_Permutation. split.
  - intros H k r Hr. apply (H (k, r)). by apply elem_of_map_to_list.
  - intros H [k r] Hr. apply elem_of_map_to_list in Hr. by apply (H k).
Qed.

Definition stream_consistent (d : db) (k : string * string) (s : stream_row) : Prop :=
  sr_partition_id s = Partition k.1 k.2 /\ 0 < sr_start_sequence s <= sr_next_sequence s /\
  ob_ExpectedCount (observe d k s) <= 1.

Lemma flags_stream d now ks : flags (check_stream d now ks) (stream_consistent d ks.1 ks.2).
Proof.
  destruct ks as [[dest key] s]. unfold check_stream. cbv zeta.
  eapply flags_iff.
  { flags_tac. instantiate (1 := True).
    destruct (ClassifyCursor now _); try flags_tac; (eapply flags_iff; [flags_tac|tauto]). }
  unfold stream_consistent. cbn [fst snd].
  change (ob_StartSequence (observe d (dest, key) s)) with (sr_start_sequence s).
  change (ob_NextSequence (observe d (dest, key) s)) with (sr_next_sequence s).
  rewrite negb_true_iff, Z.eqb_neq, orb_true_iff, Z.leb_le, !Z.ltb_lt.
  split; intros H; destruct_and? H; split_and!; lia.
Qed.

Lemma flags_streams d now :
  flags (checkStreams d now) (forall k s, db_streams d !! k = Some s -> stream_consistent d k s).
Proof.
  unfold checkStreams. eapply flags_iff; [apply flags_each; intros; apply flags_stream|].
  setoid_rewrite merge_sort_Permutation. split.
  - intros H k s Hs. apply (H (k, s)). by apply elem_of_map_to_list.
  - intros H [k s] Hs. apply elem_of_map_to_list in Hs. by apply H.
Qed.

(** ** The whole check *)

Definition schema_ok (cat : catalog) : Prop :=
  (forall t, t ∈ requiredTables -> t ∈ cat_tables cat) /\ cat_version cat = 4 /\
  (forall i, i ∈ requiredIndexes -> i ∈ cat_indexes cat) /\
  (forall c, c ∈ requiredConstraints -> c ∈ cat_constraints cat) /\
  (forall t c, (t, c) ∈ requiredColumns ≫= (fun tc => (fun c => (tc.1, c)) <$> tc.2) ->
               (t, c) ∈ cat_columns cat).

(** The snapshot satisfies the protocol's invariants, as far as the mode looks. *)
Definition consistent (mode : Mode) (d : db) : Prop :=
  control_ok d /\ partitions_ok d /\
  (forall id r, db_outbox d !! id = Some r -> in_scope mode r = true -> event_consistent d r) /\
  (forall k r, db_inbox d !! k = Some r -> inbox_consistent r) /\
  (forall k s, db_streams d !! k = Some s -> stream_consistent d k s).

Lemma flags_missing {A} (name : A -> string) msg (P : A -> Prop) `{!forall x, Decision (P x)} l :
  flags (each (fun x => missing msg (name x)) (filter (fun x => ~ P x) l)) (forall x, x ∈ l -> P x).
Proof.
  eapply flags_iff; [apply (flags_each _ (fun _ => False)); intros; by apply flags_violation|].
  split.
  - intros Hall x Hx. destruct (decide (P x)) as [|Hn]; [done|]. destruct (Hall x).
    by apply list_elem_of_filter.
  - intros Hall x [Hn Hx]%list_elem_of_filter. by apply Hn, Hall.
Qed.

Lemma flags_schema cat : flags (fun a => (checkSchema cat a).1) (schema_ok cat).
Proof.
  unfold checkSchema. cbn [fst].
  change (flags (each (missing "required v4 table is missing")
                   (filter (fun t => ~ (t ∈ cat_tables cat)) requiredTables) ;;;
    when (bool_decide ("schema_migrations"%string ∈ cat_tables cat) && negb (cat_version cat =? 4))
      (add (violation CodeSchemaVersionMismatch "applied migration version does not match this binary"
              (DInt 4) (DInt (cat_version cat)))) ;;;
    each (missing "required v4 index is missing")
      (filter (fun i => ~ (i ∈ cat_indexes cat)) requiredIndexes) ;;;
    each (missing "required v4 constraint is missing")
      (filter (fun c => ~ (c ∈ cat_constraints cat)) requiredConstraints) ;;;
    each (fun tc => missing "required v4 column is missing" (tc.1 ++ "." ++ tc.2)%string)
      (filter (fun tc => ~ (tc ∈ cat_columns cat))
         (requiredColumns ≫= (fun tc => (fun c => (tc.1, c)) <$> tc.2)))) (schema_ok cat)).
  eapply flags_iff.
  { repeat (apply flags_seq; [|first [apply (flags_missing (fun x => x)) |
      apply (flags_missing (fun tc : string * string => (tc.1 ++ "." ++ tc.2)%string)) | flags_tac]]).
    apply (flags_missing (fun x => x)). }
  unfold schema_ok. rewrite andb_true_iff, bool_decide_eq_true, negb_true_iff, Z.eqb_neq.
  split.
  - intros ((((Ht & Hv) & Hi) & Hc) & Hco). split_and!; try done.
    + destruct (decide (cat_version cat = 4)); [done|]. destruct Hv. split; [|done].
      apply Ht. by left.
    + intros t c Htc. by apply (Hco (t, c)).
  - intros (Ht & Hv & Hi & Hc & Hco). split_and!; try done.
    + by intros [_ ?].
    + intros [t c] Htc. by apply Hco.
Qed.

Lemma schema_ready cat a : schema_ok cat -> (checkSchema cat a).2 = true.
Proof.
  intros (Ht & _ & _ & _ & Hc). unfold checkSchema. cbn [snd].
  apply andb_true_iff. rewrite !bool_decide_eq_true. split.
  - destruct (filter _ requiredTables) as [|t l] eqn:E; [done|].
    assert (t ∈ filter (fun t => t ∉ cat_tables cat) requiredTables) as Hin by (rewrite E; left).
    apply list_elem_of_filter in Hin as [Hn Hin]. by destruct (Hn (Ht t Hin)).
  - destruct (schema_columns cat) as [|[t c] l] eqn:E; [done|].
    assert ((t, c) ∈ schema_columns cat) as Hin by (rewrite E; left).
    apply list_elem_of_filter in Hin as [Hn Hin]. by destruct (Hn (Hc t c Hin)).
Qed.

Lemma flags_checks ut d now cfg mode : flags (run_checks ut d now cfg mode) (consistent mode d).
Proof.
  unfold run_checks. eapply flags_iff.
  { repeat (apply flags_seq; [|first [apply flags_streams|apply flags_inboxes|apply flags_events
      |apply flags_presence|apply flags_partitions]]). apply flags_control. }
  unfold consistent. tauto.
Qed.

End Integrity.
