(* ===== verification/IntegrityProps.v ===== *)
(** * What a clean integrity report means

    The verifier is exact: it reports clean precisely for a consistent snapshot.
    A database that satisfies the protocol's invariants is consistent, so that a
    violation is never a false alarm; and its classification of streams agrees
    with the administrative view and with what can be claimed. *)
From Stdlib Require Import ZArith String.
From stdpp Require Import base gmap strings list sorting fin_maps.
From S2P Require Import Prelude GoStrings Ordering Schema Invariant Samples OutboxStore.
From S2P Require Import OrderedStore PartitionStore AdminTypes AdminStore OrderingAdmin.
From S2P Require Import InboxAdmin Integrity.

Open Scope Z_scope.

Module IntegrityProps.
Import Integrity.

(** ** Counting events at one position *)

Lemma length_le_1 {A} (l : list A) : NoDup l -> (forall x y, x ∈ l -> y ∈ l -> x = y) -> (length l <= 1)%nat.
Proof.
  intros Hnd Heq. destruct l as [|x [|y l]]; cbn; try lia. exfalso.
  apply NoDup_cons in Hnd as [Hx _]. apply Hx.
  rewrite (Heq x y); [left|left|right; left].
Qed.

Lemma in_stream_position k n r :
  OrderingAdmin.in_stream k (Z.eqb n) r = true -> stream_position (er_data r) = Some (k, n).
Proof.
  destruct k as [dest key]. unfold OrderingAdmin.in_stream, stream_position. cbn [fst snd].
  rewrite !andb_true_iff, bool_decide_eq_true, sql_eq_true. intros [[-> ->] H].
  destruct (ed_ordering_sequence (er_data r)) as [m|]; [|done]. by bool_to_prop; subst.
Qed.

Lemma NoDup_outbox_rows d : outbox_inv d -> NoDup (outbox_rows d).
Proof. intros H. eapply NoDup_fmap_1. by apply outbox_rows_ids. Qed.

(** At most one event occupies a stream position. *)
Lemma position_unique d k n (P : event_row -> bool) :
  outbox_inv d ->
  (forall r, P r = true -> OrderingAdmin.in_stream k (Z.eqb n) r = true) ->
  (length (filter (fun r => P r = true) (outbox_rows d)) <= 1)%nat.
Proof.
  intros Hinv HP. apply length_le_1.
  - apply NoDup_filter. by apply NoDup_outbox_rows.
  - intros x y [Hx Hx']%list_elem_of_filter [Hy Hy']%list_elem_of_filter.
    apply elem_of_outbox_rows in Hx' as [i Hi], Hy' as [j Hj].
    assert (i = j) as ->; [|congruence].
    eapply (inv_position _ Hinv); [done|done|..]; by apply in_stream_position, HP.
Qed.

(** ** Consistency of protocol states *)

(** No name the protocol stores is blank to [strings.TrimSpace]. *)
Record text_inv (d : db) : Prop := {
  tx_key : forall id r k, db_outbox d !! id = Some r -> ed_ordering_key (er_data r) = Some k ->
             is_blank k = false;
  tx_owner : forall p pr o, db_partitions d !! p = Some pr -> pr_lease_owner pr = Some o ->
               is_blank o = false;
  tx_inbox_owner : forall k r o, db_inbox d !! k = Some r -> ir_lease_owner r = Some o ->
                     is_blank o = false;
  tx_topic : forall k r s, db_inbox d !! k = Some r -> ir_source r = Some s -> is_blank (is_topic s) = false;
}.

Lemma partition_inv_ok d : partition_inv d -> text_inv d -> partitions_ok d.
Proof.
  intros Hp Ht. split.
  - intros id p Hid. pose proof (inv_partition_row _ Hp _ _ Hid) as Hok.
    assert (0 <= id < 64) by (apply (inv_partition_ids _ Hp); by exists p).
    unfold partition_row_ok in Hok. bool_to_prop. split_and!; try lia.
    unfold lease_shape_invalid. apply orb_false_iff. split.
    + destruct (pr_lease_owner p) as [o|] eqn:Eo, (pr_lease_until p); try done.
      by apply (tx_owner _ Ht _ _ _ Hid).
    + destruct (pr_publish_timeout_ms p); [|done]. bool_to_prop. apply Z.leb_gt. lia.
  - intros id Hid. by apply (inv_partition_ids _ Hp).
Qed.

Lemma ordered_fields_of r :
  event_row_ok r = true ->
  match ed_ordering_key (er_data r), ed_ordering_sequence (er_data r),
        ed_ordering_partition (er_data r) with
  | None, None, None => True
  | Some _, Some n, Some _ => 0 < n
  | _, _, _ => False
  end.
Proof.
  intros Hok. apply event_row_ok_spec in Hok as (Hd & _). unfold event_data_ok in Hd. bool_to_prop.
  unfold outbox_ordering_state_check in *.
  destruct (ed_ordering_key (er_data r)), (ed_ordering_sequence (er_data r)),
    (ed_ordering_partition (er_data r)); try done. by bool_to_prop.
Qed.

Lemma event_inv_consistent d id r :
  outbox_inv d -> text_inv d -> db_outbox d !! id = Some r -> event_consistent d r.
Proof.
  intros Ho Ht Hr. pose proof (ordered_fields_of r (inv_row _ Ho _ _ Hr)) as Hf.
  pose proof (fun k => tx_key _ Ht _ _ k Hr) as Hk. unfold event_consistent. cbv zeta.
  destruct (ed_ordering_key (er_data r)) as [k|] eqn:Ek,
    (ed_ordering_sequence (er_data r)) as [n|] eqn:En,
    (ed_ordering_partition (er_data r)) as [p|] eqn:Ep; try done.
  destruct (inv_cursor _ Ho id r (ed_destination (er_data r)) k n Hr) as (s & Hs & Hp & _ & Hc).
  { unfold stream_position. by rewrite Ek, En. }
  destruct (inv_stream _ Ho _ _ _ Hs) as [_ Hpart]. split_and!; [by apply Hk|done|congruence|].
  rewrite Hs. destruct (er_status r); cbn in *; lia.
Qed.

Lemma inbox_inv_consistent d k r :
  inbox_inv d -> text_inv d -> db_inbox d !! k = Some r -> inbox_consistent r.
Proof.
  intros Hi Ht Hr. pose proof (inv_inbox_row _ Hi _ _ Hr) as Hok. unfold inbox_row_ok in Hok.
  bool_to_prop. unfold inbox_consistent. split_and!; [done|..].
  - unfold inbox_lease_state_check, inbox_lease_fields in *.
    destruct (bool_decide (ir_status r = IInflight)); bool_to_prop.
    + destruct (ir_lease_owner r) as [o|] eqn:Eo; [|done].
      rewrite (tx_inbox_owner _ Ht _ _ _ Hr Eo). destruct (ir_lease_token r), (ir_lease_until r); done.
    + by destruct (ir_lease_owner r), (ir_lease_token r), (ir_lease_until r).
  - by apply (proj1 (eqb_iff (ir_status r = IProcessed) (ir_processed_at r))).
  - unfold inbox_source_metadata_check, inbox_source_invalid in *.
    destruct (ir_source r) as [s|] eqn:Es.
    + bool_to_prop. rewrite (tx_topic _ Ht _ _ _ Hr Es). cbn [orb].
      apply orb_false_iff. by rewrite !Z.ltb_ge.
    + by apply negb_false_iff.
Qed.

Lemma stream_inv_consistent d k s :
  outbox_inv d -> db_streams d !! k = Some s -> stream_consistent d k s.
Proof.
  intros Ho Hs. destruct k as [dest key]. destruct (inv_stream _ Ho _ _ _ Hs) as [Hok Hp].
  unfold stream_row_ok in Hok. bool_to_prop. split_and!; [done|lia..|].
  cbn [observe ob_ExpectedCount].
  pose proof (position_unique d (dest, key) (sr_next_sequence s)
    (fun r => active_in (dest, key) (Z.eqb (sr_next_sequence s)) r) Ho) as Hu.
  assert (forall r, active_in (dest, key) (Z.eqb (sr_next_sequence s)) r = true ->
            OrderingAdmin.in_stream (dest, key) (Z.eqb (sr_next_sequence s)) r = true) as Ha
    by (intros r Hr; unfold active_in in Hr; by bool_to_prop).
  specialize (Hu Ha). lia.
Qed.

Lemma db_inv_consistent mode d :
  db_inv d -> text_inv d -> control_ok d -> consistent mode d.
Proof.
  intros [Ho Hp Hi] Ht Hc. split_and!; [done|by apply partition_inv_ok|..].
  - intros id r Hr _. by eapply event_inv_consistent.
  - intros k r Hr. by eapply inbox_inv_consistent.
  - intros k s Hs. by apply stream_inv_consistent.
Qed.

(** ** The report *)

Lemma Check_report ut cat d now startedAt finishedAt cfg mode report :
  Check ut cat d now startedAt finishedAt cfg mode = Ok report ->
  (mode = ModeSummary \/ mode = ModeFull) /\ 0 <= r_Summary report Violations /\
  r_Clean report = (r_Summary report Violations =? 0) /\
  (r_Summary report Violations = 0 <-> schema_ok cat /\ consistent mode d).
Proof.
  unfold Check. intros H. destruct_match H; [done|]. apply negb_false_iff, orb_true_iff in Heqb.
  rewrite !bool_decide_eq_true in Heqb. set (a0 := newAccumulator _ _ _) in *.
  pose proof (flags_schema cat a0) as [Hs1 Hs2]. pose proof (schema_ready cat a0) as Hr.
  destruct (checkSchema cat a0) as [a ready]. cbn [fst snd] in *. injection H as <-.
  change (viol a0) with 0 in *. cbn [finish r_Summary r_Clean].
  change (r_Summary (a_report (when ready (run_checks ut d now cfg mode) a)) Violations)
    with (viol (when ready (run_checks ut d now cfg mode) a)).
  split; [done|]. destruct (flags_checks ut d now cfg mode a) as [Hc1 Hc2].
  destruct ready; cbn [when].
  - split; [lia|]. split; [done|]. rewrite <- Hs2, <- Hc2. lia.
  - split; [lia|]. split; [done|]. rewrite Hs2. split.
    + intros Hok. by specialize (Hr Hok).
    + tauto.
Qed.

(** ** The two views of a stream *)

Lemma filter_ext_in {A} (P Q : A -> bool) (l : list A) :
  (forall x, x ∈ l -> P x = Q x) ->
  filter (fun x => P x = true) l = filter (fun x => Q x = true) l.
Proof.
  induction l as [|x l IH]; intros H; [done|]. rewrite !filter_cons, (H x) by left.
  rewrite IH by (intros y Hy; apply H; by right). done.
Qed.

(** Nothing at or above the cursor has been delivered. *)
Lemma active_in_stream d k s (P : Z -> bool) r :
  outbox_inv d -> db_streams d !! k = Some s -> (forall n, P n = true -> sr_next_sequence s <= n) ->
  r ∈ outbox_rows d -> active_in k P r = OrderingAdmin.in_stream k P r.
Proof.
  intros Hinv Hs HP [id Hr]%elem_of_outbox_rows. unfold active_in.
  destruct (OrderingAdmin.in_stream k P r) eqn:E; [cbn [andb]|done].
  destruct (er_status r) eqn:Est; try done. exfalso.
  destruct k as [dest key]. unfold OrderingAdmin.in_stream in E. cbn [fst snd] in E.
  rewrite !andb_true_iff, bool_decide_eq_true, sql_eq_true in E. destruct E as [[<- Hk] Hn].
  destruct (ed_ordering_sequence (er_data r)) as [n|] eqn:En; [|done].
  destruct (inv_cursor _ Hinv id r (ed_destination (er_data r)) key n Hr) as (s' & Hs' & _ & _ & Hc).
  { unfold stream_position. by rewrite Hk, En. }
  rewrite Hs in Hs'. injection Hs' as <-. rewrite Est in Hc. cbn in Hc. apply HP in Hn. lia.
Qed.

Lemma first_event_none l : not_null (OrderingAdmin.first_event l) = negb (bool_decide (l = [])).
Proof.
  destruct l as [|r l]; [done|]. rewrite bool_decide_eq_false_2 by done.
  cbn [OrderingAdmin.first_event foldr]. by repeat case_match.
Qed.

Lemma min_by_none {A} lt (l : list A) : not_null (min_by lt l) = negb (bool_decide (l = [])).
Proof.
  destruct l as [|r l]; [done|]. rewrite bool_decide_eq_false_2 by done.
  cbn [min_by foldr]. by case_match.
Qed.

Lemma omap_sequence_nil k P l :
  Forall (fun r => OrderingAdmin.in_stream k P r = true) l ->
  omap (fun r => ed_ordering_sequence (er_data r)) l = [] <-> l = [].
Proof.
  destruct 1 as [|r l Hr _]; [done|]. unfold OrderingAdmin.in_stream in Hr. cbn.
  destruct (ed_ordering_sequence (er_data r)); [done|]. bool_to_prop. done.
Qed.

(** The next event of the administrative view is the one at the cursor. *)
Lemma next_event_at d k s id r :
  outbox_inv d -> db_outbox d !! id = Some r ->
  stream_position (er_data r) = Some (k, sr_next_sequence s) ->
  OrderingAdmin.next_event d k s = Some r.
Proof.
  intros Hinv Hr Hpos. unfold OrderingAdmin.next_event.
  pose proof (position_unique d k (sr_next_sequence s)
    (fun r => OrderingAdmin.in_stream k (Z.eqb (sr_next_sequence s)) r) Hinv (fun r H => H)) as Hu.
  assert (r ∈ filter (fun r => OrderingAdmin.in_stream k (Z.eqb (sr_next_sequence s)) r = true)
                (outbox_rows d)) as Hin.
  { apply list_elem_of_filter. split; [|apply elem_of_outbox_rows; by exists id].
    unfold stream_position in Hpos. unfold OrderingAdmin.in_stream.
    destruct (ed_ordering_key (er_data r)), (ed_ordering_sequence (er_data r)); try done.
    injection Hpos as <- <-. unfold sql_eq. cbn [fst snd].
    by rewrite !bool_decide_eq_true_2, Z.eqb_refl by done. }
  destruct (filter _ _) as [|x [|y l]]; [by apply not_elem_of_nil in Hin| |cbn in Hu; lia].
  apply list_elem_of_singleton in Hin as <-. done.
Qed.

(** The name the administrative view gives to a state of the verifier, which
    tells an idle stream from one whose next event can be claimed. *)
Definition state_text (s : StreamState) : string :=
  match s with
  | StreamStateIdle | StreamStateReady => "ready"
  | StreamStateInflight => "inflight"
  | StreamStateRetryWait => "retry_wait"
  | StreamStateGap => "gap"
  | StreamStateDeadBlocked => "dead_blocked"
  end.

Lemma views_agree d now k s :
  outbox_inv d -> db_streams d !! k = Some s ->
  OrderingAdmin.os_State (OrderingAdmin.orderingStateSelect d now k s)
    = state_text (ClassifyCursor now (observe d k s)).
Proof.
  intros Hinv Hs. cbn [OrderingAdmin.orderingStateSelect OrderingAdmin.os_State].
  unfold OrderingAdmin.next_event, OrderingAdmin.future_event, observe. cbv zeta.
  rewrite (filter_ext_in (active_in k (Z.eqb (sr_next_sequence s))) (OrderingAdmin.in_stream k (Z.eqb (sr_next_sequence s))))
    by (intros r Hr; eapply active_in_stream; try done; intros n Hn; bool_to_prop; lia).
  rewrite (filter_ext_in (active_in k (Z.ltb (sr_next_sequence s))) (OrderingAdmin.in_stream k (Z.ltb (sr_next_sequence s))))
    by (intros r Hr; eapply active_in_stream; try done; intros n Hn; bool_to_prop; lia).
  pose proof (position_unique d k (sr_next_sequence s)
    (fun r => OrderingAdmin.in_stream k (Z.eqb (sr_next_sequence s)) r) Hinv (fun r H => H)) as Hu.
  set (next := filter _ (outbox_rows d)) in *.
  set (future := filter (fun r => OrderingAdmin.in_stream k (Z.ltb _) r = true) (outbox_rows d)).
  assert (Forall (fun r => OrderingAdmin.in_stream k (Z.ltb (sr_next_sequence s)) r = true) future) as Hf
    by (apply Forall_forall; intros r Hr; by apply list_elem_of_filter in Hr as [Hr _]).
  apply omap_sequence_nil in Hf.
  destruct next as [|r [|r' l]]; [..|cbn in Hu; lia].
  - unfold ClassifyCursor. cbn. rewrite first_event_none, min_by_none.
    rewrite (bool_decide_ext _ _ Hf). by destruct (bool_decide (future = [])).
  - unfold ClassifyCursor. cbn. destruct (er_status r); cbn; try done.
    by destruct (now <? er_available_at r).
Qed.

(** * Properties *)

(** C29: The verifier is exact. A completed check reports clean, and its exit
    status without [--strict] is zero, exactly when the catalog is complete and
    the snapshot is consistent: the control row, the 64 partitions with well
    formed leases, every event in the mode's scope on the right side of its
    stream's cursor and in its partition, well formed inbox rows and streams.
    Anything else is reported as violations with exit status 2. *)
Theorem Check_exact ut cat d now startedAt finishedAt cfg mode report :
  Check ut cat d now startedAt finishedAt cfg mode = Ok report ->
  (r_Clean report = true <-> schema_ok cat /\ consistent mode d) /\
  (ExitCode report false = 0 <-> schema_ok cat /\ consistent mode d) /\
  (~ (schema_ok cat /\ consistent mode d) ->
     r_Result report = "violations"%string /\ ExitCode report false = 2).
Proof.
  intros H. pose proof (Check_report _ _ _ _ _ _ _ _ _ H) as (_ & Hn & Hc & Hv).
  rewrite <- Hv, Hc. unfold ExitCode. cbn [andb]. rewrite orb_false_r, Z.eqb_eq.
  split_and!; [done| |].
  - destruct (0 <? r_Summary report Violations) eqn:E; bool_to_prop; lia.
  - intros Hne. assert ((0 <? r_Summary report Violations) = true) as Hpos by (apply Z.ltb_lt; lia).
    rewrite Hpos. split; [|done]. unfold Check in H. destruct_match H; [done|].
    destruct (checkSchema _ _). injection H as <-. cbn [finish r_Result r_Summary] in *.
    by rewrite Hpos.
Qed.

(** No false alarms. A database that satisfies the invariants every store
    operation keeps, whose names are not blank, is reported clean in both modes,
    whatever leases have expired and whatever is waiting, blocked or dead. *)
Theorem verifier_accepts ut cat d now startedAt finishedAt cfg mode :
  db_inv d -> text_inv d -> control_ok d -> schema_ok cat ->
  mode = ModeSummary \/ mode = ModeFull ->
  exists report, Check ut cat d now startedAt finishedAt cfg mode = Ok report /\
    r_Clean report = true /\ r_Summary report Violations = 0 /\
    r_Result report <> "violations"%string.
Proof.
  intros Hd Ht Hc Hs Hm. destruct (Check ut cat d now startedAt finishedAt cfg mode) as [report|e] eqn:E.
  - pose proof (Check_report _ _ _ _ _ _ _ _ _ E) as (_ & _ & Hcl & Hv).
    assert (r_Summary report Violations = 0) as H0
      by (apply Hv; split; [done|by apply db_inv_consistent]).
    exists report. rewrite Hcl, H0. split_and!; try done.
    unfold Check in E. destruct_match E; [done|]. destruct (checkSchema _ _). injection E as <-.
    cbn [finish r_Result r_Summary] in *. rewrite H0. cbn. by destruct (0 <? _).
  - exfalso. unfold Check in E. destruct_match E.
    + apply negb_true_iff, orb_false_iff in Heqb as [H1 H2]. bool_to_prop. naive_solver.
    + by destruct (checkSchema _ _).
Qed.

(** C30: The views of a stream agree. For every stream of a database that
    satisfies the invariants, the state the administrative query reports is the
    verifier's classification of the same cursor (which tells idle from ready),
    and whatever an ordered claim returns for the stream is the very event that
    view names as next, in a stream it calls ready or in flight: a stream shown
    waiting, blocked or with a gap yields nothing. *)
Theorem stream_views_agree d locked now owner limit lease minimum dest key s :
  outbox_inv d -> db_streams d !! (dest, key) = Some s ->
  let view := OrderingAdmin.orderingStateSelect d now (dest, key) s in
  OrderingAdmin.os_State view = state_text (ClassifyCursor now (observe d (dest, key) s)) /\
  (forall e, e ∈ (ClaimOrdered d locked now owner limit lease minimum).2 ->
     Destination e = dest -> OrderingKey e = key ->
     OrderingAdmin.os_NextEventID view = Some (ID e) /\
     (OrderingAdmin.os_State view = "ready" \/ OrderingAdmin.os_State view = "inflight")%string).
Proof.
  intros Hinv Hs view. split; [by apply views_agree|]. intros e He <- <-.
  destruct (ordered_event_at_cursor _ _ _ _ _ _ _ _ Hinv He)
    as (r & s' & _ & Hr & Hs' & Hn & Hpos & Hav & Hst & _).
  rewrite Hs in Hs'. injection Hs' as <-. rewrite Hn in Hpos.
  pose proof (next_event_at d _ _ _ _ Hinv Hr Hpos) as Hnext. subst view.
  cbn [OrderingAdmin.orderingStateSelect OrderingAdmin.os_State OrderingAdmin.os_NextEventID].
  rewrite Hnext. cbn. split; [f_equal; by apply (inv_id _ Hinv)|].
  destruct Hst as [->|[-> _]]; [|by right]. left. by rewrite (proj2 (Z.ltb_ge _ _) Hav).
Qed.

(** ** Witnesses *)

Definition full_catalog : catalog :=
  {| cat_tables := list_to_set requiredTables; cat_version := 4;
     cat_indexes := list_to_set requiredIndexes; cat_constraints := list_to_set requiredConstraints;
     cat_columns := list_to_set (requiredColumns ≫= (fun tc => (fun c => (tc.1, c)) <$> tc.2)) |}.

Lemma full_catalog_ok : schema_ok full_catalog.
Proof.
  repeat split; cbn [full_catalog cat_tables cat_indexes cat_constraints cat_columns cat_version];
    intros; by apply elem_of_list_to_set.
Qed.

Definition some_blank (o : option string) : bool := from_option is_blank false o.

Lemma text_inv_bool d :
  bool_decide (map_Forall (fun _ r => some_blank (ed_ordering_key (er_data r)) = false) (db_outbox d)) = true ->
  bool_decide (map_Forall (fun _ p => some_blank (pr_lease_owner p) = false) (db_partitions d)) = true ->
  db_inbox d = ∅ -> text_inv d.
Proof.
  intros H1%bool_decide_eq_true H2%bool_decide_eq_true Hi. split.
  - intros id r k Hr Hk. specialize (H1 _ _ Hr). cbn in H1. by rewrite Hk in H1.
  - intros id p o Hp Ho. specialize (H2 _ _ Hp). cbn in H2. by rewrite Ho in H2.
  - intros k r o. by rewrite Hi, lookup_empty.
  - intros k r o. by rewrite Hi, lookup_empty.
Qed.

Lemma sample_ordered_text : text_inv sample_ordered.
Proof. apply text_inv_bool; vm_compute; reflexivity. Qed.

Lemma sample_ordered_control : control_ok sample_ordered.
Proof. vm_compute. naive_solver. Qed.

Lemma sample_ordered_db_inv : db_inv sample_ordered.
Proof.
  split; [exact sample_ordered_inv|exact sample_ordered_partition_inv|].
  assert (db_inbox sample_ordered = ∅) as Hi by (vm_compute; reflexivity).
  split; rewrite Hi; intros *; by rewrite lookup_empty.
Qed.

(** An hour later the lease of [relay-1] has long expired; that is no violation. *)
Definition sample_check (cat : catalog) : res Report :=
  Check (fun _ => "id"%string) cat sample_ordered Hour Hour Hour DefaultConfig ModeFull.

(** A database whose last migration is missing. *)
Definition old_catalog : catalog :=
  {| cat_tables := cat_tables full_catalog; cat_version := 3;
     cat_indexes := cat_indexes full_catalog; cat_constraints := cat_constraints full_catalog;
     cat_columns := cat_columns full_catalog |}.

Lemma Check_exact_witness :
  match sample_check full_catalog with
  | Ok report => r_Clean report = true /\ ExitCode report false = 0
  | Err _ => False
  end /\
  match sample_check old_catalog with
  | Ok report => r_Result report = "violations"%string /\ ExitCode report false = 2
  | Err _ => False
  end.
Proof.
  split.
  - destruct (sample_check full_catalog) as [report|] eqn:E; [|vm_compute in E; discriminate E].
    destruct (Check_exact _ _ _ _ _ _ _ _ report E) as (H1 & H2 & _).
    assert (schema_ok full_catalog /\ consistent ModeFull sample_ordered) as H
      by (split; [exact full_catalog_ok|
          exact (db_inv_consistent _ _ sample_ordered_db_inv sample_ordered_text sample_ordered_control)]).
    split; [by apply H1|by apply H2].
  - destruct (sample_check old_catalog) as [report|] eqn:E; [|vm_compute in E; discriminate E].
    apply (Check_exact _ _ _ _ _ _ _ _ report E). intros [(_ & Hv & _) _]. discriminate Hv.
Defined.

Lemma verifier_accepts_witness :
  exists report, sample_check full_catalog = Ok report /\ r_Clean report = true /\
    r_Summary report Violations = 0 /\ r_Result report <> "violations"%string.
Proof.
  refine (verifier_accepts (fun _ => "id"%string) full_catalog sample_ordered Hour Hour Hour DefaultConfig ModeFull
    sample_ordered_db_inv sample_ordered_text sample_ordered_control full_catalog_ok _).
  by right.
Defined.

Lemma stream_views_agree_witness :
  let view := OrderingAdmin.orderingStateSelect sample_ordered 5 ("orders", "k")%string sample_stream in
  OrderingAdmin.os_State view
    = state_text (ClassifyCursor 5 (observe sample_ordered ("orders", "k")%string sample_stream)) /\
  OrderingAdmin.os_NextEventID view = Some 11%N /\ ID sample_first = 11%N.
Proof.
  destruct (stream_views_agree sample_ordered ∅ 5 "relay-1" 10 Second (11 * Second) "orders" "k"
    sample_stream sample_ordered_inv) as [H1 H2]; [vm_compute; reflexivity|].
  destruct (H2 sample_first) as [H3 _]; [|vm_compute; reflexivity..|].
  - replace (ClaimOrdered _ _ _ _ _ _ _).2 with [sample_first] by (vm_compute; reflexivity). left.
  - split; [exact H1|]. rewrite H3. split; vm_compute; reflexivity.
Defined.

End IntegrityProps.
