(* ===== verification/StreamInspect.v ===== *)
(** * Inspection of one ordered stream

    [integrity/stream.go]: a bounded diagnosis of one stream from one snapshot,
    built from the verifier's findings and classification. *)
From Stdlib Require Import ZArith String.
From stdpp Require Import base gmap strings list sorting fin_maps.
From S2P Require Import Prelude GoStrings Ordering Schema Invariant Samples OutboxStore.
From S2P Require Import AdminTypes AdminStore OrderingAdmin Integrity IntegrityProps.

Open Scope Z_scope.
Open Scope emitlane_scope.

Module StreamInspect.
Import Integrity.

Definition MaxStreamEvents : nat := 200.
Definition ErrStreamNotFound : error := ErrOther "integrity: ordered stream not found".

Record StreamCursor : Type := MkStreamCursor {
  sc_Destination : string;
  sc_OrderingKey : string;
  sc_PartitionID : Z;
  sc_StartSequence : Z;
  sc_NextSequence : Z;
  sc_CreatedAt : time;
  sc_UpdatedAt : time;
}.

Record StreamEvent : Type := MkStreamEvent {
  se_ID : string;
  se_Sequence : Z;
  se_PartitionID : Z;
  se_Status : string;
  se_Attempts : Z;
  se_AvailableAt : time;
  se_LeaseOwner : string;
  se_LeaseUntil : option time;
  se_CreatedAt : time;
}.

Record PartitionState : Type := MkPartitionState {
  ps_PartitionID : Z;
  ps_LeaseOwner : string;
  ps_LeaseUntil : option time;
  ps_Epoch : Z;
  ps_HandoffNotBefore : option time;
  ps_PublishTimeoutMS : option Z;
  ps_UpdatedAt : time;
}.

Record StreamInspection : Type := MkInspection {
  si_Report : Report;
  si_Destination : string;
  si_OrderingKey : string;
  si_ExpectedPartition : Z;
  si_BlockingCondition : option StreamState;
  si_Stream : option StreamCursor;
  si_Partition : option PartitionState;
  si_Events : list StreamEvent;
  si_EventsTruncated : bool;
}.

Definition safeDiagnosticText (value : string) : bool := ValidString value && negb (has_nul value).

Definition assign (c : counter) (n : Z) : accumulator -> accumulator := with_summary (set_counter c n).

Section inspect.
Context (uuid_text : uuid -> string).

Definition scan_cursor (k : string * string) (s : stream_row) : StreamCursor :=
  {| sc_Destination := k.1; sc_OrderingKey := k.2; sc_PartitionID := sr_partition_id s;
     sc_StartSequence := sr_start_sequence s; sc_NextSequence := sr_next_sequence s;
     sc_CreatedAt := sr_created_at s; sc_UpdatedAt := sr_updated_at s |}.

Definition scan_partition (id : Z) (p : partition_row) : PartitionState :=
  {| ps_PartitionID := id; ps_LeaseOwner := deref (pr_lease_owner p); ps_LeaseUntil := pr_lease_until p;
     ps_Epoch := pr_epoch p; ps_HandoffNotBefore := pr_handoff_not_before p;
     ps_PublishTimeoutMS := pr_publish_timeout_ms p; ps_UpdatedAt := pr_updated_at p |}.

(** A NULL sequence or partition does not scan. *)
Definition scan_event (r : event_row) : res StreamEvent :=
  match ed_ordering_sequence (er_data r), ed_ordering_partition (er_data r) with
  | Some n, Some p =>
      Ok {| se_ID := uuid_text (ed_id (er_data r)); se_Sequence := n; se_PartitionID := p;
            se_Status := status_text (er_status r); se_Attempts := er_attempts r;
            se_AvailableAt := er_available_at r; se_LeaseOwner := deref (er_lease_owner r);
            se_LeaseUntil := er_lease_until r; se_CreatedAt := ed_created_at (er_data r) |}
  | _, _ => Err (ErrOther "integrity: scan retained stream event")
  end.

Fixpoint scan_all (rows : list event_row) : res (list StreamEvent) :=
  match rows with
  | [] => Ok []
  | r :: rows => let! e := scan_event r in let! l := scan_all rows in Ok (e :: l)
  end.

(** [ORDER BY ordering_sequence, id] *)
Definition sequence_le (a b : event_row) : Prop :=
  let x := default 0 (ed_ordering_sequence (er_data a)) in
  let y := default 0 (ed_ordering_sequence (er_data b)) in
  x < y \/ x = y /\ (ed_id (er_data a) <= ed_id (er_data b))%N.
#[global] Instance sequence_le_dec a b : Decision (sequence_le a b).
Proof. unfold sequence_le. apply _. Defined.

(** The events of the stream that are active or within five of the cursor. *)
Definition retained (k : string * string) (next : Z) (r : event_row) : bool :=
  bool_decide (ed_destination (er_data r) = k.1) && sql_eq (ed_ordering_key (er_data r)) k.2
  && (active (er_status r) || sql_ge (ed_ordering_sequence (er_data r)) (next - 5)).

Definition stream_rows (d : db) (k : string * string) (next : Z) : list event_row :=
  merge_sort sequence_le (filter (fun r => retained k next r = true) (outbox_rows d)).

(** [addStreamStateFinding] *)
Definition addStreamStateFinding (k : string * string) (state : StreamState) (o : CursorObservation)
  : accumulator -> accumulator :=
  let at_ f := for_event k.1 k.2 "" None f in
  (match state with
   | StreamStateIdle => id_acc
   | StreamStateReady => assign ReadyStreams 1
   | StreamStateInflight => assign InflightStreams 1 ;;; assign BlockedStreams 1
   | StreamStateRetryWait =>
       assign RetryWaitStreams 1 ;;; assign BlockedStreams 1 ;;;
       add (at_ (warning CodeStreamRetryWait "expected stream sequence is waiting for its retry time"
                   (DInt (ob_NextSequence o)) (DTime (ob_ExpectedAvailableAt o))))
   | StreamStateGap =>
       assign GapStreams 1 ;;; assign BlockedStreams 1 ;;;
       add (at_ (warning CodeStreamGap
                   "expected stream sequence is absent while a future sequence is retained"
                   (DInt (ob_NextSequence o)) (DSequence (ob_LowestFutureSequence o))))
   | StreamStateDeadBlocked =>
       assign DeadBlockedStreams 1 ;;; assign BlockedStreams 1 ;;;
       add (at_ (warning CodeStreamDeadBlocked "dead event blocks the expected stream sequence"
                   (DInt (ob_NextSequence o)) (DText "dead")))
   end) ;;;
  when (1 <? ob_ExpectedCount o)
    (add (at_ (violation CodeExpectedSequenceDuplicate
                 "multiple active events occupy the expected sequence" (DInt 1)
                 (DInt (ob_ExpectedCount o))))).

Definition active_text (status : string) : bool :=
  bool_decide (status ∈ ["pending"; "inflight"; "dead"]%string).

(** The checks of one listed event. *)
Definition check_listed (k : string * string) (expected next : Z) (now : time) (e : StreamEvent)
  : accumulator -> accumulator :=
  when (negb (se_PartitionID e =? expected))
    (add (for_event k.1 k.2 (se_ID e) (Some (se_PartitionID e))
            (violation CodeOrderingPartitionMismatch
               "ordered event partition differs from the deterministic mapping" (DInt expected)
               (DInt (se_PartitionID e))))) ;;;
  when (active_text (se_Status e) && (se_Sequence e <? next))
    (add (for_event k.1 k.2 (se_ID e) None
            (violation CodeActiveSequenceBehindCursor
               "active ordered event is below the durable stream cursor" (DInt next)
               (DInt (se_Sequence e))))) ;;;
  when (bool_decide (se_Status e = "inflight"%string) && sql_le (se_LeaseUntil e) now)
    (bump StaleEventLeases ;;;
     add (for_event k.1 k.2 (se_ID e) None
            (warning CodeStaleEventLease "inflight event lease has expired and awaits recovery" DNone
               (DTime (se_LeaseUntil e))))).

(** The checks of the cursor row. *)
Definition check_stream_row (k : string * string) (s : stream_row) : accumulator -> accumulator :=
  let expected := Partition k.1 k.2 in
  assign OrderedStreams 1 ;;;
  when (negb (sr_partition_id s =? expected))
    (add (for_event k.1 k.2 "" (Some (sr_partition_id s))
            (violation CodeStreamPartitionMismatch
               "stream partition differs from the deterministic mapping" (DInt expected)
               (DInt (sr_partition_id s))))) ;;;
  when ((sr_start_sequence s <=? 0) || (sr_next_sequence s <? sr_start_sequence s))
    (add (for_event k.1 k.2 "" None
            (violation CodeStreamCursorInvalid "stream cursor is outside its valid range" DNone
               (DCounts [("start_sequence"%string, sr_start_sequence s);
                         ("next_sequence"%string, sr_next_sequence s)])))).

Definition check_partition_row (d : db) (k : string * string) (s : stream_row)
  : accumulator -> accumulator :=
  when (is_null (db_partitions d !! sr_partition_id s))
    (add (for_event k.1 k.2 "" (Some (sr_partition_id s))
            (violation CodePartitionIDInvalid "stream partition metadata row is missing"
               (DInt (sr_partition_id s)) (DText "missing")))).

Definition InspectStream (cat : catalog) (d : db) (now startedAt finishedAt : time) (cfg : Config)
    (destination orderingKey : string) : res StreamInspection :=
  let destination := TrimSpace destination in
  let orderingKey := TrimSpace orderingKey in
  fail_if bool_decide (destination = ""%string) || bool_decide (orderingKey = ""%string)
          || negb (safeDiagnosticText destination) || negb (safeDiagnosticText orderingKey)
    with ErrOther "integrity: destination and ordering key are required and must be valid UTF-8 without NUL";
  let k := (destination, orderingKey) in
  let expected := Partition destination orderingKey in
  let '(a, runtimeReady) := checkSchema cat (newAccumulator ModeStream (c_MaxFindings cfg) startedAt) in
  if negb runtimeReady then
    Ok {| si_Report := finish finishedAt a; si_Destination := destination;
          si_OrderingKey := orderingKey; si_ExpectedPartition := expected;
          si_BlockingCondition := None; si_Stream := None; si_Partition := None; si_Events := [];
          si_EventsTruncated := false |}
  else
  match db_streams d !! k with
  | None => Err ErrStreamNotFound
  | Some s =>
      let o := observe d k s in
      let state := ClassifyCursor now o in
      let a := (check_stream_row k s ;;; addStreamStateFinding k state o) a in
      let! events := scan_all (stream_rows d k (sr_next_sequence s)) in
      let listed := take MaxStreamEvents events in
      let a := each (check_listed k expected (sr_next_sequence s) now) listed a in
      let a := check_partition_row d k s a in
      Ok {| si_Report := finish finishedAt a; si_Destination := destination;
            si_OrderingKey := orderingKey; si_ExpectedPartition := expected;
            si_BlockingCondition := Some state; si_Stream := Some (scan_cursor k s);
            si_Partition := scan_partition (sr_partition_id s) <$> db_partitions d !! sr_partition_id s;
            si_Events := listed;
            si_EventsTruncated := Nat.ltb MaxStreamEvents (length events) |}
  end.

End inspect.

(** * Lemmas *)

Lemma flags_assign c n : c <> Violations -> flags (assign c n) True.
Proof.
  intros Hc. apply flags_summary. intros s. unfold set_counter. by rewrite decide_False.
Qed.

Ltac inspect_tac :=
  repeat first [apply flags_assign; discriminate | apply flags_id | apply flags_bump; discriminate
               | apply flags_warning; reflexivity | apply flags_violation; reflexivity
               | apply flags_seq | apply flags_when].

Lemma flags_stream_row k s :
  flags (check_stream_row k s)
    (sr_partition_id s = Partition k.1 k.2 /\ 0 < sr_start_sequence s <= sr_next_sequence s).
Proof.
  unfold check_stream_row. cbv zeta. eapply flags_iff; [inspect_tac|].
  rewrite negb_true_iff, Z.eqb_neq, orb_true_iff, Z.leb_le, Z.ltb_lt.
  split; intros H; destruct_and? H; split_and!; lia.
Qed.

Lemma flags_state k state o : flags (addStreamStateFinding k state o) (ob_ExpectedCount o <= 1).
Proof.
  unfold addStreamStateFinding. cbv zeta.
  eapply (flags_iff _ (True /\ (_ -> False))).
  { apply flags_seq; [|apply flags_when; inspect_tac].
    destruct state; (eapply flags_iff; [inspect_tac|tauto]). }
  rewrite Z.ltb_lt. split; [intros [_ H]|intros H; split]; lia.
Qed.

Definition listed_ok (expected next : Z) (e : StreamEvent) : Prop :=
  se_PartitionID e = expected /\ (active_text (se_Status e) = true -> next <= se_Sequence e).

Lemma flags_listed k expected next now e :
  flags (check_listed k expected next now e) (listed_ok expected next e).
Proof.
  unfold check_listed. eapply flags_iff; [inspect_tac|]. unfold listed_ok.
  rewrite negb_true_iff, Z.eqb_neq, andb_true_iff, Z.ltb_lt.
  split.
  - intros [[H1 H2] _]. split; [lia|]. intros Ha. destruct (decide (next <= se_Sequence e)); [done|].
    destruct H2. split; [done|lia].
  - intros [-> H]. split_and!; [done| |done]. intros [Ha Hn]. specialize (H Ha). lia.
Qed.

Lemma flags_partition_row d k s :
  flags (check_partition_row d k s) (is_Some (db_partitions d !! sr_partition_id s)).
Proof.
  unfold check_partition_row. eapply flags_iff; [inspect_tac|].
  destruct (db_partitions d !! sr_partition_id s); cbn.
  - split; [by eexists|done].
  - split; [intros H; by destruct (H eq_refl)|by intros [? ?]].
Qed.

Lemma active_status_text st : active_text (status_text st) = active st.
Proof. by destruct st. Qed.

Lemma scan_all_ok ut rows events :
  scan_all ut rows = Ok events -> Forall2 (fun r e => scan_event ut r = Ok e) rows events.
Proof.
  revert events. induction rows as [|r rows IH]; cbn; intros events H; [by simplify_eq; constructor|].
  apply result_bind_ok in H as (e & He & H). apply result_bind_ok in H as (l & Hl & H). simplify_eq.
  constructor; [done|by apply IH].
Qed.

Lemma scan_all_total ut rows :
  Forall (fun r => exists e, scan_event ut r = Ok e) rows -> exists events, scan_all ut rows = Ok events.
Proof.
  induction 1 as [|r rows [e He] _ [l Hl]]; [by exists []|]. exists (e :: l). cbn. by rewrite He, Hl.
Qed.

Lemma retained_true k next r :
  retained k next r = true ->
  ed_destination (er_data r) = k.1 /\ ed_ordering_key (er_data r) = Some k.2.
Proof.
  unfold retained. rewrite !andb_true_iff, bool_decide_eq_true, sql_eq_true. tauto.
Qed.

Lemma elem_of_stream_rows d k next r :
  r ∈ stream_rows d k next <-> retained k next r = true /\ exists id, db_outbox d !! id = Some r.
Proof.
  unfold stream_rows. rewrite merge_sort_Permutation, list_elem_of_filter, elem_of_outbox_rows. done.
Qed.

(** The rows of a stream satisfy what the inspection demands of them. *)
Lemma stream_row_listed ut d k s r :
  outbox_inv d -> db_streams d !! k = Some s -> r ∈ stream_rows d k (sr_next_sequence s) ->
  exists e, scan_event ut r = Ok e /\ listed_ok (Partition k.1 k.2) (sr_next_sequence s) e /\
    stream_position (er_data r) = Some (k, se_Sequence e).
Proof.
  intros Hinv Hs [Hk%retained_true [id Hr]]%elem_of_stream_rows. destruct Hk as [Hd Hk].
  destruct k as [dest key]. cbn [fst snd] in *. subst dest.
  pose proof (IntegrityProps.ordered_fields_of r (inv_row _ Hinv _ _ Hr)) as Hf. rewrite Hk in Hf.
  unfold scan_event. destruct (ed_ordering_sequence (er_data r)) as [n|] eqn:En,
    (ed_ordering_partition (er_data r)) as [p|] eqn:Ep; try done.
  eexists. split; [done|]. cbn [se_PartitionID se_Status se_Sequence].
  assert (stream_position (er_data r) = Some (ed_destination (er_data r), key, n)) as Hpos
    by (unfold stream_position; by rewrite Hk, En).
  destruct (inv_cursor _ Hinv _ _ _ _ _ Hr Hpos) as (s' & Hs' & Hp & _ & Hc).
  rewrite Hs in Hs'. injection Hs' as <-. destruct (inv_stream _ Hinv _ _ _ Hs) as [_ Hpart].
  split; [|done]. split; cbn [se_PartitionID se_Status se_Sequence]; [congruence|].
  rewrite active_status_text. intros Ha. destruct (er_status r); cbn in *; try done; lia.
Qed.

Lemma expected_once d k s :
  outbox_inv d -> db_streams d !! k = Some s -> ob_ExpectedCount (observe d k s) <= 1.
Proof. intros Hinv Hs. by apply (IntegrityProps.stream_inv_consistent d k s Hinv Hs). Qed.

(** A check whose demand is met adds no violation. *)
Lemma flags_kept f P a : flags f P -> P -> viol (f a) = viol a.
Proof. intros Hf HP. by apply (Hf a). Qed.

(** The accumulator after all checks of an existing stream. *)
Definition inspected (d : db) (now : time) (k : string * string) (s : stream_row)
    (events : list StreamEvent) (a : accumulator) : accumulator :=
  check_partition_row d k s
    (each (check_listed k (Partition k.1 k.2) (sr_next_sequence s) now) (take MaxStreamEvents events)
       ((check_stream_row k s ;;; addStreamStateFinding k (ClassifyCursor now (observe d k s))
           (observe d k s)) a)).

Lemma inspection_clean ut d now k s a events :
  outbox_inv d -> partition_inv d -> db_streams d !! k = Some s ->
  Forall2 (fun r e => scan_event ut r = Ok e) (stream_rows d k (sr_next_sequence s)) events ->
  viol (inspected d now k s events a) = viol a /\ Partition k.1 k.2 = sr_partition_id s /\
  is_Some (db_partitions d !! sr_partition_id s).
Proof.
  intros Ho Hp Hs Hscan. destruct k as [dest key]. cbn [fst snd].
  destruct (inv_stream _ Ho _ _ _ Hs) as [Hrow Hpart]. unfold stream_row_ok in Hrow. bool_to_prop.
  assert (is_Some (db_partitions d !! sr_partition_id s)) as Hex
    by (apply (inv_partition_ids _ Hp); lia).
  split; [|done].
  unfold inspected. rewrite (flags_kept _ _ _ (flags_partition_row d (dest, key) s) Hex).
  rewrite (flags_kept _ _ _ (flags_each _ _ _ (fun e _ => flags_listed _ _ _ now e))).
  - unfold andThen. rewrite (flags_kept _ _ _ (flags_state _ _ _)) by by apply expected_once.
    apply (flags_kept _ _ _ (flags_stream_row (dest, key) s)). cbn. lia.
  - intros e He%elem_of_take. destruct He as (i & He & _).
    destruct (Forall2_lookup_r _ _ _ _ _ Hscan He) as (r & Hr & Hre).
    apply list_elem_of_lookup_2 in Hr.
    destruct (stream_row_listed ut d (dest, key) s r Ho Hs Hr) as (e' & He' & Hok & _).
    rewrite Hre in He'. by injection He' as <-.
Qed.

Lemma listed_rows ut d k s events :
  outbox_inv d -> db_streams d !! k = Some s ->
  Forall2 (fun r e => scan_event ut r = Ok e) (stream_rows d k (sr_next_sequence s)) events ->
  forall e, e ∈ take MaxStreamEvents events -> exists id r, db_outbox d !! id = Some r /\
    stream_position (er_data r) = Some (k, se_Sequence e) /\ se_ID e = ut (ed_id (er_data r)).
Proof.
  intros Ho Hs Hscan e He%elem_of_take. destruct He as (i & He & _).
  destruct (Forall2_lookup_r _ _ _ _ _ Hscan He) as (r & Hr & Hre).
  apply list_elem_of_lookup_2 in Hr.
  destruct (stream_row_listed ut d k s r Ho Hs Hr) as (e' & He' & _ & Hpos).
  rewrite Hre in He'. injection He' as <-. apply elem_of_stream_rows in Hr as [_ [id Hid]].
  exists id, r. split_and!; [done|done|]. unfold scan_event in Hre. by repeat case_match; simplify_eq.
Qed.

Lemma all_listed ut d k s events :
  outbox_inv d -> db_streams d !! k = Some s ->
  Forall2 (fun r e => scan_event ut r = Ok e) (stream_rows d k (sr_next_sequence s)) events ->
  forall id r n, db_outbox d !! id = Some r -> stream_position (er_data r) = Some (k, n) ->
    active (er_status r) = true ->
    exists e, e ∈ events /\ se_Sequence e = n /\ se_ID e = ut (ed_id (er_data r)).
Proof.
  intros Ho Hs Hscan id r n Hr Hpos Ha.
  assert (r ∈ stream_rows d k (sr_next_sequence s)) as Hin.
  { apply elem_of_stream_rows. split; [|by exists id]. unfold retained, stream_position in *.
    rewrite Ha. destruct (ed_ordering_key (er_data r)), (ed_ordering_sequence (er_data r)); try done.
    injection Hpos as <- <-. unfold sql_eq. cbn [fst snd]. by rewrite !bool_decide_eq_true_2. }
  destruct (stream_row_listed ut d k s r Ho Hs Hin) as (e & He & _ & Hpos').
  rewrite Hpos in Hpos'. injection Hpos' as ->. exists e. split_and!; [|done|].
  - apply list_elem_of_lookup_1 in Hin as [i Hi].
    destruct (Forall2_lookup_l _ _ _ _ _ Hscan Hi) as (e' & Hi' & He'). rewrite He in He'.
    injection He' as <-. by eapply list_elem_of_lookup_2.
  - unfold scan_event in He. by repeat case_match; simplify_eq.
Qed.

(** * Properties *)

Definition named (destination orderingKey : string) : Prop :=
  TrimSpace destination = destination /\ TrimSpace orderingKey = orderingKey /\
  destination <> ""%string /\ orderingKey <> ""%string /\
  safeDiagnosticText destination = true /\ safeDiagnosticText orderingKey = true.

(** Inspecting a stream. On a database that satisfies the invariants, with a
    complete catalog, the inspection of a stream that exists returns without a
    violation; its condition is the verifier's classification and its expected
    partition the stored one, whose lease it shows; it lists at most 200 events,
    all of this stream, and when nothing was cut off every active event of the
    stream is among them. A stream that does not exist is reported as such. *)
Theorem stream_inspection ut cat d now startedAt finishedAt cfg destination orderingKey :
  db_inv d -> schema_ok cat -> named destination orderingKey ->
  let k := (destination, orderingKey) in
  match db_streams d !! k with
  | None => InspectStream ut cat d now startedAt finishedAt cfg destination orderingKey
            = Err ErrStreamNotFound
  | Some s =>
      exists i, InspectStream ut cat d now startedAt finishedAt cfg destination orderingKey = Ok i /\
        r_Summary (si_Report i) Violations = 0 /\ r_Clean (si_Report i) = true /\
        si_BlockingCondition i = Some (ClassifyCursor now (observe d k s)) /\
        si_ExpectedPartition i = sr_partition_id s /\ si_Partition i <> None /\
        (length (si_Events i) <= 200)%nat /\
        (forall e, e ∈ si_Events i -> exists id r, db_outbox d !! id = Some r /\
           stream_position (er_data r) = Some (k, se_Sequence e) /\ se_ID e = ut (ed_id (er_data r))) /\
        (si_EventsTruncated i = false -> forall id r n, db_outbox d !! id = Some r ->
           stream_position (er_data r) = Some (k, n) -> active (er_status r) = true ->
           exists e, e ∈ si_Events i /\ se_Sequence e = n /\ se_ID e = ut (ed_id (er_data r)))
  end.
Proof.
  intros Hinv Hcat (Ht1 & Ht2 & Hn1 & Hn2 & Hs1 & Hs2) k. unfold InspectStream. rewrite Ht1, Ht2.
  rewrite !bool_decide_eq_false_2, Hs1, Hs2 by done. cbn [orb negb].
  set (a0 := newAccumulator _ _ _). pose proof (flags_schema cat a0) as [_ Hsch].
  pose proof (schema_ready cat a0 Hcat) as Hready.
  destruct (checkSchema cat a0) as [a ready]. cbn [fst snd] in *. subst ready. cbn [negb].
  fold k. destruct (db_streams d !! k) as [s|] eqn:Hs; [|done].
  apply Hsch in Hcat. change (viol a0) with 0 in Hcat. destruct Hinv as [Ho Hp _].
  destruct (scan_all_total ut (stream_rows d k (sr_next_sequence s))) as [events Hev].
  { apply Forall_forall. intros r Hr. destruct (stream_row_listed ut d k s r Ho Hs Hr) as (e & He & _).
    by exists e. }
  rewrite Hev. cbn [result_bind]. eexists. split; [reflexivity|].
  pose proof (scan_all_ok _ _ _ Hev) as Hscan.
  destruct (inspection_clean ut d now k s a events Ho Hp Hs Hscan) as (Hv & Hpart & Hex).
  cbn [si_Report si_BlockingCondition si_ExpectedPartition si_Partition si_Events si_EventsTruncated
       finish r_Summary r_Clean].
  assert (r_Summary (a_report (inspected d now k s events a)) Violations = 0) as Hz
    by (change (viol (inspected d now k s events a) = 0); congruence).
  split; [exact Hz|]. split; [unfold inspected in Hz; cbn in Hz; apply Z.eqb_eq; exact Hz|].
  split; [done|]. split; [done|]. split; [destruct Hex as [p ->]; done|].
  split; [rewrite length_take; unfold MaxStreamEvents; lia|].
  split; [by eapply listed_rows|]. intros Hcut. apply Nat.ltb_ge in Hcut.
  rewrite take_ge by done. by eapply all_listed.
Qed.

(** ** Witness *)

Lemma stream_inspection_witness :
  exists i, InspectStream (fun _ => "id"%string) IntegrityProps.full_catalog sample_ordered 5 5 6
              DefaultConfig "orders" "k" = Ok i /\
    r_Clean (si_Report i) = true /\ si_BlockingCondition i = Some StreamStateReady.
Proof.
  pose proof (stream_inspection (fun _ => "id"%string) IntegrityProps.full_catalog sample_ordered 5 5 6
    DefaultConfig "orders" "k" IntegrityProps.sample_ordered_db_inv IntegrityProps.full_catalog_ok) as H.
  assert (named "orders" "k") as Hn by (vm_compute; repeat split; discriminate).
  specialize (H Hn). cbv zeta in H.
  assert (db_streams sample_ordered !! ("orders", "k")%string = Some sample_stream) as Hs
    by (vm_compute; reflexivity).
  rewrite Hs in H. destruct H as (i & Hi & _ & Hc & Hb & _). exists i.
  split; [exact Hi|]. split; [exact Hc|]. rewrite Hb. vm_compute. reflexivity.
Defined.

End StreamInspect.
