(* ===== verification/Http.v ===== *)
(** * The administrative HTTP API

    [internal/admin/http.go]: the bearer-token check, the request identifier,
    the routes and every handler, on top of the service. A request is served as
    one step of the database; the response records the status, the request
    identifier and the value written. Parsers of JSON bodies, UUIDs and RFC 3339
    times are arguments, as is everything one request reads from outside. *)
From Stdlib Require Import ZArith String Ascii.
From stdpp Require Import base gmap strings list fin_maps.
From S2P Require Import Prelude GoStrings GoParse Sha256 Schema Invariant Samples AdminTypes.
From S2P Require Import OutboxStore AdminStore Presence OrderingAdmin InboxStore InboxAdmin AdminService AdminListing.
From S2P Require Import Integrity IntegrityProps.

Open Scope Z_scope.
Open Scope emitlane_scope.

Module Http.
Import Admin.

Definition maxRequestBody : Z := 2 ^ 20.

Record HTTPConfig : Type := MkHTTPConfig {
  hc_Addr : string;
  hc_Token : string;
  hc_ExposePayload : bool;
}.

(** [NewHTTPServer] accepts the configuration. *)
Definition NewHTTPServer_ok (cfg : HTTPConfig) : bool := negb (is_blank (hc_Addr cfg)).

(** What the handlers see of a request: the decoded segments of the URL path and
    whether the path is in the form [path.Clean] leaves, the first value of each
    header, the decoded query pairs and the body. *)
Record Request : Type := MkRequest {
  rq_Method : string;
  rq_Path : list string;
  rq_Clean : bool;
  rq_Header : gmap string string;
  rq_Query : list (string * string);
  rq_Body : string;
}.

Definition header (r : Request) (name : string) : string := default ""%string (rq_Header r !! name).
Definition query_all (r : Request) (name : string) : list string :=
  (filter (fun kv => kv.1 = name) (rq_Query r)).*2.
(** [r.URL.Query().Get(name)] *)
Definition query (r : Request) (name : string) : string := default ""%string (head (query_all r name)).
(** [r.URL.Path] *)
Definition URL_Path (r : Request) : string := String.concat "" ((fun s => "/" +:+ s) <$> rq_Path r).

(** The value a handler encodes as the body. *)
Inductive payload : Type :=
| PStats (v : OrderingAdmin.Stats)
| PReport (v : Integrity.Report)
| PEvents (v : EventPage)
| PEvent (v : Event)
| PRelays (v : list RelayInstance)
| PRelay (v : RelayInstance)
| PControl (v : ControlState)
| PPreview (v : ReplayPreview)
| PReplay (v : ReplayResult)
| PAudit (v : AuditPage)
| PStreams (v : OrderingAdmin.OrderingStreamPage)
| PStream (v : OrderingAdmin.OrderingStream)
| PPartitions (v : list OrderingAdmin.OrderingPartition)
| PInboxStats (v : InboxAdmin.InboxStats_)
| PInboxList (items : list InboxAdmin.InboxEvent) (limit offset : Z)
| PInboxEvent (v : InboxAdmin.InboxEvent)
| PRetried (id : uuid)
| PInboxRetried (consumer : string) (id : uuid)
| PError (code : string) (cause : option error)
| PMux.

Record Response : Type := MkResponse {
  rs_Status : Z;
  rs_RequestID : string;
  rs_Body : payload;
}.

Definition outcome : Type := db * list (string * string) * (Z * payload).
Definition reply (d : db) (status : Z) (p : payload) : outcome := (d, [], (status, p)).

(** ** Middleware *)

(** Printable ASCII, up to 128 bytes. *)
Definition sanitizeRequestID (value : string) : string :=
  let value := TrimSpace value in
  if bool_decide (value = ""%string) || (128 <? go_len value) then ""
  else if forallb (fun b => between 32 126 b) (bytes value) then value else "".

Definition requestID (fresh : string) (r : Request) : string :=
  let id := sanitizeRequestID (header r "X-Request-ID") in
  if bool_decide (id = ""%string) then fresh else id.

(** [authenticate]: whether the request passes. *)
Definition authenticate (cfg : HTTPConfig) (r : Request) : bool :=
  if bool_decide (hc_Token cfg = ""%string) then true else
  match CutPrefix (header r "Authorization") "Bearer " with
  | Some provided =>
      negb (bool_decide (provided = ""%string))
      && bool_decide (Sum256 provided = Sum256 (hc_Token cfg))
  | None => false
  end.

(** [serviceError] *)
Definition serviceError (d : db) (r : Request) (e : error) : outcome :=
  match e with
  | ErrAdminInvalid _ => reply d 400 (PError "invalid_request" (Some e))
  | ErrAdminNotFound =>
      reply d 404 (PError (if Contains (URL_Path r) "/events/" then "event_not_found" else "not_found")
                     (Some e))
  | ErrAdminConflict msg =>
      reply d 409 (PError (if Contains ("admin: conflict: " +:+ msg) "exceeds"
                           then "replay_limit_exceeded" else "invalid_event_state") (Some e))
  | _ => reply d 500 (PError "internal" None)
  end.

(** [value, err := ...; if err != nil { h.serviceError(...); return }] *)
Definition ok_or {A} (d : db) (r : Request) (x : res A) (k : A -> outcome) : outcome :=
  match x with Ok a => k a | Err e => serviceError d r e end.
Definition respond {A} (d : db) (r : Request) (x : res A) (k : A -> payload) : outcome :=
  ok_or d r x (fun a => reply d 200 (k a)).

(** A mutation: the database and the notifications are the service's. *)
Definition committed {A} (r : Request) (x : db * list (string * string) * res A)
    (status : Z) (k : A -> payload) : outcome :=
  match x with
  | (d', ns, Ok a) => (d', ns, (status, k a))
  | (d', ns, Err e) => (d', ns, (serviceError d' r e).2)
  end.

(** ** Decoding *)

(** A decoder on the bytes it can read: a value and what follows it, a syntax or
    field error, or the need for more input. *)
Inductive decoded (A : Type) : Type :=
| Decoded (a : A) (rest : string)
| Malformed
| Incomplete.
Arguments Decoded {A}.
Arguments Malformed {A}.
Arguments Incomplete {A}.

(** [decodeJSON]: one value and nothing else within [maxRequestBody]. *)
Definition decodeJSON {A} (decode : string -> decoded A) (d : db) (r : Request) (k : A -> outcome)
  : outcome :=
  let tooLong := maxRequestBody <? go_len (rq_Body r) in
  let visible := String.substring 0 (Z.to_nat maxRequestBody) (rq_Body r) in
  match decode visible with
  | Incomplete =>
      if tooLong then reply d 413 (PError "invalid_request" None)
      else reply d 400 (PError "invalid_json" None)
  | Malformed => reply d 400 (PError "invalid_json" None)
  | Decoded a rest =>
      if at_EOF rest && negb tooLong then k a else reply d 400 (PError "invalid_json" None)
  end.

Record mutationBody : Type := MkMutationBody { mb_Reason : string }.
Record inboxRetryBody : Type := MkInboxRetryBody { ib_Consumer : string; ib_Reason : string }.
Record replayMutationBody : Type := MkReplayMutationBody { rm_Reason : string; rm_OrderingMode : string }.
Record replayBody : Type := MkReplayBody {
  rb_Statuses : list string;
  rb_Destination : string;
  rb_EventType : string;
  rb_CreatedFrom : option time;
  rb_CreatedTo : option time;
  rb_Limit : Z;
  rb_Reason : string;
  rb_OrderingMode : string;
}.

(** [replayBody.filter] *)
Definition body_filter (b : replayBody) : EventFilter :=
  {| f_Statuses := rb_Statuses b; f_Destination := rb_Destination b; f_EventType := rb_EventType b;
     f_CreatedFrom := rb_CreatedFrom b; f_CreatedTo := rb_CreatedTo b; f_ReplayBatchID := None;
     f_Cursor := None; f_Limit := rb_Limit b |}.

(** [h.mutation], with the ordering mode the replay handlers set. *)
Definition mutation (rid reason mode : string) : Mutation :=
  {| mu_Actor := "admin-api"; mu_Reason := reason; mu_RequestID := rid; mu_Traceparent := "";
     mu_Tracestate := ""; mu_OrderingMode := mode |}.

Definition queryLimit (r : Request) (fallback : Z) : res Z :=
  let raw := TrimSpace (query r "limit") in
  if bool_decide (raw = ""%string) then Ok fallback else
  match Atoi raw with
  | None => Err (ErrAdminInvalid "limit must be an integer")
  | Some limit =>
      fail_if (limit <? 1) || (MaxPageSize <? limit)
        with ErrAdminInvalid "limit must be between 1 and 200";
      Ok limit
  end.

(** An optional query parameter with its parser. *)
Definition optional {A} (raw : string) (parse : string -> option A) (message : string)
  : res (option A) :=
  if bool_decide (raw = ""%string) then Ok None else
  match parse raw with
  | Some a => Ok (Some a)
  | None => Err (ErrAdminInvalid message)
  end.

(** ** Handlers *)

(** What the outside world supplies to one request: the clock, the state the
    second query of the statistics reads, the identifiers drawn, the trace
    headers, and the catalog and clock readings of the integrity check. *)
Record Env : Type := MkEnv {
  en_now : time;
  en_now2 : time;
  en_db2 : db;
  en_newV7 : nat -> option uuid;
  en_auditID : uuid;
  en_requestID : string;
  en_trace : string * string;
  en_catalog : Integrity.catalog;
  en_startedAt : time;
  en_finishedAt : time;
}.

Section handlers.
(** The status [http.ServeMux] redirects an unclean path with. *)
Context (redirect : Z).
Context (staleAfter : duration).
Context (json_Marshal : Cursor -> string) (json_Decode : string -> option (Cursor * string)).
Context (stream_Marshal : OrderingAdmin.OrderingStreamCursor -> string).
Context (stream_Decode : string -> option (OrderingAdmin.OrderingStreamCursor * string)).
Context (uuid_String : uuid -> string) (uuid_Parse : string -> option uuid).
Context (time_Parse : string -> option time).
Context (decode_mutation : string -> decoded mutationBody).
Context (decode_inbox : string -> decoded inboxRetryBody).
Context (decode_replay_one : string -> decoded replayMutationBody).
Context (decode_replay : string -> decoded replayBody).
Context (cfg : HTTPConfig) (en : Env) (rid : string) (d : db) (r : Request).

Definition queryTime (name : string) : res (option time) :=
  let raw := query r name in
  if is_blank raw then Ok None else
  match time_Parse raw with
  | Some t => Ok (Some t)
  | None => Err (ErrAdminInvalid (name +:+ " must be RFC3339"))
  end.

Definition filterFromQuery : res EventFilter :=
  let statuses := query_all r "status" ≫= Split "," in
  let! limit := queryLimit r DefaultPageSize in
  let! cursor := DecodeCursor json_Decode (query r "cursor") in
  let! from := queryTime "created_after" in
  let! to := queryTime "created_before" in
  let! batch := optional (TrimSpace (query r "replay_batch_id")) uuid_Parse
                  "replay_batch_id must be a UUID" in
  Ok {| f_Statuses := statuses; f_Destination := query r "destination";
        f_EventType := query r "event_type"; f_CreatedFrom := from; f_CreatedTo := to;
        f_ReplayBatchID := batch; f_Cursor := cursor; f_Limit := limit |}.

(** [eventID]: the path's identifier, or a 400. *)
Definition eventID (value : string) (k : uuid -> outcome) : outcome :=
  match uuid_Parse value with
  | Some id => k id
  | None => reply d 400 (PError "invalid_request" None)
  end.

Definition stats : outcome :=
  respond d r (Service.Stats_ staleAfter d (en_db2 en) (en_now en) (en_now2 en)) PStats.

Definition integrity : outcome :=
  let mode := TrimSpace (query r "mode") in
  if negb (bool_decide (mode ∈ [""; "summary"]%string))
  then serviceError d r (ErrAdminInvalid "Admin API supports integrity mode summary only") else
  respond d r (Integrity.IntegritySummary uuid_String (en_catalog en) d (en_now en) (en_startedAt en)
                 (en_finishedAt en) staleAfter) PReport.

Definition inboxStats : outcome :=
  respond d r (Service.InboxStats d (en_now en) (query r "consumer")) PInboxStats.

Definition inboxDead : outcome :=
  ok_or d r (queryLimit r DefaultPageSize) (fun limit =>
  ok_or d r (optional (TrimSpace (query r "offset"))
               (fun raw => match Atoi raw with
                           | Some n => if n <? 0 then None else Some n
                           | None => None
                           end) "offset must be a non-negative integer") (fun offset =>
  let offset := default 0 offset in
  respond d r (Service.ListDeadInbox d {| InboxAdmin.df_Consumer := query r "consumer";
                                          InboxAdmin.df_Limit := limit;
                                          InboxAdmin.df_Offset := offset |})
    (fun items => PInboxList items limit offset))).

Definition inboxEvent (value : string) : outcome :=
  eventID value (fun id => respond d r (Service.InspectInbox d (query r "consumer") id) PInboxEvent).

Definition inboxRetry (value : string) : outcome :=
  eventID value (fun id =>
  decodeJSON decode_inbox d r (fun body =>
  let '(d', x) := Service.RetryDeadInbox (en_trace en) uuid_String d (en_now en) (en_auditID en)
                    (ib_Consumer body) id (mutation rid (ib_Reason body) "") in
  committed r (d', [], x) 200 (fun _ => PInboxRetried (ib_Consumer body) id))).

Definition events : outcome :=
  ok_or d r filterFromQuery (fun f => respond d r (Service.ListEvents json_Marshal d f) PEvents).

Definition event (value : string) : outcome :=
  eventID value (fun id =>
  let include := bool_decide (query r "payload" = "true"%string) in
  if include && negb (hc_ExposePayload cfg) then reply d 403 (PError "payload_disabled" None) else
  respond d r (Service.InspectEvent d id include) PEvent).

Definition relays : outcome := reply d 200 (PRelays (Service.ListRelays_ staleAfter d (en_now en))).

Definition relay (value : string) : outcome :=
  respond d r (Service.GetRelay_ staleAfter d (en_now en) value) PRelay.

Definition control : outcome := respond d r (Service.ControlState_ d) PControl.

Definition setPause (paused : bool) : outcome :=
  decodeJSON decode_mutation d r (fun body =>
  committed r (Service.SetPaused (en_trace en) (en_newV7 en) d (en_now en) paused
                 (mutation rid (mb_Reason body) "")) 200 PControl).

Definition retry (value : string) : outcome :=
  eventID value (fun id =>
  decodeJSON decode_mutation d r (fun body =>
  committed r (Service.RetryDead (en_trace en) uuid_String (en_newV7 en) d (en_now en) id
                 (mutation rid (mb_Reason body) "")) 200 (fun _ => PRetried id))).

Definition replayEvent (value : string) : outcome :=
  eventID value (fun id =>
  decodeJSON decode_replay_one d r (fun body =>
  committed r (Service.ReplayEvent (en_trace en) uuid_String (en_newV7 en) d (en_now en) id
                 (mutation rid (rm_Reason body) (rm_OrderingMode body))) 201 PReplay)).

Definition previewReplay : outcome :=
  decodeJSON decode_replay d r (fun body =>
  respond d r (Service.PreviewReplay d (body_filter body)) PPreview).

Definition replayBatch : outcome :=
  decodeJSON decode_replay d r (fun body =>
  committed r (Service.ReplayBatch (en_trace en) uuid_String (en_newV7 en) d (en_now en)
                 (body_filter body) (mutation rid (rb_Reason body) (rb_OrderingMode body))) 201 PReplay).

Definition orderingStreams : outcome :=
  ok_or d r (queryLimit r DefaultPageSize) (fun limit =>
  ok_or d r (OrderingAdmin.DecodeOrderingStreamCursor stream_Decode (query r "cursor")) (fun cursor =>
  ok_or d r (optional (TrimSpace (query r "partition")) (fun raw => ParseInt raw 16)
               "partition must be an integer") (fun partition =>
  ok_or d r (optional (TrimSpace (query r "blocked_only")) ParseBool
               "blocked_only must be true or false") (fun blockedOnly =>
  respond d r (Service.ListOrderingStreams stream_Marshal d (en_now en)
                 {| OrderingAdmin.sf_State := query r "state";
                    OrderingAdmin.sf_Destination := query r "destination";
                    OrderingAdmin.sf_Partition := partition;
                    OrderingAdmin.sf_BlockedOnly := default false blockedOnly;
                    OrderingAdmin.sf_Limit := limit; OrderingAdmin.sf_Cursor := cursor |}) PStreams)))).

Definition orderingStream : outcome :=
  respond d r (Service.InspectOrderingStream d (en_now en) (query r "destination")
                 (query r "ordering_key")) PStream.

Definition orderingPartitions : outcome :=
  reply d 200 (PPartitions (Service.ListOrderingPartitions staleAfter d (en_now en))).

Definition audit : outcome :=
  ok_or d r (queryLimit r DefaultPageSize) (fun limit =>
  ok_or d r (DecodeCursor json_Decode (query r "cursor")) (fun cursor =>
  respond d r (Service.ListAudit json_Marshal d {| af_Action := query r "action"; af_Cursor := cursor;
                                                   af_Limit := limit |}) PAudit)).

(** ** Routes *)

Inductive segment : Type := Lit (s : string) | Wild.

(** The patterns of [newHandler] with their handlers, which take the value of
    the path's wildcard. *)
Definition routes : list (string * list segment * (string -> outcome)) :=
  let v1 := Lit "v1" in
  [("GET", [v1; Lit "stats"], fun _ => stats);
   ("GET", [v1; Lit "integrity"], fun _ => integrity);
   ("GET", [v1; Lit "events"], fun _ => events);
   ("GET", [v1; Lit "events"; Wild], event);
   ("POST", [v1; Lit "events"; Wild; Lit "retry"], retry);
   ("POST", [v1; Lit "events"; Wild; Lit "replay"], replayEvent);
   ("GET", [v1; Lit "relays"], fun _ => relays);
   ("GET", [v1; Lit "relays"; Wild], relay);
   ("GET", [v1; Lit "relay"], fun _ => control);
   ("POST", [v1; Lit "relay"; Lit "pause"], fun _ => setPause true);
   ("POST", [v1; Lit "relay"; Lit "resume"], fun _ => setPause false);
   ("POST", [v1; Lit "replays"; Lit "preview"], fun _ => previewReplay);
   ("POST", [v1; Lit "replays"], fun _ => replayBatch);
   ("GET", [v1; Lit "audit"], fun _ => audit);
   ("GET", [v1; Lit "ordering"; Lit "streams"], fun _ => orderingStreams);
   ("GET", [v1; Lit "ordering"; Lit "stream"], fun _ => orderingStream);
   ("GET", [v1; Lit "ordering"; Lit "partitions"], fun _ => orderingPartitions);
   ("GET", [v1; Lit "inbox"; Lit "stats"], fun _ => inboxStats);
   ("GET", [v1; Lit "inbox"; Lit "dead"], fun _ => inboxDead);
   ("GET", [v1; Lit "inbox"; Lit "events"; Wild], inboxEvent);
   ("POST", [v1; Lit "inbox"; Lit "events"; Wild; Lit "retry"], inboxRetry)]%string.

(** The value of the last wildcard when the pattern matches; a wildcard matches
    one non-empty segment. *)
Fixpoint match_path (pattern : list segment) (path : list string) (value : string) : option string :=
  match pattern, path with
  | [], [] => Some value
  | Lit s :: pattern, x :: path => if String.eqb s x then match_path pattern path value else None
  | Wild :: pattern, x :: path => if String.eqb x "" then None else match_path pattern path x
  | _, _ => None
  end.

(** A [GET] pattern also serves [HEAD]. *)
Definition method_matches (pattern method : string) : bool :=
  String.eqb pattern method || String.eqb pattern "GET" && String.eqb method "HEAD".

(** [http.ServeMux]: the handler of the matching pattern, or a redirect to the
    clean path, or 405 when only the method differs, or 404. *)
Fixpoint find_route (table : list (string * list segment * (string -> outcome)))
    (r : Request) : option outcome :=
  match table with
  | [] => None
  | (method, pattern, h) :: table =>
      match match_path pattern (rq_Path r) "" with
      | Some value => if method_matches method (rq_Method r) then Some (h value) else find_route table r
      | None => find_route table r
      end
  end.

Definition path_known (table : list (string * list segment * (string -> outcome))) (r : Request)
  : bool :=
  existsb (fun p => negb (bool_decide (match_path p.1.2 (rq_Path r) "" = None))) table.

Definition mux : outcome :=
  if negb (rq_Clean r) then reply d redirect PMux else
  match find_route routes r with
  | Some o => o
  | None => if path_known routes r then reply d 405 PMux else reply d 404 PMux
  end.

End handlers.

Section server.
Context (redirect : Z) (staleAfter : duration).
Context (json_Marshal : Cursor -> string) (json_Decode : string -> option (Cursor * string)).
Context (stream_Marshal : OrderingAdmin.OrderingStreamCursor -> string).
Context (stream_Decode : string -> option (OrderingAdmin.OrderingStreamCursor * string)).
Context (uuid_String : uuid -> string) (uuid_Parse : string -> option uuid).
Context (time_Parse : string -> option time).
Context (decode_mutation : string -> decoded mutationBody).
Context (decode_inbox : string -> decoded inboxRetryBody).
Context (decode_replay_one : string -> decoded replayMutationBody).
Context (decode_replay : string -> decoded replayBody).

(** [requestID(recover(authenticate(mux)))] *)
Definition ServeHTTP (cfg : HTTPConfig) (en : Env) (d : db) (r : Request)
  : db * list (string * string) * Response :=
  let rid := requestID (en_requestID en) r in
  let '(d', ns, (status, body)) :=
    if authenticate cfg r
    then mux redirect staleAfter json_Marshal json_Decode stream_Marshal stream_Decode uuid_String
           uuid_Parse time_Parse decode_mutation decode_inbox decode_replay_one decode_replay
           cfg en rid d r
    else reply d 401 (PError "unauthorized" None) in
  (d', ns, {| rs_Status := status; rs_RequestID := rid; rs_Body := body |}).

(** * Lemmas *)

(** A handler that leaves the database alone. *)
Definition reads (d : db) (o : outcome) : Prop := o.1 = (d, []).

Lemma reads_reply d st p : reads d (reply d st p).
Proof. done. Qed.
Lemma reads_error d r e : reads d (serviceError d r e).
Proof. by destruct e. Qed.
Lemma reads_ok_or {A} d r (x : res A) k : (forall a, reads d (k a)) -> reads d (ok_or d r x k).
Proof. intros H. destruct x; [apply H|apply reads_error]. Qed.
Lemma reads_respond {A} d r (x : res A) k : reads d (respond d r x k).
Proof. by apply reads_ok_or. Qed.

Lemma find_route_some table r o :
  find_route table r = Some o ->
  exists method pattern h value, (method, pattern, h) ∈ table /\
    method_matches method (rq_Method r) = true /\ o = h value.
Proof.
  induction table as [|[[method pattern] h] table IH]; cbn; [done|]. intros H.
  destruct (match_path _ _ _) as [value|] eqn:Em; [destruct (method_matches _ _) eqn:Eq|].
  - injection H as <-. exists method, pattern, h, value. split_and!; [left|done|done].
  - destruct (IH H) as (m & p & h' & v & Hin & Hrest). exists m, p, h', v. split; [by right|done].
  - destruct (IH H) as (m & p & h' & v & Hin & Hrest). exists m, p, h', v. split; [by right|done].
Qed.

(** What a request may do: nothing, or one audited mutation in the name of the
    API, acknowledged as a success. *)
Definition admin_step (now : time) (rid : string) (d : db) (o : outcome) : Prop :=
  exists q m, mu_Actor m = "admin-api"%string /\ mu_RequestID m = rid /\
    (o.2.1 = 200 \/ o.2.1 = 201) /\ Service.audited_change q now m d o.1.1.
Definition safe (now : time) (rid : string) (d : db) (o : outcome) : Prop :=
  reads d o \/ admin_step now rid d o.

Lemma safe_decode {A} now rid d r (decode : string -> decoded A) k :
  (forall a, safe now rid d (k a)) -> safe now rid d (decodeJSON decode d r k).
Proof.
  intros H. unfold decodeJSON. destruct (decode _); repeat case_match; try apply H; by left.
Qed.

Lemma safe_id now rid d value k :
  (forall id, safe now rid d (k id)) -> safe now rid d (eventID uuid_Parse d value k).
Proof. intros H. unfold eventID. case_match; [apply H|by left]. Qed.

Lemma safe_committed {A} now rid d r newV7 trace q m (x : db * list (string * string) * res A) st k :
  db_inv d -> Service.forget x = Service.serve trace uuid_String newV7 d now q m ->
  mu_Actor m = "admin-api"%string -> mu_RequestID m = rid -> st = 200 \/ st = 201 ->
  safe now rid d (committed r x st k).
Proof.
  intros Hinv Hx Ha Hr Hst. destruct x as [[d' ns] [a|e]]; symmetry in Hx; cbn in Hx;
    apply (Service.serve_audited _ _ _ _ _ _ _ _ _ _ Hinv) in Hx.
  - right. by exists q, m.
  - destruct Hx as [-> ->]. left. cbn. by destruct e.
Qed.

Ltac reads_tac :=
  repeat first [ apply reads_reply | apply reads_error | apply reads_respond
               | apply reads_ok_or; intros
               | match goal with |- reads _ (if ?b then _ else _) => destruct b end
               | match goal with |- reads _ (match ?x with Some _ => _ | None => _ end) => destruct x end ].

Section requests.
Context (cfg : HTTPConfig) (en : Env) (rid : string) (d : db) (r : Request).

Definition dispatch : outcome :=
  mux redirect staleAfter json_Marshal json_Decode stream_Marshal stream_Decode uuid_String
    uuid_Parse time_Parse decode_mutation decode_inbox decode_replay_one decode_replay
    cfg en rid d r.

(** The handlers registered for [GET] only read; those for [POST] are safe. *)
Lemma route_safe method pattern h value :
  db_inv d ->
  (method, pattern, h) ∈ routes staleAfter json_Marshal json_Decode stream_Marshal stream_Decode
    uuid_String uuid_Parse time_Parse decode_mutation decode_inbox decode_replay_one decode_replay
    cfg en rid d r ->
  method = "GET"%string /\ reads d (h value) \/
  method = "POST"%string /\ safe (en_now en) rid d (h value).
Proof.
  intros Hinv Hin. unfold routes in Hin. rewrite !elem_of_cons, elem_of_nil in Hin.
  repeat (destruct Hin as [Hin|Hin]; [injection Hin as -> -> ->|]); [..|done].
  all: first [left; split; [done|]; unfold eventID, stats, integrity, inboxStats, inboxDead,
                inboxEvent, events, event, relays, relay, control, orderingStreams, orderingStream,
                orderingPartitions, audit, eventID; reads_tac; done
             |right; split; [done|]].
  - apply safe_id. intros id. apply safe_decode. intros body.
    eapply (safe_committed _ _ _ _ (en_newV7 en) (en_trace en) (Service.Retry id)
              (mutation rid (mb_Reason body) "")); [done| |done|done|by left].
    unfold Service.forget. cbn. by destruct (Service.RetryDead _ _ _ _ _ _ _) as [[? ?] [[]|?]].
  - apply safe_id. intros id. apply safe_decode. intros body.
    by eapply (safe_committed _ _ _ _ (en_newV7 en) (en_trace en) (Service.Replay id)
                 (mutation rid (rm_Reason body) (rm_OrderingMode body))); [..|right].
  - apply safe_decode. intros body.
    by eapply (safe_committed _ _ _ _ (en_newV7 en) (en_trace en) (Service.Pause true)
                 (mutation rid (mb_Reason body) "")); [..|left].
  - apply safe_decode. intros body.
    by eapply (safe_committed _ _ _ _ (en_newV7 en) (en_trace en) (Service.Pause false)
                 (mutation rid (mb_Reason body) "")); [..|left].
  - apply safe_decode. intros body. left. reads_tac.
  - apply safe_decode. intros body.
    by eapply (safe_committed _ _ _ _ (en_newV7 en) (en_trace en) (Service.ReplayMany (body_filter body))
                 (mutation rid (rb_Reason body) (rb_OrderingMode body))); [..|right].
  - apply safe_id. intros id. apply safe_decode. intros body.
    destruct (Service.RetryDeadInbox _ _ _ _ _ _ _ _) as [d' x] eqn:E.
    eapply (safe_committed _ _ _ _ (en_newV7 en) (en_trace en)
              (Service.RetryInbox (en_auditID en) (ib_Consumer body) id)
              (mutation rid (ib_Reason body) "")); [done| |done|done|by left].
    cbn [Service.serve]. rewrite E. by destruct x as [[]|?].
Qed.

(** A request reads, or is a [POST] that performs one audited mutation. *)
Lemma dispatch_safe :
  db_inv d -> reads d dispatch \/ rq_Method r = "POST"%string /\ admin_step (en_now en) rid d dispatch.
Proof.
  intros Hinv. unfold dispatch, mux. destruct (negb _); [by left|].
  destruct (find_route _ r) as [o|] eqn:E; [|left; by destruct (path_known _ _)].
  apply find_route_some in E as (method & pattern & h & value & Hin & Hm & ->).
  destruct (route_safe _ _ _ value Hinv Hin) as [[_ H]|[-> [H|H]]]; [by left|by left|right].
  split; [|done]. unfold method_matches in Hm.
  apply orb_true_iff in Hm as [Hm|Hm]; [by apply String.eqb_eq in Hm|done].
Qed.

(** ** Payloads *)

(** Nothing of the message itself is shown. *)
Definition hidden (e : Event) : Prop := KeyBase64 e = None /\ PayloadBase64 e = None /\ Headers e = ∅.

Definition no_payload (p : payload) : Prop :=
  match p with
  | PEvent e => hidden e
  | PEvents page => Forall hidden (Events page)
  | PPreview v => Forall hidden (pv_Sample v)
  | _ => True
  end.

Lemma hidden_scan rows : Forall hidden ((fun r => AdminStore.scanAdminEvent r false) <$> rows).
Proof. by induction rows; constructor. Qed.

Lemma hidden_page events limit page :
  Forall hidden events -> AdminStore.normalizePageResult json_Marshal events limit = Ok page ->
  Forall hidden (Events page).
Proof.
  intros Hall H. unfold AdminStore.normalizePageResult in H. destruct_match H; [by simplify_eq|].
  destruct (events !! _); [|done]. apply result_bind_ok in H as (c & _ & H). simplify_eq.
  by apply Forall_take.
Qed.

(** What an endpoint may show: nothing of a payload, unless the operator enabled
    it and the request asked for it. *)
Definition guarded (o : outcome) : Prop :=
  no_payload o.2.2 \/ hc_ExposePayload cfg = true /\ query r "payload" = "true"%string.

Lemma guarded_error e : guarded (serviceError d r e).
Proof. left. by destruct e. Qed.
Lemma guarded_ok_or {A} (x : res A) k : (forall a, x = Ok a -> guarded (k a)) -> guarded (ok_or d r x k).
Proof. intros H. destruct x; [by apply H|apply guarded_error]. Qed.
Lemma guarded_respond {A} (x : res A) k :
  (forall a, x = Ok a -> no_payload (k a)) -> guarded (respond d r x k).
Proof. intros H. apply guarded_ok_or. intros a Ha. left. by apply H. Qed.
Lemma guarded_committed {A} (x : db * list (string * string) * res A) st k :
  (forall a, no_payload (k a)) -> guarded (committed r x st k).
Proof. intros H. destruct x as [[d' ns] [a|e]]; left; [apply H|by destruct e]. Qed.
Lemma guarded_id value k : (forall id, guarded (k id)) -> guarded (eventID uuid_Parse d value k).
Proof. intros H. unfold eventID. case_match; [apply H|by left]. Qed.
Lemma guarded_decode {A} (decode : string -> decoded A) k :
  (forall a, guarded (k a)) -> guarded (decodeJSON decode d r k).
Proof. intros H. unfold decodeJSON. destruct (decode _); repeat case_match; try apply H; by left. Qed.

Lemma guarded_events : guarded (events json_Marshal json_Decode uuid_Parse time_Parse d r).
Proof.
  apply guarded_ok_or. intros f _. apply guarded_respond. intros page Hp.
  unfold Service.ListEvents, AdminStore.ListEvents in Hp.
  apply result_bind_ok in Hp as (f' & _ & Hp). destruct_match Hp; [done|].
  eapply hidden_page; [|exact Hp]. apply hidden_scan.
Qed.

Lemma guarded_event value : guarded (event uuid_Parse cfg d r value).
Proof.
  apply guarded_id. intros id. cbv zeta.
  destruct (bool_decide (query r "payload" = "true"%string) && _) eqn:E; [by left|].
  apply guarded_ok_or. intros e He. unfold Service.InspectEvent, AdminStore.InspectEvent in He.
  destruct_match He; [done|]. destruct (db_outbox d !! id) as [row|]; [|done]. injection He as <-.
  destruct (bool_decide (query r "payload" = "true"%string)) eqn:Eq; [|by left].
  apply bool_decide_eq_true in Eq. right. split; [|done]. by destruct (hc_ExposePayload cfg).
Qed.

Lemma guarded_preview : guarded (previewReplay decode_replay d r).
Proof.
  apply guarded_decode. intros body. apply guarded_respond. intros v Hv.
  unfold Service.PreviewReplay, AdminStore.PreviewReplay in Hv.
  apply result_bind_ok in Hv as (f & _ & Hv). destruct_match Hv; [done|]. simplify_eq.
  apply hidden_scan.
Qed.

Ltac guarded_tac :=
  repeat first [ apply guarded_events | apply guarded_event | apply guarded_preview
               | apply guarded_error | apply guarded_respond; by intros
               | apply guarded_ok_or; intros | apply guarded_id; intros
               | apply guarded_decode; intros | apply guarded_committed; by intros
               | by left
               | match goal with |- guarded (if ?b then _ else _) => destruct b end
               | match goal with |- guarded (let '(_, _) := ?x in _) => destruct x end ].

Lemma dispatch_guarded : guarded dispatch.
Proof.
  unfold dispatch, mux. destruct (negb _); [by left|].
  destruct (find_route _ r) as [o|] eqn:E; [|left; by destruct (path_known _ _)].
  apply find_route_some in E as (method & pattern & h & value & Hin & Hm & ->).
  unfold routes in Hin. rewrite !elem_of_cons, elem_of_nil in Hin.
  repeat (destruct Hin as [Hin|Hin]; [injection Hin as -> -> ->|]); [..|done].
  all: unfold integrity; cbv zeta; guarded_tac.
Qed.

End requests.
(** * Properties *)

Definition no_token (cfg : HTTPConfig) : HTTPConfig :=
  {| hc_Addr := hc_Addr cfg; hc_Token := ""; hc_ExposePayload := hc_ExposePayload cfg |}.

(** The request carries the configured token. *)
Definition bears (cfg : HTTPConfig) (r : Request) (provided : string) : Prop :=
  header r "Authorization" = ("Bearer " +:+ provided)%string /\ provided <> ""%string.

Lemma authenticate_iff cfg r :
  hc_Token cfg <> ""%string ->
  authenticate cfg r = true <->
  exists provided, bears cfg r provided /\ Sum256 provided = Sum256 (hc_Token cfg).
Proof.
  intros Ht. unfold authenticate, bears. rewrite bool_decide_eq_false_2 by done.
  destruct (CutPrefix _ _) as [p|] eqn:E.
  - rewrite andb_true_iff, negb_true_iff, bool_decide_eq_false, bool_decide_eq_true.
    apply CutPrefix_spec in E. rewrite E. split.
    + intros [H1 H2]. by exists p.
    + intros (p' & [Hp Hne] & Hs). by apply (inj (String.append _)) in Hp as ->.
  - split; [done|]. intros (p & [Hp _] & _). by apply CutPrefix_spec in Hp; rewrite E in Hp.
Qed.

(** Nobody gets past a configured token without it. When a token is set, a
    request is served only if its Authorization header is [Bearer ] and a
    non-empty text with the token's SHA-256 digest; every other request is
    answered 401 with nothing else in it, and the database and the channels stay
    as they are. A request with the token is served exactly as by a server
    without one. *)
Theorem http_token_required cfg en d r :
  hc_Token cfg <> ""%string ->
  (forall provided, bears cfg r provided -> Sum256 provided = Sum256 (hc_Token cfg) ->
     ServeHTTP cfg en d r = ServeHTTP (no_token cfg) en d r) /\
  ((forall provided, bears cfg r provided -> Sum256 provided <> Sum256 (hc_Token cfg)) ->
     ServeHTTP cfg en d r =
       (d, [], {| rs_Status := 401; rs_RequestID := requestID (en_requestID en) r;
                  rs_Body := PError "unauthorized" None |})).
Proof.
  intros Ht. split.
  - intros p Hb Hs. unfold ServeHTTP.
    assert (authenticate cfg r = true) as -> by (apply authenticate_iff; eauto).
    destruct cfg. reflexivity.
  - intros Hno. unfold ServeHTTP. destruct (authenticate cfg r) eqn:E; [|done].
    apply authenticate_iff in E as (p & Hb & Hs); [|done]. by destruct (Hno p Hb).
Qed.


(** C32: No payload leaves unless the operator allowed it. Keys, payloads and
    headers of events appear in a response only when payload exposure is
    enabled, the request asked for them and was authenticated; lists and replay
    previews never show them. *)
Theorem http_payload_guard cfg en d r d' ns resp :
  ServeHTTP cfg en d r = (d', ns, resp) ->
  no_payload (rs_Body resp) \/
  hc_ExposePayload cfg = true /\ query r "payload" = "true"%string /\ authenticate cfg r = true.
Proof.
  intros H. unfold ServeHTTP in H. destruct (authenticate cfg r); [|by cbn in H; simplify_eq; left].
  fold (dispatch cfg en (requestID (en_requestID en) r) d r) in H.
  pose proof (dispatch_guarded cfg en (requestID (en_requestID en) r) d r) as Hg.
  destruct (dispatch _ _ _ _ _) as [[d1 ns1] [st body]]. simplify_eq. destruct Hg as [Hg|Hg]; [by left|].
  right. tauto.
Qed.

End server.
(** ** Witnesses *)

Definition sample_server : HTTPConfig :=
  {| hc_Addr := ":9091"; hc_Token := "secret"; hc_ExposePayload := false |}.

Definition sample_env : Env :=
  {| en_now := 5; en_now2 := 6; en_db2 := sample_db; en_newV7 := Listing.sample_v7; en_auditID := 900%N;
     en_requestID := "generated"; en_trace := (""%string, ""%string);
     en_catalog := IntegrityProps.full_catalog; en_startedAt := 5; en_finishedAt := 6 |}.

(** The body is the reason, a path identifier a decimal number. *)
Definition sample_serve (token : string) (method : string) (path : list string) (body : string) :=
  ServeHTTP 307 (30 * Second) (fun _ => ""%string) (fun _ => None) (fun _ => ""%string) (fun _ => None)
    (fun _ => "id"%string) (fun s => Z.to_N <$> Atoi s) (fun _ => None)
    (fun s => Decoded {| mb_Reason := s |} "") (fun s => Decoded {| ib_Consumer := s; ib_Reason := "again" |} "")
    (fun s => Decoded {| rm_Reason := s; rm_OrderingMode := "" |} "") (fun _ => Malformed)
    sample_server sample_env sample_db
    {| rq_Method := method; rq_Path := path; rq_Clean := true;
       rq_Header := {[ "Authorization" := ("Bearer " +:+ token); "X-Request-ID" := "req-7" ]}%string;
       rq_Query := []; rq_Body := body |}.

Definition sample_pause := sample_serve "secret" "POST" ["v1"; "relay"; "pause"]%string "maintenance".

Lemma triple_eta {A B C} (x : A * B * C) : x = (x.1.1, x.1.2, x.2).
Proof. by destruct x as [[? ?] ?]. Qed.

Lemma http_token_required_witness :
  sample_serve "guess" "POST" ["v1"; "relay"; "pause"]%string "x" =
    (sample_db, [], {| rs_Status := 401; rs_RequestID := "req-7"; rs_Body := PError "unauthorized" None |}).
Proof.
  refine (proj2 (http_token_required _ _ _ _ _ _ _ _ _ _ _ _ _ sample_server sample_env sample_db _ _) _).
  - discriminate.
  - intros p [Hb _]. assert (p = "guess"%string) as ->.
    { vm_compute in Hb. injection Hb as <-. reflexivity. }
    intros H. vm_compute in H. discriminate H.
Defined.


Lemma http_payload_guard_witness :
  no_payload (rs_Body (sample_serve "secret" "GET" ["v1"; "events"; "3"]%string "").2) /\
  rs_Status (sample_serve "secret" "GET" ["v1"; "events"; "3"]%string "").2 = 200.
Proof.
  split; [|vm_compute; reflexivity].
  destruct (http_payload_guard _ _ _ _ _ _ _ _ _ _ _ _ _ sample_server sample_env sample_db _ _ _
    (sample_serve "secret" "GET" ["v1"; "events"; "3"]%string "").2
    (triple_eta (sample_serve "secret" "GET" ["v1"; "events"; "3"]%string ""))) as [H|[H _]].
  - exact H.
  - discriminate H.
Defined.

(** The error code of a conflict is chosen by a word of its message, which names
    the consumer: a retry of a message that is not dead, for a consumer whose
    name contains that word, is reported as an exceeded replay limit. *)
Definition sample_inbox_db : db :=
  with_inbox sample_db {[ ("exceeds"%string, 7%N) := Inbox.marker_row 1 ]}.

Example conflict_code_misled us auditID m :
  mu_Actor m = "ops"%string -> mu_Reason m = "again"%string -> mu_RequestID m = ""%string ->
  exists e, (InboxAdmin.RetryDeadInbox us sample_inbox_db 5 auditID "exceeds" 7 m).2 = Err e /\
  forall r, (serviceError sample_inbox_db r e).2.2 = PError "replay_limit_exceeded" (Some e).
Proof.
  intros Ha Hr Hq. unfold InboxAdmin.RetryDeadInbox. rewrite Ha, Hr, Hq. eexists.
  split; [vm_compute; reflexivity|]. intros r. reflexivity.
Qed.

End Http.
