(* ===== verification/Migrate.v ===== *)
(** * Schema migrations and the doctor

    [storage/postgres/migrate.go] with the migrations of [migrations/*.sql] as
    sequences of statements over the catalog and the rows, and the database
    checks of [cmd/emitlane/doctor.go]. The rows of [sc_db] mean something only
    for the tables and columns the catalog has. *)
From Stdlib Require Import ZArith String Ascii.
From stdpp Require Import base gmap strings list sets fin_maps.
From S2P Require Import Prelude GoStrings GoParse Schema Invariant Samples Integrity IntegrityProps.

Open Scope Z_scope.
Open Scope emitlane_scope.

Module Migrate.

Definition currentSchemaVersion : Z := 4.
Definition ErrSchemaIncompatible : error := ErrOther "incompatible EmitLane schema history".

(** The [emitlane] schema: whether it exists and holds objects of others, the
    rows of [schema_migrations], the other tables with their columns,
    constraints and indexes, and the rows. *)
Record objects : Type := MkObjects {
  ob_tables : list string;
  ob_columns : list (string * string);
  ob_constraints : list (string * string);
  ob_indexes : list (string * string);
}.

Record schema : Type := MkSchema {
  sc_namespace : bool;
  sc_foreign : bool;
  sc_history : option (gset Z);
  sc_objects : objects;
  sc_db : db;
}.

(** ** Statements *)

Inductive ddl : Type :=
| CreateTable (t : string) (columns constraints : list string)
| AddColumns (t : string) (columns : list string)
| AddConstraints (t : string) (names : list string)
| CreateIndex (t : string) (name : string)
| DropTable (t : string)
| DropColumns (t : string) (columns : list string)
| DropConstraints (t : string) (names : list string)
| DropIndex (name : string)
| InsertControl
| SeedPartitions
| RequireNoOrdering
| RequireNoActiveInbox
| DeleteVersion (version : Z)
| DropHistory
| DropNamespace.

Definition pairs (t : string) (names : list string) : list (string * string) := pair t <$> names.
Definition minus {A} `{EqDecision A} (l gone : list A) : list A := filter (fun x => x ∉ gone) l.
Definition not_of (t : string) (x : string * string) : Prop := x.1 <> t.
#[global] Instance not_of_dec t x : Decision (not_of t x).
Proof. unfold not_of. apply _. Defined.

Definition with_history (s : schema) (namespace : bool) (h : option (gset Z)) : schema :=
  {| sc_namespace := namespace; sc_foreign := sc_foreign s; sc_history := h;
     sc_objects := sc_objects s; sc_db := sc_db s |}.

(** The rows of a new table. *)
Definition created (t : string) (d : db) : db :=
  if String.eqb t "outbox_events" then with_outbox d ∅
  else if String.eqb t "inbox_events" then with_inbox d ∅
  else if String.eqb t "runtime_control" then with_control d None
  else if String.eqb t "relay_instances" then with_relays d ∅
  else if String.eqb t "admin_audit_log" then with_audit d []
  else if String.eqb t "ordering_streams" then with_streams d ∅
  else if String.eqb t "ordering_partitions" then with_partitions d ∅
  else d.

(** The values new columns get in the rows there are. *)
Definition without_replay (r : event_row) : event_row :=
  let e := er_data r in
  {| er_data := {| ed_id := ed_id e; ed_destination := ed_destination e;
       ed_event_type := ed_event_type e; ed_message_key := ed_message_key e;
       ed_payload := ed_payload e; ed_content_type := ed_content_type e; ed_headers := ed_headers e;
       ed_schema_version := ed_schema_version e; ed_correlation_id := ed_correlation_id e;
       ed_causation_id := ed_causation_id e; ed_traceparent := ed_traceparent e;
       ed_tracestate := ed_tracestate e; ed_created_at := ed_created_at e;
       ed_replayed_from_event_id := None; ed_replay_batch_id := None;
       ed_ordering_key := ed_ordering_key e; ed_ordering_sequence := ed_ordering_sequence e;
       ed_ordering_partition := ed_ordering_partition e |};
     er_status := er_status r; er_attempts := er_attempts r; er_available_at := er_available_at r;
     er_lease_owner := er_lease_owner r; er_lease_until := er_lease_until r;
     er_last_error := er_last_error r; er_delivered_at := er_delivered_at r |}.

Definition without_ordering (r : event_row) : event_row :=
  let e := er_data r in
  {| er_data := {| ed_id := ed_id e; ed_destination := ed_destination e;
       ed_event_type := ed_event_type e; ed_message_key := ed_message_key e;
       ed_payload := ed_payload e; ed_content_type := ed_content_type e; ed_headers := ed_headers e;
       ed_schema_version := ed_schema_version e; ed_correlation_id := ed_correlation_id e;
       ed_causation_id := ed_causation_id e; ed_traceparent := ed_traceparent e;
       ed_tracestate := ed_tracestate e; ed_created_at := ed_created_at e;
       ed_replayed_from_event_id := ed_replayed_from_event_id e;
       ed_replay_batch_id := ed_replay_batch_id e; ed_ordering_key := None;
       ed_ordering_sequence := None; ed_ordering_partition := None |};
     er_status := er_status r; er_attempts := er_attempts r; er_available_at := er_available_at r;
     er_lease_owner := er_lease_owner r; er_lease_until := er_lease_until r;
     er_last_error := er_last_error r; er_delivered_at := er_delivered_at r |}.

Definition incapable (r : relay_row) : relay_row :=
  {| rr_hostname := rr_hostname r; rr_version := rr_version r; rr_started_at := rr_started_at r;
     rr_last_heartbeat_at := rr_last_heartbeat_at r; rr_stopped_at := rr_stopped_at r;
     rr_ordering_capable := false |}.

(** A row of the first inbox table under the lifecycle's defaults. *)
Definition legacy_processed (now : time) (r : inbox_row) : inbox_row :=
  {| ir_status := IProcessed; ir_attempts := 0; ir_available_at := now; ir_lease_owner := None;
     ir_lease_token := None; ir_lease_until := None; ir_last_error := None; ir_first_seen_at := now;
     ir_updated_at := now; ir_processed_at := ir_processed_at r; ir_source := None |}.

Definition columns_added (now : time) (t : string) (columns : list string) (d : db) : db :=
  if String.eqb t "inbox_events" then with_inbox d (legacy_processed now <$> db_inbox d)
  else if String.eqb t "relay_instances" then with_relays d (incapable <$> db_relays d)
  else if String.eqb t "outbox_events" then
    if bool_decide ("ordering_key"%string ∈ columns)
    then with_outbox d (without_ordering <$> db_outbox d)
    else with_outbox d (without_replay <$> db_outbox d)
  else d.

Definition control_default (now : time) : control_row :=
  {| cr_paused := false; cr_reason := None; cr_updated_at := now; cr_updated_by := "migration" |}.

Definition ordering_state (d : db) : bool :=
  negb (bool_decide (db_streams d = ∅))
  || existsb (fun ir => not_null (ed_ordering_key (er_data ir.2))) (map_to_list (db_outbox d)).

Definition active_inbox (d : db) : bool :=
  existsb (fun kr => negb (bool_decide (ir_status kr.2 = IProcessed)) || is_null (ir_processed_at kr.2))
    (map_to_list (db_inbox d)).

(** The effect of a statement on the objects; a missing table or an object that
    exists already is an error. *)
Definition exec_objects (st : ddl) (o : objects) : res objects :=
  let missing t := negb (bool_decide (t ∈ ob_tables o)) in
  match st with
  | CreateTable t columns constraints =>
      fail_if bool_decide (t ∈ ob_tables o) with ErrOther "relation already exists";
      Ok {| ob_tables := t :: ob_tables o; ob_columns := pairs t columns ++ ob_columns o;
            ob_constraints := pairs t constraints ++ ob_constraints o; ob_indexes := ob_indexes o |}
  | AddColumns t columns =>
      fail_if missing t with ErrOther "relation does not exist";
      fail_if existsb (fun c => bool_decide ((t, c) ∈ ob_columns o)) columns
        with ErrOther "column already exists";
      Ok {| ob_tables := ob_tables o; ob_columns := pairs t columns ++ ob_columns o;
            ob_constraints := ob_constraints o; ob_indexes := ob_indexes o |}
  | AddConstraints t names =>
      fail_if missing t with ErrOther "relation does not exist";
      fail_if existsb (fun c => bool_decide ((t, c) ∈ ob_constraints o)) names
        with ErrOther "constraint already exists";
      Ok {| ob_tables := ob_tables o; ob_columns := ob_columns o;
            ob_constraints := pairs t names ++ ob_constraints o; ob_indexes := ob_indexes o |}
  | CreateIndex t name =>
      fail_if missing t with ErrOther "relation does not exist";
      fail_if existsb (fun x => String.eqb x.2 name) (ob_indexes o)
        with ErrOther "index already exists";
      Ok {| ob_tables := ob_tables o; ob_columns := ob_columns o;
            ob_constraints := ob_constraints o; ob_indexes := (t, name) :: ob_indexes o |}
  | DropTable t =>
      Ok {| ob_tables := minus (ob_tables o) [t]; ob_columns := filter (not_of t) (ob_columns o);
            ob_constraints := filter (not_of t) (ob_constraints o);
            ob_indexes := filter (not_of t) (ob_indexes o) |}
  | DropColumns t columns =>
      fail_if missing t with ErrOther "relation does not exist";
      Ok {| ob_tables := ob_tables o; ob_columns := minus (ob_columns o) (pairs t columns);
            ob_constraints := ob_constraints o; ob_indexes := ob_indexes o |}
  | DropConstraints t names =>
      fail_if missing t with ErrOther "relation does not exist";
      Ok {| ob_tables := ob_tables o; ob_columns := ob_columns o;
            ob_constraints := minus (ob_constraints o) (pairs t names); ob_indexes := ob_indexes o |}
  | DropIndex name =>
      Ok {| ob_tables := ob_tables o; ob_columns := ob_columns o;
            ob_constraints := ob_constraints o;
            ob_indexes := filter (fun x => x.2 <> name) (ob_indexes o) |}
  | InsertControl =>
      fail_if missing "runtime_control"%string with ErrOther "relation does not exist"; Ok o
  | SeedPartitions =>
      fail_if missing "ordering_partitions"%string with ErrOther "relation does not exist"; Ok o
  | RequireNoOrdering =>
      fail_if missing "ordering_streams"%string || missing "outbox_events"%string
        with ErrOther "relation does not exist";
      Ok o
  | RequireNoActiveInbox =>
      fail_if missing "inbox_events"%string with ErrOther "relation does not exist"; Ok o
  | DeleteVersion _ | DropHistory | DropNamespace => Ok o
  end.

(** The effect on the rows; the guards of the down migrations raise. *)
Definition exec_rows (now : time) (st : ddl) (d : db) : res db :=
  match st with
  | CreateTable t _ _ => Ok (created t d)
  | AddColumns t columns => Ok (columns_added now t columns d)
  | InsertControl =>
      Ok (with_control d (Some (match db_control d with Some c => c | None => control_default now end)))
  | SeedPartitions =>
      fail_if negb (bool_decide (db_partitions d = ∅))
        with ErrSQL (UniqueViolation "ordering_partitions_pkey");
      Ok (with_partitions d (db_partitions (migrated now)))
  | RequireNoOrdering =>
      fail_if ordering_state d
        with ErrOther "cannot downgrade EmitLane schema v3 while ordered stream state exists";
      Ok d
  | RequireNoActiveInbox =>
      fail_if active_inbox d
        with ErrOther "cannot downgrade EmitLane schema v4 while active managed Inbox state exists";
      Ok d
  | _ => Ok d
  end.

(** The effect on the history and the namespace. *)
Definition exec_history (st : ddl) (s : schema) : res schema :=
  match st with
  | DeleteVersion version =>
      match sc_history s with
      | Some h => Ok (with_history s (sc_namespace s) (Some (h ∖ {[version]})))
      | None => Err (ErrOther "relation does not exist")
      end
  | DropHistory => Ok (with_history s (sc_namespace s) None)
  | DropNamespace =>
      let empty := bool_decide (ob_tables (sc_objects s) = []) && is_null (sc_history s)
                   && negb (sc_foreign s) in
      Ok (with_history s (sc_namespace s && negb empty) (sc_history s))
  | _ => Ok s
  end.

Definition exec_ddl (now : time) (st : ddl) (s : schema) : res schema :=
  let! o := exec_objects st (sc_objects s) in
  let! d := exec_rows now st (sc_db s) in
  exec_history st {| sc_namespace := sc_namespace s; sc_foreign := sc_foreign s;
                     sc_history := sc_history s; sc_objects := o; sc_db := d |}.

Fixpoint exec_all (now : time) (body : list ddl) (s : schema) : res schema :=
  match body with
  | [] => Ok s
  | st :: body => let! s' := exec_ddl now st s in exec_all now body s'
  end.

(** ** The embedded files *)

Definition init_up : list ddl :=
  [CreateTable "outbox_events"
     ["id"; "destination"; "event_type"; "message_key"; "payload"; "content_type"; "headers";
      "schema_version"; "correlation_id"; "causation_id"; "traceparent"; "tracestate"; "status";
      "attempts"; "available_at"; "lease_owner"; "lease_until"; "last_error"; "created_at";
      "delivered_at"]
     ["outbox_destination_check"; "outbox_event_type_check"; "outbox_content_type_check";
      "outbox_headers_object_check"; "outbox_schema_version_check"; "outbox_attempts_check";
      "outbox_status_check"; "outbox_lease_state_check"; "outbox_delivery_state_check"];
   CreateIndex "outbox_events" "outbox_pending_idx";
   CreateIndex "outbox_events" "outbox_inflight_lease_idx";
   CreateIndex "outbox_events" "outbox_dead_idx";
   CreateTable "inbox_events" ["consumer"; "event_id"; "processed_at"] ["inbox_consumer_check"]]%string.

Definition init_down : list ddl :=
  [DropTable "inbox_events"; DropTable "outbox_events"; DropHistory; DropNamespace]%string.

Definition operability_up : list ddl :=
  [AddColumns "outbox_events" ["replayed_from_event_id"; "replay_batch_id"];
   CreateIndex "outbox_events" "outbox_created_idx";
   CreateIndex "outbox_events" "outbox_status_created_idx";
   CreateIndex "outbox_events" "outbox_destination_type_created_idx";
   CreateIndex "outbox_events" "outbox_replay_batch_idx";
   CreateTable "runtime_control" ["singleton"; "paused"; "reason"; "updated_at"; "updated_by"]
     ["runtime_control_singleton_check"; "runtime_control_actor_check"];
   InsertControl;
   CreateTable "relay_instances"
     ["instance_id"; "hostname"; "version"; "started_at"; "last_heartbeat_at"; "stopped_at"]
     ["relay_instance_id_check"; "relay_hostname_check"; "relay_version_check"];
   CreateTable "admin_audit_log"
     ["id"; "action"; "actor"; "reason"; "request_id"; "target_event_id"; "replay_batch_id";
      "details"; "created_at"]
     ["admin_audit_action_check"; "admin_audit_actor_check"; "admin_audit_details_object_check"];
   CreateIndex "admin_audit_log" "admin_audit_created_idx"]%string.

Definition operability_down : list ddl :=
  [DropIndex "admin_audit_created_idx"; DropTable "admin_audit_log"; DropTable "relay_instances";
   DropTable "runtime_control"; DropIndex "outbox_replay_batch_idx";
   DropIndex "outbox_destination_type_created_idx"; DropIndex "outbox_status_created_idx";
   DropIndex "outbox_created_idx";
   DropColumns "outbox_events" ["replay_batch_id"; "replayed_from_event_id"];
   DeleteVersion 2]%string.

Definition ordering_up : list ddl :=
  [AddColumns "outbox_events" ["ordering_key"; "ordering_sequence"; "ordering_partition"];
   AddConstraints "outbox_events" ["outbox_ordering_state_check"];
   CreateIndex "outbox_events" "outbox_ordering_sequence_unique_idx";
   CreateIndex "outbox_events" "outbox_ordered_claim_idx";
   CreateTable "ordering_streams"
     ["destination"; "ordering_key"; "partition_id"; "start_sequence"; "next_sequence";
      "created_at"; "updated_at"]
     ["ordering_stream_destination_check"; "ordering_stream_key_check";
      "ordering_stream_partition_check"; "ordering_stream_start_check"; "ordering_stream_next_check"];
   CreateIndex "ordering_streams" "ordering_stream_partition_idx";
   CreateTable "ordering_partitions"
     ["partition_id"; "lease_owner"; "lease_until"; "epoch"; "handoff_not_before";
      "publish_timeout_ms"; "updated_at"]
     ["ordering_partition_id_check"; "ordering_partition_epoch_check";
      "ordering_partition_publish_timeout_check"; "ordering_partition_lease_check"];
   SeedPartitions;
   AddColumns "relay_instances" ["ordering_capable"]]%string.

Definition ordering_down : list ddl :=
  [RequireNoOrdering; DropIndex "ordering_stream_partition_idx"; DropTable "ordering_partitions";
   DropTable "ordering_streams"; DropIndex "outbox_ordered_claim_idx";
   DropIndex "outbox_ordering_sequence_unique_idx";
   DropConstraints "outbox_events" ["outbox_ordering_state_check"];
   DropColumns "outbox_events" ["ordering_partition"; "ordering_sequence"; "ordering_key"];
   DropColumns "relay_instances" ["ordering_capable"]; DeleteVersion 3]%string.

Definition lifecycle_columns : list string :=
  ["status"; "attempts"; "available_at"; "lease_owner"; "lease_token"; "lease_until"; "last_error";
   "first_seen_at"; "updated_at"; "source_topic"; "source_partition"; "source_offset";
   "source_timestamp"]%string.
Definition lifecycle_constraints : list string :=
  ["inbox_status_check"; "inbox_attempts_check"; "inbox_lease_state_check";
   "inbox_processed_state_check"; "inbox_source_metadata_check"]%string.

Definition inbox_lifecycle_up : list ddl :=
  [AddColumns "inbox_events" lifecycle_columns;
   AddConstraints "inbox_events" lifecycle_constraints;
   CreateIndex "inbox_events" "inbox_due_idx"; CreateIndex "inbox_events" "inbox_expired_lease_idx";
   CreateIndex "inbox_events" "inbox_dead_idx"; CreateIndex "inbox_events" "inbox_source_unique_idx";
   CreateIndex "inbox_events" "inbox_processed_retention_idx"]%string.

Definition inbox_lifecycle_down : list ddl :=
  [RequireNoActiveInbox; DropIndex "inbox_processed_retention_idx"; DropIndex "inbox_source_unique_idx";
   DropIndex "inbox_dead_idx"; DropIndex "inbox_expired_lease_idx"; DropIndex "inbox_due_idx";
   DropConstraints "inbox_events" lifecycle_constraints;
   DropColumns "inbox_events" lifecycle_columns; DeleteVersion 4]%string.

(** [migrations.SQL], in the order of [fs.ReadDir]. *)
Definition SQL : list (string * list ddl) :=
  [("000001_init.down.sql", init_down); ("000001_init.up.sql", init_up);
   ("000002_operability.down.sql", operability_down); ("000002_operability.up.sql", operability_up);
   ("000003_ordering.down.sql", ordering_down); ("000003_ordering.up.sql", ordering_up);
   ("000004_inbox_lifecycle.down.sql", inbox_lifecycle_down);
   ("000004_inbox_lifecycle.up.sql", inbox_lifecycle_up)]%string.

(** ** The runner *)

Definition migrationFiles (suffix : string) : list (string * list ddl) :=
  filter (fun e => HasSuffix e.1 suffix = true) SQL.

Definition versionOf (name : string) : res Z :=
  match Cut "_" name with
  | None => Err (ErrOther "migrate: unexpected name")
  | Some (part, _) =>
      match Atoi part with Some v => Ok v | None => Err (ErrOther "migrate: version in name") end
  end.

Definition latest (applied : gset Z) : Z := foldr Z.max 0 (elements applied).

Definition validateVersions (applied : gset Z) : res Z :=
  let latest := latest applied in
  fail_if currentSchemaVersion <? latest with ErrSchemaIncompatible;
  fail_if existsb (fun v => v <=? 0) (elements applied) with ErrSchemaIncompatible;
  fail_if existsb (fun v => negb (bool_decide (v ∈ applied))) (seqZ 1 latest)
    with ErrSchemaIncompatible;
  Ok latest.

(** [ensureMigrations] *)
Definition ensureMigrations (s : schema) : schema :=
  with_history s true (Some (default ∅ (sc_history s))).

Definition appliedVersions (s : schema) : res (gset Z) :=
  match sc_history s with Some h => Ok h | None => Err (ErrOther "migrate: list versions") end.

Definition record_version (version : Z) (s : schema) : res schema :=
  match sc_history s with
  | Some h =>
      fail_if bool_decide (version ∈ h) with ErrSQL (UniqueViolation "schema_migrations_pkey");
      Ok (with_history s (sc_namespace s) (Some ({[version]} ∪ h)))
  | None => Err (ErrOther "relation does not exist")
  end.

Fixpoint apply_up (now : time) (applied : gset Z) (entries : list (string * list ddl)) (s : schema)
  : res schema :=
  match entries with
  | [] => Ok s
  | (name, body) :: entries =>
      let! version := versionOf name in
      if bool_decide (version ∈ applied) then apply_up now applied entries s else
      let! s1 := exec_all now body s in
      let! s2 := record_version version s1 in
      apply_up now applied entries s2
  end.

(** The transaction: every error rolls everything back. *)
Definition in_transaction (s : schema) (outcome : res schema) : schema * res unit :=
  match outcome with Ok s' => (s', Ok tt) | Err e => (s, Err e) end.

Definition MigrateUp (now : time) (s : schema) : schema * res unit :=
  in_transaction s
    (let s1 := ensureMigrations s in
     let! applied := appliedVersions s1 in
     let! _ := validateVersions applied in
     apply_up now applied (migrationFiles ".up.sql") s1).

Fixpoint find_down (version : Z) (entries : list (string * list ddl)) : res (list ddl) :=
  match entries with
  | [] => Err (ErrOther "migrate: down migration not found")
  | (name, body) :: entries =>
      let! v := versionOf name in
      if v =? version then Ok body else find_down version entries
  end.

(** [downMigrationName] and the file it names. *)
Definition downMigrationName (version : Z) : res (list ddl) :=
  find_down version (migrationFiles ".down.sql").

(** [LOCK TABLE] fails when a table is missing. *)
Definition lock_tables (tables : list string) (s : schema) : res unit :=
  if forallb (fun t => bool_decide (t ∈ ob_tables (sc_objects s))) tables then Ok tt
  else Err (ErrOther "migrate: lock downgrade state").

Definition lock_for (version : Z) (s : schema) : res unit :=
  if version =? 4 then lock_tables ["inbox_events"]%string s
  else if version =? 3
       then lock_tables ["ordering_partitions"; "ordering_streams"; "outbox_events"]%string s
  else Ok tt.

Definition MigrateDown (now : time) (s : schema) : schema * res unit :=
  in_transaction s
    (let s1 := ensureMigrations s in
     let! applied := appliedVersions s1 in
     let! version := validateVersions applied in
     if version =? 0 then Ok s1 else
     let! _ := lock_for version s1 in
     let! body := downMigrationName version in
     exec_all now body s1).

(** ** Roles and what the catalog shows them *)

(** What a role may do: use the schema, and the privileges it holds on tables,
    granted or as their owner. *)
Record role : Type := MkRole { ro_usage : bool; ro_granted : gset (string * string) }.

Definition table_privileges : list string :=
  ["SELECT"; "INSERT"; "UPDATE"; "DELETE"; "TRUNCATE"; "REFERENCES"; "TRIGGER"]%string.

Definition holds (r : role) (t p : string) : bool := bool_decide ((t, p) ∈ ro_granted r).
Definition holds_any (r : role) (t : string) (ps : list string) : bool := existsb (holds r t) ps.

(** A query on a table needs the schema and [SELECT]. *)
Definition readable (r : role) (t : string) : bool := ro_usage r && holds r t "SELECT".

(** The views of [information_schema] list what the role has some privilege
    on, and constraints only with a privilege other than [SELECT]. *)
Definition SchemaExists (r : role) (s : schema) : bool := ro_usage r && sc_namespace s.

Definition table_exists (s : schema) (t : string) : bool :=
  if String.eqb t "schema_migrations" then not_null (sc_history s)
  else bool_decide (t ∈ ob_tables (sc_objects s)).
Definition TableExists (r : role) (s : schema) (t : string) : bool :=
  holds_any r t table_privileges && table_exists s t.
Definition ColumnExists (r : role) (s : schema) (t c : string) : bool :=
  holds_any r t ["SELECT"; "INSERT"; "UPDATE"; "REFERENCES"]%string
  && bool_decide ((t, c) ∈ ob_columns (sc_objects s)).
Definition ConstraintExists (r : role) (s : schema) (t c : string) : bool :=
  holds_any r t (tail table_privileges) && bool_decide ((t, c) ∈ ob_constraints (sc_objects s)).

Definition SchemaVersion (r : role) (s : schema) : res Z :=
  if TableExists r s "schema_migrations" then
    fail_if negb (readable r "schema_migrations") with ErrOther "permission denied";
    validateVersions (default ∅ (sc_history s))
  else Ok 0.

(** ** The doctor's database checks *)

(** [RequiredIndexes] and [RequiredTables] of [migrate.go] *)
Definition RequiredIndexes : list string :=
  ["outbox_pending_idx"; "outbox_inflight_lease_idx"; "outbox_dead_idx"; "outbox_created_idx";
   "outbox_status_created_idx"; "outbox_destination_type_created_idx"; "outbox_replay_batch_idx";
   "admin_audit_created_idx"; "outbox_ordering_sequence_unique_idx"; "outbox_ordered_claim_idx";
   "ordering_stream_partition_idx"; "inbox_due_idx"; "inbox_expired_lease_idx"; "inbox_dead_idx";
   "inbox_source_unique_idx"; "inbox_processed_retention_idx"]%string.

Definition RequiredTables : list string :=
  ["outbox_events"; "inbox_events"; "runtime_control"; "relay_instances"; "admin_audit_log";
   "ordering_streams"; "ordering_partitions"]%string.

Definition RequiredConstraints : list (string * string) :=
  [("outbox_events", "outbox_ordering_state_check");
   ("ordering_streams", "ordering_stream_partition_check");
   ("ordering_streams", "ordering_stream_start_check");
   ("ordering_streams", "ordering_stream_next_check");
   ("ordering_partitions", "ordering_partition_lease_check");
   ("ordering_partitions", "ordering_partition_epoch_check");
   ("inbox_events", "inbox_status_check"); ("inbox_events", "inbox_attempts_check");
   ("inbox_events", "inbox_lease_state_check"); ("inbox_events", "inbox_processed_state_check");
   ("inbox_events", "inbox_source_metadata_check")]%string.

(** [pg_indexes] shows every index. *)
Definition IndexExists (s : schema) (i : string) : bool :=
  existsb (fun x => String.eqb x.2 i) (ob_indexes (sc_objects s)).

(** The queries on tables fail when the table is missing or may not be read. *)
Definition readable_table (r : role) (s : schema) (t : string) : res unit :=
  fail_if negb (table_exists s t) with ErrOther "relation does not exist";
  fail_if negb (readable r t) with ErrOther "permission denied";
  Ok tt.
Definition RuntimeControlExists (r : role) (s : schema) : res bool :=
  let! _ := readable_table r s "runtime_control" in
  Ok (not_null (db_control (sc_db s))).
Definition OrderingPartitionCount (r : role) (s : schema) : res Z :=
  let! _ := readable_table r s "ordering_partitions" in
  Ok (Z.of_nat (size (db_partitions (sc_db s)))).

(** The names of the failed checks among those on the schema. *)
Definition doctor_version (r : role) (s : schema) : list string :=
  if negb (SchemaExists r s) then ["EmitLane schema"]%string else
  match SchemaVersion r s with
  | Err _ => ["EmitLane schema"; "migrations"]%string
  | Ok v => if v =? currentSchemaVersion then [] else ["migrations"]%string
  end.

Definition failing {A} (ok : A -> bool) (l : list A) : list A := filter (fun x => ok x = false) l.

Definition doctor_columns : list string :=
  ["replayed_from_event_id"; "replay_batch_id"; "ordering_key"; "ordering_sequence";
   "ordering_partition"]%string.

Definition doctor_schema (r : role) (s : schema) : list string :=
  doctor_version r s
  ++ failing (IndexExists s) RequiredIndexes
  ++ ((fun t => "table " +:+ t) <$> failing (TableExists r s) RequiredTables)
  ++ ((fun c => "outbox_events." +:+ c) <$>
        failing (ColumnExists r s "outbox_events") doctor_columns)
  ++ ((fun tc => tc.1 +:+ "." +:+ tc.2) <$>
        failing (fun tc => ConstraintExists r s tc.1 tc.2) RequiredConstraints)
  ++ match OrderingPartitionCount r s with
     | Ok n => if n =? 64 then [] else ["ordering partition seed"%string]
     | Err _ => ["ordering partition seed"%string]
     end
  ++ match RuntimeControlExists r s with
     | Ok true => []
     | _ => ["runtime control singleton"%string]
     end.

(** * Lemmas *)

(** The role that migrated the schema owns its tables. *)
Definition emitlane_tables : list string := "schema_migrations"%string :: RequiredTables.
Definition owner : role := MkRole true (list_to_set (list_prod emitlane_tables table_privileges)).

(** The catalog the integrity verifier reads. *)
Definition to_catalog (s : schema) : Integrity.catalog :=
  {| Integrity.cat_tables :=
       match sc_history s with
       | Some _ => {["schema_migrations"%string]} ∪ list_to_set (ob_tables (sc_objects s))
       | None => list_to_set (ob_tables (sc_objects s))
       end;
     Integrity.cat_version := latest (default ∅ (sc_history s));
     Integrity.cat_indexes := list_to_set (ob_indexes (sc_objects s)).*2;
     Integrity.cat_constraints := list_to_set (ob_constraints (sc_objects s)).*2;
     Integrity.cat_columns := list_to_set (ob_columns (sc_objects s)) |}.

Definition no_objects : objects :=
  {| ob_tables := []; ob_columns := []; ob_constraints := []; ob_indexes := [] |}.

(** A sequence of statements on the objects and on the rows alone. *)
Fixpoint objects_after (body : list ddl) (o : objects) : res objects :=
  match body with
  | [] => Ok o
  | st :: body => let! o' := exec_objects st o in objects_after body o'
  end.
Fixpoint rows_after (now : time) (body : list ddl) (d : db) : res db :=
  match body with
  | [] => Ok d
  | st :: body => let! d' := exec_rows now st d in rows_after now body d'
  end.

(** The objects the first [k] migrations leave. *)
Definition built (k : nat) : objects :=
  match objects_after (mjoin (take k [init_up; operability_up; ordering_up; inbox_lifecycle_up]))
          no_objects with
  | Ok o => o
  | Err _ => no_objects
  end.

Definition versions (k : nat) : gset Z := list_to_set (seqZ 1 (Z.of_nat k)).

(** The statements that leave the history alone. *)
Definition plain (st : ddl) : bool :=
  match st with DeleteVersion _ | DropHistory | DropNamespace => false | _ => true end.

Lemma exec_all_split now body ns fo hi o d o' d' :
  forallb plain body = true -> objects_after body o = Ok o' -> rows_after now body d = Ok d' ->
  exec_all now body (MkSchema ns fo hi o d) = Ok (MkSchema ns fo hi o' d').
Proof.
  revert o d. induction body as [|st body IH]; cbn; intros o d Hp Ho Hd; [by simplify_eq|].
  apply andb_true_iff in Hp as [Hst Hp].
  apply result_bind_ok in Ho as (o1 & Ho1 & Ho), Hd as (d1 & Hd1 & Hd).
  unfold exec_ddl. cbn [sc_objects sc_db]. rewrite Ho1, Hd1. cbn [result_bind].
  rewrite <- (IH o1 d1 Hp Ho Hd). by destruct st.
Qed.

Lemma exec_all_app now b1 b2 s s1 :
  exec_all now b1 s = Ok s1 -> exec_all now (b1 ++ b2) s = exec_all now b2 s1.
Proof.
  revert s. induction b1 as [|st b1 IH]; cbn; intros s H; [by simplify_eq|].
  apply result_bind_ok in H as (s' & -> & H). cbn. by apply IH.
Qed.

(** ** Migrating up *)

Definition up_body (k : nat) : list ddl :=
  match k with
  | 1%nat => init_up | 2%nat => operability_up | 3%nat => ordering_up | _ => inbox_lifecycle_up
  end.

(** The rows one migration leaves. *)
Definition rows_up (k : nat) (now : time) (d : db) : db :=
  match k with
  | 1%nat => with_inbox (with_outbox d ∅) ∅
  | 2%nat => {| db_outbox := without_replay <$> db_outbox d; db_streams := db_streams d;
                db_partitions := db_partitions d; db_relays := ∅;
                db_control := Some (control_default now); db_inbox := db_inbox d; db_audit := [] |}
  | 3%nat => {| db_outbox := without_ordering <$> db_outbox d; db_streams := ∅;
                db_partitions := db_partitions (migrated now);
                db_relays := incapable <$> db_relays d; db_control := db_control d;
                db_inbox := db_inbox d; db_audit := db_audit d |}
  | _ => with_inbox d (legacy_processed now <$> db_inbox d)
  end.

(** Versions [k+1] to 4 in turn. *)
Definition data_from (k : nat) (now : time) (d : db) : db :=
  foldl (fun d j => rows_up j now d) d (seq (S k) (4 - k)).

Lemma up_rows k now d : (1 <= k <= 4)%nat -> rows_after now (up_body k) d = Ok (rows_up k now d).
Proof. intros H. destruct k as [|[|[|[|[|k]]]]]; try lia; reflexivity. Qed.

(** Closed facts about the objects are decided by computation. *)
#[global] Instance objects_eq_dec : EqDecision objects.
Proof. solve_decision. Defined.
Definition leaves (body : list ddl) (o o' : objects) : bool :=
  match objects_after body o with Ok x => bool_decide (x = o') | Err _ => false end.
Lemma leaves_true body o o' : leaves body o o' = true -> objects_after body o = Ok o'.
Proof. unfold leaves. destruct (objects_after body o); [|done]. intros H. by bool_to_prop; subst. Qed.

Lemma up_objects_all : forallb (fun k => leaves (up_body (S k)) (built k) (built (S k))) (seq 0 4) = true.
Proof. vm_compute. reflexivity. Qed.

Lemma up_objects k : (k < 4)%nat -> objects_after (up_body (S k)) (built k) = Ok (built (S k)).
Proof.
  intros H. apply leaves_true.
  apply (proj1 (forallb_forall _ _) up_objects_all k). apply in_seq. lia.
Qed.

Definition at_ (k : nat) (fo : bool) (d : db) : schema :=
  {| sc_namespace := true; sc_foreign := fo; sc_history := Some (versions k); sc_objects := built k;
     sc_db := d |}.

Lemma exec_up k now fo hi d :
  (k < 4)%nat ->
  exec_all now (up_body (S k)) (MkSchema true fo hi (built k) d)
    = Ok (MkSchema true fo hi (built (S k)) (rows_up (S k) now d)).
Proof.
  intros Hk. apply exec_all_split.
  - by destruct k as [|[|[|[|k]]]]; try lia.
  - by apply up_objects.
  - apply up_rows. lia.
Qed.

Lemma versions_S_all :
  forallb (fun k => bool_decide ({[Z.of_nat (S k)]} ∪ versions k = versions (S k))
                    && negb (bool_decide (Z.of_nat (S k) ∈ versions k))) (seq 0 4) = true.
Proof. vm_compute. reflexivity. Qed.

Lemma versions_S k :
  (k < 4)%nat ->
  {[Z.of_nat (S k)]} ∪ versions k = versions (S k) /\ Z.of_nat (S k) ∉ versions k.
Proof.
  intros H. pose proof (proj1 (forallb_forall _ _) versions_S_all k) as Hk.
  cbv beta in Hk. rewrite andb_true_iff, negb_true_iff, bool_decide_eq_true, bool_decide_eq_false in Hk.
  apply Hk, in_seq. lia.
Qed.

Lemma apply_skip now applied name body entries s v :
  versionOf name = Ok v -> bool_decide (v ∈ applied) = true ->
  apply_up now applied ((name, body) :: entries) s = apply_up now applied entries s.
Proof. intros Hv Ha. cbn [apply_up]. rewrite Hv. cbn [result_bind]. by rewrite Ha. Qed.

Lemma apply_one k now applied name entries fo d :
  (k < 4)%nat -> versionOf name = Ok (Z.of_nat (S k)) ->
  bool_decide (Z.of_nat (S k) ∈ applied) = false ->
  apply_up now applied ((name, up_body (S k)) :: entries) (at_ k fo d)
    = apply_up now applied entries (at_ (S k) fo (rows_up (S k) now d)).
Proof.
  intros Hk Hv Ha. destruct (versions_S k Hk) as [Hu Hn]. cbn [apply_up]. rewrite Hv.
  cbn [result_bind]. rewrite Ha. unfold at_ at 1. rewrite exec_up by done. cbn [result_bind].
  unfold record_version. cbn [sc_history]. rewrite bool_decide_eq_false_2 by done.
  cbn [result_bind]. unfold with_history. cbn [sc_namespace sc_foreign sc_objects sc_db].
  by rewrite Hu.
Qed.

Lemma up_files :
  migrationFiles ".up.sql" =
  [("000001_init.up.sql", up_body 1); ("000002_operability.up.sql", up_body 2);
   ("000003_ordering.up.sql", up_body 3); ("000004_inbox_lifecycle.up.sql", up_body 4)]%string.
Proof. reflexivity. Qed.

Lemma validate_versions_all :
  forallb (fun k => match validateVersions (versions k) with
                    | Ok v => v =? Z.of_nat k
                    | Err _ => false
                    end) (seq 0 5) = true.
Proof. vm_compute. reflexivity. Qed.

Lemma validate_versions k : (k <= 4)%nat -> validateVersions (versions k) = Ok (Z.of_nat k).
Proof.
  intros H. pose proof (proj1 (forallb_forall _ _) validate_versions_all k) as Hk. cbv beta in Hk.
  destruct (validateVersions (versions k)).
  - f_equal. apply Z.eqb_eq, Hk, in_seq. lia.
  - discriminate Hk. apply in_seq. lia.
Qed.

(** The schema is the one the first [k] migrations leave. *)
Record at_version (k : nat) (s : schema) : Prop := {
  av_objects : sc_objects s = built k;
  av_history : sc_history s = Some (versions k) \/ k = 0%nat /\ sc_history s = None;
  av_namespace : k <> 0%nat -> sc_namespace s = true;
}.

Lemma at_at_version k fo d : at_version k (at_ k fo d).
Proof. split; [done|by left|done]. Qed.

(** After [ensureMigrations] the schema is complete for its version. *)
Lemma ensured k s : at_version k s -> ensureMigrations s = at_ k (sc_foreign s) (sc_db s).
Proof.
  intros [Ho Hh Hn]. destruct s as [ns fo hi o d]. cbn in *. subst o.
  unfold ensureMigrations, with_history, at_. cbn.
  destruct Hh as [->|[-> ->]]; [done|]. f_equal.
Qed.

Ltac up_skip v := rewrite (apply_skip _ _ _ _ _ _ v) by (vm_compute; reflexivity).
Ltac up_one k := rewrite (apply_one k) by first [lia|vm_compute; reflexivity].

#[local] Opaque built versions up_body.

Lemma MigrateUp_from k s now :
  (k <= 4)%nat -> at_version k s ->
  MigrateUp now s = (at_ 4 (sc_foreign s) (data_from k now (sc_db s)), Ok tt).
Proof.
  intros Hk Hs. unfold MigrateUp. rewrite (ensured k s Hs), up_files.
  cbn [appliedVersions at_ sc_history result_bind]. rewrite (validate_versions k Hk).
  cbn [result_bind]. fold (at_ k (sc_foreign s) (sc_db s)).
  destruct k as [|[|[|[|[|k]]]]]; [| | | | |lia].
  - up_one 0%nat. up_one 1%nat. up_one 2%nat. up_one 3%nat. reflexivity.
  - up_skip 1. up_one 1%nat. up_one 2%nat. up_one 3%nat. reflexivity.
  - up_skip 1. up_skip 2. up_one 2%nat. up_one 3%nat. reflexivity.
  - up_skip 1. up_skip 2. up_skip 3. up_one 3%nat. reflexivity.
  - up_skip 1. up_skip 2. up_skip 3. up_skip 4. reflexivity.
Qed.

(** ** Migrating down *)

Definition down_body (k : nat) : list ddl :=
  match k with
  | 1%nat => init_down | 2%nat => operability_down | 3%nat => ordering_down | _ => inbox_lifecycle_down
  end.
(** Everything before the statement that removes the version's row. *)
Definition down_init (k : nat) : list ddl := removelast (down_body k).

(** The state a downgrade must not lose. *)
Definition protected (k : nat) (d : db) : bool :=
  match k with 4%nat => active_inbox d | 3%nat => ordering_state d | _ => false end.
Definition refusal (k : nat) : error :=
  match k with
  | 4%nat => ErrOther "cannot downgrade EmitLane schema v4 while active managed Inbox state exists"
  | _ => ErrOther "cannot downgrade EmitLane schema v3 while ordered stream state exists"
  end.

Lemma down_objects_all :
  forallb (fun k => leaves (down_init k) (built k) (built (pred k))) (seq 2 3) = true /\
  leaves (take 2 init_down) (built 1) (built 0) = true /\
  bool_decide (ob_tables (built 0) = []) = true /\
  forallb (fun k => match lock_for (Z.of_nat k) (at_ k false (migrated 0)) with
                    | Ok _ => true | Err _ => false end) (seq 1 4) = true /\
  forallb (fun k => bool_decide (versions k ∖ {[Z.of_nat k]} = versions (pred k))) (seq 2 3) = true.
Proof. vm_compute. done. Qed.

Lemma forallb_seq (f : nat -> bool) a n k :
  forallb f (seq a n) = true -> (a <= k < a + n)%nat -> f k = true.
Proof. intros H Hk. apply (proj1 (forallb_forall _ _) H), in_seq. lia. Qed.

Lemma down_rows k now d :
  (2 <= k <= 4)%nat ->
  rows_after now (down_init k) d = if protected k d then Err (refusal k) else Ok d.
Proof.
  intros H. destruct k as [|[|[|[|[|k]]]]]; try lia; cbn [protected refusal]; [reflexivity|..];
    unfold down_init; cbn [down_body removelast ordering_down inbox_lifecycle_down rows_after exec_rows];
    [destruct (ordering_state d)|destruct (active_inbox d)]; reflexivity.
Qed.

(** Rows that refuse a plain statement stop the sequence. *)
Lemma exec_all_refused now body ns fo hi o d e o' :
  forallb plain body = true -> objects_after body o = Ok o' -> rows_after now body d = Err e ->
  exec_all now body (MkSchema ns fo hi o d) = Err e.
Proof.
  revert o d. induction body as [|st body IH]; cbn; intros o d Hp Ho Hd; [done|].
  apply andb_true_iff in Hp as [Hst Hp]. apply result_bind_ok in Ho as (o1 & Ho1 & Ho).
  unfold exec_ddl. cbn [sc_objects sc_db]. rewrite Ho1. cbn [result_bind].
  destruct (exec_rows now st d) as [d1|e1]; cbn [result_bind] in *; [|by simplify_eq].
  rewrite <- (IH o1 d1 Hp Ho Hd). by destruct st.
Qed.

Lemma exec_all_err now b1 b2 s e : exec_all now b1 s = Err e -> exec_all now (b1 ++ b2) s = Err e.
Proof.
  revert s. induction b1 as [|st b1 IH]; cbn; intros s H; [done|].
  destruct (exec_ddl now st s); cbn in *; [by apply IH|done].
Qed.

Lemma down_split k : (2 <= k <= 4)%nat ->
  down_body k = down_init k ++ [DeleteVersion (Z.of_nat k)] /\ forallb plain (down_init k) = true.
Proof. intros H. destruct k as [|[|[|[|[|k]]]]]; try lia; done. Qed.

Lemma exec_down k now fo d :
  (2 <= k <= 4)%nat ->
  exec_all now (down_body k) (at_ k fo d) =
    if protected k d then Err (refusal k) else Ok (at_ (pred k) fo d).
Proof.
  intros H. destruct (down_split k H) as [-> Hp]. destruct down_objects_all as (Ho & _ & _ & _ & Hv).
  apply (forallb_seq _ _ _ k) in Ho; [|lia]. apply leaves_true in Ho.
  apply (forallb_seq _ _ _ k) in Hv; [|lia]. apply bool_decide_eq_true in Hv.
  pose proof (down_rows k now d H) as Hr. destruct (protected k d).
  - apply exec_all_err. by eapply exec_all_refused.
  - rewrite (exec_all_app _ _ _ _ (MkSchema true fo (Some (versions k)) (built (pred k)) d))
      by by apply exec_all_split.
    cbn [exec_all exec_ddl exec_objects exec_rows result_bind exec_history sc_history].
    unfold with_history. cbn [sc_namespace sc_foreign sc_objects sc_db]. by rewrite Hv.
Qed.

Lemma exec_down_first now fo d :
  exec_all now init_down (at_ 1 fo d)
    = Ok {| sc_namespace := fo; sc_foreign := fo; sc_history := None; sc_objects := built 0; sc_db := d |}.
Proof.
  destruct down_objects_all as (_ & Ho & He & _). apply leaves_true in Ho.
  change init_down with (take 2 init_down ++ [DropHistory; DropNamespace]).
  rewrite (exec_all_app _ _ _ _ (MkSchema true fo (Some (versions 1)) (built 0) d))
    by by apply exec_all_split.
  cbn [exec_all exec_ddl exec_objects exec_rows result_bind exec_history sc_history sc_namespace
       sc_foreign sc_objects sc_db with_history is_null].
  rewrite He. by destruct fo.
Qed.

Lemma down_files k : (1 <= k <= 4)%nat -> downMigrationName (Z.of_nat k) = Ok (down_body k).
Proof. intros H. destruct k as [|[|[|[|[|k]]]]]; try lia; reflexivity. Qed.

Lemma lock_for_at v k fo d fo' d' : lock_for v (at_ k fo d) = lock_for v (at_ k fo' d').
Proof. done. Qed.

(** What a downgrade leaves of version [k]. *)
Definition downgraded (k : nat) (s : schema) : schema :=
  match k with
  | 1%nat => {| sc_namespace := sc_foreign s; sc_foreign := sc_foreign s; sc_history := None;
                sc_objects := built 0; sc_db := sc_db s |}
  | _ => at_ (pred k) (sc_foreign s) (sc_db s)
  end.

Lemma MigrateDown_from k s now :
  (1 <= k <= 4)%nat -> at_version k s ->
  MigrateDown now s =
    if protected k (sc_db s) then (s, Err (refusal k)) else (downgraded k s, Ok tt).
Proof.
  intros Hk Hs. unfold MigrateDown. rewrite (ensured k s Hs).
  cbn [appliedVersions at_ sc_history result_bind]. rewrite (validate_versions k) by lia.
  cbn [result_bind]. fold (at_ k (sc_foreign s) (sc_db s)).
  rewrite (proj2 (Z.eqb_neq (Z.of_nat k) 0)) by lia.
  destruct down_objects_all as (_ & _ & _ & Hl & _). apply (forallb_seq _ _ _ k) in Hl; [|lia].
  rewrite (lock_for_at _ _ (sc_foreign s) (sc_db s) false (migrated 0)).
  cbv beta in Hl. destruct (lock_for _ _); [|done]. cbn [result_bind]. rewrite down_files by done. cbn [result_bind].
  destruct (decide (k = 1%nat)) as [->|Hne].
  - cbn [down_body protected]. by rewrite exec_down_first.
  - rewrite exec_down by lia. destruct (protected k (sc_db s)); [done|].
    destruct k as [|[|k]]; [lia|lia|done].
Qed.

Lemma downgraded_at k s : (1 <= k <= 4)%nat -> at_version (pred k) (downgraded k s).
Proof.
  intros Hk. destruct k as [|[|k]]; [lia| |apply at_at_version].
  split; [done|by right|done].
Qed.

(** ** The history *)

Definition prefix_of_history (h : gset Z) (n : Z) : Prop :=
  0 <= n <= currentSchemaVersion /\ forall v, v ∈ h <-> 1 <= v <= n.

Lemma latest_bound h v : v ∈ h -> v <= latest h.
Proof.
  intros H%elem_of_elements. unfold latest. induction (elements h) as [|x l IH]; [by apply elem_of_nil in H|].
  cbn. apply elem_of_cons in H as [->|H]; [lia|]. specialize (IH H). lia.
Qed.

Lemma latest_in h : latest h = 0 \/ latest h ∈ h.
Proof.
  unfold latest. assert (forall x, x ∈ elements h -> x ∈ h) as H by (intros x; apply elem_of_elements).
  induction (elements h) as [|x l IH]; [by left|]. cbn.
  destruct IH as [IH|IH]; [intros y Hy; apply H; by right|..].
  - rewrite IH. destruct (Z.max_spec x 0) as [[_ ->]|[_ ->]]; [by left|right; apply H; left].
  - destruct (Z.max_spec x (foldr Z.max 0 l)) as [[_ ->]|[_ ->]]; [by right|right; apply H; left].
Qed.

Lemma validateVersions_ok h n : validateVersions h = Ok n <-> prefix_of_history h n.
Proof.
  unfold validateVersions, prefix_of_history. cbv zeta.
  pose proof (latest_bound h) as Hb. pose proof (latest_in h) as Hin.
  assert (existsb (fun v => v <=? 0) (elements h) = false <-> forall v, v ∈ h -> 1 <= v) as H1.
  { rewrite <- not_true_iff_false, existsb_exists. split.
    - intros H v Hv. destruct (decide (1 <= v)); [done|]. destruct H. exists v.
      split; [by apply list_elem_of_In, elem_of_elements|]. apply Z.leb_le. lia.
    - intros H (v & Hv & Hl). apply list_elem_of_In, elem_of_elements, H in Hv. apply Z.leb_le in Hl. lia. }
  assert (existsb (fun v => negb (bool_decide (v ∈ h))) (seqZ 1 (latest h)) = false
          <-> forall v, 1 <= v <= latest h -> v ∈ h) as H2.
  { rewrite <- not_true_iff_false, existsb_exists. split.
    - intros H v Hv. destruct (decide (v ∈ h)); [done|]. destruct H. exists v.
      split; [apply list_elem_of_In, elem_of_seqZ; lia|]. by rewrite bool_decide_eq_false_2.
    - intros H (v & Hv & Hl). apply list_elem_of_In, elem_of_seqZ in Hv.
      rewrite bool_decide_eq_true_2 in Hl; [done|]. apply H. lia. }
  split.
  - intros H. destruct_match H; [done|]. apply Z.ltb_ge in Heqb.
    destruct (existsb _ (elements h)); [done|]. destruct (existsb _ (seqZ _ _)); [done|].
    injection H as <-. specialize (proj1 H1 eq_refl) as G1. specialize (proj1 H2 eq_refl) as G2.
    assert (0 <= latest h) by (destruct Hin as [->|Hin]; [lia|specialize (G1 _ Hin); lia]).
    split; [lia|]. intros v. split; [|apply G2]. intros Hv. split; [by apply G1|by apply Hb].
  - intros [Hn Hv]. assert (latest h = n) as Hl.
    { destruct Hin as [H0|Hin].
      - destruct (decide (n = 0)); [lia|]. assert (n ∈ h) as Hm by (apply Hv; lia). specialize (Hb n Hm). lia.
      - apply Hv in Hin. destruct (decide (n = 0)); [lia|].
        assert (n ∈ h) as Hm by (apply Hv; lia). specialize (Hb n Hm). lia. }
    rewrite Hl in *. rewrite (proj2 (Z.ltb_ge _ _)) by lia.
    rewrite (proj2 H1) by (intros v Hv'; apply Hv in Hv'; lia).
    rewrite (proj2 H2) by (intros v Hv'; by apply Hv). done.
Qed.

Lemma validateVersions_err h e : validateVersions h = Err e -> e = ErrSchemaIncompatible.
Proof. unfold validateVersions. intros H. repeat (destruct_match H; [by simplify_eq|]). done. Qed.

(** ** What an upgrade keeps *)

(** The message and its delivery state are the same. *)
Definition same_event (r r' : event_row) : Prop :=
  ed_id (er_data r') = ed_id (er_data r) /\ ed_destination (er_data r') = ed_destination (er_data r) /\
  ed_event_type (er_data r') = ed_event_type (er_data r) /\
  ed_message_key (er_data r') = ed_message_key (er_data r) /\
  ed_payload (er_data r') = ed_payload (er_data r) /\ ed_headers (er_data r') = ed_headers (er_data r) /\
  er_status r' = er_status r /\ er_attempts r' = er_attempts r /\
  er_available_at r' = er_available_at r /\ er_lease_owner r' = er_lease_owner r /\
  er_lease_until r' = er_lease_until r /\ er_delivered_at r' = er_delivered_at r.

(** Every event and every inbox marker is still there. *)
Definition keeps (d d' : db) : Prop :=
  (forall id r, db_outbox d !! id = Some r ->
     exists r', db_outbox d' !! id = Some r' /\ same_event r r') /\
  (forall key r, db_inbox d !! key = Some r ->
     exists r', db_inbox d' !! key = Some r' /\ ir_processed_at r' = ir_processed_at r).

Lemma keeps_refl d : keeps d d.
Proof. split; intros x r H; exists r; by unfold same_event. Qed.

Lemma keeps_trans d1 d2 d3 : keeps d1 d2 -> keeps d2 d3 -> keeps d1 d3.
Proof.
  intros [A1 B1] [A2 B2]. split; intros x r H.
  - apply A1 in H as (r2 & H & K). apply A2 in H as (r3 & H & K'). exists r3. split; [done|].
    unfold same_event in *. intuition congruence.
  - apply B1 in H as (r2 & H & K). apply B2 in H as (r3 & H & K'). exists r3. split; congruence.
Qed.

Lemma keeps_up k now d : (2 <= k)%nat -> keeps d (rows_up k now d).
Proof.
  intros Hk. split; intros x r H.
  - destruct k as [|[|[|[|k]]]]; [lia|lia|..]; cbn; [..|by exists r];
      rewrite lookup_fmap, H; cbn; eexists; split; done.
  - destruct k as [|[|[|[|k]]]]; [lia|lia|..]; cbn; [by exists r|by exists r|].
    rewrite lookup_fmap, H. cbn. eexists. split; done.
Qed.

Lemma keeps_from k now d : (1 <= k)%nat -> keeps d (data_from k now d).
Proof.
  intros Hk. unfold data_from. generalize (4 - k)%nat as n. revert d.
  assert (forall n j d, (2 <= j)%nat -> keeps d (foldl (fun d j => rows_up j now d) d (seq j n))) as H.
  { induction n as [|n IH]; intros j d Hj; cbn; [apply keeps_refl|].
    eapply keeps_trans; [by apply keeps_up|]. apply IH. lia. }
  intros d n. apply H. lia.
Qed.

Lemma required_in {A} `{EqDecision A} (req l : list A) :
  forallb (fun x => bool_decide (x ∈ l)) req = true -> forall x, x ∈ req -> x ∈ l.
Proof.
  intros H x Hx. apply list_elem_of_In in Hx. apply (proj1 (forallb_forall _ _) H) in Hx.
  by apply bool_decide_eq_true in Hx.
Qed.

Lemma complete_catalog fo d : Integrity.schema_ok (to_catalog (at_ 4 fo d)).
Proof.
  split_and!; cbn [to_catalog at_ sc_history sc_objects Integrity.cat_tables Integrity.cat_version
                   Integrity.cat_indexes Integrity.cat_constraints Integrity.cat_columns].
  - intros t Ht. rewrite <- (list_to_set_cons (C := gset string)). apply elem_of_list_to_set.
    revert t Ht. apply required_in. vm_compute. reflexivity.
  - vm_compute. reflexivity.
  - intros t Ht. apply elem_of_list_to_set. revert t Ht. apply required_in. vm_compute. reflexivity.
  - intros t Ht. apply elem_of_list_to_set. revert t Ht. apply required_in. vm_compute. reflexivity.
  - intros t c Ht. apply elem_of_list_to_set. revert Ht. generalize (t, c). apply required_in.
    vm_compute. reflexivity.
Qed.

(** The owner of the tables sees and reads everything. *)
Lemma SchemaVersion_owner s :
  SchemaVersion owner s = match sc_history s with None => Ok 0 | Some applied => validateVersions applied end.
Proof.
  assert (holds_any owner "schema_migrations" table_privileges = true) as H1 by (vm_compute; reflexivity).
  assert (readable owner "schema_migrations" = true) as H2 by (vm_compute; reflexivity).
  unfold SchemaVersion, TableExists, table_exists. rewrite H1, H2.
  by destruct (sc_history s).
Qed.

Lemma doctor_static fo d :
  failing (IndexExists (at_ 4 fo d)) RequiredIndexes = [] /\
  failing (TableExists owner (at_ 4 fo d)) RequiredTables = [] /\
  failing (ColumnExists owner (at_ 4 fo d) "outbox_events") doctor_columns = [] /\
  failing (fun tc => ConstraintExists owner (at_ 4 fo d) tc.1 tc.2) RequiredConstraints = [] /\
  readable_table owner (at_ 4 fo d) "runtime_control" = Ok tt /\
  readable_table owner (at_ 4 fo d) "ordering_partitions" = Ok tt.
Proof. by vm_compute. Qed.

Lemma doctor_healthy fo d :
  size (db_partitions d) = 64%nat -> db_control d <> None -> doctor_schema owner (at_ 4 fo d) = [].
Proof.
  intros Hp Hc. destruct (doctor_static fo d) as (H1 & H2 & H3 & H4 & H5 & H6).
  assert (doctor_version owner (at_ 4 fo d) = []) as Hv.
  { unfold doctor_version. rewrite SchemaVersion_owner. cbn [SchemaExists at_ sc_namespace sc_history negb owner ro_usage andb].
    rewrite (validate_versions 4) by lia. reflexivity. }
  assert (OrderingPartitionCount owner (at_ 4 fo d) = Ok 64) as Ho.
  { unfold OrderingPartitionCount. rewrite H6. cbn [result_bind at_ sc_db]. rewrite Hp. reflexivity. }
  assert (RuntimeControlExists owner (at_ 4 fo d) = Ok true) as Hr.
  { unfold RuntimeControlExists. rewrite H5. cbn [result_bind at_ sc_db]. clear -Hc.
    by destruct (db_control d). }
  unfold doctor_schema. rewrite Hv, H1, H2, H3, H4, Ho, Hr. reflexivity.
Qed.

(** * Properties *)



(** A history the binary does not understand stops every migration: unless
    the recorded versions are exactly 1 to n for some n up to 4, migrating up or
    down fails with [ErrSchemaIncompatible] and changes nothing, and no version
    is reported. *)
Theorem migration_history_checked s now h :
  sc_history s = Some h -> (forall n, ~ prefix_of_history h n) ->
  MigrateUp now s = (s, Err ErrSchemaIncompatible) /\
  MigrateDown now s = (s, Err ErrSchemaIncompatible) /\
  SchemaVersion owner s = Err ErrSchemaIncompatible.
Proof.
  intros Hh Hno. assert (validateVersions h = Err ErrSchemaIncompatible) as Hv.
  { destruct (validateVersions h) as [n|e] eqn:E.
    - apply validateVersions_ok in E. by destruct (Hno n).
    - by rewrite (validateVersions_err h e E). }
  rewrite SchemaVersion_owner. unfold MigrateUp, MigrateDown, ensureMigrations. rewrite Hh.
  cbn [default from_option id appliedVersions sc_history with_history result_bind]. rewrite Hv. done.
Qed.

(** ** Witnesses *)

Definition fresh : schema :=
  {| sc_namespace := false; sc_foreign := false; sc_history := None; sc_objects := no_objects;
     sc_db := migrated 0 |}.

Lemma fresh_at : at_version 0 fresh.
Proof. split; [vm_compute; reflexivity|by right|done]. Qed.



Lemma migration_history_checked_witness :
  MigrateUp 9 (with_history fresh true (Some {[2]})) =
    (with_history fresh true (Some {[2]}), Err ErrSchemaIncompatible).
Proof.
  refine (proj1 (migration_history_checked (with_history fresh true (Some {[2]})) 9 {[2]} eq_refl _)).
  intros n [Hn Hv]. assert (1 ∈ ({[2]} : gset Z)) as H.
  { apply Hv. assert (2 ∈ ({[2]} : gset Z)) as H2 by (apply elem_of_singleton; reflexivity).
    apply Hv in H2. lia. }
  apply elem_of_singleton in H. discriminate H.
Defined.

End Migrate.
