(* ===== verification/Consumer.v ===== *)
(** * The managed consumer ([consumer/])

    Identity resolution, the retry delay, one pass of a worker over a record
    ([process] and [transitionFailure]) against the inbox store, and the worker
    loop over a broker log with pausing, rewinding, rebalancing and committed
    offsets. *)
From Stdlib Require Import ZArith String QArith.
From stdpp Require Import base gmap strings list fin_maps relations.
From S2P Require Import Prelude GoStrings Schema Invariant Samples OutboxStore Tx Relay PgStore.
From S2P Require Import Float64 InboxStore InboxSystem.

Open Scope Z_scope.

Module Consumer.
Local Open Scope emitlane_scope.

(** ** Data ([message.go], [source.go], [config.go]) *)

Definition EventIDHeader : string := "emitlane-event-id".

Record Header : Type := MkHeader { h_Key : string; h_Value : string }.

Record Message : Type := MkMessage {
  m_EventID : uuid;
  m_Topic : string;
  m_Partition : Z;
  m_Offset : Z;
  m_Timestamp : option time;
  m_Key : string;
  m_Payload : string;
  m_Headers : list Header;
  m_Attempt : Z;
}.

(** Without the adapter's private token. *)
Record SourceRecord : Type := MkSourceRecord {
  r_Topic : string;
  r_Partition : Z;
  r_Offset : Z;
  r_Timestamp : option time;
  r_Key : string;
  r_Payload : string;
  r_Headers : list Header;
}.

Record TopicPartition : Type := MkTopicPartition { tp_Topic : string; tp_Partition : Z }.

#[global] Instance TopicPartition_eq_dec : EqDecision TopicPartition.
Proof. solve_decision. Defined.
#[global] Instance TopicPartition_countable : Countable TopicPartition.
Proof.
  refine (inj_countable' (fun tp => (tp_Topic tp, tp_Partition tp))
            (fun p => MkTopicPartition p.1 p.2) _). by intros [].
Defined.

Record Config : Type := MkConfig {
  Consumer : string;
  InstanceID : string;
  Concurrency : Z;
  MaxAttempts : Z;
  BaseDelay : duration;
  MaxDelay : duration;
  Jitter : Q;
  HandlerTimeout : duration;
  LeaseDuration : duration;
  LeaseRenewInterval : duration;
  MaintenancePoll : duration;
  ShutdownTimeout : duration;
}.

Definition DefaultConfig : Config :=
  {| Consumer := ""; InstanceID := ""; Concurrency := 1; MaxAttempts := 10; BaseDelay := Second;
     MaxDelay := 30 * Minute; Jitter := 1; HandlerTimeout := 2 * Minute;
     LeaseDuration := 30 * Second; LeaseRenewInterval := 10 * Second;
     MaintenancePoll := 250 * Millisecond; ShutdownTimeout := 10 * Second |}.

Definition config_err (msg : string) : error := ErrOther msg.

Definition Validate (c : Config) : res unit :=
  fail_if Inbox.blank (Consumer c) with config_err "consumer: durable consumer name is required";
  fail_if Inbox.blank (InstanceID c) with config_err "consumer: instance ID is required";
  fail_if (Concurrency c <? 1) || (128 <? Concurrency c)
    with config_err "consumer: concurrency must be between 1 and 128";
  fail_if MaxAttempts c <? 1 with config_err "consumer: max attempts must be >= 1";
  fail_if (BaseDelay c <=? 0) || (MaxDelay c <? BaseDelay c)
    with config_err "consumer: retry delays must be positive and max must be >= base";
  fail_if negb (Qle_bool 0 (Jitter c)) || negb (Qle_bool (Jitter c) 1)
    with config_err "consumer: jitter must be between 0 and 1";
  fail_if HandlerTimeout c <=? 0 with config_err "consumer: handler timeout must be > 0";
  fail_if LeaseDuration c <=? 0 with config_err "consumer: lease duration must be > 0";
  fail_if (LeaseRenewInterval c <=? 0) || (LeaseDuration c <=? int64_mul (LeaseRenewInterval c) 2)
    with config_err
      "consumer: lease renew interval must be positive and less than half the lease duration";
  fail_if (MaintenancePoll c <=? 0) || (LeaseDuration c <=? MaintenancePoll c)
    with config_err "consumer: maintenance poll must be positive and shorter than lease duration";
  fail_if ShutdownTimeout c <=? 0 with config_err "consumer: shutdown timeout must be > 0";
  Ok tt.

(** ** Identity ([ResolveEventID]) *)

Section resolve.
Context (uuid_Parse : string -> option uuid).

(** The loop; [resolved] is what the headers so far agree on. *)
Fixpoint resolve_loop (headers : list Header) (resolved : option uuid) : res uuid :=
  match headers with
  | [] => match resolved with
          | Some id => Ok id
          | None => Err (ErrOther "consumer: missing emitlane-event-id header")
          end
  | h :: headers =>
      if negb (EqualFold (TrimSpace (h_Key h)) EventIDHeader) then resolve_loop headers resolved else
      match uuid_Parse (TrimSpace (h_Value h)) with
      | None => Err (ErrOther "consumer: invalid emitlane-event-id header")
      | Some parsed =>
          if match resolved with Some id => negb (bool_decide (parsed = id)) | None => false end
          then Err (ErrOther "consumer: conflicting emitlane-event-id headers")
          else resolve_loop headers (Some parsed)
      end
  end.

Definition ResolveEventID (m : Message) : res uuid := resolve_loop (m_Headers m) None.

End resolve.

(** ** Retry delay ([retry.go]) *)

(** The doubling loop; [fuel] bounds its iterations by the attempt number. *)
Fixpoint cap_loop (fuel : nat) (current attempt capDelay maximum : Z) : Z :=
  match fuel with
  | O => capDelay
  | S fuel =>
      if (current <? attempt) && (capDelay <? maximum) then
        if Z.quot maximum 2 <? capDelay then maximum
        else cap_loop fuel (current + 1) attempt (int64_mul capDelay 2) maximum
      else capDelay
  end.

(** [jitter] and [sample] are [float64] values. *)
Definition retryDelay (attempt base maximum : Z) (jitter sample : Q) : duration :=
  let attempt := if attempt <? 1 then 1 else attempt in
  let capDelay := cap_loop (Z.to_nat attempt) 1 attempt base maximum in
  let capDelay := if maximum <? capDelay then maximum else capDelay in
  let sample := if Qle_bool 0 sample then sample else 0%Q in
  let sample := if Qle_bool sample 1 then sample else 1%Q in
  let factor := f64_add (f64_sub 1 jitter) (f64_mul jitter sample) in
  int64_of_f64 (f64_mul (f64_of_int capDelay) factor).

(** ** One pass over a record *)

(** A handler or driver error, as [errors.Is] and [errors.As] classify it. *)
Record failure : Type := MkFailure { fl_deadline : bool; fl_permanent : bool }.

Definition safeErrorSummary (f : failure) : string :=
  if fl_deadline f then "handler timeout"
  else if fl_permanent f then "permanent handler failure"
  else "retryable handler failure".

(** A call that the driver reports as failed, with its effect or without. *)
Definition faulty {A} (f : option bool) (d : db) (r : db * res A) : db * res A :=
  match f with
  | None => r
  | Some applied => (if applied then r.1 else d, Err (ErrSQL ConnectionFailure))
  end.

(** One tick of [renewLease]: what others did before it, its time, and the
    driver's failure if any. *)
Record tick : Type := MkTick {
  tk_others : db -> db;
  tk_now : time;
  tk_fault : option (bool * failure);
}.

Inductive renew_error : Type :=
| RenewLost                   (* errors.Is(err, inbox.ErrLeaseLost) *)
| RenewFailed (f : failure).

(** The answers of the environment during one pass. *)
Record attempt_env : Type := MkAttemptEnv {
  ae_claim_now : time;
  ae_token : uuid;
  ae_claim_fault : option bool;
  ae_begin : option failure;             (* pool.Begin *)
  ae_ticks : list tick;                  (* lease renewals while the handler runs *)
  ae_others : db -> db;                  (* other transactions before this one commits *)
  ae_mark_now : time;
  ae_ctx : option failure;               (* handlerCtx.Err() after the handler *)
  ae_mark_fault : bool;                  (* the MarkProcessed statement fails *)
  ae_commit_fault : option bool;
  ae_offset_fault : option bool;         (* source.Commit *)
  ae_fail_now : time;
  ae_fail_fault : option bool;           (* MarkRetry or MarkDead *)
  ae_sample : Q;                         (* rand.Float64() *)
  ae_clock : time;                       (* time.Now() for the retry point *)
}.

Record verdict : Type := MkVerdict {
  v_resolved : bool;
  v_eventID : uuid;
  v_at : option time;                    (* None is the zero time *)
  v_permanent : bool;
  v_reason : string;
}.

Section pass.
Context (cfg : Config) (resolveIdentity : Message -> res uuid)
  (handler : Message -> tx -> tx * option failure).

Fixpoint renewLease (d : db) (eventID token : uuid) (ticks : list tick)
  : db * option renew_error :=
  match ticks with
  | [] => (d, None)
  | tk :: ticks =>
      let d0 := tk_others tk d in
      match faulty (fst <$> tk_fault tk) d0
              (Inbox.Renew d0 (tk_now tk) (Consumer cfg) eventID token (LeaseDuration cfg)) with
      | (d1, Ok _) => renewLease d1 eventID token ticks
      | (d1, Err ErrLeaseLost) => (d1, Some RenewLost)
      | (d1, Err _) => (d1, Some (RenewFailed (default (MkFailure false false) (snd <$> tk_fault tk))))
      end
  end.

Definition wait_for (env : attempt_env) (eventID : uuid) (after : duration) (reason : string)
  : verdict := MkVerdict false eventID (Some (ae_clock env + after)) false reason.

Definition transitionFailure (env : attempt_env) (d : db) (eventID : uuid) (event : Inbox.Event)
    (f : failure) : db * bool * verdict :=
  let lastError := safeErrorSummary f in
  if fl_permanent f || (MaxAttempts cfg <=? Inbox.Attempts event) then
    match faulty (ae_fail_fault env) d
            (Inbox.MarkDead d (ae_fail_now env) (Consumer cfg) eventID
               (Inbox.LeaseToken event) lastError) with
    | (d1, Err _) => (d1, false, wait_for env eventID (LeaseDuration cfg) "database")
    | (d1, Ok _) => (d1, false, MkVerdict false eventID None true "dead")
    end
  else
    let delay := retryDelay (Inbox.Attempts event) (BaseDelay cfg) (MaxDelay cfg) (Jitter cfg)
                   (ae_sample env) in
    match faulty (ae_fail_fault env) d
            (Inbox.MarkRetry d (ae_fail_now env) (Consumer cfg) eventID
               (Inbox.LeaseToken event) delay lastError) with
    | (d1, Err _) => (d1, false, wait_for env eventID (LeaseDuration cfg) "database")
    | (d1, Ok _) => (d1, false, wait_for env eventID delay "retry")
    end.

(** [source.Commit]: the verdict and whether the group offset moved. *)
Definition commit_offset (env : attempt_env) (d : db) (eventID : uuid) : db * bool * verdict :=
  match ae_offset_fault env with
  | None => (d, true, MkVerdict true uuid_Nil None false "")
  | Some applied => (d, applied, wait_for env eventID (MaintenancePoll cfg) "offset_commit")
  end.

Definition message_of (record : SourceRecord) : Message :=
  {| m_EventID := uuid_Nil; m_Topic := r_Topic record; m_Partition := r_Partition record;
     m_Offset := r_Offset record; m_Timestamp := r_Timestamp record; m_Key := r_Key record;
     m_Payload := r_Payload record; m_Headers := r_Headers record; m_Attempt := 0 |}.

Definition with_claim (m : Message) (eventID : uuid) (attempt : Z) : Message :=
  {| m_EventID := eventID; m_Topic := m_Topic m; m_Partition := m_Partition m;
     m_Offset := m_Offset m; m_Timestamp := m_Timestamp m; m_Key := m_Key m;
     m_Payload := m_Payload m; m_Headers := m_Headers m; m_Attempt := attempt |}.

Definition claim_request (owner : string) (record : SourceRecord) (eventID : uuid)
  : Inbox.ClaimRequest :=
  {| Inbox.cq_Consumer := Consumer cfg; Inbox.cq_EventID := eventID;
     Inbox.cq_Source := {| is_topic := r_Topic record; is_partition := r_Partition record;
                           is_offset := r_Offset record; is_timestamp := r_Timestamp record |};
     Inbox.cq_LeaseOwner := owner; Inbox.cq_LeaseDuration := LeaseDuration cfg |}.

(** The handler's transaction: the callback, [MarkProcessed] and the commit.
    Others commit before it ([ae_others]); its own reads and writes take effect
    at its commit. *)
Definition run_handler (env : attempt_env) (d : db) (message : Message) (event : Inbox.Event)
  : db * bool * verdict :=
  let eventID := m_EventID message in
  let '(d1, renewErr) := renewLease d eventID (Inbox.LeaseToken event) (ae_ticks env) in
  let d2 := ae_others env d1 in
  let '(t1, handlerErr) := handler message (begin_tx d2 (ae_mark_now env)) in
  match renewErr with
  | Some RenewLost => (d2, false, wait_for env eventID (LeaseDuration cfg) "database")
  | Some (RenewFailed f) => transitionFailure env d2 eventID event f
  | None =>
      match (match handlerErr with Some f => Some f | None => ae_ctx env end) with
      | Some f => transitionFailure env d2 eventID event f
      | None =>
          match (if ae_mark_fault env then (t1, Err (ErrSQL ConnectionFailure))
                 else Inbox.MarkProcessed (Consumer cfg) eventID (Inbox.LeaseToken event) t1) with
          | (_, Err _) =>
              (d2, false, MkVerdict false eventID (Inbox.LeaseUntil event) false "database")
          | (t2, Ok _) =>
              match ae_commit_fault env with
              | Some applied =>
                  (if applied then commit_tx d2 t2 else d2, false,
                   wait_for env eventID (MaintenancePoll cfg) "database")
              | None =>
                  if tx_aborted t2
                  then (d2, false, wait_for env eventID (MaintenancePoll cfg) "database")
                  else commit_offset env (commit_tx d2 t2) eventID
              end
          end
      end
  end.

Definition process (owner : string) (env : attempt_env) (d : db) (record : SourceRecord)
  : db * bool * verdict :=
  let message := message_of record in
  match resolveIdentity message with
  | Err _ => (d, false, MkVerdict false uuid_Nil None true "protocol")
  | Ok eventID =>
      match faulty (ae_claim_fault env) d
              (Inbox.Claim d (ae_claim_now env) (ae_token env)
                 (claim_request owner record eventID)) with
      | (d1, Err _) => (d1, false, wait_for env eventID (MaintenancePoll cfg) "database")
      | (d1, Ok claim) =>
          let event := Inbox.cs_Event claim in
          match Inbox.cs_Disposition claim with
          | Inbox.AlreadyProcessed => commit_offset env d1 eventID
          | Inbox.ClaimDead => (d1, false, MkVerdict false eventID None true "dead")
          | Inbox.ClaimWaiting =>
              let resumeAt := match Inbox.LeaseUntil event with
                              | Some u => if Inbox.AvailableAt event <? u then u
                                          else Inbox.AvailableAt event
                              | None => Inbox.AvailableAt event
                              end in
              (d1, false, MkVerdict false eventID (Some resumeAt) false "retry")
          | Inbox.Claimed =>
              match ae_begin env with
              | Some f => transitionFailure env d1 eventID event f
              | None => run_handler env d1 (with_claim message eventID (Inbox.Attempts event)) event
              end
          end
      end
  end.

End pass.

(** ** The worker loop *)

Record blockedPartition : Type := MkBlocked {
  bp_record : SourceRecord;
  bp_eventID : uuid;
  bp_resumeAt : option time;
  bp_permanent : bool;
  bp_reason : string;
}.

(** A worker and its group member: the next offset it fetches from each assigned
    partition, the partitions it has paused, and [worker.blocked]. *)
Record worker : Type := MkWorker {
  wk_position : gmap TopicPartition Z;
  wk_paused : gset TopicPartition;
  wk_blocked : gmap TopicPartition blockedPartition;
}.

Definition newWorker : worker := MkWorker ∅ ∅ ∅.

(** Whether [resumeDue] leaves a partition blocked. [getErr] tells which reads
    of the store fail. *)
Definition still_blocked (cfg : Config) (d : db) (getErr : uuid -> bool) (now : time)
    (b : blockedPartition) : bool :=
  if bp_permanent b then
    if bool_decide (bp_eventID b = uuid_Nil) then true else
    getErr (bp_eventID b)
    || match Inbox.Get d (Consumer cfg) (bp_eventID b) with
       | Err _ => true
       | Ok event => bool_decide (Inbox.Status event = IDead)
       end
  else match bp_resumeAt b with Some at_ => now <? at_ | None => false end.

Definition resumeDue (cfg : Config) (d : db) (getErr : uuid -> bool) (now : time) (w : worker)
  : worker :=
  let due := filter (fun kb => still_blocked cfg d getErr now kb.2 = false) (wk_blocked w) in
  {| wk_position := wk_position w; wk_paused := wk_paused w ∖ dom due;
     wk_blocked := filter (fun kb => still_blocked cfg d getErr now kb.2 = true) (wk_blocked w) |}.

Definition block (w : worker) (partition : TopicPartition) (blocked : blockedPartition) : worker :=
  {| wk_position := wk_position w; wk_paused := wk_paused w;
     wk_blocked := <[partition := blocked]> (wk_blocked w) |}.

(** [Revoked] and [Lost]; the member no longer has the partitions. *)
Definition releasePartitions (w : worker) (partitions : gset TopicPartition) : worker :=
  {| wk_position := filter (fun kp => kp.1 ∉ partitions) (wk_position w);
     wk_paused := wk_paused w ∖ partitions;
     wk_blocked := filter (fun kb => kb.1 ∉ partitions) (wk_blocked w) |}.

Definition partition_of_record (record : SourceRecord) : TopicPartition :=
  {| tp_Topic := r_Topic record; tp_Partition := r_Partition record |}.

Definition set_position (w : worker) (tp : TopicPartition) (o : Z) : worker :=
  {| wk_position := <[tp := o]> (wk_position w); wk_paused := wk_paused w;
     wk_blocked := wk_blocked w |}.
Definition pause (w : worker) (tp : TopicPartition) : worker :=
  {| wk_position := wk_position w; wk_paused := {[tp]} ∪ wk_paused w;
     wk_blocked := wk_blocked w |}.

(** The rest of an iteration of [run] once [process] has answered: fetching
    moved past the record, and an unresolved record is rewound, its partition
    paused and blocked. *)
Definition after_process (w : worker) (record : SourceRecord) (v : verdict) : worker :=
  let tp := partition_of_record record in
  let w := set_position w tp (r_Offset record + 1) in
  if v_resolved v then w else
  block (pause (set_position w tp (r_Offset record)) tp) tp
    {| bp_record := record; bp_eventID := v_eventID v; bp_resumeAt := v_at v;
       bp_permanent := v_permanent v; bp_reason := v_reason v |}.

(** ** The consumer group

    The broker's log and committed offsets, the database, and any number of
    workers. *)

Record group : Type := MkGroup {
  g_db : db;
  g_committed : gmap TopicPartition Z;
  g_workers : gmap string worker;
}.

(** Other transactions: they keep the constraints and reopen nothing. *)
Definition benign (f : db -> db) : Prop :=
  forall d, inbox_inv d ->
    inbox_inv (f d) /\ forall k, InboxSystem.processed d k -> InboxSystem.processed (f d) k.
Definition env_benign (env : attempt_env) : Prop :=
  benign (ae_others env) /\ Forall (fun tk => benign (tk_others tk)) (ae_ticks env).

Section group.
Context (cfg : Config) (resolveIdentity : Message -> res uuid)
  (handler : Message -> tx -> tx * option failure)
  (broker : TopicPartition -> Z -> option SourceRecord) (start : TopicPartition -> Z).

Inductive group_step : group -> group -> Prop :=
| c_poll g id w tp p o record env d' committed v :
    g_workers g !! id = Some w -> wk_position w !! tp = Some p -> tp ∉ wk_paused w ->
    p <= o -> broker tp o = Some record -> (forall o', p <= o' < o -> broker tp o' = None) ->
    env_benign env ->
    process cfg resolveIdentity handler id env (g_db g) record = (d', committed, v) ->
    group_step g (MkGroup d' (if committed then <[tp := o + 1]> (g_committed g) else g_committed g)
                    (<[id := after_process w record v]> (g_workers g)))
| c_resume g id w getErr now : g_workers g !! id = Some w ->
    group_step g (MkGroup (g_db g) (g_committed g)
                    (<[id := resumeDue cfg (g_db g) getErr now w]> (g_workers g)))
| c_release g id w tps : g_workers g !! id = Some w ->
    group_step g (MkGroup (g_db g) (g_committed g)
                    (<[id := releasePartitions w tps]> (g_workers g)))
| c_assign g id w tp : g_workers g !! id = Some w -> wk_position w !! tp = None ->
    group_step g (MkGroup (g_db g) (g_committed g)
                    (<[id := set_position w tp (default (start tp) (g_committed g !! tp))]>
                       (g_workers g)))
| c_start g id : (* a new worker, or a restart after a crash *)
    group_step g (MkGroup (g_db g) (g_committed g) (<[id := newWorker]> (g_workers g)))
| c_others g f : benign f ->
    group_step g (MkGroup (f (g_db g)) (g_committed g) (g_workers g)).

Definition group_init (d : db) : group := MkGroup d ∅ ∅.

(** Every record of the partition before the offset has had its effect. *)
Definition done_before (d : db) (tp : TopicPartition) (n : Z) : Prop :=
  forall o record, start tp <= o < n -> broker tp o = Some record ->
    exists eventID, resolveIdentity (message_of record) = Ok eventID /\
                    InboxSystem.processed d (Consumer cfg, eventID).

End group.

(** * Lemmas *)

Import InboxSystem.

(** The constraints hold and no processed message was reopened. *)
Definition advances (d d' : db) : Prop :=
  inbox_inv d' /\ forall k, processed d k -> processed d' k.

Lemma advances_refl d : inbox_inv d -> advances d d.
Proof. by split. Qed.
Lemma advances_trans d1 d2 d3 : advances d1 d2 -> advances d2 d3 -> advances d1 d3.
Proof. intros [_ H1] [H2 H3]. split; auto. Qed.
Lemma quiet_advances d d' : quiet d d' -> advances d d'.
Proof. intros [H1 H2]. split; [done|]. intros k. apply H2. Qed.
Lemma effect_advances d d' k : effect d d' k -> advances d d' /\ processed d' k.
Proof. intros (H1 & _ & H2). split; [split; [done|]|]; intros; apply H2; auto. Qed.

(** Every step of [InboxSystem] is something others may do. *)
Lemma step_advances uuid_Parse d log d' log' :
  InboxSystem.step uuid_Parse (d, log) (d', log') -> log_inv (d, log) -> advances d d'.
Proof.
  intros H Hs. pose proof (log_inv_step _ _ _ H Hs) as (Hi & _ & Hlog').
  destruct Hs as (_ & _ & Hlog). cbn [fst snd] in *. split; [done|]. intros k Hk.
  apply Hlog'. apply Hlog in Hk. inversion H; subst; try done; apply elem_of_app; by left.
Qed.

Lemma faulty_cases {A} f d (r : db * res A) d1 x :
  faulty f d r = (d1, x) -> r = (d1, x) \/ (is_ok x = false /\ (d1 = d \/ d1 = r.1)).
Proof. destruct f as [[]|]; simpl; intros H; simplify_eq; auto. Qed.

(** A faulty call of a quiet operation is quiet. *)
Lemma faulty_quiet {A} f d (r : db * res A) d1 x :
  inbox_inv d -> quiet d r.1 -> faulty f d r = (d1, x) -> quiet d d1.
Proof.
  intros Hinv Hq [->|[_ [->| ->]]]%faulty_cases; [done|by apply quiet_refl|done].
Qed.

Lemma MarkDead_row d now c e token msg d1 u :
  Inbox.MarkDead d now c e token msg = (d1, Ok u) ->
  exists row, db_inbox d1 !! (c, e) = Some row /\ ir_status row = IDead.
Proof.
  unfold Inbox.MarkDead, Inbox.fenced_update. destruct (negb _); [done|].
  destruct (Inbox.update_inbox _ _ _ _) as [d2 [r|]] eqn:E; [|done].
  apply Inbox.update_inbox_spec in E as (r0 & _ & _ & _ & ->). intros [= <- _].
  eexists. cbn [with_inbox db_inbox]. by rewrite lookup_insert_eq.
Qed.

(** ** One pass *)

Section pass_lemmas.
Context (cfg : Config) (resolveIdentity : Message -> res uuid)
  (handler : Message -> tx -> tx * option failure).

Definition dead_in (d : db) (eventID : uuid) : Prop :=
  exists row, db_inbox d !! (Consumer cfg, eventID) = Some row /\ ir_status row = IDead.

(** What a pass promises for the message [eventID]. *)
Definition pass_ok (d : db) (eventID : uuid) (out : db * bool * verdict) : Prop :=
  let '(d', committed, v) := out in
  advances d d' /\
  (committed = true -> processed d' (Consumer cfg, eventID)) /\
  (v_resolved v = true -> committed = true) /\
  (v_permanent v = true ->
     v_resolved v = false /\ v_eventID v = eventID /\ dead_in d' eventID) /\
  (v_resolved v = false -> v_permanent v = false -> is_Some (v_at v)).

Lemma pass_ok_wait d d1 eventID env after reason :
  advances d d1 -> pass_ok d eventID (d1, false, wait_for env eventID after reason).
Proof. intros H. unfold pass_ok, wait_for. cbn. split_and!; eauto; done. Qed.

Lemma pass_ok_trans d d1 eventID out :
  advances d d1 -> pass_ok d1 eventID out -> pass_ok d eventID out.
Proof.
  destruct out as [[d' c] v]. intros Ha (H1 & H2). split; [by eapply advances_trans|done].
Qed.

Lemma transitionFailure_ok env d eventID event f :
  inbox_inv d -> pass_ok d eventID (transitionFailure cfg env d eventID event f).
Proof.
  intros Hinv. unfold transitionFailure. destruct (_ || _).
  - destruct (faulty _ _ _) as [d1 [u|e]] eqn:E;
      pose proof (faulty_quiet _ _ _ _ _ Hinv (quiet_MarkDead _ _ _ _ _ _ Hinv) E) as Hq;
      apply quiet_advances in Hq; [|by apply pass_ok_wait].
    apply faulty_cases in E as [E|[? _]]; [|done]. unfold pass_ok. cbn. split_and!; try done.
    intros _. split_and!; [done..|]. by eapply MarkDead_row.
  - destruct (faulty _ _ _) as [d1 [u|e]] eqn:E;
      pose proof (faulty_quiet _ _ _ _ _ Hinv (quiet_MarkRetry _ _ _ _ _ _ _ Hinv) E) as Hq;
      apply quiet_advances in Hq; by apply pass_ok_wait.
Qed.

Lemma commit_offset_ok env d eventID :
  inbox_inv d -> processed d (Consumer cfg, eventID) ->
  pass_ok d eventID (commit_offset cfg env d eventID).
Proof.
  intros Hinv Hp. unfold commit_offset, pass_ok. destruct (ae_offset_fault env) as [[]|]; cbn;
    split_and!; eauto using advances_refl; try done.
Qed.

Lemma renewLease_advances d eventID token ticks d' o :
  inbox_inv d -> Forall (fun tk => benign (tk_others tk)) ticks ->
  renewLease cfg d eventID token ticks = (d', o) -> advances d d'.
Proof.
  intros Hinv Hall. revert d Hinv. induction Hall as [|tk ticks Htk _ IH]; cbn; intros d Hinv H.
  { simplify_eq. by apply advances_refl. }
  pose proof (Htk d Hinv) as [Hinv0 H0].
  destruct (faulty _ _ _) as [d1 x] eqn:E.
  pose proof (faulty_quiet _ _ _ _ _ Hinv0 (quiet_Renew _ _ _ _ _ _ Hinv0) E) as Hq.
  apply quiet_advances in Hq. assert (advances d d1) as H1 by (by apply (advances_trans _ _ _ (conj Hinv0 H0))).
  destruct x as [u|err]; [eapply advances_trans; [exact H1|]; apply IH; [apply H1|done]|].
  destruct err; by simplify_eq.
Qed.

Context (Hhandler : forall m t, db_inbox (tx_db (handler m t).1) = db_inbox (tx_db t)).

Lemma run_handler_ok env d message event :
  inbox_inv d -> env_benign env -> is_Some (Inbox.LeaseUntil event) ->
  pass_ok d (m_EventID message) (run_handler cfg handler env d message event).
Proof.
  intros Hinv [Ho Ht] Hl. unfold run_handler. set (id := m_EventID message).
  destruct (renewLease _ _ _ _ _) as [d1 renewErr] eqn:Er.
  pose proof (renewLease_advances _ _ _ _ _ _ Hinv Ht Er) as H1.
  destruct (Ho d1 (proj1 H1)) as [Hinv2 Hmono]. set (d2 := ae_others env d1) in *.
  assert (advances d d2) as H2 by (apply (advances_trans _ _ _ H1); by split).
  pose proof (Hhandler message (begin_tx d2 (ae_mark_now env))) as Hkeep.
  destruct (handler _ _) as [t1 handlerErr] eqn:Eh. cbn in Hkeep.
  apply (pass_ok_trans _ d2); [done|]. clear Er H1 H2 Hmono.
  destruct renewErr as [[|f]|].
  - by apply pass_ok_wait, advances_refl.
  - by apply transitionFailure_ok.
  - destruct (match handlerErr with Some f => Some f | None => _ end);
      [by apply transitionFailure_ok|].
    destruct (if ae_mark_fault env then _ else _) as [t2 [u|e]] eqn:Em.
    2:{ unfold pass_ok. cbn. split_and!; auto using advances_refl; done. }
    destruct (ae_mark_fault env); [done|]. destruct u.
    pose proof (Inbox.MarkProcessed_ok _ _ _ _ _ _ Em) as (Ha & r & Hr & Hh & Ht2).
    assert (effect d2 (tx_db t2) (Consumer cfg, id)) as He.
    { apply Inbox.holds_token_true in Hh as [Hs _]. subst t2. cbn [set_db tx_db]. split_and!.
      - apply Inbox.released_inv; first [done|congruence|by eapply inbox_inv_frame].
      - rewrite Hkeep in Hr. intros (r' & Hr' & Hs'). congruence.
      - intros k'. rewrite processed_put by done. unfold processed. by rewrite Hkeep. }
    assert (tx_aborted t2 = false) as Ha2 by (by subst t2).
    apply effect_advances in He as [Hadv Hp]. unfold commit_tx. rewrite Ha2.
    destruct (ae_commit_fault env) as [[]|].
    + by apply pass_ok_wait.
    + by apply pass_ok_wait, advances_refl.
    + apply (pass_ok_trans _ (tx_db t2)); [done|]. apply commit_offset_ok; [apply Hadv|done].
Qed.

Lemma process_ok owner env d record eventID :
  inbox_inv d -> env_benign env -> resolveIdentity (message_of record) = Ok eventID ->
  pass_ok d eventID (process cfg resolveIdentity handler owner env d record).
Proof.
  intros Hinv Henv Hid. unfold process. rewrite Hid.
  destruct (faulty _ _ _) as [d1 [claim|e]] eqn:E;
    pose proof (faulty_quiet _ _ _ _ _ Hinv (quiet_claim _ _ _ _ Hinv) E) as Hq;
    apply quiet_advances in Hq; [|by apply pass_ok_wait].
  apply faulty_cases in E as [E|[? _]]; [|done].
  destruct (Inbox.Claim_ok _ _ _ _ _ _ Hinv E) as (_ & Hinv1 & _ & row & Hrow & Hev & Hans).
  cbn [claim_request Inbox.cq_Consumer Inbox.cq_EventID] in Hrow, Hev.
  apply (pass_ok_trans _ d1); [done|]. destruct (Inbox.cs_Disposition claim).
  - destruct (ae_begin env); [by apply transitionFailure_ok|].
    apply run_handler_ok; [done..|]. destruct Hans as (r0 & _ & _ & ->). rewrite Hev. by eexists.
  - apply commit_offset_ok; [done|]. destruct Hans as [_ Hs]. by exists row.
  - unfold pass_ok. cbn. split_and!; eauto using advances_refl; done.
  - unfold pass_ok. cbn. split_and!; auto using advances_refl; try done. intros _.
    split_and!; [done..|]. destruct Hans as [_ Hs]. by exists row.
Qed.

End pass_lemmas.

(** ** The group *)

Section group_lemmas.
Context (cfg : Config) (resolveIdentity : Message -> res uuid)
  (handler : Message -> tx -> tx * option failure)
  (broker : TopicPartition -> Z -> option SourceRecord) (start : TopicPartition -> Z).
Context (Hhandler : forall m t, db_inbox (tx_db (handler m t).1) = db_inbox (tx_db t)).
Context (Hbroker : forall tp o record, broker tp o = Some record ->
  partition_of_record record = tp /\ r_Offset record = o).

Abbreviation done_before := (done_before cfg resolveIdentity broker start).

(** A blocked partition is paused and will be read again from its record. *)
Definition blocked_ok (w : worker) : Prop :=
  forall tp b, wk_blocked w !! tp = Some b ->
    tp ∈ wk_paused w /\ wk_position w !! tp = Some (r_Offset (bp_record b)) /\
    partition_of_record (bp_record b) = tp.

Record group_inv (g : group) : Prop := {
  gi_db : inbox_inv (g_db g);
  gi_committed : forall tp n, g_committed g !! tp = Some n -> done_before (g_db g) tp n;
  gi_worker : forall id w, g_workers g !! id = Some w -> blocked_ok w /\
    forall tp p, wk_position w !! tp = Some p -> done_before (g_db g) tp p;
}.

Lemma done_before_advances d d' tp n : advances d d' -> done_before d tp n -> done_before d' tp n.
Proof.
  intros [_ Hm] Hd o record Ho Hr. destruct (Hd o record Ho Hr) as (e & He & Hp). eauto.
Qed.

Lemma group_inv_workers g id w :
  group_inv g -> blocked_ok w ->
  (forall tp p, wk_position w !! tp = Some p -> done_before (g_db g) tp p) ->
  group_inv (MkGroup (g_db g) (g_committed g) (<[id := w]> (g_workers g))).
Proof.
  intros [] Hb Hp. split; cbn [g_db g_committed g_workers]; [done..|].
  intros id' w'. rewrite lookup_insert. case_decide; [intros [= <-]; done|apply gi_worker0].
Qed.

Lemma group_inv_db g d' : group_inv g -> advances (g_db g) d' ->
  group_inv (MkGroup d' (g_committed g) (g_workers g)).
Proof.
  intros [] Ha. split; cbn [g_db g_committed g_workers]; [apply Ha|..].
  - intros tp n Hn. by eapply done_before_advances, gi_committed0.
  - intros id w Hw. destruct (gi_worker0 _ _ Hw) as [Hb Hp]. split; [done|].
    intros tp p Hpos. by eapply done_before_advances, Hp.
Qed.

Lemma blocked_ok_block w record v :
  blocked_ok w -> v_resolved v = false \/ partition_of_record record ∉ wk_paused w ->
  blocked_ok (after_process w record v).
Proof.
  intros Hw Hv tp b Hb. unfold after_process in *.
  destruct (v_resolved v); cbn [block pause set_position wk_blocked wk_paused wk_position] in *.
  - destruct Hv as [?|Hv]; [done|]. destruct (Hw _ _ Hb) as (H1 & H2 & H3). split_and!; try done.
    rewrite lookup_insert_ne; [done|]. by intros <-.
  - rewrite insert_insert_eq. apply lookup_insert_Some in Hb as [[<- <-]|[Hne Hb]].
    + rewrite lookup_insert_eq. split_and!; [set_solver|done|done].
    + destruct (Hw _ _ Hb) as (H1 & H2 & H3). rewrite lookup_insert_ne by done.
      split_and!; [set_solver|done|done].
Qed.

Lemma blocked_ok_resume d getErr now w : blocked_ok w -> blocked_ok (resumeDue cfg d getErr now w).
Proof.
  intros Hw tp b. cbn [resumeDue wk_blocked wk_paused wk_position].
  intros [Hb Hs]%map_lookup_filter_Some. destruct (Hw _ _ Hb) as (H1 & H2 & H3).
  split_and!; [|done|done]. apply elem_of_difference. split; [done|].
  intros [b' [Hb' Hs']%map_lookup_filter_Some]%elem_of_dom. cbn in Hs, Hs'. simplify_eq. congruence.
Qed.

Lemma blocked_ok_release w tps : blocked_ok w -> blocked_ok (releasePartitions w tps).
Proof.
  intros Hw tp b. cbn [releasePartitions wk_blocked wk_paused wk_position].
  intros [Hb Hs]%map_lookup_filter_Some. destruct (Hw _ _ Hb) as (H1 & H2 & H3).
  split_and!; [set_solver|by apply map_lookup_filter_Some|done].
Qed.

Lemma done_before_next d tp p o record :
  done_before d tp p -> (forall o', p <= o' < o -> broker tp o' = None) ->
  broker tp o = Some record -> p <= o ->
  (exists e, resolveIdentity (message_of record) = Ok e /\ processed d (Consumer cfg, e)) ->
  done_before d tp (o + 1).
Proof.
  intros Hd Hgap Hr Hpo He o' record' Ho' Hr'.
  destruct (decide (o' = o)) as [->|]; [by simplify_eq|].
  destruct (decide (o' < p)); [apply (Hd o'); [lia|done]|]. rewrite Hgap in Hr' by lia. done.
Qed.

Lemma done_before_gap d tp p o :
  done_before d tp p -> (forall o', p <= o' < o -> broker tp o' = None) -> done_before d tp o.
Proof.
  intros Hd Hgap o' record' Ho' Hr'.
  destruct (decide (o' < p)); [apply (Hd o'); [lia|done]|]. rewrite Hgap in Hr' by lia. done.
Qed.

Lemma group_inv_poll g id w tp p o record env d' committed v :
  group_inv g -> g_workers g !! id = Some w -> wk_position w !! tp = Some p ->
  tp ∉ wk_paused w -> p <= o -> broker tp o = Some record ->
  (forall o', p <= o' < o -> broker tp o' = None) -> env_benign env ->
  process cfg resolveIdentity handler id env (g_db g) record = (d', committed, v) ->
  group_inv (MkGroup d' (if committed then <[tp := o + 1]> (g_committed g) else g_committed g)
               (<[id := after_process w record v]> (g_workers g))).
Proof.
  intros Hg Hw Hp Hnp Hpo Hr Hgap Henv H. destruct (Hbroker _ _ _ Hr) as [Htp Hoff].
  destruct (gi_worker _ Hg _ _ Hw) as [Hb Hpos].
  assert (advances (g_db g) d' /\ (v_resolved v = true -> committed = true) /\
    (committed = true -> exists e, resolveIdentity (message_of record) = Ok e /\
                                   processed d' (Consumer cfg, e))) as (Ha & Hres & Hc).
  { destruct (resolveIdentity (message_of record)) as [e|err] eqn:Ee.
    - pose proof (process_ok cfg resolveIdentity handler Hhandler id env _ record e (gi_db _ Hg) Henv Ee)
        as Hok. rewrite H in Hok. destruct Hok as (H1 & H2 & H3 & _). split_and!; eauto.
    - unfold process in H. rewrite Ee in H. simplify_eq. split_and!; try done.
      apply advances_refl, Hg. }
  assert (forall tp' q, done_before (g_db g) tp' q -> done_before d' tp' q) as Hmono
    by (intros; by eapply done_before_advances).
  assert (committed = true -> done_before d' tp (o + 1)) as Hnext.
  { intros Hcm. apply (done_before_next _ _ p o record); auto. }
  destruct Hg as [_ Hcom Hwk]. split; cbn [g_db g_committed g_workers].
  - apply Ha.
  - intros tp' n Hn. destruct committed; [|by apply Hmono, Hcom].
    apply lookup_insert_Some in Hn as [[<- <-]|[_ Hn]]; [by apply Hnext|by apply Hmono, Hcom].
  - intros id' w'. rewrite lookup_insert. case_decide.
    2:{ intros Hw'. destruct (Hwk _ _ Hw') as [? Hp']. split; [done|]. intros; by eapply Hmono, Hp'. }
    intros [= <-]. split.
    + apply blocked_ok_block; [done|]. right. by rewrite Htp.
    + intros tp' q. unfold after_process. rewrite Htp, Hoff.
      destruct (v_resolved v) eqn:Ev; cbn [block pause set_position wk_position];
        rewrite ?insert_insert_eq, lookup_insert_Some; intros [[<- <-]|[_ Hq]]; try (by eapply Hmono, Hpos).
      * by apply Hnext, Hres.
      * apply Hmono. eapply done_before_gap; [by apply Hpos|done].
Qed.

Lemma group_inv_step g g' :
  group_step cfg resolveIdentity handler broker start g g' -> group_inv g -> group_inv g'.
Proof.
  intros Hstep Hg. destruct Hstep.
  - by eapply group_inv_poll.
  - destruct (gi_worker _ Hg _ _ H) as [Hb Hp]. apply group_inv_workers; [done| |done].
    by apply blocked_ok_resume.
  - destruct (gi_worker _ Hg _ _ H) as [Hb Hp]. apply group_inv_workers; [done| |].
    + by apply blocked_ok_release.
    + intros tp p [Hpos _]%map_lookup_filter_Some. by apply Hp.
  - destruct (gi_worker _ Hg _ _ H) as [Hb Hp]. apply group_inv_workers; [done|..].
    + intros tp' b Htb. destruct (Hb _ _ Htb) as (? & Hpos & ?). split_and!; try done.
      cbn [set_position wk_position]. rewrite lookup_insert_ne; [done|]. congruence.
    + intros tp' p. cbn [set_position wk_position]. rewrite lookup_insert_Some.
      intros [[<- <-]|[_ Hpos]]; [|by apply Hp].
      destruct (g_committed g !! tp) eqn:Ec; [by apply (gi_committed _ Hg)|].
      intros o record Ho. cbn in Ho. lia.
  - apply group_inv_workers; [done|..]; intros tp b; cbn; by rewrite lookup_empty.
  - apply group_inv_db; [done|]. destruct (H _ (gi_db _ Hg)) as [? ?]. by split.
Qed.

Lemma group_inv_reachable d g :
  inbox_inv d -> rtc (group_step cfg resolveIdentity handler broker start) (group_init d) g ->
  group_inv g.
Proof.
  intros Hd H. remember (group_init d) as g0 eqn:E.
  assert (group_inv g0) as H0.
  { subst g0. split; cbn; [done|..]; intros *; by rewrite lookup_empty. }
  clear E Hd. induction H; eauto using group_inv_step.
Qed.

End group_lemmas.

(** ** Identity *)

Definition names_event (h : Header) : bool := EqualFold (TrimSpace (h_Key h)) EventIDHeader.

Lemma forall_cons {A} (P : A -> Prop) x l :
  (forall y, y ∈ x :: l -> P y) <-> P x /\ forall y, y ∈ l -> P y.
Proof. setoid_rewrite elem_of_cons. naive_solver. Qed.
Lemma exists_cons {A} (P : A -> Prop) x l :
  (exists y, y ∈ x :: l /\ P y) <-> P x \/ exists y, y ∈ l /\ P y.
Proof. setoid_rewrite elem_of_cons. naive_solver. Qed.

Lemma resolve_loop_ok uuid_Parse headers acc id :
  resolve_loop uuid_Parse headers acc = Ok id <->
  (acc = Some id \/ acc = None /\ exists h, h ∈ headers /\ names_event h = true) /\
  forall h, h ∈ headers -> names_event h = true -> uuid_Parse (TrimSpace (h_Value h)) = Some id.
Proof.
  revert acc. induction headers as [|h headers IH]; intros acc; cbn [resolve_loop].
  { setoid_rewrite elem_of_nil. destruct acc; naive_solver. }
  rewrite exists_cons, forall_cons. fold (names_event h).
  destruct (names_event h) eqn:En; cbn [negb]; [|rewrite IH; naive_solver].
  destruct (uuid_Parse (TrimSpace (h_Value h))) as [parsed|] eqn:Ep; [|naive_solver].
  destruct acc as [a|]; [|rewrite IH; naive_solver].
  destruct (bool_decide (parsed = a)) eqn:Ea; bool_to_prop; cbn [negb]; [subst; rewrite IH|];
    naive_solver.
Qed.

(** Lowering a text whose lowered bytes are ASCII. *)
Lemma lower_bytes_ascii l :
  Forall (fun b => b < 128)%N (map lower_byte l) ->
  lower_bytes (length l) l = map lower_byte l.
Proof.
  induction l as [|b l IH]; intros H; [done|]. cbn [map] in H. apply Forall_cons in H as [Hb Hl].
  cbn [length lower_bytes map]. rewrite IH by done.
  assert (b <> 196 /\ b <> 226)%N as [H1 H2].
  { unfold lower_byte, between in Hb. split; intros ->; by vm_compute in Hb. }
  destruct b as [|b]; [done|]. repeat (destruct b as [b|b|]; try done).
Qed.

Lemma EqualFold_lower s :
  EqualFold s EventIDHeader = true -> ToLower s = EventIDHeader.
Proof.
  unfold EqualFold, ToLower. rewrite bool_decide_eq_true. intros H.
  rewrite <- length_bytes, lower_bytes_ascii, H; [reflexivity|].
  rewrite H. vm_compute. repeat constructor.
Qed.

Lemma outgoing_header uuid_String trace_of ev k v :
  msg_Headers (outgoing uuid_String trace_of ev) !! k = Some v ->
  k ∈ reserved_names \/ reserved k = false.
Proof.
  destruct (decide (k ∈ reserved_names)) as [|Hk]; [by left|]. intros H. right.
  assert (forall n (x : string) (h : gmap string string), n ∈ reserved_names ->
    <[n := x]> h !! k = h !! k) as Hins.
  { intros n x h Hn. apply lookup_insert_ne. by intros ->. }
  assert (forall n x h, n ∈ reserved_names -> set_nonempty n x h !! k = h !! k) as Hset.
  { intros n x h Hn. unfold set_nonempty. case_match; auto. }
  assert (forall n x h, n ∈ reserved_names -> set_uuid uuid_String n x h !! k = h !! k) as Hu.
  { intros n x h Hn. unfold set_uuid. case_match; auto. }
  assert (forall n x h, n ∈ reserved_names -> setHeader h n x !! k = h !! k) as Hh.
  { intros n x h Hn. unfold setHeader. case_match; auto. apply lookup_delete_ne. by intros ->. }
  unfold outgoing in H. destruct (trace_of ev). cbn [msg_Headers toMessage] in H.
  rewrite !Hh, !Hset in H by (apply (bool_decide_unpack _); vm_compute; exact I).
  assert (filter (fun kv => reserved kv.1 = false) (Headers ev) !! k = Some v) as Hf.
  { destruct (OrderingPartition ev); [destruct (bool_decide _)|];
      rewrite ?Hins, !Hu, !Hins in H by (apply (bool_decide_unpack _); vm_compute; exact I); exact H. }
  by apply map_lookup_filter_Some in Hf as [_ ?].
Qed.

(** Of the headers a relay sends, only its own names the event. *)
Lemma outgoing_names_event uuid_String trace_of ev k v :
  msg_Headers (outgoing uuid_String trace_of ev) !! k = Some v ->
  EqualFold (TrimSpace k) EventIDHeader = true -> k = HeaderEventID.
Proof.
  intros Hk Hf. destruct (outgoing_header _ _ _ _ _ Hk) as [Hr|Hr].
  - assert (Forall (fun n => EqualFold (TrimSpace n) EventIDHeader = true -> n = HeaderEventID)
      reserved_names) as Hall by (repeat constructor; vm_compute; congruence).
    rewrite Forall_forall in Hall. by apply Hall.
  - unfold reserved in Hr. rewrite (EqualFold_lower _ Hf) in Hr. by vm_compute in Hr.
Qed.

(** ** Back-off *)

Lemma cap_loop_spec fuel current attempt cap maximum :
  0 < cap <= maximum -> maximum < 2 ^ 63 -> attempt - current <= Z.of_nat fuel ->
  cap_loop fuel current attempt cap maximum
    = Z.min maximum (cap * 2 ^ Z.max 0 (attempt - current)).
Proof.
  revert current cap. induction fuel as [|fuel IH]; intros current cap Hc Hm Hf; cbn [cap_loop].
  { rewrite Z.max_l by lia. lia. }
  destruct (current <? attempt) eqn:E1; bool_to_prop; cbn [andb].
  2:{ rewrite Z.max_l by lia. lia. }
  rewrite Z.max_r by lia.
  assert (2 ^ (attempt - current) = 2 * 2 ^ (attempt - (current + 1))) as Hp.
  { rewrite <- Z.pow_succ_r by lia. f_equal. lia. }
  assert (0 < 2 ^ (attempt - (current + 1))) as Hpos by (apply Z.pow_pos_nonneg; lia).
  destruct (cap <? maximum) eqn:E2; bool_to_prop; [|nia].
  destruct (Z.quot maximum 2 <? cap) eqn:E3; bool_to_prop.
  - rewrite Z.quot_div_nonneg in E3 by lia. pose proof (Z.div_mod maximum 2).
    pose proof (Z.mod_pos_bound maximum 2). nia.
  - rewrite Z.quot_div_nonneg in E3 by lia. pose proof (Z.div_mod maximum 2).
    pose proof (Z.mod_pos_bound maximum 2).
    unfold int64_mul. rewrite wrap64_small by lia. rewrite IH by lia.
    rewrite Z.max_r by lia. rewrite Hp. f_equal. ring.
Qed.

(** * Properties *)

(** One pass over a record. Whatever the store, the handler, the driver and
    other transactions do, a pass keeps the inbox constraints and reopens no
    processed message; it moves the group offset only when the message is
    processed, and reports the record resolved only then; it blocks the
    partition for good only on an unidentifiable record or on a message that is
    dead; and a temporary block always has a resume time. *)
Theorem consumer_process_spec cfg resolve handler owner env d record d' committed v :
  (forall m t, db_inbox (tx_db (handler m t).1) = db_inbox (tx_db t)) ->
  inbox_inv d -> env_benign env ->
  process cfg resolve handler owner env d record = (d', committed, v) ->
  inbox_inv d' /\ (forall k, processed d k -> processed d' k) /\
  (committed = true -> exists e, resolve (message_of record) = Ok e /\
                                 processed d' (Consumer cfg, e)) /\
  (v_resolved v = true -> committed = true) /\
  (v_permanent v = true -> v_resolved v = false /\
     (is_ok (resolve (message_of record)) = false \/
      exists e, resolve (message_of record) = Ok e /\ v_eventID v = e /\ dead_in cfg d' e)) /\
  (v_resolved v = false -> v_permanent v = false -> is_Some (v_at v)).
Proof.
  intros Hh Hinv Henv H. destruct (resolve (message_of record)) as [e|err] eqn:Ee.
  - pose proof (process_ok cfg resolve handler Hh owner env d record e Hinv Henv Ee) as Hok.
    rewrite H in Hok. destruct Hok as ([H1 H2] & H3 & H4 & H5 & H6). split_and!; eauto.
    intros Hp. destruct (H5 Hp) as (? & ? & ?). eauto 6.
  - unfold process in H. rewrite Ee in H. simplify_eq. split_and!; auto; done.
Qed.

(** C24: No message is lost or overtaken. In every reachable state of a group
    of workers (crashes, restarts, rebalances, zombies, failing commits) all
    records before a committed offset, and all records before the offset a
    worker reads next, have been processed. *)
Theorem consumer_no_loss cfg resolve handler broker start d g :
  (forall m t, db_inbox (tx_db (handler m t).1) = db_inbox (tx_db t)) ->
  (forall tp o record, broker tp o = Some record ->
     partition_of_record record = tp /\ r_Offset record = o) ->
  inbox_inv d -> rtc (group_step cfg resolve handler broker start) (group_init d) g ->
  (forall tp n, g_committed g !! tp = Some n ->
     done_before cfg resolve broker start (g_db g) tp n) /\
  (forall id w tp p, g_workers g !! id = Some w -> wk_position w !! tp = Some p ->
     done_before cfg resolve broker start (g_db g) tp p).
Proof.
  intros Hh Hb Hd Hr.
  destruct (group_inv_reachable cfg resolve handler broker start Hh Hb d g Hd Hr) as [_ Hc Hw].
  split; [done|]. intros id w tp p Hid. by apply (Hw id w Hid).
Qed.

(** A blocked partition stands still. A partition a worker has blocked is
    paused, and the next record it will read there is the one that failed. *)
Theorem consumer_blocked_rewound cfg resolve handler broker start d g id w tp b :
  (forall m t, db_inbox (tx_db (handler m t).1) = db_inbox (tx_db t)) ->
  (forall tp o record, broker tp o = Some record ->
     partition_of_record record = tp /\ r_Offset record = o) ->
  inbox_inv d -> rtc (group_step cfg resolve handler broker start) (group_init d) g ->
  g_workers g !! id = Some w -> wk_blocked w !! tp = Some b ->
  tp ∈ wk_paused w /\ wk_position w !! tp = Some (r_Offset (bp_record b)) /\
  partition_of_record (bp_record b) = tp.
Proof.
  intros Hh Hb Hd Hr Hw.
  destruct (group_inv_reachable cfg resolve handler broker start Hh Hb d g Hd Hr) as [_ _ Hwk].
  apply (Hwk id w Hw).
Qed.

(** The identity survives the broker. For every event, whatever headers its
    producer attached, the consumer resolves the message a relay sends to the
    event's identifier, in whichever order the headers arrive. *)
Theorem event_id_round_trip uuid_String uuid_Parse trace_of ev m :
  uuid_Parse (TrimSpace (uuid_String (ID ev))) = Some (ID ev) ->
  m_Headers m ≡ₚ (fun kv => MkHeader kv.1 kv.2)
                   <$> map_to_list (msg_Headers (outgoing uuid_String trace_of ev)) ->
  ResolveEventID uuid_Parse m = Ok (ID ev).
Proof.
  intros Hparse Hperm. apply resolve_loop_ok.
  destruct (outgoing_fields uuid_String trace_of ev) as (_ & _ & _ & _ & _ & Hid). split.
  - right. split; [done|]. exists (MkHeader HeaderEventID (uuid_String (ID ev))).
    split; [|vm_compute; reflexivity]. rewrite Hperm. apply list_elem_of_fmap.
    eexists (_, _). split; [reflexivity|]. by apply elem_of_map_to_list.
  - intros h Hh Hn. rewrite Hperm in Hh. apply list_elem_of_fmap in Hh as ([k v] & -> & Hk).
    apply elem_of_map_to_list in Hk. cbn [fst snd h_Key h_Value] in *.
    pose proof (outgoing_names_event _ _ _ _ _ Hk Hn) as ->. by simplify_eq.
Qed.

(** The overflow-safe doubling loop computes exactly
    min(maximum, base * 2^(attempt-1)). *)
Lemma cap_loop_closed_form attempt base maximum :
  0 < base <= maximum -> maximum < 2 ^ 63 ->
  let a := if attempt <? 1 then 1 else attempt in
  cap_loop (Z.to_nat a) 1 a base maximum = Z.min maximum (base * 2 ^ (Z.max 1 attempt - 1)).
Proof.
  intros Hb Hm a. assert (a = Z.max 1 attempt) as Ha.
  { unfold a. destruct (attempt <? 1) eqn:E; bool_to_prop; lia. }
  rewrite cap_loop_spec by lia. by rewrite Ha, (Z.max_r 0) by lia.
Qed.

Lemma Validate_delays cfg :
  Validate cfg = Ok tt ->
  0 < BaseDelay cfg <= MaxDelay cfg /\ (0 <= Jitter cfg)%Q /\ (Jitter cfg <= 1)%Q.
Proof.
  unfold Validate. intros H.
  repeat match type of H with
         | (if ?b then _ else _) = Ok _ => destruct b eqn:?; [discriminate|]
         end.
  repeat match goal with
         | E : _ || _ = false |- _ => apply orb_false_iff in E as [? ?]
         | E : negb _ = false |- _ => apply negb_false_iff in E
         end.
  split_and!; bool_to_prop; try lia; by apply Qle_bool_iff.
Qed.

(** Consumer backoff. Under a configuration [Validate] accepts with a
    maximum below 2^53 ns (104 days) the retry delay of every attempt lies
    between zero and min(MaxDelay, BaseDelay * 2^(attempt-1)), whatever the
    random sample, and is exactly that cap when jitter is off. *)
Theorem retryDelay_bounds cfg attempt sample :
  Validate cfg = Ok tt -> MaxDelay cfg < 2 ^ 53 -> representable (Jitter cfg) ->
  let cap := Z.min (MaxDelay cfg) (BaseDelay cfg * 2 ^ (Z.max 1 attempt - 1)) in
  0 <= retryDelay attempt (BaseDelay cfg) (MaxDelay cfg) (Jitter cfg) sample <= cap /\
  (Jitter cfg == 0 -> retryDelay attempt (BaseDelay cfg) (MaxDelay cfg) (Jitter cfg) sample = cap)%Q.
Proof.
  intros (Hd & Hj0 & Hj1)%Validate_delays Hm Hr cap.
  assert (0 < cap < 2 ^ 53) as Hc.
  { unfold cap. assert (0 < 2 ^ (Z.max 1 attempt - 1)) by (apply Z.pow_pos_nonneg; lia). nia. }
  unfold retryDelay. rewrite cap_loop_closed_form by lia. fold cap.
  rewrite (proj2 (Z.ltb_ge (MaxDelay cfg) cap)) by lia.
  set (s := if Qle_bool _ 1 then _ else _).
  destruct (clamp_range sample) as [Hs0 Hs1]. fold s in Hs0, Hs1.
  destruct (interpolation_range (Jitter cfg) s Hr Hj0 Hj1 Hs0 Hs1) as [Hf0 Hf1].
  destruct (scaled_int_range cap _ ltac:(lia) Hf0 Hf1) as [Hrange Hone].
  split; [exact Hrange|]. intros Hj. by apply Hone, interpolation_off.
Qed.

(** * Witnesses *)

(** A partition with one record; a worker that succeeds and one whose handler
    reports a permanent failure. *)
Definition demo_config : Config :=
  {| Consumer := "billing"; InstanceID := "host"; Concurrency := 1; MaxAttempts := 10;
     BaseDelay := Second; MaxDelay := 30 * Minute; Jitter := 1; HandlerTimeout := 2 * Minute;
     LeaseDuration := 30 * Second; LeaseRenewInterval := 10 * Second;
     MaintenancePoll := 250 * Millisecond; ShutdownTimeout := 10 * Second |}.

Lemma retryDelay_bounds_witness :
  0 <= retryDelay 4 (BaseDelay demo_config) (MaxDelay demo_config) (Jitter demo_config) (3 # 4)
    <= 8 * Second.
Proof.
  destruct (retryDelay_bounds demo_config 4 (3 # 4)) as [H _];
    [vm_compute; reflexivity..|exact (representable_int 1 eq_refl)|exact H].
Defined.

Definition demo_tp : TopicPartition := MkTopicPartition "orders" 0.
Definition demo_record : SourceRecord :=
  MkSourceRecord "orders" 0 41 None "k" "{}" [MkHeader " Emitlane-Event-ID" "id"].
Definition demo_broker (tp : TopicPartition) (o : Z) : option SourceRecord :=
  if bool_decide (tp = demo_tp) && (o =? 41) then Some demo_record else None.
Definition demo_resolve : Message -> res uuid := ResolveEventID demo_parse.
Definition demo_handler (f : option failure) (m : Message) (t : tx) : tx * option failure := (t, f).
Definition demo_env : attempt_env :=
  MkAttemptEnv Second 100 None None [MkTick Datatypes.id (2 * Second) None] Datatypes.id
    (3 * Second) None false None None (4 * Second) None (1 # 2) (5 * Second).
Definition demo_worker : worker := set_position newWorker demo_tp 41.
Definition demo_pass (f : option failure) : db * bool * verdict :=
  process demo_config demo_resolve (demo_handler f) "host-1" demo_env (migrated 0) demo_record.
Definition demo_group (f : option failure) : group :=
  let '(d, committed, v) := demo_pass f in
  MkGroup d (if committed then {[ demo_tp := 42 ]} else ∅)
    {[ "host-1"%string := after_process demo_worker demo_record v ]}.

Lemma demo_keeps f m t : db_inbox (tx_db (demo_handler f m t).1) = db_inbox (tx_db t).
Proof. reflexivity. Qed.
Lemma demo_broker_ok tp o record :
  demo_broker tp o = Some record -> partition_of_record record = tp /\ r_Offset record = o.
Proof.
  unfold demo_broker. destruct (_ && _) eqn:E; [|done]. intros [= <-]. bool_to_prop. by subst.
Qed.
Lemma demo_benign : env_benign demo_env.
Proof. split; [by intros d|]. apply Forall_cons. split; [by intros d|constructor]. Qed.
Lemma demo_inv : inbox_inv (migrated 0).
Proof. apply (inv_inbox _ (migrated_inv 0)). Qed.

Lemma demo_poll f :
  rtc (group_step demo_config demo_resolve (demo_handler f) demo_broker (fun _ => 41))
    (group_init (migrated 0)) (demo_group f).
Proof.
  eapply rtc_l; [apply (c_start _ _ _ _ _ _ "host-1")|].
  eapply rtc_l; [eapply (c_assign _ _ _ _ _ _ "host-1" newWorker demo_tp); reflexivity|].
  eapply rtc_l; [|apply rtc_refl]. unfold demo_group, demo_pass.
  destruct (process _ _ _ _ _ _ _) as [[d committed] v] eqn:E.
  set (g := MkGroup (migrated 0) ∅ (<["host-1"%string := demo_worker]>
              (<["host-1"%string := newWorker]> (∅ : gmap string worker)))).
  assert (group_step demo_config demo_resolve (demo_handler f) demo_broker (fun _ => 41) g
    (MkGroup d (if committed then <[demo_tp := 41 + 1]> (g_committed g) else g_committed g)
       (<["host-1"%string := after_process demo_worker demo_record v]> (g_workers g)))) as H.
  { apply (c_poll _ _ _ _ _ g "host-1" demo_worker demo_tp 41 41 demo_record demo_env);
      [reflexivity|reflexivity|exact (not_elem_of_empty _)|done|reflexivity|intros; lia|
       exact demo_benign|exact E]. }
  cbn [g g_workers g_committed] in H. rewrite !insert_insert_eq in H. exact H.
Qed.

Lemma consumer_process_spec_witness :
  exists d' v, demo_pass None = (d', true, v) /\ v_resolved v = true /\
               processed d' ("billing"%string, 7%N).
Proof.
  destruct (demo_pass None) as [[d' c] v] eqn:E.
  destruct (consumer_process_spec demo_config demo_resolve (demo_handler None) "host-1" demo_env
    (migrated 0) demo_record d' c v (demo_keeps None) demo_inv demo_benign E)
    as (_ & _ & Hc & _).
  assert (c = true /\ v_resolved v = true) as [-> Hv].
  { vm_compute in E. injection E as _ <- <-. split; reflexivity. }
  exists d', v. split; [reflexivity|]. split; [exact Hv|].
  destruct (Hc eq_refl) as (e & He & Hp). vm_compute in He. injection He as <-. exact Hp.
Defined.

Lemma consumer_no_loss_witness :
  g_committed (demo_group None) !! demo_tp = Some 42 /\
  done_before demo_config demo_resolve demo_broker (fun _ => 41) (g_db (demo_group None)) demo_tp 42.
Proof.
  split; [vm_compute; reflexivity|].
  refine (proj1 (consumer_no_loss demo_config demo_resolve (demo_handler None) demo_broker
    (fun _ => 41) (migrated 0) (demo_group None) (demo_keeps None) demo_broker_ok demo_inv
    (demo_poll None)) demo_tp 42 _).
  vm_compute. reflexivity.
Defined.

Lemma consumer_blocked_rewound_witness :
  let g := demo_group (Some (MkFailure false true)) in
  exists w, g_workers g !! "host-1"%string = Some w /\ demo_tp ∈ wk_paused w /\
            wk_position w !! demo_tp = Some 41.
Proof.
  intros g. destruct (g_workers g !! "host-1"%string) as [w|] eqn:Ew;
    [|vm_compute in Ew; discriminate].
  destruct (wk_blocked w !! demo_tp) as [b|] eqn:Eb;
    [|vm_compute in Ew; injection Ew as <-; vm_compute in Eb; discriminate].
  destruct (consumer_blocked_rewound demo_config demo_resolve _ demo_broker (fun _ => 41)
    (migrated 0) g "host-1" w demo_tp b (demo_keeps (Some (MkFailure false true))) demo_broker_ok
    demo_inv (demo_poll _) Ew Eb) as (Hp & Hpos & _).
  exists w. split; [reflexivity|]. split; [exact Hp|].
  vm_compute in Ew. injection Ew as <-. vm_compute. reflexivity.
Defined.

(** A producer tries to give its event another identity. *)
Definition spoofed_event : OutboxStore.Event :=
  let e := scanEvent (sample_pending 7 None) None in
  {| ID := ID e; Destination := Destination e; EventType := EventType e; Key := Key e;
     Payload := Payload e; ContentType := ContentType e;
     Headers := {[ " EMITLANE-event-id "%string := "forged"%string ]};
     SchemaVersion := SchemaVersion e; CorrelationID := CorrelationID e;
     CausationID := CausationID e; Traceparent := Traceparent e; Tracestate := Tracestate e;
     Status := Status e; Attempts := Attempts e; AvailableAt := AvailableAt e;
     LeaseOwner := LeaseOwner e; LeaseUntil := LeaseUntil e; LastError := LastError e;
     CreatedAt := CreatedAt e; DeliveredAt := DeliveredAt e;
     ReplayedFromEventID := ReplayedFromEventID e; ReplayBatchID := ReplayBatchID e;
     OrderingKey := OrderingKey e; OrderingSequence := OrderingSequence e;
     OrderingPartition := OrderingPartition e; OrderingEpoch := OrderingEpoch e |}.

Lemma event_id_round_trip_witness :
  ResolveEventID (fun s => if bool_decide (s = "event"%string) then Some 7%N else Some 8%N)
    {| m_EventID := 0; m_Topic := "orders"; m_Partition := 0; m_Offset := 0; m_Timestamp := None;
       m_Key := ""; m_Payload := "{}"; m_Attempt := 0;
       m_Headers := (fun kv => MkHeader kv.1 kv.2) <$>
         map_to_list (msg_Headers (outgoing sample_uuid no_trace spoofed_event)) |} = Ok 7%N.
Proof.
  apply (event_id_round_trip sample_uuid _ no_trace spoofed_event); [vm_compute; reflexivity|].
  reflexivity.
Defined.

Example retryDelay_values :
  retryDelay 12 Second (30 * Minute) 0 (1 # 2) = 30 * Minute /\
  retryDelay 5 Second (30 * Minute) 1 (1 # 4) = 4 * Second.
Proof. split; vm_compute; reflexivity. Qed.

End Consumer.
