(* ===== verification/KafkaSecurity.v ===== *)
(** * Kafka TLS and SASL settings ([broker/kafka/security.go])

    Validation, the bounded reads of certificate and password files, the client
    options they produce, and the redaction of credentials in error texts. The
    file system, the PEM parser and the key-pair check of [crypto] and the error
    table of the Kafka client are arguments. *)
From Stdlib Require Import ZArith String Ascii.
From stdpp Require Import base strings list sets.
From S2P Require Import Prelude GoStrings GoParse.

#[local] Open Scope Z_scope.
#[local] Open Scope emitlane_scope.

(** [strings.ToUpper], to compare with ASCII constants: U+0131 and U+017F are
    the non-ASCII characters whose upper case is ASCII. *)
Fixpoint upper_bytes (fuel : nat) (l : list N) : list N :=
  match fuel with
  | O => []
  | S fuel =>
      match l with
      | [] => []
      | 0xC4%N :: 0xB1%N :: t => 0x49%N :: upper_bytes fuel t
      | 0xC5%N :: 0xBF%N :: t => 0x53%N :: upper_bytes fuel t
      | b :: t => (if between 97 122 b then (b - 32)%N else b) :: upper_bytes fuel t
      end
  end.
Definition ToUpper (s : string) : string := of_bytes (upper_bytes (String.length s) (bytes s)).

(** ** Configuration *)

Definition maxTLSFileBytes : Z := 1024 * 1024.
Definition maxCredentialBytes : Z := 16 * 1024.

Definition SASLPlain : string := "PLAIN".
Definition SASLSCRAMSHA256 : string := "SCRAM-SHA-256".
Definition SASLSCRAMSHA512 : string := "SCRAM-SHA-512".

Record TLSConfig : Type := MkTLSConfig {
  tls_Enabled : bool;
  tls_CAFile : string;
  tls_CertFile : string;
  tls_KeyFile : string;
  tls_ServerName : string;
}.

Record SASLConfig : Type := MkSASLConfig {
  sasl_Mechanism : string;
  sasl_Username : string;
  sasl_Password : string;
  sasl_PasswordFile : string;
}.

Record SecurityConfig : Type := MkSecurityConfig { TLS : TLSConfig; SASL : SASLConfig }.

(** The zero value: plaintext without authentication. *)
Definition no_security : SecurityConfig :=
  MkSecurityConfig (MkTLSConfig false "" "" "" "") (MkSASLConfig "" "" "" "").

Definition is_empty (s : string) : bool := bool_decide (s = ""%string).

Definition mechanism (c : SASLConfig) : string := ToUpper (TrimSpace (sasl_Mechanism c)).
Definition mechanismDisabled (c : SecurityConfig) : bool := is_empty (mechanism (SASL c)).

Definition validCredential (value : string) : bool :=
  (0 <? go_len value) && (go_len value <=? maxCredentialBytes) && ValidString value
  && negb (has_nul value).

Definition supported (mech : string) : bool :=
  bool_decide (mech = SASLPlain \/ mech = SASLSCRAMSHA256 \/ mech = SASLSCRAMSHA512).

Definition credential_message (kind : string) : string :=
  "kafka: SASL " +:+ kind +:+ " must be nonempty UTF-8 without NUL and at most 16 KiB".

Definition Validate (c : SecurityConfig) : result string unit :=
  let t := TLS c in let s := SASL c in
  fail_if negb (tls_Enabled t) && negb (is_empty (tls_CAFile t) && is_empty (tls_CertFile t)
            && is_empty (tls_KeyFile t) && is_empty (tls_ServerName t))
    with "kafka: TLS settings require TLS to be enabled"%string;
  fail_if xorb (is_empty (tls_CertFile t)) (is_empty (tls_KeyFile t))
    with "kafka: TLS client certificate and key must be supplied together"%string;
  if mechanismDisabled c then
    fail_if negb (is_empty (sasl_Username s) && is_empty (sasl_Password s) && is_empty (sasl_PasswordFile s))
      with "kafka: SASL credentials require a mechanism"%string;
    Ok tt
  else
    fail_if negb (supported (mechanism s))
      with "kafka: SASL mechanism must be PLAIN, SCRAM-SHA-256 or SCRAM-SHA-512"%string;
    fail_if negb (tls_Enabled t) with "kafka: SASL requires TLS"%string;
    fail_if is_empty (TrimSpace (sasl_Username s)) || negb (validCredential (sasl_Username s))
      with credential_message "username";
    fail_if negb (is_empty (sasl_Password s)) && negb (is_empty (sasl_PasswordFile s))
      with "kafka: SASL password and password file are mutually exclusive"%string;
    fail_if is_empty (sasl_Password s) && is_empty (sasl_PasswordFile s)
      with "kafka: SASL password or password file is required"%string;
    fail_if negb (is_empty (sasl_Password s)) && negb (validCredential (sasl_Password s))
      with credential_message "password";
    Ok tt.

(** ** Files *)

Record stat : Type := MkStat { st_regular : bool; st_size : Z }.

(** An opened file: its own [Stat], the bytes a reader gets, and whether
    reading them ends in an error instead of end of file. *)
Record open_file : Type := MkOpenFile { h_stat : option stat; h_bytes : list N; h_fails : bool }.

(** [os.Stat] and [os.Open]; [None] is an error. The file may change between
    the two calls. *)
Record filesystem : Type := MkFilesystem {
  os_Stat : string -> option stat;
  os_Open : string -> option open_file;
}.

(** [io.ReadAll(io.LimitReader(file, n))] *)
Definition read_limited (f : open_file) (n : Z) : option (list N) :=
  if (length (h_bytes f) <? Z.to_nat n)%nat && h_fails f then None
  else Some (take (Z.to_nat n) (h_bytes f)).

Definition readSecurityFile (fs : filesystem) (path kind : string) (limit : Z)
  : result string (list N) :=
  let regular_error := ("kafka: " +:+ kind +:+ " must be a readable regular file")%string in
  let size_error := ("kafka: " +:+ kind +:+ " exceeds size limit")%string in
  let read_error := ("kafka: cannot read " +:+ kind)%string in
  match os_Stat fs path with
  | None => Err regular_error
  | Some info =>
      fail_if negb (st_regular info) with regular_error;
      fail_if limit <? st_size info with size_error;
      match os_Open fs path with
      | None => Err read_error
      | Some file =>
          fail_if negb (match h_stat file with Some info => st_regular info | None => false end)
            with regular_error;
          match read_limited file (limit + 1) with
          | None => Err read_error
          | Some data =>
              fail_if limit <? Z.of_nat (length data) with size_error;
              Ok data
          end
      end
  end.

(** What the source sets of [tls.Config]; the minimum version is TLS 1.2. *)
Record tls_config : Type := MkTlsConfig {
  tc_ServerName : string;
  tc_RootCAs : option (list N);
  tc_Certificate : option (list N * list N);
}.

Inductive sasl_auth : Type :=
| AuthPlain (user pass : string)
| AuthScram256 (user pass : string)
| AuthScram512 (user pass : string).

(** The options security adds to a client. *)
Inductive security_opt : Type :=
| DialTLSConfig (c : tls_config)
| OptSASL (a : sasl_auth).

(** An error of the Kafka client: the code [errors.As] finds in it, whether it
    is [context.DeadlineExceeded], and its text. *)
Record kafka_error : Type := MkKafkaError {
  ke_code : option Z;
  ke_deadline : bool;
  ke_text : string;
}.

Record clientSecurity : Type := MkClientSecurity {
  cs_options : list security_opt;
  cs_redact : option (string -> string);
}.

(** ** Redaction *)

(** [strings.NewReplacer(...).Replace] for non-empty old strings: at every
    position the first pair that matches, without overlaps. *)
Fixpoint first_match (pairs : list (list N * list N)) (l : list N) : option (list N * list N) :=
  match pairs with
  | [] => None
  | (old, new) :: pairs =>
      if bool_decide (old `prefix_of` l) then Some (old, new) else first_match pairs l
  end.

(** Every step consumes a byte; [fuel] is the length of the text. *)
Fixpoint replace (fuel : nat) (pairs : list (list N * list N)) (l : list N) : list N :=
  match fuel, l with
  | S fuel, c :: rest =>
      match first_match pairs l with
      | Some (old, new) => new ++ replace fuel pairs (drop (length old) l)
      | None => c :: replace fuel pairs rest
      end
  | _, _ => []
  end.

Definition redacted : list N := bytes "[REDACTED]".

Definition credentialRedactor (first second : string) : string -> string :=
  let '(first, second) := if go_len first <? go_len second then (second, first) else (first, second) in
  fun s => of_bytes (replace (String.length s) [(bytes first, redacted); (bytes second, redacted)]
                       (bytes s)).

(** ** Construction *)

(** [strings.TrimSuffix(s, suffix)] for a one-byte suffix. *)
Definition trim_suffix (b : N) (l : list N) : list N :=
  match reverse l with c :: r => if (c =? b)%N then reverse r else l | [] => l end.

(** The password of a file: one final newline, with its carriage return, is not
    part of it. *)
Definition password_of_file (data : list N) : string :=
  let password := trim_suffix 10 data in
  of_bytes (if bool_decide (last data = Some 10%N) then trim_suffix 13 password else password).

Section client.
Context (fs : filesystem) (pem_ok : list N -> bool) (key_pair_ok : list N -> list N -> bool).

Definition load_roots (c : TLSConfig) : result string (option (list N)) :=
  if is_empty (tls_CAFile c) then Ok None else
  let! data := readSecurityFile fs (tls_CAFile c) "TLS CA file" maxTLSFileBytes in
  fail_if negb (pem_ok data) with "kafka: TLS CA file contains no valid PEM certificates"%string;
  Ok (Some data).

Definition load_certificate (c : TLSConfig) : result string (option (list N * list N)) :=
  if is_empty (tls_CertFile c) then Ok None else
  let! certPEM := readSecurityFile fs (tls_CertFile c) "TLS client certificate file" maxTLSFileBytes in
  let! keyPEM := readSecurityFile fs (tls_KeyFile c) "TLS client key file" maxTLSFileBytes in
  fail_if negb (key_pair_ok certPEM keyPEM)
    with "kafka: invalid TLS client certificate/key pair"%string;
  Ok (Some (certPEM, keyPEM)).

(** [TLSConfig.load] *)
Definition load (c : TLSConfig) : result string (option tls_config) :=
  if negb (tls_Enabled c) then Ok None else
  let! roots := load_roots c in
  let! certificate := load_certificate c in
  Ok (Some (MkTlsConfig (tls_ServerName c) roots certificate)).

Definition resolve_password (c : SASLConfig) : result string string :=
  let! password :=
    if is_empty (sasl_PasswordFile c) then Ok (sasl_Password c) else
    let! data := readSecurityFile fs (sasl_PasswordFile c) "SASL password file" maxCredentialBytes in
    Ok (password_of_file data) in
  fail_if negb (validCredential password) with credential_message "password";
  Ok password.

(** A mechanism outside the three supported ones cannot get here. *)
Definition auth_of (mech user pass : string) : option sasl_auth :=
  if bool_decide (mech = SASLPlain) then Some (AuthPlain user pass)
  else if bool_decide (mech = SASLSCRAMSHA256) then Some (AuthScram256 user pass)
  else if bool_decide (mech = SASLSCRAMSHA512) then Some (AuthScram512 user pass)
  else None.

Definition newClientSecurity (c : SecurityConfig) : result string clientSecurity :=
  let! _ := Validate c in
  let! tlsConfig := load (TLS c) in
  let options := match tlsConfig with Some t => [DialTLSConfig t] | None => [] end in
  if mechanismDisabled c then Ok (MkClientSecurity options None) else
  let! password := resolve_password (SASL c) in
  Ok (MkClientSecurity
        (options ++ match auth_of (mechanism (SASL c)) (sasl_Username (SASL c)) password with
                    | Some a => [OptSASL a] | None => [] end)
        (Some (credentialRedactor password (sasl_Username (SASL c))))).

End client.

Section safe_error.
Context (ErrorForCode : Z -> option kafka_error).

(** [safeError]. A redacted error wraps the original one, so that [errors.As]
    and [errors.Is] see the same. *)
Definition safeError (s : clientSecurity) (e : kafka_error) : kafka_error :=
  match ke_code e ≫= ErrorForCode with
  | Some known => known
  | None =>
      let message := match cs_redact s with Some redact => redact (ke_text e) | None => ke_text e end in
      if bool_decide (message = ke_text e) then e
      else MkKafkaError (ke_code e) (ke_deadline e) message
  end.

End safe_error.

(** * Lemmas *)

(** ** Occurrences *)

Definition occurs (p l : list N) : Prop := exists a b, l = a ++ p ++ b.

Lemma occurs_cons p c l : occurs p (c :: l) -> p `prefix_of` c :: l \/ occurs p l.
Proof.
  intros (a & b & H). destruct a as [|x a]; simplify_list_eq; [left; by exists b|].
  right. by exists a, b.
Qed.

(** A text without a separator lies on one side of it. *)
Lemma occurs_separated sep p a b :
  sep ∉ p -> p <> [] -> occurs p (a ++ sep :: b) -> occurs p a \/ occurs p b.
Proof.
  intros Hs Hne. induction a as [|c a IH]; cbn [app]; intros H.
  - apply occurs_cons in H as [[k Hk]|H]; [|by right].
    destruct p as [|x p]; [done|]. simplify_list_eq. set_solver.
  - apply occurs_cons in H as [[k Hk]|H].
    + left. destruct (decide (length p <= length (c :: a))%nat) as [Hl|Hl].
      * exists [], (drop (length p) (c :: a)). cbn [app].
        rewrite <- (take_drop (length p) (c :: a)) at 1. f_equal.
        rewrite <- (take_app_le (c :: a) (sep :: b)) by done. cbn [app]. rewrite Hk.
        apply take_app_length.
      * exfalso. apply Hs. apply (list_elem_of_lookup_2 _ (length (c :: a))).
        apply (f_equal (lookup (length (c :: a)))) in Hk.
        change (c :: a ++ sep :: b) with ((c :: a) ++ sep :: b) in Hk.
        rewrite list_lookup_middle in Hk by done. rewrite lookup_app_l in Hk by lia. done.
    + apply IH in H as [(x & y & ->)|H]; [|by right]. left. by exists (c :: x), y.
Qed.

(** A credential the redaction can hide: without the brackets of the
    replacement text and not a part of its word. *)
Definition hideable (p : list N) : Prop :=
  p <> [] /\ 91%N ∉ p /\ 93%N ∉ p /\ ~ occurs p (bytes "REDACTED").

Lemma redacted_occurs p rest :
  hideable p -> occurs p (redacted ++ rest) -> occurs p rest.
Proof.
  intros (Hne & Hl & Hr & Hw) H.
  change (redacted ++ rest) with ([] ++ 91%N :: (bytes "REDACTED" ++ 93%N :: rest)) in H.
  apply occurs_separated in H as [(a & b & H)|H]; [|..|done|done].
  - by destruct a, p.
  - by apply occurs_separated in H as [H|H].
Qed.

Section redaction.
Context (pairs : list (list N * list N)).
Context (Hpairs : forall old new, (old, new) ∈ pairs -> old <> [] /\ new = redacted).

Lemma first_match_some l old new :
  first_match pairs l = Some (old, new) -> old <> [] /\ new = redacted /\ old `prefix_of` l.
Proof.
  induction pairs as [|[o n] ps IH]; cbn [first_match]; [done|].
  case_bool_decide as E; intros H; simplify_eq; [|apply IH; [|done]; set_solver].
  destruct (Hpairs old new) as [? ?]; [left|done].
Qed.

Lemma first_match_none l old new :
  first_match pairs l = None -> (old, new) ∈ pairs -> ~ old `prefix_of` l.
Proof.
  clear Hpairs. induction pairs as [|[o n] ps IH]; cbn [first_match]; [set_solver|].
  case_bool_decide as Ep; [done|]. intros H [Heq|Hin]%elem_of_cons; [by simplify_eq|auto].
Qed.

(** What survives at the front was there before. *)
Lemma replace_prefix fuel p l :
  91%N ∉ p -> (length l <= fuel)%nat -> p `prefix_of` replace fuel pairs l -> p `prefix_of` l.
Proof.
  revert p l. induction fuel as [|fuel IH]; intros p l Hb Hf Hp.
  { destruct l; [done|cbn in Hf; lia]. }
  destruct p as [|x p]; [apply prefix_nil|]. destruct l as [|c l]; [done|].
  cbn [replace] in Hp. destruct (first_match pairs (c :: l)) as [[old new]|] eqn:E.
  - apply first_match_some in E as (_ & -> & _). destruct Hp as [k Hk].
    pose proof (f_equal head Hk) as Hh. change (Some 91%N = Some x) in Hh. simplify_eq. set_solver.
  - apply prefix_cons_inv_1 in Hp as Hx. apply prefix_cons_inv_2 in Hp. subst x.
    apply prefix_cons, IH; [set_solver|cbn in Hf; lia|done].
Qed.

Lemma replace_hides fuel p l new :
  hideable p -> (p, new) ∈ pairs -> (length l <= fuel)%nat -> ~ occurs p (replace fuel pairs l).
Proof.
  intros Hp Hin. revert l. induction fuel as [|fuel IH]; intros l Hf Ho.
  { destruct Ho as (a & b & H). destruct Hp as [Hne _]. by destruct a, p. }
  destruct l as [|c l].
  { destruct Ho as (a & b & H). destruct Hp as [Hne _]. by destruct a, p. }
  cbn [replace] in Ho. cbn in Hf.
  destruct (first_match pairs (c :: l)) as [[old new']|] eqn:E.
  - apply first_match_some in E as (Hne & -> & _). apply redacted_occurs in Ho; [|done].
    apply (IH (drop (length old) (c :: l))); [|done].
    rewrite length_drop. destruct old; [done|]. cbn. lia.
  - apply occurs_cons in Ho as [Ho|Ho]; [|apply (IH l); [lia|done]].
    eapply first_match_none; [exact E|exact Hin|].
    destruct p as [|x p]; [apply prefix_nil|].
    apply prefix_cons_inv_1 in Ho as Hx. apply prefix_cons_inv_2 in Ho. subst x.
    apply prefix_cons. eapply replace_prefix; [|..|exact Ho]; [|lia].
    destruct Hp as (_ & Hb & _). set_solver.
Qed.

End redaction.

Lemma replace_Forall (P : N -> Prop) fuel pairs l :
  Forall P l -> (forall old new, (old, new) ∈ pairs -> Forall P new) ->
  Forall P (replace fuel pairs l).
Proof.
  intros Hl Hp. revert l Hl. induction fuel as [|fuel IH]; intros l Hl; [constructor|].
  destruct l as [|c l]; [constructor|]. cbn [replace].
  destruct (first_match pairs (c :: l)) as [[old new]|] eqn:E.
  - apply Forall_app. split; [|by apply IH, Forall_drop].
    clear -E Hp. induction pairs as [|[o n] ps IHp]; cbn [first_match] in E; [done|].
    case_bool_decide; simplify_eq; [eapply Hp; by left|]. apply IHp; [|done].
    intros. eapply Hp. by right.
  - inversion Hl; subst. constructor; [done|by apply IH].
Qed.

(** The redactor hides both credentials, in either order of lengths. *)
Lemma credentialRedactor_hides first second cred s :
  first <> ""%string -> second <> ""%string -> cred = first \/ cred = second ->
  hideable (bytes cred) -> ~ occurs (bytes cred) (bytes (credentialRedactor first second s)).
Proof.
  intros H1 H2 Hc Hh. assert (forall t, t <> ""%string -> bytes t <> []) as Hb by (by intros []).
  assert (Forall (fun b => (b < 256)%N) redacted) as Hr by (apply bytes_lt).
  unfold credentialRedactor. destruct (if go_len first <? go_len second then _ else _) as [f g] eqn:E.
  assert ((f = first /\ g = second) \/ (f = second /\ g = first)) as Hfg
    by (destruct (go_len first <? go_len second); simplify_eq; auto).
  set (pairs := [(bytes f, redacted); (bytes g, redacted)]).
  assert (forall old new, (old, new) ∈ pairs -> old <> [] /\ new = redacted) as Hpairs.
  { intros old new [Heq|[Heq|[]%elem_of_nil]%elem_of_cons]%elem_of_cons; simplify_eq;
      (split; [|done]); naive_solver. }
  rewrite bytes_of_bytes.
  - apply (replace_hides pairs Hpairs _ _ _ redacted Hh); [|by rewrite length_bytes].
    unfold pairs. rewrite !elem_of_cons. naive_solver.
  - apply replace_Forall; [apply bytes_lt|]. intros old new Hin. by destruct (Hpairs old new Hin) as [_ ->].
Qed.

(** ** Validation and construction *)

Lemma validCredential_nonempty s : validCredential s = true -> s <> ""%string.
Proof. by intros H ->. Qed.

(** What an accepted configuration with a mechanism satisfies. *)
Lemma Validate_sasl c :
  Validate c = Ok tt -> mechanismDisabled c = false ->
  tls_Enabled (TLS c) = true /\ supported (mechanism (SASL c)) = true /\
  validCredential (sasl_Username (SASL c)) = true.
Proof.
  unfold Validate. intros H Hm. rewrite Hm in H.
  repeat match type of H with
         | (if ?b then _ else _) = Ok _ => destruct b eqn:?; [discriminate|]
         end.
  repeat match goal with
         | E : _ || _ = false |- _ => apply orb_false_iff in E as [? ?]
         | E : negb _ = false |- _ => apply negb_false_iff in E
         end. auto.
Qed.

Lemma resolve_password_valid fs c p : resolve_password fs c = Ok p -> validCredential p = true.
Proof.
  unfold resolve_password. destruct (if is_empty _ then _ else _) as [q|]; [|done]. cbn [result_bind].
  destruct (validCredential q) eqn:E; cbn [negb]; intros; by simplify_eq.
Qed.

Lemma auth_of_supported mech user pass :
  supported mech = true -> is_Some (auth_of mech user pass).
Proof.
  unfold supported, auth_of. intros H%bool_decide_eq_true.
  repeat case_bool_decide; eauto. naive_solver.
Qed.

(** The user and password an authentication option carries. *)
Definition auth_credentials (a : sasl_auth) : string * string :=
  match a with AuthPlain u p | AuthScram256 u p | AuthScram512 u p => (u, p) end.

Lemma auth_of_credentials mech user pass a :
  auth_of mech user pass = Some a -> auth_credentials a = (user, pass).
Proof. unfold auth_of. repeat case_bool_decide; intros; by simplify_eq. Qed.

Lemma load_enabled fs pem_ok key_ok c t :
  load fs pem_ok key_ok c = Ok t -> (is_Some t <-> tls_Enabled c = true).
Proof.
  unfold load. destruct (tls_Enabled c); cbn [negb]; [|intros; simplify_eq; split; [by intros []|done]].
  destruct (load_roots _ _ _) as [r|]; [|done]. cbn [result_bind].
  destruct (load_certificate _ _ _) as [k|]; [|done]. cbn [result_bind]. intros; simplify_eq. by split.
Qed.

(** The two shapes of a constructed client security. *)
Lemma newClientSecurity_inv fs pem_ok key_ok c sec :
  newClientSecurity fs pem_ok key_ok c = Ok sec ->
  Validate c = Ok tt /\
  exists t, (is_Some t <-> tls_Enabled (TLS c) = true) /\
    let options := match t with Some t => [DialTLSConfig t] | None => [] end in
    if mechanismDisabled c then sec = MkClientSecurity options None else
    exists p a, resolve_password fs (SASL c) = Ok p /\
      auth_credentials a = (sasl_Username (SASL c), p) /\
      sec = MkClientSecurity (options ++ [OptSASL a])
              (Some (credentialRedactor p (sasl_Username (SASL c)))).
Proof.
  unfold newClientSecurity. destruct (Validate c) as [[]|] eqn:Ev; [|done]. cbn [result_bind].
  destruct (load fs pem_ok key_ok (TLS c)) as [t|] eqn:El; [|done]. cbn [result_bind].
  intros H. split; [done|]. exists t. split; [by eapply load_enabled|]. cbv zeta.
  destruct (mechanismDisabled c) eqn:Em; [by simplify_eq|].
  destruct (resolve_password fs (SASL c)) as [p|] eqn:Ep; [|done]. cbn [result_bind] in H.
  destruct (Validate_sasl c Ev Em) as (_ & Hs & _).
  destruct (auth_of_supported _ (sasl_Username (SASL c)) p Hs) as [a Ha]. rewrite Ha in H.
  exists p, a. split; [done|]. split; [by eapply auth_of_credentials|]. by simplify_eq.
Qed.

(** Reads are bounded: a file that is accepted fits the limit. *)
Lemma readSecurityFile_bound fs path kind limit data :
  readSecurityFile fs path kind limit = Ok data -> Z.of_nat (length data) <= limit.
Proof.
  unfold readSecurityFile. intros H.
  repeat (case_match; try discriminate). simplify_eq. by apply Z.ltb_ge.
Qed.

(** Credentials travel under TLS. A client is only built from an accepted
    configuration; it authenticates exactly when a mechanism is configured, then
    always over TLS, with the configured user name and the password of the
    setting or its file, both valid; and it uses TLS exactly when that is
    enabled. *)
Theorem client_security_spec fs pem_ok key_ok c sec :
  newClientSecurity fs pem_ok key_ok c = Ok sec ->
  Validate c = Ok tt /\
  ((exists t, DialTLSConfig t ∈ cs_options sec) <-> tls_Enabled (TLS c) = true) /\
  ((exists a, OptSASL a ∈ cs_options sec) <-> mechanismDisabled c = false) /\
  (forall a, OptSASL a ∈ cs_options sec ->
     (exists t, DialTLSConfig t ∈ cs_options sec) /\
     exists p, resolve_password fs (SASL c) = Ok p /\
       auth_credentials a = (sasl_Username (SASL c), p) /\
       validCredential p = true /\ validCredential (sasl_Username (SASL c)) = true).
Proof.
  intros (Hv & t & Ht & H)%newClientSecurity_inv. split; [done|]. cbv zeta in H.
  assert (forall rest, (forall x, DialTLSConfig x ∉ rest) ->
    (exists x, DialTLSConfig x ∈ match t with Some t => [DialTLSConfig t] | None => [] end ++ rest)
      <-> tls_Enabled (TLS c) = true) as Htls.
  { intros rest Hr. rewrite <- Ht. destruct t as [t|]; cbn [app].
    - split; [eauto|]. intros _. exists t. by left.
    - split; [intros [x Hx]; by destruct (Hr x)|by intros []]. }
  destruct (mechanismDisabled c) eqn:Em.
  - subst sec. cbn [cs_options]. split_and!.
    + rewrite <- (Htls []), app_nil_r by set_solver. done.
    + destruct t; set_solver.
    + intros a Ha. destruct t; set_solver.
  - destruct H as (p & a & Hp & Ha & ->). cbn [cs_options].
    destruct (Validate_sasl c Hv Em) as (Hen & _ & Hu). split_and!.
    + apply Htls. set_solver.
    + split; [done|]. intros _. exists a. set_solver.
    + intros a' Ha'. assert (a' = a) as -> by (destruct t; set_solver).
      split; [apply Htls; [set_solver|done]|]. exists p.
      split_and!; [done..| |done]. by eapply resolve_password_valid.
Qed.

(** Error texts do not reveal credentials. Whatever text an error of the
    Kafka client has, the error the publisher or the consumer reports for it
    contains neither the user name nor the password, provided the credential
    has no square bracket and is not a part of the word that replaces it.
    An error with a code the client knows is replaced by the fixed error of
    that code. *)
Theorem credentials_redacted fs pem_ok key_ok ErrorForCode c sec p cred e :
  newClientSecurity fs pem_ok key_ok c = Ok sec -> mechanismDisabled c = false ->
  resolve_password fs (SASL c) = Ok p -> cred = p \/ cred = sasl_Username (SASL c) ->
  hideable (bytes cred) ->
  match ke_code e ≫= ErrorForCode with
  | Some known => safeError ErrorForCode sec e = known
  | None => ~ occurs (bytes cred) (bytes (ke_text (safeError ErrorForCode sec e)))
  end.
Proof.
  intros (Hv & t & _ & H)%newClientSecurity_inv Hm Hp Hc Hh. cbv zeta in H. rewrite Hm in H.
  destruct H as (p' & a & Hp' & _ & ->). assert (p' = p) as -> by congruence.
  destruct (Validate_sasl c Hv Hm) as (_ & _ & Hu). unfold safeError. cbn [cs_redact].
  destruct (ke_code e ≫= ErrorForCode) as [known|]; [done|].
  pose proof (credentialRedactor_hides p (sasl_Username (SASL c)) cred (ke_text e)) as Hhide.
  case_bool_decide as Eq; [rewrite Eq in Hhide|]; cbn [ke_text]; apply Hhide; auto;
    apply validCredential_nonempty; [by eapply resolve_password_valid|done..|by eapply resolve_password_valid|done].
Qed.

(** ** Witnesses *)

Definition demo_fs : filesystem :=
  MkFilesystem (fun _ => Some (MkStat true 8))
    (fun _ => Some (MkOpenFile (Some (MkStat true 8)) (bytes "s3cret" ++ [13; 10]%N) false)).
Definition demo_security : SecurityConfig :=
  MkSecurityConfig (MkTLSConfig true "" "" "" "broker")
    (MkSASLConfig " scram-sha-512" "relay" "" "/run/secrets/kafka").
Definition demo_sec : clientSecurity :=
  match newClientSecurity demo_fs (fun _ => true) (fun _ _ => true) demo_security with
  | Ok sec => sec | Err _ => MkClientSecurity [] None end.

Lemma client_security_spec_witness :
  exists t, DialTLSConfig t ∈ cs_options demo_sec.
Proof.
  apply (client_security_spec demo_fs (fun _ => true) (fun _ _ => true) demo_security demo_sec);
    vm_compute; reflexivity.
Defined.

Lemma credentials_redacted_witness :
  ~ occurs (bytes "s3cret")
      (bytes (ke_text (safeError (fun _ => None) demo_sec
                         (MkKafkaError None false "auth relay:s3cret failed")))) /\
  ke_text (safeError (fun _ => None) demo_sec (MkKafkaError None false "auth relay:s3cret failed"))
    = "auth [REDACTED]:[REDACTED] failed"%string.
Proof.
  split; [|vm_compute; reflexivity].
  apply (credentials_redacted demo_fs (fun _ => true) (fun _ _ => true) (fun _ => None)
    demo_security demo_sec "s3cret" "s3cret" (MkKafkaError None false "auth relay:s3cret failed"));
    [vm_compute; reflexivity..|by left|].
  split; [discriminate|].
  split; [exact (bool_decide_eq_true_1 (91%N ∉ bytes "s3cret") eq_refl)|].
  split; [exact (bool_decide_eq_true_1 (93%N ∉ bytes "s3cret") eq_refl)|].
  intros (a & b & H). do 9 (destruct a as [|? a]; [vm_compute in H; discriminate|vm_compute in H]).
  discriminate.
Defined.

(** A credential inside the replacement text stays readable. *)
Example redaction_limit :
  credentialRedactor "RED" "relay" "auth relay" = "auth [REDACTED]"%string.
Proof. vm_compute. reflexivity. Qed.
