(* ===== verification/Kafka.v ===== *)
(** * Kafka adapters ([broker/kafka/publisher.go], [broker/kafka/consumer.go])

    The publisher and the consumer source as functions of what the Kafka client
    answers: the client itself, its error codes and the table of its known
    errors are arguments. *)
From Stdlib Require Import ZArith String.
From stdpp Require Import base gmap strings list fin_maps.
From S2P Require Import Prelude GoStrings Schema OutboxStore Relay PgStore Consumer KafkaSecurity.
From S2P Require Import Samples.

#[local] Open Scope Z_scope.

Module Kafka.
#[local] Open Scope emitlane_scope.

(** ** The client's vocabulary *)

(** The client options the source uses, in the order it passes them. *)
Inductive kgo_opt : Type :=
| SeedBrokers (brokers : list string)
| ClientID (id : string)
| RequiredAcksAllISR
| DisableIdempotentWrite
| RecordRetries (n : Z)
| RecordDeliveryTimeout (d : duration)
| ProduceRequestTimeout (d : duration)
| ProducerLinger (d : duration)
| UnknownTopicRetries (n : Z)
| AllowAutoTopicCreation
| ConsumerGroup (group : string)
| ConsumeTopics (topics : list string)
| ConsumeResetOffsetAtStart
| DisableAutoCommit
| BlockRebalanceOnPoll
| CooperativeStickyBalancer
| SessionTimeout_ (d : duration)
| RebalanceTimeout_ (d : duration)
| FetchMaxWait_ (d : duration)
| PartitionCallbacks
| SecurityOpt (o : security_opt).

Record kgo_record : Type := MkKgoRecord {
  kr_Topic : string;
  kr_Key : option string;
  kr_Value : string;
  kr_Headers : list (string * string);
  kr_Partition : Z;
  kr_Offset : Z;
  kr_Timestamp : option time;
}.

(** The protocol errors the publisher names. *)
Inductive kerr_name : Type :=
| InvalidTopicException | MessageTooLarge | RecordListTooLarge | InvalidRecord | PolicyViolation
| TopicAuthorizationFailed | ClusterAuthorizationFailed | TransactionalIDAuthorizationFailed
| UnsupportedVersion | UnsupportedForMessageFormat.

Definition permanent_names : list kerr_name :=
  [InvalidTopicException; MessageTooLarge; RecordListTooLarge; InvalidRecord; PolicyViolation;
   TopicAuthorizationFailed; ClusterAuthorizationFailed; TransactionalIDAuthorizationFailed;
   UnsupportedVersion; UnsupportedForMessageFormat].

(** ** Configuration *)

Record Config : Type := MkConfig {
  Brokers : list string;
  cfg_ClientID : string;
  PublishTimeout : duration;
  AutoCreateTopics : bool;
  Security : SecurityConfig;
}.

Definition blank (s : string) : bool := is_empty (TrimSpace s).

Definition Validate (c : Config) : result string unit :=
  fail_if (length (Brokers c) =? 0)%nat with "kafka: at least one broker is required"%string;
  fail_if existsb blank (Brokers c) with "kafka: broker address must not be empty"%string;
  fail_if PublishTimeout c <=? 0 with "kafka: publish timeout must be > 0"%string;
  KafkaSecurity.Validate (Security c).

Record ConsumerConfig : Type := MkConsumerConfig {
  cc_Brokers : list string;
  cc_ClientID : string;
  cc_Group : string;
  cc_Topics : list string;
  cc_SessionTimeout : duration;
  cc_RebalanceTimeout : duration;
  cc_FetchMaxWait : duration;
  cc_Security : SecurityConfig;
}.

Definition ValidateConsumer (c : ConsumerConfig) : result string unit :=
  fail_if (length (cc_Brokers c) =? 0)%nat || (length (cc_Topics c) =? 0)%nat
    with "kafka consumer: brokers and topics are required"%string;
  fail_if existsb blank (cc_Brokers c ++ cc_Topics c)
    with "kafka consumer: broker and topic values must not be blank"%string;
  fail_if blank (cc_Group c) with "kafka consumer: group is required"%string;
  fail_if (cc_SessionTimeout c <=? 0) || (cc_RebalanceTimeout c <=? 0) || (cc_FetchMaxWait c <=? 0)
    with "kafka consumer: session, rebalance, and fetch timeouts must be positive"%string;
  KafkaSecurity.Validate (cc_Security c).

(** ** Publisher *)

Section publisher.
Context (fs : filesystem) (pem_ok : list N -> bool) (key_pair_ok : list N -> list N -> bool).
(** [kgo.NewClient]: an error text, if any. *)
Context (NewClient : list kgo_opt -> option string).

Definition publisher_options (cfg : Config) (security : clientSecurity) : list kgo_opt :=
  [SeedBrokers (TrimSpace <$> Brokers cfg);
   ClientID (if is_empty (cfg_ClientID cfg) then "emitlane" else cfg_ClientID cfg);
   RequiredAcksAllISR; DisableIdempotentWrite; RecordRetries 0;
   RecordDeliveryTimeout (PublishTimeout cfg); ProduceRequestTimeout (PublishTimeout cfg);
   ProducerLinger 0; UnknownTopicRetries 0]
  ++ (if AutoCreateTopics cfg then [AllowAutoTopicCreation; UnknownTopicRetries 4] else [])
  ++ (SecurityOpt <$> cs_options security).

Record Publisher : Type := MkPublisher { pub_options : list kgo_opt; pub_security : clientSecurity }.

Definition NewPublisher (cfg : Config) : result string Publisher :=
  let! _ := Validate cfg in
  let! security := newClientSecurity fs pem_ok key_pair_ok (Security cfg) in
  let opts := publisher_options cfg security in
  match NewClient opts with
  | Some err => Err ("kafka: create client: " +:+ err)%string
  | None => Ok (MkPublisher opts security)
  end.

Record ConsumerFactory : Type := MkConsumerFactory {
  cf_config : ConsumerConfig;
  cf_security : clientSecurity;
}.

(** The factory keeps no copy of the raw credentials. *)
Definition NewConsumerFactory (c : ConsumerConfig) : result string ConsumerFactory :=
  let! _ := ValidateConsumer c in
  let! security := newClientSecurity fs pem_ok key_pair_ok (cc_Security c) in
  Ok (MkConsumerFactory
        (MkConsumerConfig (cc_Brokers c) (cc_ClientID c) (cc_Group c) (cc_Topics c)
           (cc_SessionTimeout c) (cc_RebalanceTimeout c) (cc_FetchMaxWait c) no_security)
        security).

Definition source_options (f : ConsumerFactory) (workerID : string) : list kgo_opt :=
  let c := cf_config f in
  let clientID := TrimSpace (cc_ClientID c) in
  let clientID := if is_empty clientID then "emitlane-consumer"%string else clientID in
  [SeedBrokers (cc_Brokers c); ClientID (clientID +:+ "-" +:+ workerID);
   ConsumerGroup (cc_Group c); ConsumeTopics (cc_Topics c); ConsumeResetOffsetAtStart;
   DisableAutoCommit; BlockRebalanceOnPoll; CooperativeStickyBalancer;
   SessionTimeout_ (cc_SessionTimeout c); RebalanceTimeout_ (cc_RebalanceTimeout c);
   FetchMaxWait_ (cc_FetchMaxWait c); PartitionCallbacks]
  ++ (SecurityOpt <$> cs_options (cf_security f)).

(** A consumer source; [connected] is set by the first successful probe. *)
Record consumerSource : Type := MkConsumerSource { src_security : clientSecurity; connected : bool }.

Definition NewSource (f : ConsumerFactory) (workerID : string) : result string consumerSource :=
  match NewClient (source_options f workerID) with
  | Some err => Err ("kafka consumer: create client: " +:+ err)%string
  | None => Ok (MkConsumerSource (cf_security f) false)
  end.

End publisher.

Section errors.
Context (kerr_code : kerr_name -> Z) (ErrorForCode : Z -> option kafka_error).

Definition ErrPermanent : string := "broker: permanent publish failure".

Definition isPermanent (e : kafka_error) : bool :=
  match ke_code e with
  | Some code => bool_decide (code ∈ kerr_code <$> permanent_names)
  | None => false
  end.

Definition classify (e : kafka_error) : publish_error :=
  if isPermanent e
  then PublishError (ErrPermanent +:+ ": " +:+ ke_text e) true (ke_deadline e)
  else PublishError (ke_text e) false (ke_deadline e).

(** The record of a message; [headers] is the iteration order of its header map. *)
Definition record_of (message : Relay.Message) (headers : list (string * string)) : kgo_record :=
  MkKgoRecord (msg_Destination message) (msg_Key message) (msg_Payload message) headers 0 0 None.

(** [Publish] on a publisher ([None] is closed), with the first error of
    [ProduceSync]. *)
Definition Publish (p : option Publisher) (produced : option kafka_error) : option publish_error :=
  match p with
  | None => Some (PublishError "kafka: publisher is closed" false false)
  | Some p =>
      match produced with
      | Some err => Some (classify (safeError ErrorForCode (pub_security p) err))
      | None => None
      end
  end.

Definition Ping (p : option Publisher) (ping : option kafka_error) : option string :=
  match p with
  | None => Some "kafka: publisher is closed"%string
  | Some p => (fun e => ke_text (safeError ErrorForCode (pub_security p) e)) <$> ping
  end.

(** ** Consumer source *)

(** One answer of [PollRecords], and [ctx.Err()] after it. *)
Record poll_answer : Type := MkPollAnswer {
  pa_error : option kafka_error;
  pa_records : list kgo_record;
  pa_ctx : option kafka_error;
}.

Definition source_record (r : kgo_record) : Consumer.SourceRecord :=
  Consumer.MkSourceRecord (kr_Topic r) (kr_Partition r) (kr_Offset r) (kr_Timestamp r)
    (default ""%string (kr_Key r)) (kr_Value r)
    ((fun kv => Consumer.MkHeader kv.1 kv.2) <$> kr_Headers r).

(** The polling loop over the client's answers; [None] while it waits. *)
Fixpoint poll_loop (security : clientSecurity) (answers : list poll_answer)
  : option (result kafka_error Consumer.SourceRecord) :=
  match answers with
  | [] => None
  | a :: answers =>
      match pa_error a with
      | Some e => Some (Err (safeError ErrorForCode security e))
      | None =>
          match pa_records a with
          | r :: _ => Some (Ok (source_record r))
          | [] => match pa_ctx a with
                  | Some e => Some (Err e)
                  | None => poll_loop security answers
                  end
          end
      end
  end.

(** [Poll]: the probe on the first use with [ctx.Err()] before it, then the loop. *)
Definition Poll (s : consumerSource) (ctxErr ping : option kafka_error) (answers : list poll_answer)
  : consumerSource * option (result kafka_error Consumer.SourceRecord) :=
  if connected s then (s, poll_loop (src_security s) answers) else
  match ctxErr with
  | Some e => (s, Some (Err e))
  | None =>
      match ping with
      | Some e => (s, Some (Err (safeError ErrorForCode (src_security s) e)))
      | None => (MkConsumerSource (src_security s) true, poll_loop (src_security s) answers)
      end
  end.

End errors.

(** What the log stores of a produced record. *)
Definition stored (r : kgo_record) (partition offset : Z) (timestamp : option time) : kgo_record :=
  MkKgoRecord (kr_Topic r) (kr_Key r) (kr_Value r) (kr_Headers r) partition offset timestamp.

(** * Properties *)

(** C38: From the relay through Kafka to a handler. The record of a published
    event, stored at any position and polled by a consumer, becomes a message
    with the event's destination, key and payload whose headers resolve to the
    event's identifier, in whichever order the header map was iterated. *)
Theorem kafka_round_trip ErrorForCode uuid_String uuid_Parse trace_of ev headers p o t s answers :
  uuid_Parse (TrimSpace (uuid_String (ID ev))) = Some (ID ev) ->
  headers ≡ₚ map_to_list (msg_Headers (outgoing uuid_String trace_of ev)) ->
  let r := stored (record_of (outgoing uuid_String trace_of ev) headers) p o t in
  connected s = true ->
  exists record,
    Poll ErrorForCode s None None (MkPollAnswer None [r] None :: answers) = (s, Some (Ok record)) /\
    let m := Consumer.message_of record in
    Consumer.ResolveEventID uuid_Parse m = Ok (ID ev) /\
    Consumer.m_Topic m = Destination ev /\ Consumer.m_Payload m = Payload ev /\
    Consumer.m_Key m = default ""%string (Key ev) /\
    Consumer.m_Partition m = p /\ Consumer.m_Offset m = o /\ Consumer.m_Timestamp m = t.
Proof.
  intros Hparse Hperm r Hc. exists (source_record r). split; [unfold Poll; by rewrite Hc|]. cbv zeta.
  destruct (outgoing_fields uuid_String trace_of ev) as (_ & Hd & Hk & Hp & _ & _).
  split; [|unfold r; cbn; by rewrite Hd, Hk, Hp].
  apply (Consumer.event_id_round_trip uuid_String uuid_Parse trace_of ev); [done|].
  unfold r. cbn. by rewrite Hperm.
Qed.

(** Permanent failures are recognised through redaction. When the client's
    table maps a code to the error of that code, the error [Publish] reports is
    permanent exactly if the client's error carries one of the ten permanent
    codes; the code table and the credentials have no influence. *)
Theorem publish_permanent_iff kerr_code ErrorForCode p e :
  (forall code known, ErrorForCode code = Some known -> ke_code known = Some code) ->
  exists err, Publish kerr_code ErrorForCode (Some p) (Some e) = Some err /\
    (pe_permanent err = true <-> exists name, ke_code e = Some (kerr_code name)).
Proof.
  intros Htable. eexists. split; [reflexivity|].
  assert (ke_code (safeError ErrorForCode (pub_security p) e) = ke_code e) as Hcode.
  { unfold safeError. destruct (ke_code e) as [code|] eqn:Ec; cbn.
    - destruct (ErrorForCode code) as [known|] eqn:Ek; [by eapply Htable|]. by case_bool_decide.
    - by case_bool_decide. }
  unfold classify, isPermanent. rewrite Hcode.
  assert (forall b e', pe_permanent (if b : bool then PublishError (ErrPermanent +:+ ": " +:+ ke_text e') true (ke_deadline e')
            else PublishError (ke_text e') false (ke_deadline e')) = b) as -> by (by intros []).
  destruct (ke_code e) as [code|]; [|split; [done|by intros [? ?]]].
  rewrite bool_decide_eq_true, list_elem_of_fmap. split.
  - intros (name & -> & _). eauto.
  - intros [name H]. simplify_eq. exists name. split; [done|]. destruct name; unfold permanent_names;
      repeat first [by left|right].
Qed.

(** ** Witnesses *)

Lemma kafka_round_trip_witness :
  exists record,
    Poll (fun _ => None) (MkConsumerSource (MkClientSecurity [] None) true) None None
      [MkPollAnswer None
         [stored (record_of (outgoing sample_uuid no_trace Consumer.spoofed_event)
                    (map_to_list (msg_Headers (outgoing sample_uuid no_trace Consumer.spoofed_event))))
            3 41 (Some 7)] None]
      = (MkConsumerSource (MkClientSecurity [] None) true, Some (Ok record)) /\
    Consumer.ResolveEventID (fun _ => Some 7%N) (Consumer.message_of record) = Ok 7%N.
Proof.
  destruct (kafka_round_trip (fun _ => None) sample_uuid (fun _ => Some 7%N) no_trace
    Consumer.spoofed_event
    (map_to_list (msg_Headers (outgoing sample_uuid no_trace Consumer.spoofed_event))) 3 41 (Some 7)
    (MkConsumerSource (MkClientSecurity [] None) true) []) as (record & H1 & H2 & _);
    [vm_compute; reflexivity|reflexivity|reflexivity|].
  exists record. split; [exact H1|exact H2].
Defined.

(** The codes of the Kafka protocol. *)
Definition protocol_code (name : kerr_name) : Z :=
  match name with
  | InvalidTopicException => 17 | MessageTooLarge => 10 | RecordListTooLarge => 18
  | InvalidRecord => 87 | PolicyViolation => 44 | TopicAuthorizationFailed => 29
  | ClusterAuthorizationFailed => 31 | TransactionalIDAuthorizationFailed => 53
  | UnsupportedVersion => 35 | UnsupportedForMessageFormat => 43
  end.

Lemma publish_permanent_iff_witness :
  exists err,
    Publish protocol_code (fun c => Some (MkKafkaError (Some c) false "known"))
      (Some (MkPublisher [] (MkClientSecurity [] None)))
      (Some (MkKafkaError (Some 10) false "message too large")) = Some err /\
    pe_permanent err = true.
Proof.
  destruct (publish_permanent_iff protocol_code (fun c => Some (MkKafkaError (Some c) false "known"))
    (MkPublisher [] (MkClientSecurity [] None)) (MkKafkaError (Some 10) false "message too large"))
    as (err & H & Hiff); [intros code known [= <-]; reflexivity|].
  exists err. split; [exact H|]. apply Hiff. exists MessageTooLarge. reflexivity.
Defined.

End Kafka.
