(* ===== verification/GoNet.v ===== *)
(** * Durations and network addresses of the Go standard library

    What configuration loading uses of [time] and [net]: [time.ParseDuration]
    with its 64-bit overflow checks and its floating-point fractions,
    [net.SplitHostPort], and [net.ParseIP] with [IP.IsLoopback]. Errors are
    [None]: the callers replace the text or only test for them. *)
From Stdlib Require Import ZArith QArith Qround String Ascii.
From stdpp Require Import base strings list.
From S2P Require Import Prelude GoStrings GoParse Float64.

#[local] Open Scope Z_scope.

(** ** [time.ParseDuration] *)

(** [leadingInt]: the digits at the front, [None] beyond [2^63]. *)
Fixpoint leadingInt (x : Z) (l : list N) : option (Z * list N) :=
  match l with
  | [] => Some (x, [])
  | c :: rest =>
      match digit c with
      | None => Some (x, l)
      | Some n =>
          if 2 ^ 63 / 10 <? x then None else
          let x := x * 10 + n in
          if 2 ^ 63 <? x then None else leadingInt x rest
      end
  end.

(** [leadingFraction]: digits beyond 63 bits are dropped; the second component
    is the [float64] scale. *)
Fixpoint leadingFraction (x : Z) (scale : Q) (overflow : bool) (l : list N) : Z * Q * list N :=
  match l with
  | [] => (x, scale, [])
  | c :: rest =>
      match digit c with
      | None => (x, scale, l)
      | Some n =>
          if overflow then leadingFraction x scale true rest else
          if (2 ^ 63 - 1) / 10 <? x then leadingFraction x scale true rest else
          let y := x * 10 + n in
          if 2 ^ 63 <? y then leadingFraction x scale true rest
          else leadingFraction y (f64_mul scale 10) false rest
      end
  end.

Definition is_dot (c : N) : bool := (c =? 46)%N.
Definition is_digit (c : N) : bool := between 48 57 c.

(** The unit: everything up to the next digit or period. *)
Fixpoint take_unit (l : list N) : list N * list N :=
  match l with
  | [] => ([], [])
  | c :: rest =>
      if is_dot c || is_digit c then ([], l)
      else let '(u, rest) := take_unit rest in (c :: u, rest)
  end.

Definition Microsecond : duration := 1000.

(** [unitMap]; both micro signs, U+00B5 and U+03BC. *)
Definition unitMap (u : list N) : option Z :=
  if bool_decide (u = bytes "ns") then Some 1
  else if bool_decide (u = bytes "us" \/ u = [0xC2; 0xB5; 115]%N \/ u = [0xCE; 0xBC; 115]%N)
  then Some Microsecond
  else if bool_decide (u = bytes "ms") then Some Millisecond
  else if bool_decide (u = bytes "s") then Some Second
  else if bool_decide (u = bytes "m") then Some Minute
  else if bool_decide (u = bytes "h") then Some Hour
  else None.

(** [uint64(x)] of a non-negative [float64] below [2^63]. *)
Definition uint64_of_f64 (x : Q) : Z := Qfloor x.

(** One number with its unit: its nanoseconds and the rest of the text. *)
Definition duration_term (l : list N) : option (Z * list N) :=
  match l with
  | [] => None
  | c :: _ =>
      if negb (is_dot c || is_digit c) then None else
      match leadingInt 0 l with
      | None => None
      | Some (v, l1) =>
          let pre := negb (length l =? length l1)%nat in
          let '(f, scale, l2, post) :=
            match l1 with
            | d :: l2 => if is_dot d
                         then let '(f, scale, l3) := leadingFraction 0 1 false l2 in
                              (f, scale, l3, negb (length l2 =? length l3)%nat)
                         else (0, 1%Q, l1, false)
            | [] => (0, 1%Q, l1, false)
            end in
          if negb pre && negb post then None else
          let '(u, rest) := take_unit l2 in
          match u with
          | [] => None
          | _ =>
              match unitMap u with
              | None => None
              | Some unit_ =>
                  if 2 ^ 63 / unit_ <? v then None else
                  let v := v * unit_ in
                  let v := if 0 <? f
                           then v + uint64_of_f64
                                      (f64_mul (f64_of_int f) (f64_div (f64_of_int unit_) scale))
                           else v in
                  if (0 <? f) && (2 ^ 63 <? v) then None else Some (v, rest)
              end
          end
      end
  end.

(** The loop over terms, with its unsigned 64-bit sum; each term consumes at
    least one byte. *)
Fixpoint duration_terms (fuel : nat) (d : Z) (l : list N) : option Z :=
  match l, fuel with
  | [], _ => Some d
  | _, O => None
  | _, S fuel =>
      match duration_term l with
      | None => None
      | Some (v, rest) =>
          let d := (d + v) mod 2 ^ 64 in if 2 ^ 63 <? d then None else duration_terms fuel d rest
      end
  end.

Definition ParseDuration (s : string) : option duration :=
  let l := bytes s in
  let '(neg, l) := match l with
                   | 45%N :: l => (true, l)
                   | 43%N :: l => (false, l)
                   | l => (false, l)
                   end in
  if bool_decide (l = bytes "0") then Some 0 else
  match l with
  | [] => None
  | _ =>
      match duration_terms (length l) 0 l with
      | None => None
      | Some d => if neg then Some (- d)
                  else if 2 ^ 63 - 1 <? d then None else Some d
      end
  end.

(** ** [net.SplitHostPort] *)

Fixpoint index_byte (b : N) (l : list N) : option nat :=
  match l with
  | [] => None
  | c :: l => if (c =? b)%N then Some O else S <$> index_byte b l
  end.

Definition last_index_byte (b : N) (l : list N) : option nat :=
  (fun i => (length l - 1 - i)%nat) <$> index_byte b (reverse l).

Definition has_byte (b : N) (l : list N) : bool := existsb (N.eqb b) l.

Definition colon : N := 58.
Definition lbracket : N := 91.
Definition rbracket : N := 93.

Definition SplitHostPort (s : string) : option (string * string) :=
  let l := bytes s in
  match last_index_byte colon l with
  | None => None
  | Some i =>
      let finish (host : list N) (j k : nat) :=
        if has_byte lbracket (drop j l) || has_byte rbracket (drop k l) then None
        else Some (of_bytes host, of_bytes (drop (S i) l)) in
      match l with
      | 91%N :: _ =>
          match index_byte rbracket l with
          | None => None
          | Some e => if (S e =? i)%nat then finish (take (e - 1) (drop 1 l)) 1%nat (S e) else None
          end
      | _ => let host := take i l in
             if has_byte colon host then None else finish host O O
      end
  end.

(** ** [net.ParseIP] *)

(** The fields of a dotted quad: one to three digits, no leading zero, at most
    255. [digLen] and [acc] describe the field being read. *)
Fixpoint v4_fields (acc : N) (digLen : nat) (done : list N) (l : list N) : option (list N) :=
  match l with
  | [] => match digLen with
          | O => None
          | S _ => let fields := done ++ [acc] in
                   if (length fields =? 4)%nat then Some fields else None
          end
  | c :: l =>
      if is_digit c then
        if (digLen =? 1)%nat && (acc =? 0)%N then None else
        let acc := (acc * 10 + (c - 48))%N in
        if (255 <? acc)%N then None else v4_fields acc (S digLen) done l
      else if is_dot c then
        match digLen with
        | O => None
        | S _ => if (length done =? 3)%nat then None else
                 match l with [] => None | _ => v4_fields 0 O (done ++ [acc]) l end
        end
      else None
  end.

Definition parseIPv4 (l : list N) : option (list N) := v4_fields 0 O [] l.

Definition hex_value (c : N) : option N :=
  if between 48 57 c then Some (c - 48)%N
  else if between 97 102 c then Some (c - 97 + 10)%N
  else if between 65 70 c then Some (c - 65 + 10)%N
  else None.

(** The hex digits of a group: their value, number and the rest. *)
Fixpoint hex_group (acc : N) (off : nat) (l : list N) : N * nat * list N :=
  match l with
  | [] => (acc, off, [])
  | c :: rest => match hex_value c with
                 | Some v => hex_group (acc * 16 + v)%N (S off) rest
                 | None => (acc, off, l)
                 end
  end.

(** The loop over groups: the bytes read so far, the position of the ellipsis,
    and the text left. Every round consumes a byte. *)
Fixpoint v6_groups (fuel : nat) (ip : list N) (ellipsis : option nat) (l : list N)
  : option (list N * option nat) :=
  match fuel with
  | O => None
  | S fuel =>
      if (16 <=? length ip)%nat then (match l with [] => Some (ip, ellipsis) | _ => None end) else
      let '(acc, off, rest) := hex_group 0 O l in
      if (off =? 0)%nat || (4 <? off)%nat then None else
      let chunk := ip ++ [(acc / 256)%N; (acc mod 256)%N] in
      match rest with
      | [] => Some (chunk, ellipsis)
      | 46%N :: _ =>
          if match ellipsis with None => negb (length ip =? 12)%nat | Some _ => false end then None else
          if (16 <? length ip + 4)%nat then None else
          match parseIPv4 l with Some v4 => Some (ip ++ v4, ellipsis) | None => None end
      | 58%N :: [] => None
      | 58%N :: 58%N :: rest =>
          match ellipsis with
          | Some _ => None
          | None => match rest with
                    | [] => Some (chunk, Some (length chunk))
                    | _ => v6_groups fuel chunk (Some (length chunk)) rest
                    end
          end
      | 58%N :: rest => v6_groups fuel chunk ellipsis rest
      | _ => None
      end
  end.

Definition parseIPv6 (l : list N) : option (list N) :=
  let parsed :=
    match l with
    | 58%N :: 58%N :: [] => Some ([], Some O)
    | 58%N :: 58%N :: l => v6_groups (S (length l)) [] (Some O) l
    | _ => v6_groups (S (length l)) [] None l
    end in
  match parsed with
  | None => None
  | Some (ip, ellipsis) =>
      if (length ip <? 16)%nat
      then match ellipsis with
           | None => None
           | Some e => Some (take e ip ++ replicate (16 - length ip) 0%N ++ drop e ip)
           end
      else match ellipsis with None => Some ip | Some _ => None end
  end.

(** The first of period, colon and percent decides the family; an address with
    a zone is not an [IP]. A dotted quad is stored in its 16-byte form. *)
Fixpoint ip_family (l : list N) : option bool :=
  match l with
  | [] => None
  | c :: l => if is_dot c then Some true
              else if (c =? colon)%N then Some false
              else if (c =? 37)%N then None else ip_family l
  end.

Definition v4_prefix : list N := replicate 10 0%N ++ [255; 255]%N.

Definition ParseIP (s : string) : option (list N) :=
  let l := bytes s in
  match ip_family l with
  | Some true => app v4_prefix <$> parseIPv4 l
  | Some false => if has_byte 37 l then None else parseIPv6 l
  | None => None
  end.

Definition IsLoopback (ip : list N) : bool :=
  if bool_decide (take 12 ip = v4_prefix) then bool_decide (ip !! 12%nat = Some 127%N)
  else bool_decide (ip = replicate 15 0%N ++ [1%N]).

(** ** Examples *)

Example ParseDuration_values :
  ParseDuration "1.5h" = Some (90 * Minute) /\
  ParseDuration "2h45m30.5s" = Some (2 * Hour + 45 * Minute + 30500 * Millisecond) /\
  ParseDuration "-0.25ms" = Some (-250 * Microsecond) /\
  ParseDuration ".5s" = Some (500 * Millisecond) /\
  ParseDuration "1" = None /\ ParseDuration "." = None /\ ParseDuration "s" = None /\
  ParseDuration "9223372036854775807ns" = Some (2 ^ 63 - 1) /\
  ParseDuration "9223372036854775808ns" = None /\
  ParseDuration "-9223372036854775808ns" = Some (- 2 ^ 63) /\
  ParseDuration "3000000h" = None /\
  ParseDuration "0.9223372036854775808h" = Some 3320413933267.
Proof. repeat split; vm_compute; reflexivity. Qed.

Example SplitHostPort_values :
  SplitHostPort "127.0.0.1:8081" = Some ("127.0.0.1", "8081")%string /\
  SplitHostPort "[::1]:8081" = Some ("::1", "8081")%string /\
  SplitHostPort ":8080" = Some ("", "8080")%string /\
  SplitHostPort "::1:80" = None /\ SplitHostPort "host" = None /\ SplitHostPort "[::1]" = None /\
  SplitHostPort "[::1]x:80" = None.
Proof. repeat split; vm_compute; reflexivity. Qed.

Example IsLoopback_values :
  (IsLoopback <$> ParseIP "127.3.2.1") = Some true /\
  (IsLoopback <$> ParseIP "::1") = Some true /\
  (IsLoopback <$> ParseIP "0:0:0:0:0:0:0:1") = Some true /\
  (IsLoopback <$> ParseIP "::ffff:127.0.0.1") = Some true /\
  (IsLoopback <$> ParseIP "0.0.0.0") = Some false /\
  (IsLoopback <$> ParseIP "1::") = Some false /\
  ParseIP "127.0.0.01" = None /\ ParseIP "127.0.0" = None /\ ParseIP "::1%lo" = None /\
  ParseIP "1:2:3:4:5:6:7::8" = None /\ ParseIP "localhost" = None /\ ParseIP "" = None.
Proof. repeat split; vm_compute; reflexivity. Qed.

(** ** The range of a duration *)

Lemma duration_terms_bound fuel d l r :
  0 <= d <= 2 ^ 63 -> duration_terms fuel d l = Some r -> 0 <= r <= 2 ^ 63.
Proof.
  revert d l. induction fuel as [|fuel IH]; intros d l Hd; destruct l as [|c l]; cbn [duration_terms];
    intros H; simplify_eq; [lia|lia|].
  destruct (duration_term (c :: l)) as [[v rest]|]; [|done].
  destruct (Z.ltb_spec (2 ^ 63) ((d + v) mod 2 ^ 64)); [done|].
  eapply IH; [|exact H]. split; [by apply Z.mod_pos_bound|done].
Qed.

Lemma ParseDuration_bound s d : ParseDuration s = Some d -> - 2 ^ 63 <= d < 2 ^ 63.
Proof.
  unfold ParseDuration. destruct (match bytes s with 45%N :: _ => _ | _ => _ end) as [neg l].
  destruct (bool_decide _); intros H; [simplify_eq; lia|].
  destruct l as [|c l]; [done|].
  destruct (duration_terms _ 0 (c :: l)) as [r|] eqn:E; [|done].
  apply duration_terms_bound in E; [|lia].
  destruct neg; [simplify_eq; lia|]. destruct (Z.ltb_spec (2 ^ 63 - 1) r); simplify_eq; lia.
Qed.
