(* ===== verification/ConfigLoad.v ===== *)
(** * Process configuration ([config/config.go], [config/kafka.go])

    [Load] as a function of the environment: a map from names to values, where
    an unset variable reads as the empty string ([os.Getenv]). The instance
    identifier of a process without one is an argument. *)
From Stdlib Require Import ZArith String Ascii.
From stdpp Require Import base gmap strings list.
From S2P Require Import Prelude GoStrings GoParse GoNet Schema RelayConfig KafkaSecurity.

#[local] Open Scope Z_scope.

Module ConfigLoad.
#[local] Open Scope emitlane_scope.

Record AdminConfig : Type := MkAdminConfig {
  Enabled : bool;
  Addr : string;
  Token : string;
  ExposePayload : bool;
}.

Record Config : Type := MkConfig {
  DatabaseURL : string;
  KafkaBrokers : list string;
  KafkaClientID : string;
  KafkaSecurity_ : SecurityConfig;
  AutoCreateTopics : bool;
  HTTPAddr : string;
  LogLevel : string;
  Relay_ : RelayConfig.Config;
  DBMaxConns : Z;
  DBMinConns : Z;
  DBMaxConnLifetime : duration;
  Admin : AdminConfig;
}.

(** ** Validation *)

(** [strings.EqualFold] with an ASCII constant: [s] and [k] have one non-ASCII
    folding each, U+017F and U+212A. *)
Fixpoint fold_bytes (fuel : nat) (l : list N) : list N :=
  match fuel with
  | O => []
  | S fuel =>
      match l with
      | [] => []
      | 0xC5%N :: 0xBF%N :: t => 0x73%N :: fold_bytes fuel t
      | 0xE2%N :: 0x84%N :: 0xAA%N :: t => 0x6B%N :: fold_bytes fuel t
      | b :: t => lower_byte b :: fold_bytes fuel t
      end
  end.
Definition EqualFoldASCII (s t : string) : bool :=
  bool_decide (fold_bytes (String.length s) (bytes s) = map lower_byte (bytes t)).

Definition loopback_host (host : string) : bool :=
  match ParseIP host with
  | Some ip => IsLoopback ip
  | None => EqualFoldASCII host "localhost"
  end.

Definition ValidateAdmin (c : AdminConfig) : result string unit :=
  if negb (Enabled c) then Ok tt else
  match SplitHostPort (Addr c) with
  | None => Err "EMITLANE_ADMIN_ADDR must be host:port"%string
  | Some (host, _) =>
      fail_if negb (loopback_host host) && is_empty (Token c)
        with "EMITLANE_ADMIN_TOKEN is required when EMITLANE_ADMIN_ADDR is not loopback"%string;
      fail_if (4096 <? go_len (Token c)) || existsb (fun b => (b =? 13)%N || (b =? 10)%N) (bytes (Token c))
        with "EMITLANE_ADMIN_TOKEN is invalid"%string;
      Ok tt
  end.

Definition error_text (e : error) : string :=
  match e with ErrOther m => m | _ => ""%string end.

Definition Validate (c : Config) : result string unit :=
  fail_if is_empty (DatabaseURL c) with "EMITLANE_DATABASE_URL is required"%string;
  fail_if (length (KafkaBrokers c) =? 0)%nat with "EMITLANE_KAFKA_BROKERS is required"%string;
  fail_if is_empty (HTTPAddr c) with "EMITLANE_HTTP_ADDR must not be empty"%string;
  fail_if negb (bool_decide (ToLower (LogLevel c) ∈ ["debug"; "info"; "warn"; "error"]%string))
    with "EMITLANE_LOG_LEVEL must be one of debug, info, warn, error"%string;
  fail_if DBMaxConns c <? 1 with "EMITLANE_DB_MAX_CONNS must be >= 1"%string;
  fail_if (DBMinConns c <? 0) || (DBMaxConns c <? DBMinConns c)
    with "EMITLANE_DB_MIN_CONNS must be between 0 and EMITLANE_DB_MAX_CONNS"%string;
  fail_if DBMaxConnLifetime c <=? 0 with "EMITLANE_DB_MAX_CONN_LIFETIME must be > 0"%string;
  let! _ := ValidateAdmin (Admin c) in
  let! _ := KafkaSecurity.Validate (KafkaSecurity_ c) in
  match RelayConfig.Validate (Relay_ c) with
  | Ok _ => Ok tt
  | Err e => Err (error_text e)
  end.

(** ** Environment readers *)

Section load.
Context (env : gmap string string) (quote : string -> string) (NewInstanceID : string).

Definition Getenv (key : string) : string := default ""%string (env !! key).

Definition envOr (key fallback : string) : string :=
  let v := TrimSpace (Getenv key) in if is_empty v then fallback else v.

Definition envInt (key : string) (fallback : Z) : result string Z :=
  let raw := TrimSpace (Getenv key) in
  if is_empty raw then Ok fallback else
  match Atoi raw with
  | Some n => Ok n
  | None => Err (key +:+ " is not a valid integer: " +:+ quote raw)%string
  end.

Definition envDuration (key : string) (fallback : duration) : result string duration :=
  let raw := TrimSpace (Getenv key) in
  if is_empty raw then Ok fallback else
  if bool_decide (raw = "0"%string) then Ok 0 else
  match ParseDuration raw with
  | Some d => Ok d
  | None => Err (key +:+ " is not a valid duration: " +:+ quote raw)%string
  end.

Definition envInt32 (key : string) (fallback : Z) : result string Z :=
  let! n := envInt key fallback in
  fail_if (n <? - 2 ^ 31) || (2 ^ 31 - 1 <? n)
    with (key +:+ " is outside the supported 32-bit range: " +:+ Itoa n)%string;
  Ok n.

Definition envBool (key : string) (fallback : bool) : result string bool :=
  let raw := TrimSpace (Getenv key) in
  if is_empty raw then Ok fallback else
  let low := ToLower raw in
  if bool_decide (low ∈ ["1"; "true"; "yes"; "on"]%string) then Ok true
  else if bool_decide (low ∈ ["0"; "false"; "no"; "off"]%string) then Ok false
  else Err (key +:+ " is not a valid boolean: " +:+ quote raw)%string.

Definition splitCSV (raw : string) : list string :=
  if is_empty (TrimSpace raw) then [] else
  List.filter (fun p => negb (is_empty p)) (TrimSpace <$> Split "," raw).

(** [LoadKafkaSecurity] *)
Definition LoadKafkaSecurity : result string SecurityConfig :=
  match envBool "EMITLANE_KAFKA_TLS_ENABLED" false with
  | Err _ => Err "EMITLANE_KAFKA_TLS_ENABLED must be a boolean"%string
  | Ok enabled =>
      let cfg := MkSecurityConfig
        (MkTLSConfig enabled (Getenv "EMITLANE_KAFKA_TLS_CA_FILE")
           (Getenv "EMITLANE_KAFKA_TLS_CERT_FILE") (Getenv "EMITLANE_KAFKA_TLS_KEY_FILE")
           (TrimSpace (Getenv "EMITLANE_KAFKA_TLS_SERVER_NAME")))
        (MkSASLConfig (ToUpper (TrimSpace (Getenv "EMITLANE_KAFKA_SASL_MECHANISM")))
           (Getenv "EMITLANE_KAFKA_SASL_USERNAME") (Getenv "EMITLANE_KAFKA_SASL_PASSWORD")
           (Getenv "EMITLANE_KAFKA_SASL_PASSWORD_FILE")) in
      let! _ := KafkaSecurity.Validate cfg in Ok cfg
  end.

(** The relay settings, read in the order of the source. *)
Definition load_relay : result string RelayConfig.Config :=
  let def := RelayConfig.DefaultConfig in
  let id := TrimSpace (Getenv "EMITLANE_INSTANCE_ID") in
  let id := if is_empty id then NewInstanceID else id in
  let! batch := envInt "EMITLANE_RELAY_BATCH_SIZE" (BatchSize def) in
  let! concurrency := envInt "EMITLANE_RELAY_CONCURRENCY" (Concurrency def) in
  let! poll := envDuration "EMITLANE_RELAY_POLL_INTERVAL" (PollInterval def) in
  let! lease := envDuration "EMITLANE_RELAY_LEASE_DURATION" (LeaseDuration def) in
  let! attempts := envInt "EMITLANE_RETRY_MAX_ATTEMPTS" (MaxAttempts def) in
  let! base := envDuration "EMITLANE_RETRY_BASE_DELAY" (BaseDelay def) in
  let! max := envDuration "EMITLANE_RETRY_MAX_DELAY" (MaxDelay def) in
  let! publish := envDuration "EMITLANE_PUBLISH_TIMEOUT" (PublishTimeout def) in
  let! shutdown := envDuration "EMITLANE_SHUTDOWN_TIMEOUT" (ShutdownTimeout def) in
  let! stats := envDuration "EMITLANE_STATS_INTERVAL" (StatsInterval def) in
  let! control := envDuration "EMITLANE_CONTROL_CHECK_INTERVAL" (ControlInterval def) in
  let! heartbeat := envDuration "EMITLANE_RELAY_HEARTBEAT_INTERVAL" (HeartbeatInterval def) in
  let! stale := envDuration "EMITLANE_RELAY_STALE_AFTER" (PresenceStaleAfter def) in
  let! rebalance := envDuration "EMITLANE_ORDERING_REBALANCE_INTERVAL"
                      (OrderingRebalanceInterval def) in
  let! olease := envDuration "EMITLANE_ORDERING_LEASE_DURATION" (OrderingLeaseDuration def) in
  let! margin := envDuration "EMITLANE_ORDERING_SAFETY_MARGIN" (OrderingSafetyMargin def) in
  let! retention := envDuration "EMITLANE_RETENTION_DELIVERED" (Retention def) in
  let! cleanup := envDuration "EMITLANE_RETENTION_INTERVAL" (CleanupInterval def) in
  let! cbatch := envInt "EMITLANE_RETENTION_BATCH" (CleanupBatch def) in
  Ok {| BatchSize := batch; Concurrency := concurrency; PollInterval := poll;
        IdleBackoffMax := IdleBackoffMax def; LeaseDuration := lease; MaxAttempts := attempts;
        BaseDelay := base; MaxDelay := max; PublishTimeout := publish; ShutdownTimeout := shutdown;
        StatsInterval := stats; ControlInterval := control; HeartbeatInterval := heartbeat;
        PresenceStaleAfter := stale; CleanupInterval := cleanup; Retention := retention;
        CleanupBatch := cbatch; OrderingRebalanceInterval := rebalance;
        OrderingLeaseDuration := olease; OrderingSafetyMargin := margin; InstanceID := id |}.

Definition Load : result string Config :=
  let! security := LoadKafkaSecurity in
  let! auto := envBool "EMITLANE_KAFKA_AUTO_CREATE_TOPICS" false in
  let! relay := load_relay in
  let! maxConns := envInt32 "EMITLANE_DB_MAX_CONNS" 10 in
  let! minConns := envInt32 "EMITLANE_DB_MIN_CONNS" 2 in
  let! lifetime := envDuration "EMITLANE_DB_MAX_CONN_LIFETIME" Hour in
  let! enabled := envBool "EMITLANE_ADMIN_ENABLED" false in
  let addr := envOr "EMITLANE_ADMIN_ADDR" "127.0.0.1:8081" in
  let token := Getenv "EMITLANE_ADMIN_TOKEN" in
  let! expose := envBool "EMITLANE_ADMIN_EXPOSE_PAYLOAD" false in
  let cfg :=
    {| DatabaseURL := TrimSpace (Getenv "EMITLANE_DATABASE_URL");
       KafkaBrokers := splitCSV (Getenv "EMITLANE_KAFKA_BROKERS");
       KafkaClientID := envOr "EMITLANE_KAFKA_CLIENT_ID" "emitlane";
       KafkaSecurity_ := security; AutoCreateTopics := auto;
       HTTPAddr := envOr "EMITLANE_HTTP_ADDR" ":8080";
       LogLevel := ToLower (envOr "EMITLANE_LOG_LEVEL" "info");
       Relay_ := relay; DBMaxConns := maxConns; DBMinConns := minConns;
       DBMaxConnLifetime := lifetime; Admin := MkAdminConfig enabled addr token expose |} in
  let! _ := Validate cfg in
  Ok cfg.

End load.

(** * Lemmas *)

(** A chain of [let!] that ends well ran every step well. *)
Ltac run_binds H :=
  repeat match type of H with
         | result_bind ?r _ = Ok _ =>
             let a := fresh "v" in let E := fresh "E" in
             destruct r as [a|] eqn:E; cbn [result_bind] in H; [|discriminate H]
         | (if ?b then Err _ else _) = Ok _ =>
             let E := fresh "E" in destruct b eqn:E; [discriminate H|]
         end.

Lemma not_is_empty s : is_empty s = false -> s <> ""%string.
Proof. unfold is_empty. by intros H%bool_decide_eq_false. Qed.

Lemma splitCSV_trimmed raw :
  Forall (fun b => b <> ""%string /\ TrimSpace b = b) (splitCSV raw).
Proof.
  unfold splitCSV. destruct (is_empty (TrimSpace raw)); [constructor|].
  apply Forall_forall. intros b Hb. apply list_elem_of_In, List.filter_In in Hb as [Hin Hne].
  apply list_elem_of_In, list_elem_of_fmap in Hin as (part & -> & _).
  apply negb_true_iff, not_is_empty in Hne. split; [done|apply TrimSpace_idemp].
Qed.

Lemma envDuration_range env quote key fallback d :
  - 2 ^ 63 <= fallback < 2 ^ 63 -> envDuration env quote key fallback = Ok d ->
  - 2 ^ 63 <= d < 2 ^ 63.
Proof.
  unfold envDuration. intros Hf H. destruct (is_empty _); [by simplify_eq|].
  case_bool_decide; [simplify_eq; lia|]. destruct (ParseDuration _) as [r|] eqn:E; [|done].
  simplify_eq. by eapply ParseDuration_bound.
Qed.

Lemma envInt32_range env quote key fallback n :
  envInt32 env quote key fallback = Ok n -> - 2 ^ 31 <= n < 2 ^ 31.
Proof.
  unfold envInt32. intros H. run_binds H. simplify_eq. bool_to_prop. lia.
Qed.

(** What the validation of a whole configuration establishes. *)
Record accepted (c : Config) : Prop := {
  acc_database : DatabaseURL c <> ""%string;
  acc_brokers : KafkaBrokers c <> [];
  acc_http : HTTPAddr c <> ""%string;
  acc_level : ToLower (LogLevel c) ∈ ["debug"; "info"; "warn"; "error"]%string;
  acc_conns : 0 <= DBMinConns c <= DBMaxConns c /\ 1 <= DBMaxConns c;
  acc_lifetime : 0 < DBMaxConnLifetime c;
  acc_security : KafkaSecurity.Validate (KafkaSecurity_ c) = Ok tt;
  acc_relay : RelayConfig.Validate (Relay_ c) = Ok tt;
  acc_admin : ValidateAdmin (Admin c) = Ok tt;
}.

Lemma Validate_accepted c : Validate c = Ok tt -> accepted c.
Proof.
  unfold Validate. intros H. run_binds H. destruct v, v0.
  destruct (RelayConfig.Validate (Relay_ c)) as [[]|] eqn:Er; [|done].
  split; try done; bool_to_prop; try lia; try by apply not_is_empty.
  - intros Hn. by rewrite Hn in E0.
  - exact E2.
Qed.

(** Who can reach an enabled administrative listener. *)
Definition guarded (c : AdminConfig) : Prop :=
  Enabled c = true ->
  (exists host port, SplitHostPort (Addr c) = Some (host, port) /\
     (Token c = ""%string -> loopback_host host = true)) /\
  go_len (Token c) <= 4096 /\ 13%N ∉ bytes (Token c) /\ 10%N ∉ bytes (Token c).

Lemma ValidateAdmin_guarded c : ValidateAdmin c = Ok tt -> guarded c.
Proof.
  unfold ValidateAdmin, guarded. intros H Hen. rewrite Hen in H. cbn [negb] in H.
  destruct (SplitHostPort (Addr c)) as [[host port]|]; [|done]. run_binds H.
  apply orb_false_iff in E0 as [Hlen Hb]. split.
  - exists host, port. split; [done|]. intros Ht. rewrite Ht in E. cbn in E.
    rewrite andb_true_r in E. by apply negb_false_iff.
  - split; [lia|]. split; intros Hin%list_elem_of_In;
      (assert (existsb (fun b => (b =? 13)%N || (b =? 10)%N) (bytes (Token c)) = true);
       [apply existsb_exists; eexists; split; [exact Hin|done]|congruence]).
Qed.

Lemma load_relay_poll env quote id relay :
  load_relay env quote id = Ok relay -> IdleBackoffMax relay = 5 * Second.
Proof. unfold load_relay. intros H. run_binds H. by simplify_eq. Qed.

Lemma Load_accepted env quote newID cfg :
  Load env quote newID = Ok cfg ->
  accepted cfg /\ Forall (fun b => b <> ""%string /\ TrimSpace b = b) (KafkaBrokers cfg).
Proof.
  unfold Load. intros H. run_binds H. destruct v7.
  match goal with E : Validate _ = Ok _ |- _ => apply Validate_accepted in E end.
  simplify_eq. split; [done|]. apply splitCSV_trimmed.
Qed.

(** C37: What a started process runs with. A configuration [Load] returns has a
    database URL and at least one broker, all trimmed and none empty, a known
    log level, connection limits within 32 bits with 0 <= min <= max, accepted
    Kafka security settings and relay settings (with everything the relay's
    theorems assume of them), a polling interval of at most five seconds, and
    an administrative listener that, when enabled, needs a token unless its
    host is the local machine. *)
Theorem Load_accepts env quote newID cfg :
  Load env quote newID = Ok cfg ->
  DatabaseURL cfg <> ""%string /\ TrimSpace (DatabaseURL cfg) = DatabaseURL cfg /\
  KafkaBrokers cfg <> [] /\
  Forall (fun b => b <> ""%string /\ TrimSpace b = b) (KafkaBrokers cfg) /\
  ToLower (LogLevel cfg) ∈ ["debug"; "info"; "warn"; "error"]%string /\
  (0 <= DBMinConns cfg <= DBMaxConns cfg /\ 1 <= DBMaxConns cfg < 2 ^ 31) /\
  KafkaSecurity.Validate (KafkaSecurity_ cfg) = Ok tt /\
  valid_config (Relay_ cfg) /\
  0 < PollInterval (Relay_ cfg) <= 5 * Second /\
  guarded (Admin cfg).
Proof.
  unfold Load. intros H. run_binds H. destruct v7.
  match goal with E : envInt32 _ _ "EMITLANE_DB_MAX_CONNS" _ = Ok _ |- _ =>
    apply envInt32_range in E end.
  match goal with E : load_relay _ _ _ = Ok _ |- _ => apply load_relay_poll in E end.
  match goal with E : Validate _ = Ok _ |- _ => apply Validate_accepted in E as [] end.
  simplify_eq. cbn in *. pose proof (Validate_ok _ acc_relay0) as Hr. pose proof (vc_poll _ Hr).
  split_and!; try done; try lia.
  - apply TrimSpace_idemp.
  - apply splitCSV_trimmed.
  - by apply ValidateAdmin_guarded.
Qed.

(** ** Examples *)

Definition minimal_env : gmap string string :=
  {[ "EMITLANE_DATABASE_URL"%string := " postgres://db/app "%string;
     "EMITLANE_KAFKA_BROKERS"%string := "b1:9092, b2:9092,,"%string ]}.

Lemma Load_accepts_witness :
  exists cfg, Load minimal_env (fun s => s) "host-1" = Ok cfg /\
    valid_config (Relay_ cfg) /\ KafkaBrokers cfg = ["b1:9092"; "b2:9092"]%string.
Proof.
  destruct (Load minimal_env (fun s => s) "host-1") as [cfg|] eqn:E; [|vm_compute in E; discriminate].
  exists cfg. split; [reflexivity|].
  split; [apply (Load_accepts minimal_env (fun s => s) "host-1" cfg E)|].
  vm_compute in E. injection E as <-. reflexivity.
Defined.

(** A polling interval above five seconds is refused, with a message about a
    setting the environment cannot change. *)
Example Load_slow_poll :
  Load (<["EMITLANE_RELAY_POLL_INTERVAL"%string := "10s"%string]> minimal_env) (fun s => s) "host-1"
    = Err "idle backoff max must be >= poll interval"%string.
Proof. vm_compute. reflexivity. Qed.

(** A listener on every address needs a token. *)
Example Load_open_admin :
  Load (<["EMITLANE_ADMIN_ENABLED"%string := "yes"%string]>
         (<["EMITLANE_ADMIN_ADDR"%string := ":8081"%string]> minimal_env)) (fun s => s) "host-1"
    = Err "EMITLANE_ADMIN_TOKEN is required when EMITLANE_ADMIN_ADDR is not loopback"%string.
Proof. vm_compute. reflexivity. Qed.

End ConfigLoad.
