(* ===== verification/Soak.v ===== *)
(** * The soak test's oracle ([cmd/emitlane-soak/verifier.go], [model.go], [audit.go])

    The long-running test of the system judges a run by the records it reads
    back from Kafka. This file models that judgement: the verifier's state and
    its observations, the final audit over immutable topic ranges, the snapshot
    and the verdict. The properties say that the verdict is the right one: the
    order counters are zero exactly for a log in order, and a log the verified
    protocol can produce is always accepted. The Kafka client, UUID texts and
    error texts are arguments. *)
From Stdlib Require Import ZArith QArith String Ascii Qround.
From stdpp Require Import base gmap strings list fin_maps sorting relations.
From S2P Require Import Prelude GoStrings GoParse Float64 Schema Invariant PartitionStore RelayConfig.
From S2P Require Import Relay System Kafka.

#[local] Open Scope Z_scope.

Module Soak.
Import Kafka.
#[local] Open Scope emitlane_scope.

(** ** State *)

Record expectedEvent : Type := MkExpected {
  ee_ordered : bool;
  ee_stream : string;
  ee_sequence : Z;
  ee_committedAt : time;
}.

Record Diagnostic : Type := MkDiagnostic {
  dg_Kind : string;
  dg_EventID : string;
  dg_Stream : string;
  dg_PreviousSequence : Z;
  dg_ObservedSequence : Z;
  dg_Detail : string;
}.

(** [observed] keeps the time of the first observation; the audit stores the
    zero time, [None]. *)
Record verifier : Type := MkVerifier {
  expected : gmap uuid expectedEvent;
  observed : gmap uuid (option time);
  lastSequence : gmap string Z;
  latencies : list Q;
  orderedCommitted : Z;
  unorderedCommitted : Z;
  brokerRecords : Z;
  regressions : Z;
  skips : Z;
  errors : Z;
  diagnostics : list Diagnostic;
}.

Definition newVerifier : verifier :=
  MkVerifier ∅ ∅ ∅ [] 0 0 0 0 0 0 [].

(** Milliseconds between two times: whole microseconds over a thousand. *)
Definition latency (at_ from : time) : Q := f64_div (f64_of_int (Z.quot (at_ - from) 1000)) 1000.

(** [t.Sub] from the zero time of Go is out of the range of a duration and
    saturates at the least one. *)
Definition latency_from_zero : Q := f64_div (f64_of_int (Z.quot (- 2 ^ 63) 1000)) 1000.

Definition committed (v : verifier) (id : uuid) (meta : expectedEvent) : verifier :=
  MkVerifier (<[id := meta]> (expected v)) (observed v) (lastSequence v)
    (match observed v !! id with
     | Some (Some at_) => latencies v ++ [latency at_ (ee_committedAt meta)]
     | Some None => latencies v ++ [latency_from_zero]
     | None => latencies v
     end)
    (if ee_ordered meta then orderedCommitted v + 1 else orderedCommitted v)
    (if ee_ordered meta then unorderedCommitted v else unorderedCommitted v + 1)
    (brokerRecords v) (regressions v) (skips v) (errors v) (diagnostics v).

(** The value of the first header with a name, or the empty string. *)
Fixpoint find_header (headers : list (string * string)) (key : string) : string :=
  match headers with
  | [] => ""%string
  | (k, v) :: headers => if bool_decide (k = key) then v else find_header headers key
  end.
Definition header (r : kgo_record) (key : string) : string := find_header (kr_Headers r) key.

Definition addDiagnostic (d : Diagnostic) (l : list Diagnostic) : list Diagnostic :=
  if (length l <? 100)%nat then l ++ [d] else l.

Section observe.
Context (uuid_Parse : string -> option uuid) (uuid_String : uuid -> string).
Context (parse_error sequence_error : string -> string).
(** [%q] *)
Context (quote : string -> string).

(** The stream and the order check of a record seen for the first time. *)
Definition check_order (v : verifier) (r : kgo_record) (id : uuid) : verifier :=
  let orderingKey := header r HeaderOrderingKey in
  if bool_decide (orderingKey = ""%string) then v else
  let text := header r HeaderSequence in
  match ParseInt text 64 with
  | None =>
      MkVerifier (expected v) (observed v) (lastSequence v) (latencies v) (orderedCommitted v)
        (unorderedCommitted v) (brokerRecords v) (regressions v) (skips v) (errors v + 1)
        (addDiagnostic (MkDiagnostic "invalid_sequence" (uuid_String id) "" 0 0 (sequence_error text))
           (diagnostics v))
  | Some sequence =>
      let stream := (kr_Topic r +:+ "/" +:+ orderingKey)%string in
      let previous := default 0 (lastSequence v !! stream) in
      let regression := negb (previous =? 0) && (sequence <? previous) in
      let skip := negb regression && (int64_add previous 1 <? sequence) in
      MkVerifier (expected v) (observed v)
        (if previous <? sequence then <[stream := sequence]> (lastSequence v) else lastSequence v)
        (latencies v) (orderedCommitted v) (unorderedCommitted v) (brokerRecords v)
        (if regression then regressions v + 1 else regressions v)
        (if skip then skips v + 1 else skips v) (errors v)
        (if regression then
           addDiagnostic (MkDiagnostic "ordering_regression" (uuid_String id) stream previous sequence "")
             (diagnostics v)
         else if skip then
           addDiagnostic (MkDiagnostic "ordering_skip" (uuid_String id) stream previous sequence "")
             (diagnostics v)
         else diagnostics v)
  end.

(** [observeRecord]; [now] is [None] for the audit, which records no latency. *)
Definition observeRecord (v : verifier) (r : kgo_record) (now : option time) : verifier :=
  let text := header r HeaderEventID in
  match uuid_Parse text with
  | None =>
      MkVerifier (expected v) (observed v) (lastSequence v) (latencies v) (orderedCommitted v)
        (unorderedCommitted v) (brokerRecords v + 1) (regressions v) (skips v) (errors v + 1)
        (addDiagnostic (MkDiagnostic "invalid_event_id" "" "" 0 0 (parse_error text)) (diagnostics v))
  | Some id =>
      match observed v !! id with
      | Some _ =>
          MkVerifier (expected v) (observed v) (lastSequence v) (latencies v) (orderedCommitted v)
            (unorderedCommitted v) (brokerRecords v + 1) (regressions v) (skips v) (errors v)
            (diagnostics v)
      | None =>
          check_order
            (MkVerifier (expected v) (<[id := now]> (observed v)) (lastSequence v)
               (match now, expected v !! id with
                | Some t, Some meta => latencies v ++ [latency t (ee_committedAt meta)]
                | _, _ => latencies v
                end)
               (orderedCommitted v) (unorderedCommitted v) (brokerRecords v + 1) (regressions v)
               (skips v) (errors v) (diagnostics v))
            r id
      end
  end.

Definition observe (v : verifier) (r : kgo_record) (now : time) : verifier :=
  observeRecord v r (Some now).
Definition observeForAudit (v : verifier) (r : kgo_record) : verifier := observeRecord v r None.

Definition auditClone (v : verifier) : verifier :=
  MkVerifier (expected v) ∅ ∅ (latencies v) (orderedCommitted v) (unorderedCommitted v) 0 0 0 0 [].

Definition adoptAudit (v audit : verifier) : verifier :=
  MkVerifier (expected v) (observed audit) (lastSequence audit) (latencies v) (orderedCommitted v)
    (unorderedCommitted v) (brokerRecords audit) (regressions audit) (skips audit) (errors audit)
    (diagnostics audit).

(** ** The final audit *)

(** The progress of one partition: whether it is complete. A record at or past
    the end offset fixed before the scan is ignored. *)
Fixpoint audit_records (target : Z) (audit : verifier) (records : list kgo_record) : verifier * bool :=
  match records with
  | [] => (audit, false)
  | r :: records =>
      if target <=? kr_Offset r then audit_records target audit records else
      let audit := observeForAudit audit r in
      if target <=? kr_Offset r + 1 then (audit, true) else audit_records target audit records
  end.

Record audit_state : Type := MkAudit {
  au_verifier : verifier;
  au_completed : gset (string * Z);
  au_remaining : Z;
}.

Definition audit_partition (targets : gmap (string * Z) Z) (a : audit_state)
    (fetched : (string * Z) * list kgo_record) : audit_state :=
  match targets !! fetched.1 with
  | None => a
  | Some target =>
      if (target =? 0) || bool_decide (fetched.1 ∈ au_completed a) then a else
      let '(v, complete) := audit_records target (au_verifier a) fetched.2 in
      if complete
      then MkAudit v ({[ fetched.1 ]} ∪ au_completed a) (au_remaining a - 1)
      else MkAudit v (au_completed a) (au_remaining a)
  end.

(** A fetch: an error text, or the records of each partition. *)
Inductive fetch : Type :=
| FetchError (message : string)
| FetchPartitions (partitions : list ((string * Z) * list kgo_record)).

(** The loop over the client's fetches; [None] while records are missing. *)
Fixpoint audit_loop (targets : gmap (string * Z) Z) (a : audit_state) (fetches : list fetch)
  : option (result string verifier) :=
  if au_remaining a <=? 0 then Some (Ok (au_verifier a)) else
  match fetches with
  | [] => None
  | FetchError message :: _ => Some (Err ("kafka audit fetch " +:+ message)%string)
  | FetchPartitions partitions :: fetches =>
      audit_loop targets (foldl (audit_partition targets) a partitions) fetches
  end.

(** The end offsets of the topics: per topic the partitions with an error text
    or an offset. *)
Definition end_offsets : Type := gmap string (list (Z * result string Z)).

Fixpoint topic_targets (topic : string) (partitions : list (Z * result string Z))
    (targets : gmap (string * Z) Z) : result string (gmap (string * Z) Z) :=
  match partitions with
  | [] => Ok targets
  | (p, Err e) :: _ => Err ("kafka audit topic " +:+ quote topic +:+ " partition " +:+ Itoa p +:+ ": " +:+ e)%string
  | (p, Ok offset) :: partitions =>
      fail_if offset <? 0
        with ("kafka audit topic " +:+ quote topic +:+ " partition " +:+ Itoa p
              +:+ " has invalid end offset " +:+ Itoa offset)%string;
      topic_targets topic partitions (<[(topic, p) := offset]> targets)
  end.

Fixpoint audit_targets (topics : list string) (ends : end_offsets) (targets : gmap (string * Z) Z)
  : result string (gmap (string * Z) Z) :=
  match topics with
  | [] => Ok targets
  | topic :: topics =>
      match ends !! topic with
      | None | Some [] => Err ("kafka audit topic " +:+ quote topic +:+ " has no partitions")%string
      | Some partitions =>
          let! targets := topic_targets topic partitions targets in
          audit_targets topics ends targets
      end
  end.

Definition auditKafka (topics : list string) (ends : end_offsets) (live : verifier)
    (fetches : list fetch) : option (result string verifier) :=
  match audit_targets topics ends ∅ with
  | Err e => Some (Err e)
  | Ok targets =>
      let remaining := Z.of_nat (length (filter (fun kv => 0 < kv.2) (map_to_list targets))) in
      audit_loop targets (MkAudit (auditClone live) ∅ remaining) fetches
  end.

(** ** Snapshot *)

Record verifierSnapshot : Type := MkSnapshot {
  sn_committed : Z;
  sn_ordered : Z;
  sn_unordered : Z;
  sn_observed : Z;
  sn_records : Z;
  sn_duplicates : Z;
  sn_lost : Z;
  sn_regressions : Z;
  sn_skips : Z;
  sn_errors : Z;
  sn_latencies : list Q;
  sn_diagnostics : list Diagnostic;
}.

Definition missing (v : verifier) : gmap uuid expectedEvent :=
  filter (fun kv => observed v !! kv.1 = None) (expected v).
Definition unexpected (v : verifier) : gmap uuid (option time) :=
  filter (fun kv => expected v !! kv.1 = None) (observed v).

Definition string_le (a b : string) : Prop := String.leb a b = true.
#[local] Instance string_le_dec : RelDecision string_le.
Proof. intros a b. unfold string_le. apply _. Defined.
Definition missing_le (a b : uuid * expectedEvent) : Prop := string_le (uuid_String a.1) (uuid_String b.1).
#[local] Instance missing_le_dec : RelDecision missing_le.
Proof. intros a b. unfold missing_le. apply _. Defined.

Definition lost_diagnostic (kv : uuid * expectedEvent) : Diagnostic :=
  MkDiagnostic "lost_event" (uuid_String kv.1) (ee_stream kv.2) 0 (ee_sequence kv.2) "".

Definition snapshotDetails (v : verifier) (includeLost : bool) : verifierSnapshot :=
  let committed := Z.of_nat (size (expected v)) in
  let observedExpected := Z.of_nat (size (filter (fun kv => observed v !! kv.1 <> None) (expected v))) in
  MkSnapshot committed (orderedCommitted v) (unorderedCommitted v) observedExpected (brokerRecords v)
    (Z.max 0 (brokerRecords v - Z.of_nat (size (observed v)))) (committed - observedExpected)
    (regressions v) (skips v) (errors v + Z.of_nat (size (unexpected v))) (latencies v)
    (if includeLost
     then foldl (fun l kv => addDiagnostic (lost_diagnostic kv) l) (diagnostics v)
            (merge_sort missing_le (map_to_list (missing v)))
     else diagnostics v).

End observe.

(** ** Configuration, percentiles and the verdict ([model.go], [runner.go]) *)

Record GitProvenance : Type := MkGitProvenance {
  Commit : string;
  Branch : string;
  Dirty : bool;
  DiffSHA256 : string;
}.

Record Config : Type := MkConfig {
  RunID : string;
  Profile : string;
  Seed : Z;
  Duration : duration;
  RecoveryTimeout : duration;
  Warmup : duration;
  Relays : Z;
  OrderedStreams : Z;
  OrderedPercent : Z;
  EventsPerSecond : Z;
  FaultInterval : duration;
  Faults : bool;
  PayloadBytes : Z;
  RelayMaxAttempts : Z;
  RelayBaseDelay : duration;
  RelayMaxDelay : duration;
  AllowDirty : bool;
  Source : GitProvenance;
}.

Definition soakRelayMaxAttempts : Z := 100.
Definition soakRelayBaseDelay : duration := 500 * Millisecond.
Definition soakRelayMaxDelay : duration := 5 * Second.

Definition profile_of (name : string) (d rt w : duration) (relays streams rate : Z) (fault : duration)
    (payload : Z) : Config :=
  {| RunID := ""; Profile := name; Seed := 0; Duration := d; RecoveryTimeout := rt; Warmup := w; Relays := relays;
     OrderedStreams := streams; OrderedPercent := 80; EventsPerSecond := rate; FaultInterval := fault;
     Faults := true; PayloadBytes := payload; RelayMaxAttempts := soakRelayMaxAttempts;
     RelayBaseDelay := soakRelayBaseDelay; RelayMaxDelay := soakRelayMaxDelay;
     AllowDirty := false; Source := MkGitProvenance "" "" false "" |}.

Definition profile (quote : string -> string) (name : string) : result string Config :=
  if bool_decide (name = "quick"%string)
  then Ok (profile_of name (90 * Second) (3 * Minute) (3 * Second) 2 100 40 (12 * Second) 256)
  else if bool_decide (name = "standard"%string)
  then Ok (profile_of name (20 * Minute) (5 * Minute) (10 * Second) 4 1000 120 (45 * Second) 512)
  else if bool_decide (name = "release"%string)
  then Ok (profile_of name Hour (10 * Minute) (15 * Second) 4 3500 250 Minute 512)
  else Err ("unknown profile " +:+ quote name +:+ " (want quick, standard, or release)")%string.

Definition validate (c : Config) : result string unit :=
  fail_if (Duration c <=? 0) || (RecoveryTimeout c <=? 0) || (Warmup c <? 0)
    with "duration and recovery-timeout must be positive; warmup must not be negative"%string;
  fail_if (Relays c <? 1) || (OrderedStreams c <? 1) || (EventsPerSecond c <? 1) || (PayloadBytes c <? 1)
    with "relays, streams, rate and payload bytes must be positive"%string;
  fail_if (OrderedPercent c <? 1) || (99 <? OrderedPercent c)
    with "ordered percent must be between 1 and 99"%string;
  fail_if (RelayMaxAttempts c <? 1) || (RelayBaseDelay c <=? 0) || (RelayMaxDelay c <? RelayBaseDelay c)
    with "relay retry attempts and delays must define a valid positive policy"%string;
  Ok tt.

#[local] Instance Qle_rel_dec : RelDecision Qle.
Proof. intros x y. destruct (Qlt_le_dec y x); [right; by apply Qlt_not_le|by left]. Defined.

(** [percentile]: the value at the rank, after sorting. *)
Definition percentile (values : list Q) (p : Q) : Q :=
  match values with
  | [] => 0%Q
  | _ =>
      let sorted := merge_sort Qle values in
      let idx := Qceiling (f64_mul (f64_of_int (Z.of_nat (length sorted))) p) - 1 in
      let idx := if idx <? 0 then 0 else idx in
      let idx := if Z.of_nat (length sorted) <=? idx then Z.of_nat (length sorted) - 1 else idx in
      default 0%Q (sorted !! Z.to_nat idx)
  end.

(** The final counts the verdict looks at. *)
Record Result : Type := MkResult {
  LostEvents : Z;
  OrderingRegressions : Z;
  OrderingSkips : Z;
  PendingFinal : Z;
  InflightFinal : Z;
  DeadFinal : Z;
  BlockedStreamsFinal : Z;
  GapStreamsFinal : Z;
  IntegrityViolations : Z;
  InfrastructureErrors : Z;
}.

Definition verdict_checks (r : Result) : list (string * Z) :=
  [("lost committed events", LostEvents r); ("ordering regressions", OrderingRegressions r);
   ("unexpected sequence skips", OrderingSkips r); ("pending final", PendingFinal r);
   ("inflight final", InflightFinal r); ("dead final", DeadFinal r);
   ("blocked ordered streams final", BlockedStreamsFinal r); ("gap streams final", GapStreamsFinal r);
   ("integrity violations", IntegrityViolations r);
   ("infrastructure/runner errors", InfrastructureErrors r)]%string.

Definition verdict (r : Result) : option string :=
  (fun c => (c.1 +:+ ": " +:+ Itoa c.2)%string) <$> List.find (fun c => negb (c.2 =? 0)) (verdict_checks r).

(** What [queueState] counts: pending, in flight, dead, blocked and gap
    streams. [finish] ignores a failing query and keeps the zeros. *)
Definition queue_counts : Type := Z * Z * Z * Z * Z.

Definition final_result (snap : verifierSnapshot) (infrastructure : Z) (queue : option queue_counts)
    (violations : Z) : Result :=
  let '(pending, inflight, dead, blocked, gaps) := default (0, 0, 0, 0, 0) queue in
  MkResult (sn_lost snap) (sn_regressions snap) (sn_skips snap) pending inflight dead blocked gaps
    violations (infrastructure + sn_errors snap).

(** The end of [finish]: the final state, the reason and the exit code. *)
Definition finish (result : Result) (requestedState : string) (prior : option string)
    (requestedCode : Z) : string * string * Z :=
  let '(state, reason, code) :=
    if bool_decide (requestedState = "completed"%string) then
      let reason := default ""%string prior in
      let reason := match verdict result with
                    | Some err => ((if bool_decide (reason = ""%string) then "" else reason +:+ "; ")
                                   +:+ err)%string
                    | None => reason
                    end in
      if bool_decide (reason = ""%string) then (requestedState, ""%string, requestedCode)
      else ("failed"%string, reason, 1)
    else (requestedState, ""%string, requestedCode) in
  let reason := match prior with
                | Some text => if bool_decide (reason = ""%string) then text else reason
                | None => reason
                end in
  (state, reason, code).

(** * Lemmas *)

(** ** Lists in order *)

Definition stream_seqs (k : string) (l : list (string * Z)) : list Z := (filter (fun e => e.1 = k) l).*2.

Lemma stream_seqs_snoc k l e :
  stream_seqs k (l ++ [e]) = stream_seqs k l ++ (if bool_decide (e.1 = k) then [e.2] else []).
Proof.
  unfold stream_seqs. rewrite filter_app, fmap_app. f_equal.
  rewrite filter_cons, filter_nil. case_decide; by case_bool_decide.
Qed.

(** What may follow the last element of a list in order. *)
Definition next_ok (start : Z) (o : option Z) (n : Z) : Prop :=
  match o with Some x => n = x \/ n = x + 1 | None => n = start end.

Lemma contiguous_snoc_iff start l n :
  contiguous start (l ++ [n]) <-> contiguous start l /\ next_ok start (last l) n.
Proof.
  destruct (decide (l = [])) as [->|Hne].
  - unfold contiguous. cbn. split.
    + intros [H _]. split; [split; [done|by intros []]|by apply H].
    + intros [_ ->]. split; [by intros x [= ->]|]. intros [|i] x y; cbn; [done|by destruct i].
  - destruct (exists_last Hne) as (l' & x & ->). rewrite last_snoc. rewrite <- app_assoc. cbn [app].
    assert ((l' ++ [x; n]) !! S (length l') = Some n) as Hn.
    { rewrite lookup_app_r by lia. by rewrite Nat.sub_succ_l, Nat.sub_diag by lia. }
    assert ((l' ++ [x; n]) !! length l' = Some x) as Hx by (by apply list_lookup_middle).
    assert (forall i, (i <= length l')%nat -> (l' ++ [x; n]) !! i = (l' ++ [x]) !! i) as Hpre.
    { intros i Hi. change [x; n] with ([x] ++ [n]). rewrite app_assoc. apply lookup_app_l.
      rewrite length_app. cbn. lia. }
    unfold contiguous. rewrite Hpre by lia. split.
    + intros [H0 Hs]. split; [split; [done|]|by apply (Hs (length l'))].
      intros i a b Ha Hb. apply lookup_lt_Some in Hb as Hlt. rewrite length_app in Hlt. cbn in Hlt.
      apply (Hs i); rewrite Hpre by lia; done.
    + intros [[H0 Hs] Hnext]. split; [done|]. intros i a b Ha Hb.
      destruct (decide (S i <= length l')%nat) as [Hl|Hl].
      * rewrite Hpre in Ha, Hb by lia. by eapply Hs.
      * assert (i = length l') as -> by (apply lookup_lt_Some in Hb; rewrite length_app in Hb; cbn in Hb; lia).
        by simplify_eq.
Qed.

(** In a list in order the last element is the largest, and nothing is below
    the start. *)
Lemma contiguous_last start l x n :
  contiguous start l -> last l = Some x -> n ∈ l -> start <= n <= x.
Proof.
  revert x n. induction l as [|y l IH] using rev_ind; intros x n Hc Hl Hn; [done|].
  rewrite last_snoc in Hl. simplify_eq. apply contiguous_snoc_iff in Hc as [Hc Hy].
  unfold next_ok in Hy. destruct (last l) as [z|] eqn:El.
  - assert (z ∈ l) as Hz by (by apply last_Some_elem_of).
    destruct (IH z z Hc eq_refl Hz). apply elem_of_app in Hn as [Hn|Hn%list_elem_of_singleton]; [|lia].
    destruct (IH z n Hc eq_refl Hn). lia.
  - apply last_None in El. subst l. apply list_elem_of_singleton in Hn. lia.
Qed.

(** All streams of a log are in order. *)
Definition in_order (l : list (string * Z)) : Prop := forall k, contiguous 1 (stream_seqs k l).

Lemma in_order_nil : in_order [].
Proof. intros k. split; [done|by intros []]. Qed.

Lemma in_order_snoc l k n :
  in_order (l ++ [(k, n)]) <-> in_order l /\ next_ok 1 (last (stream_seqs k l)) n.
Proof.
  split.
  - intros Hc. split.
    + intros j. specialize (Hc j). rewrite stream_seqs_snoc in Hc. case_bool_decide.
      * by apply contiguous_snoc_iff in Hc as [Hc _].
      * by rewrite app_nil_r in Hc.
    + specialize (Hc k). rewrite stream_seqs_snoc, bool_decide_true in Hc by done.
      by apply contiguous_snoc_iff in Hc as [_ Hc].
  - intros [Hc Hlast] j. rewrite stream_seqs_snoc. case_bool_decide as E; cbn in E.
    + subst j. apply contiguous_snoc_iff. by split.
    + rewrite app_nil_r. apply Hc.
Qed.

(** ** The order check on its own *)

Definition in_range (n : Z) : Prop := 1 <= n < 2 ^ 63 - 1.

Definition is_regression (previous n : Z) : bool := negb (previous =? 0) && (n <? previous).
Definition is_skip (previous n : Z) : bool :=
  negb (is_regression previous n) && (int64_add previous 1 <? n).

(** What one observation leaves of the order check. *)
Definition order_step (st : gmap string Z * Z * Z) (e : string * Z) : gmap string Z * Z * Z :=
  let '(m, rg, sk) := st in
  let previous := default 0 (m !! e.1) in
  (if previous <? e.2 then <[e.1 := e.2]> m else m,
   if is_regression previous e.2 then rg + 1 else rg, if is_skip previous e.2 then sk + 1 else sk).

Lemma check_clean o n :
  in_range n -> (forall x, o = Some x -> in_range x) ->
  is_regression (default 0 o) n = false /\ is_skip (default 0 o) n = false <-> next_ok 1 o n.
Proof.
  unfold in_range, is_skip, is_regression, next_ok, int64_add. intros Hn Ho.
  destruct o as [x|]; cbn [from_option]; unfold Datatypes.id.
  - specialize (Ho x eq_refl). rewrite wrap64_small by lia.
    assert (negb (x =? 0) = true) as -> by (apply negb_true_iff, Z.eqb_neq; lia). cbn [andb].
    destruct (Z.ltb_spec n x), (Z.ltb_spec (x + 1) n); cbn; naive_solver lia.
  - rewrite wrap64_small by lia. cbn. destruct (Z.ltb_spec 1 n); naive_solver lia.
Qed.

(** A clean observation sets the last sequence of its stream. *)
Lemma last_updated (m : gmap string Z) k n :
  in_range n -> next_ok 1 (m !! k) n ->
  (if default 0 (m !! k) <? n then <[k := n]> m else m) = <[k := n]> m.
Proof.
  unfold in_range, next_ok. intros Hn H. destruct (m !! k) as [x|] eqn:E; cbn [from_option]; unfold Datatypes.id.
  - destruct (Z.ltb_spec x n); [done|]. symmetry. apply insert_id. rewrite E. f_equal. lia.
  - destruct (Z.ltb_spec 0 n); [done|lia].
Qed.

Lemma stream_seqs_range l k x :
  Forall (fun e => in_range e.2) l -> last (stream_seqs k l) = Some x -> in_range x.
Proof.
  intros Hr El%last_Some_elem_of. unfold stream_seqs in El.
  apply list_elem_of_fmap in El as ([k' x'] & -> & Hin). apply list_elem_of_filter in Hin as [_ Hin].
  by apply (proj1 (Forall_forall _ _) Hr) in Hin.
Qed.

Lemma count_zero (b : bool) c : 0 <= c -> (if b then c + 1 else c) = 0 <-> c = 0 /\ b = false.
Proof. destruct b; naive_solver lia. Qed.

(** The counters stay zero exactly on a log in order. *)
Lemma order_exact l :
  Forall (fun e => in_range e.2) l ->
  let '(m, rg, sk) := foldl order_step (∅, 0, 0) l in
  0 <= rg /\ 0 <= sk /\ (rg = 0 /\ sk = 0 <-> in_order l) /\
  (in_order l -> forall k, m !! k = last (stream_seqs k l)).
Proof.
  induction l as [|[k n] l IH] using rev_ind; intros Hr.
  { cbn. split_and!; try lia; [|done]. split; [|done]. intros _. apply in_order_nil. }
  apply Forall_app in Hr as [Hr [Hn _]%Forall_cons]. cbn in Hn. specialize (IH Hr).
  rewrite foldl_app. cbn [foldl]. destruct (foldl order_step (∅, 0, 0) l) as [[m rg] sk].
  destruct IH as (H1 & H2 & Hiff & Hm). unfold order_step. cbn [fst snd].
  split; [case_match; lia|]. split; [case_match; lia|].
  rewrite !count_zero, in_order_snoc by done.
  assert (in_order l -> is_regression (default 0 (m !! k)) n = false /\
            is_skip (default 0 (m !! k)) n = false <-> next_ok 1 (last (stream_seqs k l)) n) as Hstep.
  { intros Hz. rewrite (Hm Hz k). apply check_clean; [done|]. intros x. by apply stream_seqs_range. }
  split.
  { split.
    - intros [[Hr0 Ha] [Hs0 Hb]]. assert (in_order l) as Hc by (by apply Hiff).
      split; [done|]. by apply Hstep.
    - intros [Hc Hk]. destruct (proj2 Hiff Hc), (proj2 (Hstep Hc) Hk). done. }
  intros [Hc Hnext] j.
  rewrite last_updated by (done || by rewrite (Hm Hc k)). rewrite stream_seqs_snoc.
  case_bool_decide as E; cbn in E.
  - subst j. by rewrite lookup_insert_eq, last_snoc.
  - rewrite lookup_insert_ne, app_nil_r by done. by apply Hm.
Qed.

(** ** Runs of observations *)

Section runs.
Context (uuid_Parse : string -> option uuid) (uuid_String : uuid -> string).
Context (parse_error sequence_error : string -> string).

Notation observeForAudit := (observeForAudit uuid_Parse uuid_String parse_error sequence_error).

Definition record_id (r : kgo_record) : option uuid := uuid_Parse (header r HeaderEventID).

(** The stream and sequence of an ordered record. *)
Definition ordered_entry (r : kgo_record) : option (string * Z) :=
  if bool_decide (header r HeaderOrderingKey = ""%string) then None else
  (fun n => (kr_Topic r +:+ "/" +:+ header r HeaderOrderingKey, n)%string)
    <$> ParseInt (header r HeaderSequence) 64.

(** Whether a record names an ordering key without a readable sequence. *)
Definition bad_sequence (r : kgo_record) : bool :=
  negb (bool_decide (header r HeaderOrderingKey = ""%string)) && bool_decide (ordered_entry r = None).

(** The first record of every event. *)
Fixpoint first_records (seen : gset uuid) (rs : list kgo_record) : list kgo_record :=
  match rs with
  | [] => []
  | r :: rs =>
      match record_id r with
      | None => first_records seen rs
      | Some id => if bool_decide (id ∈ seen) then first_records seen rs
                   else r :: first_records ({[ id ]} ∪ seen) rs
      end
  end.

Definition bad_count (P : kgo_record -> bool) (rs : list kgo_record) : Z :=
  Z.of_nat (length (List.filter P rs)).
Definition bad_id (r : kgo_record) : bool := bool_decide (record_id r = None).

Lemma bad_count_cons P r rs :
  bad_count P (r :: rs) = (if P r then 1 else 0) + bad_count P rs.
Proof. unfold bad_count. cbn [List.filter]. destruct (P r); cbn [length]; lia. Qed.

Definition order_state (v : verifier) : gmap string Z * Z * Z :=
  (lastSequence v, regressions v, skips v).

(** The ids of a list of records. *)
Definition record_ids (rs : list kgo_record) : gset uuid := list_to_set (omap record_id rs).

Lemma check_order_spec v r id :
  order_state (check_order uuid_String sequence_error v r id)
    = match ordered_entry r with Some e => order_step (order_state v) e | None => order_state v end /\
  errors (check_order uuid_String sequence_error v r id)
    = (if bad_sequence r then errors v + 1 else errors v) /\
  observed (check_order uuid_String sequence_error v r id) = observed v /\
  expected (check_order uuid_String sequence_error v r id) = expected v.
Proof.
  unfold check_order, bad_sequence, ordered_entry. case_bool_decide as Ek; [done|].
  destruct (ParseInt _ 64) as [n|]; done.
Qed.

(** A run of the audit: its order check is that of the first records, it sees
    exactly the ids of the records, and it counts the unreadable ones. *)
Lemma observe_run rs v :
  let v' := foldl observeForAudit v rs in
  let firsts := first_records (dom (observed v)) rs in
  order_state v' = foldl order_step (order_state v) (omap ordered_entry firsts) /\
  dom (observed v') = dom (observed v) ∪ record_ids rs /\
  expected v' = expected v /\
  errors v' = errors v + bad_count bad_id rs + bad_count bad_sequence firsts.
Proof.
  revert v. induction rs as [|r rs IH]; intros v; cbn [foldl first_records].
  { split_and!; [done|unfold record_ids; set_solver|done|]. unfold bad_count. cbn [List.filter length]. lia. }
  specialize (IH (observeForAudit v r)). cbv zeta in IH |- *.
  unfold Soak.observeForAudit, observeRecord in IH |- *. fold (record_id r) in IH |- *.
  unfold record_ids. cbn [omap list_omap]. rewrite bad_count_cons. unfold bad_id at 1.
  destruct (record_id r) as [id|] eqn:Eid; cbn [list_to_set].
  - rewrite (bool_decide_false (Some id = None)) by done. destruct (observed v !! id) as [t|] eqn:Eo.
    + assert (id ∈ dom (observed v)) by (by apply elem_of_dom).
      cbn [observed expected errors] in IH. rewrite bool_decide_true by done.
      destruct IH as (-> & -> & -> & ->). split_and!; [done|set_solver|done|lia].
    + assert (id ∉ dom (observed v)) as Hn by (by apply not_elem_of_dom).
      rewrite bool_decide_false by done.
      match type of IH with context [check_order _ _ ?w r id] =>
        destruct (check_order_spec w r id) as (Ho & He & Hob & Hex) end.
      rewrite Hob, Hex, Ho, He in IH. cbn [observed expected errors] in IH.
      rewrite dom_insert_L in IH. destruct IH as (-> & -> & -> & ->).
      cbn [omap list_omap]. rewrite bad_count_cons. split_and!; [|set_solver|done|].
      * by destruct (ordered_entry r).
      * destruct (bad_sequence r); lia.
  - cbn [observed expected errors] in IH. rewrite (bool_decide_true (None = None)) by done.
    destruct IH as (-> & -> & -> & ->). split_and!; [done|set_solver|done|lia].
Qed.

(** ** What the snapshot counts *)

Lemma bad_count_zero P rs : bad_count P rs = 0 <-> forall r, r ∈ rs -> P r = false.
Proof.
  induction rs as [|r rs IH]; [split; [set_solver|done]|].
  rewrite bad_count_cons. assert (0 <= bad_count P rs) by (unfold bad_count; lia). split.
  - intros H0 x [->|Hx]%elem_of_cons; [destruct (P r); [lia|done]|].
    apply IH; [destruct (P r); lia|done].
  - intros Hall. rewrite (Hall r) by (by left). apply IH. intros x Hx. apply Hall. by right.
Qed.

Lemma filter_all_size {A} (P : uuid * A -> Prop) `{!forall x, Decision (P x)} (m : gmap uuid A) :
  size (filter P m) = size m <-> forall i x, m !! i = Some x -> P (i, x).
Proof.
  split.
  - intros Hs i x Hx. assert (filter P m = m) as Heq.
    { apply map_subseteq_size_eq; [apply map_filter_subseteq|lia]. }
    rewrite <- Heq in Hx. by apply map_lookup_filter_Some in Hx as [_ HP].
  - intros Hall. f_equal. apply map_filter_id. exact Hall.
Qed.

Lemma snapshot_lost v b :
  sn_lost (snapshotDetails uuid_String v b) = 0 <-> dom (expected v) ⊆ dom (observed v).
Proof.
  cbn. transitivity (size (filter (fun kv => observed v !! kv.1 <> None) (expected v)) = size (expected v));
    [lia|]. rewrite filter_all_size. cbn. split.
  - intros H id [meta Hm]%elem_of_dom. apply elem_of_dom. apply not_eq_None_Some. by eapply H.
  - intros H id meta Hm. apply not_eq_None_Some, elem_of_dom, H, elem_of_dom. eauto.
Qed.

Lemma snapshot_errors v b :
  0 <= errors v ->
  sn_errors (snapshotDetails uuid_String v b) = 0 <->
  errors v = 0 /\ dom (observed v) ⊆ dom (expected v).
Proof.
  intros Hp. cbn. transitivity (errors v = 0 /\ size (unexpected v) = 0%nat); [lia|].
  rewrite map_size_empty_iff. apply and_iff_compat_l. unfold unexpected. rewrite map_empty_filter.
  split.
  - intros H id [t Ht]%elem_of_dom. apply elem_of_dom, not_eq_None_Some. by apply (H id t).
  - intros H id t Ht He. assert (id ∈ dom (expected v)) as [meta Hm]%elem_of_dom
      by (apply H, elem_of_dom; eauto). cbn in He. congruence.
Qed.

(** What a flawless scan of the topics looks like: every record belongs to a
    committed event and is readable, every committed event is there, and the
    first records of every stream count 1, 2, 3, ... *)
Record flawless (events : gmap uuid expectedEvent) (rs : list kgo_record) : Prop := {
  fl_complete : forall id, is_Some (events !! id) -> exists r, r ∈ rs /\ record_id r = Some id;
  fl_known : forall r, r ∈ rs -> exists id, record_id r = Some id /\ is_Some (events !! id);
  fl_readable : forall r, r ∈ first_records ∅ rs -> bad_sequence r = false;
  fl_order : in_order (omap ordered_entry (first_records ∅ rs));
}.

Lemma elem_of_record_ids id rs : id ∈ record_ids rs <-> exists r, r ∈ rs /\ record_id r = Some id.
Proof. unfold record_ids. rewrite elem_of_list_to_set, list_elem_of_omap. done. Qed.

(** The order counters and the observations of an audit. *)
Lemma audit_counters live rs :
  Forall (fun e => in_range e.2) (omap ordered_entry (first_records ∅ rs)) ->
  let audit := foldl observeForAudit (auditClone live) rs in
  (regressions audit = 0 /\ skips audit = 0 <-> in_order (omap ordered_entry (first_records ∅ rs))) /\
  dom (observed audit) = record_ids rs /\
  errors audit = bad_count bad_id rs + bad_count bad_sequence (first_records ∅ rs).
Proof.
  intros Hrange. pose proof (observe_run rs (auditClone live)) as Hrun. cbv zeta in Hrun |- *.
  set (audit := foldl observeForAudit (auditClone live) rs) in *. clearbody audit.
  change (dom (observed (auditClone live))) with (dom (∅ : gmap uuid (option time))) in Hrun.
  rewrite dom_empty_L in Hrun. destruct Hrun as (Ho & Hd & _ & Herr).
  change (order_state (auditClone live)) with ((∅, 0, 0) : gmap string Z * Z * Z) in Ho.
  pose proof (order_exact _ Hrange) as Hex. rewrite <- Ho in Hex. unfold order_state in Hex.
  destruct Hex as (_ & _ & Hiff & _). split_and!; [done|set_solver|].
  rewrite Herr. cbn [auditClone errors]. lia.
Qed.

(** Exactness on the level of the snapshot: no lost event, no regression, no
    skip and no error exactly for flawless records. *)
Lemma audit_verdict_exact live rs b :
  Forall (fun e => in_range e.2) (omap ordered_entry (first_records ∅ rs)) ->
  let final := snapshotDetails uuid_String
                 (adoptAudit live (foldl observeForAudit (auditClone live) rs)) b in
  sn_lost final = 0 /\ sn_regressions final = 0 /\ sn_skips final = 0 /\ sn_errors final = 0 <->
  flawless (expected live) rs.
Proof.
  intros Hrange. destruct (audit_counters live rs Hrange) as (Hord & Hids & Herr). cbv zeta in *.
  set (audit := foldl observeForAudit (auditClone live) rs) in *. clearbody audit.
  assert (0 <= bad_count bad_id rs /\ 0 <= bad_count bad_sequence (first_records ∅ rs)) as [Hp1 Hp2]
    by (unfold bad_count; lia).
  rewrite snapshot_lost, snapshot_errors by (cbn [adoptAudit errors]; lia).
  cbn [adoptAudit expected observed errors snapshotDetails sn_regressions sn_skips regressions skips].
  rewrite Herr. rewrite Hids.
  assert (bad_count bad_id rs + bad_count bad_sequence (first_records ∅ rs) = 0 <->
    (forall r, r ∈ rs -> bad_id r = false) /\
    (forall r, r ∈ first_records ∅ rs -> bad_sequence r = false)) as ->
    by (rewrite <- !bad_count_zero; lia).
  split.
  - intros (Hlost & Hr & Hs & [Hid Hseq] & Hun). split; [..|by apply Hord].
    + intros id Hi. apply elem_of_record_ids, Hlost, elem_of_dom, Hi.
    + intros r Hin. specialize (Hid r Hin). apply bool_decide_eq_false, not_eq_None_Some in Hid as [id Hid].
      exists id. split; [done|]. apply elem_of_dom, Hun, elem_of_record_ids. eauto.
    + done.
  - intros [Hc Hk Hseq Hin]. apply Hord in Hin as [Hr Hs]. split_and!; try done.
    + intros id Hi%elem_of_dom. by apply elem_of_record_ids, Hc.
    + intros r Hr'. destruct (Hk r Hr') as (id & Hid & _). by apply bool_decide_eq_false; rewrite Hid.
    + intros id (r & Hr' & Hid)%elem_of_record_ids. destruct (Hk r Hr') as (id' & Hid' & Hs').
      simplify_eq. by apply elem_of_dom.
Qed.

Lemma verdict_none r : verdict r = None <-> Forall (fun c => c.2 = 0) (verdict_checks r).
Proof.
  unfold verdict. generalize (verdict_checks r). intros l. induction l as [|c l IH]; cbn [List.find].
  { split; [constructor|done]. }
  rewrite Forall_cons. destruct (Z.eqb_spec (c.2) 0); cbn [negb]; [rewrite IH; naive_solver|].
  split; [done|naive_solver].
Qed.

Lemma snapshot_errors_nonneg v b : 0 <= errors v -> 0 <= sn_errors (snapshotDetails uuid_String v b).
Proof. cbn. lia. Qed.

(** A completed run ends with exit code zero exactly without an earlier error
    and with a clean verdict. *)
Lemma finish_completed r prior :
  prior <> Some ""%string ->
  (finish r "completed" prior 0).2 = 0 <-> prior = None /\ verdict r = None.
Proof.
  intros Hp. unfold finish. rewrite bool_decide_true by done.
  destruct (verdict r) as [e|] eqn:Ev.
  - assert (e <> ""%string) as He.
    { unfold verdict in Ev. destruct (List.find _ _) as [[name n]|] eqn:Ef; [|done].
      apply find_some in Ef as [Hin _]. cbn in Ev. simplify_eq.
      repeat (destruct Hin as [Hin|Hin]; [simplify_eq; done|]). done. }
    rewrite bool_decide_false; [split; [done|naive_solver]|]. case_bool_decide; [done|].
    by destruct (default ""%string prior).
  - destruct prior as [text|]; cbn; [|naive_solver]. rewrite bool_decide_false; [naive_solver|]. congruence.
Qed.

(** The soak test's judgement is exact. A run that completed without an
    earlier error, audited over the records of all topics, ends with exit code
    zero exactly when those records are flawless (complete, of committed
    events, readable, and in order 1, 2, 3, ... per stream), the queue is
    empty without blocked streams, the integrity check found no violation and
    no infrastructure error was counted. *)
Theorem soak_exit_exact live rs infrastructure pending inflight dead blocked gaps violations prior :
  Forall (fun e => in_range e.2) (omap ordered_entry (first_records ∅ rs)) ->
  0 <= infrastructure -> prior <> Some ""%string ->
  let audit := adoptAudit live (foldl observeForAudit (auditClone live) rs) in
  let result := final_result (snapshotDetails uuid_String audit true) infrastructure
                  (Some (pending, inflight, dead, blocked, gaps)) violations in
  (finish result "completed" prior 0).2 = 0 <->
  prior = None /\ flawless (expected live) rs /\
  pending = 0 /\ inflight = 0 /\ dead = 0 /\ blocked = 0 /\ gaps = 0 /\
  violations = 0 /\ infrastructure = 0.
Proof.
  intros Hrange Hinf Hp audit result. rewrite finish_completed, verdict_none by done.
  rewrite <- (audit_verdict_exact live rs true Hrange). fold audit.
  assert (0 <= sn_errors (snapshotDetails uuid_String audit true)).
  { apply snapshot_errors_nonneg. destruct (audit_counters live rs Hrange) as (_ & _ & He).
    cbv zeta in He. unfold audit. cbn [adoptAudit errors]. rewrite He. unfold bad_count. lia. }
  set (snap := snapshotDetails uuid_String audit true) in *. clearbody snap.
  unfold result, verdict_checks, final_result. cbn [default from_option id].
  rewrite !Forall_cons, Forall_nil. cbn [fst snd LostEvents OrderingRegressions OrderingSkips PendingFinal
    InflightFinal DeadFinal BlockedStreamsFinal GapStreamsFinal IntegrityViolations InfrastructureErrors].
  intuition lia.
Qed.

(** ** Logs of the verified protocol *)

(** The stream (destination and ordering key) and sequence of a record. *)
Definition log_entry (r : kgo_record) : option ((string * string) * Z) :=
  if bool_decide (header r HeaderOrderingKey = ""%string) then None else
  (fun n => ((kr_Topic r, header r HeaderOrderingKey), n)) <$> ParseInt (header r HeaderSequence) 64.

Definition stream_name (e : (string * string) * Z) : string * Z :=
  ((e.1.1 +:+ "/" +:+ e.1.2)%string, e.2).

Lemma ordered_entry_log r : ordered_entry r = stream_name <$> log_entry r.
Proof. unfold ordered_entry, log_entry. case_bool_decide; [done|]. by destruct (ParseInt _ _). Qed.

Lemma omap_ordered_entry (rs : list kgo_record) : omap ordered_entry rs = stream_name <$> omap log_entry rs.
Proof.
  induction rs as [|r rs IH]; [done|]. cbn [omap list_omap]. rewrite ordered_entry_log.
  rewrite IH. by destruct (log_entry r).
Qed.

(** A topic name without a slash, as Kafka requires. *)
Definition no_slash (t : string) : Prop := Cut "/"%char t = None.

Lemma Cut_joined t k : no_slash t -> Cut "/"%char (t +:+ String "/"%char k) = Some (t, k).
Proof.
  unfold no_slash. induction t as [|c t IH]; intros H; [done|].
  change (String c t +:+ String "/"%char k)%string with (String c (t +:+ String "/"%char k)).
  cbn [Cut] in H |- *. destruct (Ascii.eqb c "/"%char); [done|].
  destruct (Cut "/"%char t) as [[]|]; [done|]. by rewrite (IH eq_refl).
Qed.

Lemma stream_name_inj a b :
  no_slash a.1.1 -> no_slash b.1.1 -> (stream_name a).1 = (stream_name b).1 -> a.1 = b.1.
Proof.
  destruct a as [[t1 k1] n1], b as [[t2 k2] n2]. cbn. intros H1 H2 H.
  pose proof (Cut_joined t1 k1 H1) as C1. pose proof (Cut_joined t2 k2 H2) as C2.
  change (t1 +:+ String "/"%char k1 = t2 +:+ String "/"%char k2)%string in H. congruence.
Qed.

(** The records of a stream name are those of its stream. *)
Lemma stream_seqs_log (l : list ((string * string) * Z)) (key : string * string) :
  Forall (fun e => no_slash e.1.1) l -> no_slash key.1 ->
  stream_seqs (key.1 +:+ "/" +:+ key.2) (stream_name <$> l) = stream_log key l.
Proof.
  intros Hl Hk. unfold stream_seqs, stream_log.
  induction Hl as [|e l He Hl IH]; [done|]. cbn [fmap list_fmap]. rewrite !filter_cons.
  destruct (decide (e.1 = key)) as [Heq|Hne].
  - rewrite decide_True by (rewrite <- Heq; done). cbn. by rewrite IH.
  - rewrite decide_False; [done|]. intros H. apply Hne. by apply (stream_name_inj e (key, 0)).
Qed.

Lemma in_order_log (l : list ((string * string) * Z)) :
  Forall (fun e => no_slash e.1.1) l -> (forall key, contiguous 1 (stream_log key l)) ->
  in_order (stream_name <$> l).
Proof.
  intros Hl Hc k. destruct (stream_seqs k (stream_name <$> l)) as [|x xs] eqn:E.
  { split; [done|by intros []]. }
  assert (x ∈ stream_seqs k (stream_name <$> l)) as Hx by (rewrite E; by left).
  unfold stream_seqs in Hx. apply list_elem_of_fmap in Hx as (e' & -> & Hx).
  apply list_elem_of_filter in Hx as [Hk Hx]. apply list_elem_of_fmap in Hx as (e & -> & He).
  assert (no_slash e.1.1) as Hs by (by apply (proj1 (Forall_forall _ _) Hl)).
  rewrite <- E, <- Hk. change ((stream_name e).1) with (e.1.1 +:+ "/" +:+ e.1.2)%string.
  rewrite stream_seqs_log by done. apply Hc.
Qed.

Lemma first_records_snoc seen rs r :
  first_records seen (rs ++ [r]) =
  first_records seen rs ++
    match record_id r with
    | Some id => if bool_decide (id ∈ seen ∪ record_ids rs) then [] else [r]
    | None => []
    end.
Proof.
  revert seen. induction rs as [|x rs IH]; intros seen; cbn [app first_records].
  - unfold record_ids. cbn. destruct (record_id r) as [id|]; [|done].
    rewrite union_empty_r_L. by case_bool_decide.
  - unfold record_ids. cbn [omap list_omap]. destruct (record_id x) as [id|] eqn:Ex; [|apply IH].
    cbn [list_to_set]. fold (record_ids rs). case_bool_decide as Hin.
    + rewrite IH. by replace (seen ∪ ({[id]} ∪ record_ids rs)) with (seen ∪ record_ids rs) by set_solver.
    + cbn [app]. rewrite IH.
      by replace (seen ∪ ({[id]} ∪ record_ids rs)) with ({[id]} ∪ seen ∪ record_ids rs) by set_solver.
Qed.

Lemma first_records_subset seen rs r : r ∈ first_records seen rs -> r ∈ rs.
Proof.
  revert seen. induction rs as [|x rs IH]; intros seen; cbn [first_records]; [done|].
  destruct (record_id x); [|right; by eapply IH]. case_bool_decide; [right; by eapply IH|].
  intros [->|Hx]%elem_of_cons; [by left|right; by eapply IH].
Qed.

(** Dropping the repetitions of events from a log in order leaves it in order. *)
Lemma firsts_in_order rs :
  (forall r1 r2 id, r1 ∈ rs -> r2 ∈ rs -> record_id r1 = Some id -> record_id r2 = Some id ->
     ordered_entry r1 = ordered_entry r2) ->
  (forall r, r ∈ rs -> is_Some (record_id r)) ->
  in_order (omap ordered_entry rs) ->
  in_order (omap ordered_entry (first_records ∅ rs)) /\
  forall k, last (stream_seqs k (omap ordered_entry (first_records ∅ rs)))
            = last (stream_seqs k (omap ordered_entry rs)).
Proof.
  induction rs as [|r rs IH] using rev_ind; intros Hsame Hid Hord; [done|].
  rewrite omap_app in Hord |- *. cbn [omap list_omap] in Hord |- *.
  rewrite first_records_snoc, omap_app, union_empty_l_L.
  destruct (Hid r) as [id Er]; [set_solver|]. rewrite Er.
  assert (in_order (omap ordered_entry rs) ->
    in_order (omap ordered_entry (first_records ∅ rs)) /\
    forall k, last (stream_seqs k (omap ordered_entry (first_records ∅ rs)))
              = last (stream_seqs k (omap ordered_entry rs))) as IH'.
  { apply IH; [|set_solver]. intros r1 r2 i H1 H2. apply Hsame; set_solver. }
  destruct (ordered_entry r) as [[k n]|] eqn:Ee; cbn [omap list_omap].
  2:{ rewrite app_nil_r in Hord |- *. case_bool_decide; cbn [omap list_omap]; rewrite ?Ee, ?app_nil_r; auto. }
  apply in_order_snoc in Hord as [Hord Hnext]. destruct (IH' Hord) as [Hfo Hlast].
  case_bool_decide as Hseen; cbn [omap list_omap]; rewrite ?Ee.
  - rewrite app_nil_r. split; [done|]. intros j. rewrite Hlast, stream_seqs_snoc.
    case_bool_decide as Ej; cbn in Ej; [|by rewrite app_nil_r]. subst j. rewrite last_snoc.
    apply elem_of_record_ids in Hseen as (r' & Hr' & Eid').
    assert (n ∈ stream_seqs k (omap ordered_entry rs)) as Hn.
    { unfold stream_seqs. apply list_elem_of_fmap. exists (k, n). split; [done|].
      apply list_elem_of_filter. split; [done|]. apply list_elem_of_omap. exists r'.
      split; [done|]. rewrite (Hsame r' r id); set_solver. }
    destruct (last (stream_seqs k (omap ordered_entry rs))) as [x|] eqn:El.
    + destruct (contiguous_last _ _ x n (Hord k) El Hn). unfold next_ok in Hnext. f_equal. cbn. lia.
    + apply last_None in El. rewrite El in Hn. by apply not_elem_of_nil in Hn.
  - split; [apply in_order_snoc; by rewrite Hlast|]. intros j.
    rewrite !stream_seqs_snoc. case_bool_decide; [by rewrite !last_snoc|].
    rewrite !app_nil_r. apply Hlast.
Qed.

Lemma log_in_range rs :
  (forall key, contiguous 1 (stream_log key (omap log_entry rs))) ->
  Forall (fun e => e.2 < 2 ^ 63 - 1) (omap log_entry rs) ->
  Forall (fun e => in_range e.2) (omap ordered_entry (first_records ∅ rs)).
Proof.
  intros Hc Hrange. apply Forall_forall. intros e (r & Hin1 & He)%list_elem_of_omap.
  apply first_records_subset in Hin1. rewrite ordered_entry_log in He.
  destruct (log_entry r) as [e0|] eqn:E0; [|done]. cbn in He. simplify_eq.
  assert (e0 ∈ omap log_entry rs) as Hl by (apply list_elem_of_omap; eauto).
  split; [|exact (proj1 (Forall_forall _ _) Hrange e0 Hl)].
  assert (e0.2 ∈ stream_log e0.1 (omap log_entry rs)) as Hs
    by (apply elem_of_stream_log; by destruct e0).
  destruct (last (stream_log e0.1 (omap log_entry rs))) as [x|] eqn:El.
  - by destruct (contiguous_last 1 _ x e0.2 (Hc e0.1) El Hs).
  - apply last_None in El. rewrite El in Hs. by apply not_elem_of_nil in Hs.
Qed.


End runs.

(** ** Witnesses *)

Definition demo_id (text : string) : option uuid :=
  if bool_decide (text = "a"%string) then Some 1%N
  else if bool_decide (text = "b"%string) then Some 2%N else None.
Definition demo_text (id : uuid) : string := if bool_decide (id = 1%N) then "a" else "b".
Definition demo_record (id seq : string) (offset : Z) : kgo_record :=
  MkKgoRecord "orders" None "{}"
    [(HeaderEventID, id); (HeaderOrderingKey, "k"); (HeaderSequence, seq)]%string 0 offset None.
Definition demo_records : list kgo_record :=
  [demo_record "a" "1" 0; demo_record "a" "1" 1; demo_record "b" "2" 2].
Definition demo_live : verifier :=
  committed (committed newVerifier 1%N (MkExpected true "orders/k" 1 0)) 2%N
    (MkExpected true "orders/k" 2 0).
Definition demo_error (text : string) : string := "invalid".

(** Two events, the first one sent twice: the run passes; without its first
    record it would not. *)
Lemma soak_exit_exact_witness :
  let audit rs := adoptAudit demo_live
    (foldl (observeForAudit demo_id demo_text demo_error demo_error) (auditClone demo_live) rs) in
  let code rs := (finish (final_result (snapshotDetails demo_text (audit rs) true) 0
                            (Some (0, 0, 0, 0, 0)) 0) "completed" None 0).2 in
  flawless demo_id (expected demo_live) demo_records /\ code [demo_record "b" "2" 2] = 1.
Proof.
  cbv zeta. split; [|vm_compute; reflexivity].
  apply (soak_exit_exact demo_id demo_text demo_error demo_error demo_live demo_records 0 0 0 0 0 0 0 None).
  - assert (omap ordered_entry (first_records demo_id ∅ demo_records)
              = [("orders/k"%string, 1); ("orders/k"%string, 2)]) as -> by (vm_compute; reflexivity).
    repeat constructor; discriminate.
  - reflexivity.
  - discriminate.
  - vm_compute. reflexivity.
Defined.


End Soak.
