(* ===== verification/SoakRun.v ===== *)
(** * The soak run ([cmd/emitlane-soak/runner.go], [provenance.go])

    The producer of the soak test beside the delivery system, the recovery that
    waits until the queue is empty, and [runSoak] from its stages to the exit
    code. The infrastructure, random numbers, processes and [git] are
    arguments. *)
From Stdlib Require Import ZArith QArith Qround String Ascii.
From stdpp Require Import base gmap strings list fin_maps sorting relations.
From S2P Require Import Prelude GoStrings GoParse Sha256 Float64 Schema Invariant Samples RelayConfig.
From S2P Require Import OutboxStore OrderedStore PartitionStore Presence Tx Outbox OrderingAdmin.
From S2P Require Import Relay PgStore AdminTypes AdminService System Durability Kafka Soak.

Module SoakRun.
Import Soak Durability OrderingAdmin.

#[local] Open Scope Z_scope.
#[local] Open Scope emitlane_scope.

(** ** [queueState] *)

Definition count_status (d : db) (st : outbox_status) : Z :=
  OrderingAdmin.count (fun r => bool_decide (er_status r = st)) (outbox_rows d).
Definition count_states (d : db) (now : time) (states : list string) : Z :=
  OrderingAdmin.count (fun s => bool_decide (os_State s ∈ states)) (stream_states d now).

Definition queueState (d : db) (now : time) : queue_counts :=
  (count_status d Pending, count_status d Inflight, count_status d Dead,
   count_states d now ["retry_wait"; "gap"; "dead_blocked"]%string, count_states d now ["gap"]%string).

(** ** Provenance ([provenance.go]) *)

(** [bytes.Split] at NUL, after [TrimSuffix] of one. *)
Fixpoint split_nul (l : list N) : list (list N) :=
  match l with
  | [] => [[]]
  | b :: l => if (b =? 0)%N then [] :: split_nul l
              else match split_nul l with [] => [[b]] | p :: ps => (b :: p) :: ps end
  end.
Definition trim_nul (l : list N) : list N :=
  match last l with Some 0%N => take (length l - 1) l | _ => l end.

Definition hex_digit (n : N) : ascii := ascii_of_N (if (n <? 10)%N then 48 + n else 87 + n).
Definition hex (l : list N) : string :=
  string_of_list_ascii (l ≫= fun b => [hex_digit (b / 16); hex_digit (b mod 16)]).

Definition path_le (a b : string) : Prop := String.leb a b = true.
#[local] Instance path_le_dec : RelDecision path_le.
Proof. intros a b. unfold path_le. apply _. Defined.

Definition nul : string := String (ascii_of_N 0) "".

Section git.
(** The output of [git -C repo args], and the files of the repository. *)
Context (git : list string -> result string string) (ReadFile : string -> result string string).
(** [%q] *)
Context (quote : string -> string).

Definition gitOutput (args : list string) : result string string :=
  let! out := git args in Ok (TrimSpace out).

Fixpoint hash_untracked (paths : list string) : result string string :=
  match paths with
  | [] => Ok ""%string
  | path :: paths =>
      if bool_decide (path = ""%string) then hash_untracked paths else
      match ReadFile path with
      | Err e => Err ("read untracked file " +:+ quote path +:+ ": " +:+ e)
      | Ok contents =>
          let! rest := hash_untracked paths in
          Ok ("untracked" +:+ nul +:+ path +:+ nul +:+ contents +:+ nul +:+ rest)
      end
  end.

Definition gitTreeDigest : result string string :=
  let! diff := git ["diff"; "--binary"; "HEAD"; "--"]%string in
  let! untracked := git ["ls-files"; "--others"; "--exclude-standard"; "-z"]%string in
  let paths := merge_sort path_le (of_bytes <$> split_nul (trim_nul (bytes untracked))) in
  let! rest := hash_untracked paths in
  Ok (hex (Sum256 ("tracked-diff" +:+ nul +:+ diff +:+ rest))).

Definition gitProvenance : result string GitProvenance :=
  let! commit := gitOutput ["rev-parse"; "HEAD"]%string in
  let! branch := gitOutput ["branch"; "--show-current"]%string in
  let branch := if bool_decide (branch = ""%string) then "HEAD"%string else branch in
  let! status := git ["status"; "--porcelain=v1"; "-z"; "--untracked-files=all"]%string in
  if bool_decide (status = ""%string) then Ok (MkGitProvenance commit branch false "")
  else let! digest := gitTreeDigest in Ok (MkGitProvenance commit branch true digest).
End git.

Definition validateReleaseProvenance (cfg : Config) : result string unit :=
  fail_if bool_decide (Profile cfg = "release"%string) && Dirty (Source cfg) && negb (AllowDirty cfg)
    with "release profile requires a clean Git working tree"%string;
  Ok tt.

(** ** The relays of a run ([relay_process.go]) *)

(** The configuration [relayCommand] gives one relay. *)
Definition relay_config (cfg : Config) (instance : string) : RelayConfig.Config :=
  {| RelayConfig.BatchSize := 100; RelayConfig.Concurrency := 8;
     RelayConfig.PollInterval := 50 * Millisecond; RelayConfig.IdleBackoffMax := 5 * Second;
     RelayConfig.LeaseDuration := 4 * Second; RelayConfig.MaxAttempts := RelayMaxAttempts cfg;
     RelayConfig.BaseDelay := RelayBaseDelay cfg; RelayConfig.MaxDelay := RelayMaxDelay cfg;
     RelayConfig.PublishTimeout := Second; RelayConfig.ShutdownTimeout := 3 * Second;
     RelayConfig.StatsInterval := 5 * Second; RelayConfig.ControlInterval := 100 * Millisecond;
     RelayConfig.HeartbeatInterval := 250 * Millisecond; RelayConfig.PresenceStaleAfter := Second;
     RelayConfig.CleanupInterval := Minute; RelayConfig.Retention := 0; RelayConfig.CleanupBatch := 1000;
     RelayConfig.OrderingRebalanceInterval := 200 * Millisecond;
     RelayConfig.OrderingLeaseDuration := 4 * Second;
     RelayConfig.OrderingSafetyMargin := 250 * Millisecond; RelayConfig.InstanceID := instance |}.

Record relayGroup : Type := MkGroup { g_next : Z; g_children : list string }.

Definition pad3 (n : Z) : string :=
  if n <? 10 then "00" +:+ Itoa n else if n <? 100 then "0" +:+ Itoa n else Itoa n.
Definition instance_name (runID : string) (n : Z) : string := "soak-" +:+ runID +:+ "-relay-" +:+ pad3 n.

(** [started]: the error of [os.Executable] or [cmd.Start]. *)
Definition start (runID : string) (started : option string) (g : relayGroup) : relayGroup * option string :=
  let next := g_next g + 1 in
  match started with
  | Some e => (MkGroup next (g_children g), Some e)
  | None => (MkGroup next (g_children g ++ [instance_name runID next]), None)
  end.

(** [exits]: the process ends within eight seconds. *)
Definition stopIndex (index : nat) (exits : bool) (g : relayGroup) : relayGroup * option string :=
  match g_children g with
  | [] => (g, Some "no relay children"%string)
  | l => (MkGroup (g_next g) (delete (index mod length l)%nat l),
          if exits then None else Some "relay stop timed out"%string)
  end.

(** The two loops of [recover]. *)
Fixpoint start_relays (runID : string) (n : nat) (started : nat -> option string) (g : relayGroup)
  : relayGroup * option string :=
  match n with
  | O => (g, None)
  | S n => match start runID (started n) g with
           | (g, None) => start_relays runID n started g
           | (g, Some e) => (g, Some e)
           end
  end.
Fixpoint stop_relays (n : nat) (exits : nat -> bool) (g : relayGroup) : relayGroup * option string :=
  match n with
  | O => (g, None)
  | S n => match stopIndex (length (g_children g) - 1) (exits n) g with
           | (g, None) => stop_relays n exits g
           | (g, Some e) => (g, Some e)
           end
  end.

(** ** [recover] *)

Definition queue_text (q : queue_counts) : string :=
  let '(pending, inflight, dead, blocked, gaps) := q in
  "pending=" +:+ Itoa pending +:+ " inflight=" +:+ Itoa inflight +:+ " dead=" +:+ Itoa dead
  +:+ " blocked=" +:+ Itoa blocked +:+ " gaps=" +:+ Itoa gaps.

(** The polls until the context ends; a failed query is [None]. *)
Fixpoint poll_queue (last : string) (polls : list (option queue_counts)) : option string :=
  match polls with
  | [] => Some ("recovery timeout: " +:+ last)
  | None :: polls => poll_queue last polls
  | Some q :: polls => if bool_decide (q = (0, 0, 0, 0, 0)) then None else poll_queue (queue_text q) polls
  end.

(** The outside of a recovery: the errors of [restoreKafka] and of resuming,
    the relays' processes and the polls. *)
Record recovery : Type := MkRecovery {
  rv_restore : option string;
  rv_resume : option string;
  rv_started : nat -> option string;
  rv_exits : nat -> bool;
  rv_polls : list (option queue_counts);
}.

(** The group, the infrastructure errors it counts, and its error. *)
Definition recover (cfg : Config) (rv : recovery) (g : relayGroup) : relayGroup * Z * option string :=
  match rv_restore rv with
  | Some e => (g, 1, Some ("restore Kafka: " +:+ e))
  | None =>
  match rv_resume rv with
  | Some e => (g, 1, Some e)
  | None =>
  match start_relays (RunID cfg) (Z.to_nat (Relays cfg) - length (g_children g)) (rv_started rv) g with
  | (g, Some e) => (g, 1, Some e)
  | (g, None) =>
  match stop_relays (length (g_children g) - Z.to_nat (Relays cfg)) (rv_exits rv) g with
  | (g, Some e) => (g, 1, Some e)
  | (g, None) => (g, 0, poll_queue "" (rv_polls rv))
  end end end end.

(** ** The producer *)

Inductive point : Type :=
| Looping
| Second_ (streamIndex : nat)  (* the later event of a pair is committed *)
| Returned.

Record producer : Type := MkProducer {
  pr_point : point;
  pr_sequences : list Z;
  pr_credit : Q;
  pr_left : Z;                 (* [count - i] of the current tick *)
  pr_verifier : verifier;
}.

Definition produce_init (cfg : Config) : producer :=
  MkProducer Looping (replicate (Z.to_nat (OrderedStreams cfg)) 1) 0 0 newVerifier.

(** The draws of one iteration, and the fresh identifier. *)
Record draw : Type := MkDraw {
  dr_rollback : Z; dr_kind : Z; dr_stream : nat; dr_pair : Z; dr_id : uuid; dr_committedAt : time;
}.

(** What the connection does to one transaction. *)
Record fate : Type := MkFate { ft_now : time; ft_begin : bool; ft_enqueue : bool; ft_commit : fault }.

Section producer.
Context (uuid_Parse : string -> option uuid) (uuid_String : uuid -> string) (trace : string * string).
Context (orderedTopic unorderedTopic : string) (cfg : Config).

Definition payload : string :=
  string_of_list_ascii ((fun i => ascii_of_nat (97 + i mod 26)) <$> seq 0 (Z.to_nat (PayloadBytes cfg))).

Definition stream_key (streamIndex : nat) : string := "stream:" +:+ Itoa (Z.of_nat streamIndex).

Definition soak_event (id : uuid) (topic type key : string) (sequence : Z) : Writer.Event :=
  {| Writer.ID := uuid_String id; Writer.Destination := topic; Writer.Type_ := type; Writer.Key := None;
     Writer.Payload := payload; Writer.ContentType := ""; Writer.Headers := ∅;
     Writer.SchemaVersion := 0; Writer.CorrelationID := ""; Writer.CausationID := "";
     Writer.AvailableAt := None; Writer.OrderingKey := key; Writer.Sequence := sequence;
     Writer.OrderingStartSequence := 0 |}.

(** [Begin], [Enqueue] and [Commit]: the database, and whether all succeeded. *)
Definition enqueue_tx (f : fate) (e : Writer.Event) (d : db) : db * bool :=
  if ft_begin f || ft_enqueue f then (d, false) else
  match Writer.Enqueue uuid_Parse uuid_String trace Writer.NewWriter None e (begin_tx d (ft_now f)) with
  | (t, Ok _) =>
      match ft_commit f with
      | NoFault => (commit_tx d t, true)
      | FailBefore => (d, false)
      | FailAfter => (commit_tx d t, false)
      end
  | (_, Err _) => (d, false)
  end.

(** The deferred rollback undoes the event; only errors are reported. *)
Definition enqueueRollback (f : fate) (id : uuid) (d : db) : db * bool :=
  if ft_begin f || ft_enqueue f then (d, false) else
  match Writer.Enqueue uuid_Parse uuid_String trace Writer.NewWriter None
          (soak_event id unorderedTopic "soak.rollback" "" 0) (begin_tx d (ft_now f)) with
  | (_, Ok _) => (d, true)
  | (_, Err _) => (d, false)
  end.

Definition enqueueOrdered (f : fate) (dr : draw) (streamIndex : nat) (sequence : Z) (v : verifier) (d : db)
  : verifier * db * bool :=
  let stream := stream_key streamIndex in
  match enqueue_tx f (soak_event (dr_id dr) orderedTopic "soak.ordered" stream sequence) d with
  | (d, true) =>
      (committed v (dr_id dr) (MkExpected true (orderedTopic +:+ "/" +:+ stream) sequence (dr_committedAt dr)), d, true)
  | (d, false) => (v, d, false)
  end.

Definition enqueueUnordered (f : fate) (dr : draw) (v : verifier) (d : db) : verifier * db * bool :=
  match enqueue_tx f (soak_event (dr_id dr) unorderedTopic "soak.unordered" "" 0) d with
  | (d, true) => (committed v (dr_id dr) (MkExpected false "" 0 (dr_committedAt dr)), d, true)
  | (d, false) => (v, d, false)
  end.

(** A tick of 100 ms adds credit; its whole part is the events to send. *)
Definition perTick : Q :=
  f64_mul (f64_of_int (EventsPerSecond cfg)) (f64_div (f64_of_int (100 * Millisecond)) (f64_of_int Second)).
Definition tick (p : producer) : producer :=
  let credit := f64_add (pr_credit p) perTick in
  let count := Qfloor credit in
  MkProducer (pr_point p) (pr_sequences p) (f64_sub credit (f64_of_int count)) count (pr_verifier p).

Definition moved (p : producer) (pt : point) (sequences : list Z) (spent : Z) (v : verifier) : producer :=
  MkProducer pt sequences (pr_credit p) (pr_left p - spent) v.

(** One transaction of the inner loop. *)
Definition produce (dr : draw) (f : fate) (p : producer) (d : db) : producer * db :=
  let sequences := pr_sequences p in
  let v := pr_verifier p in
  match pr_point p with
  | Returned => (p, d)
  | Second_ i =>
      let sequence := default 0 (sequences !! i) in
      let '(v, d, ok) := enqueueOrdered f dr i sequence v d in
      if ok then (moved p Looping (<[i := sequence + 2]> sequences) 2 v, d) else (moved p Returned sequences 0 v, d)
  | Looping =>
      if dr_rollback dr <? 2 then
        let '(d, ok) := enqueueRollback f (dr_id dr) d in
        (moved p (if ok then Looping else Returned) sequences 1 v, d)
      else if dr_kind dr <? OrderedPercent cfg then
        let i := dr_stream dr in
        let sequence := default 0 (sequences !! i) in
        if dr_pair dr <? 15 then
          let '(v, d, ok) := enqueueOrdered f dr i (sequence + 1) v d in
          (moved p (if ok then Second_ i else Returned) sequences 0 v, d)
        else
          let '(v, d, ok) := enqueueOrdered f dr i sequence v d in
          if ok then (moved p Looping (<[i := sequence + 1]> sequences) 1 v, d)
          else (moved p Returned sequences 0 v, d)
      else
        let '(v, d, ok) := enqueueUnordered f dr v d in
        (moved p (if ok then Looping else Returned) sequences 1 v, d)
  end.

(** ** The run *)

Record world : Type := MkWorld { w_producer : producer; w_sys : sys }.

Definition with_db (s : sys) (d : db) : sys := MkSys (sy_clock s) d (sy_flight s) (sy_log s).
Definition with_verifier (p : producer) (v : verifier) : producer :=
  MkProducer (pr_point p) (pr_sequences p) (pr_credit p) (pr_left p) v.

Context (parse_error sequence_error : string -> string).
Context (conf : string -> RelayConfig.Config) (lag : duration).

Inductive world_step : world -> world -> Prop :=
| w_tick w : pr_point (w_producer w) = Looping -> pr_left (w_producer w) <= 0 ->
    world_step w (MkWorld (tick (w_producer w)) (w_sys w))
| w_produce w dr f : pr_point (w_producer w) <> Looping \/ 0 < pr_left (w_producer w) ->
    (dr_stream dr < length (pr_sequences (w_producer w)))%nat ->
    world_step w (MkWorld (produce dr f (w_producer w) (sy_db (w_sys w))).1
                    (with_db (w_sys w) (produce dr f (w_producer w) (sy_db (w_sys w))).2))
| w_done w : (* the context ended at the head of a loop *)
    pr_point (w_producer w) = Looping ->
    world_step w (MkWorld (moved (w_producer w) Returned (pr_sequences (w_producer w)) 0
                             (pr_verifier (w_producer w))) (w_sys w))
| w_consume w r now : (* [consume]: a polled record *)
    world_step w (MkWorld (with_verifier (w_producer w)
      (observe uuid_Parse uuid_String parse_error sequence_error (pr_verifier (w_producer w)) r now)) (w_sys w))
| w_other w s' : sys_step conf lag (w_sys w) s' -> world_step w (MkWorld (w_producer w) s').

Definition world_init (now : time) : world := MkWorld (produce_init cfg) (sys_init now).

(** * Lemmas *)

(** *** What the producer does to the database and to the expectations *)

Definition describes (meta : expectedEvent) (data : event_data) : Prop :=
  if ee_ordered meta then
    exists i, ee_stream meta = orderedTopic +:+ "/" +:+ stream_key i /\
      stream_position data = Some (orderedTopic, stream_key i, ee_sequence meta)
  else stream_position data = None.

(** One transaction was committed, and the events it left are expected; or
    nothing happened. *)
Inductive effect (f : fate) (dr : draw) (v : verifier) (d : db) : verifier -> db -> Prop :=
| e_none : effect f dr v d v d
| e_unknown e t sid :
    Writer.Enqueue uuid_Parse uuid_String trace Writer.NewWriter None e (begin_tx d (ft_now f)) = (t, Ok sid) ->
    effect f dr v d v (commit_tx d t)
| e_known topic type key sequence meta t sid :
    Writer.Enqueue uuid_Parse uuid_String trace Writer.NewWriter None
      (soak_event (dr_id dr) topic type key sequence) (begin_tx d (ft_now f)) = (t, Ok sid) ->
    (forall data, (if Writer.is_empty key then stream_position data = None
                   else stream_position data = Some (topic, key, sequence)) -> describes meta data) ->
    effect f dr v d (committed v (dr_id dr) meta) (commit_tx d t).

Lemma enqueueOrdered_effect f dr i n v d :
  effect f dr v d (enqueueOrdered f dr i n v d).1.1 (enqueueOrdered f dr i n v d).1.2.
Proof.
  unfold enqueueOrdered, enqueue_tx. destruct (ft_begin f || ft_enqueue f); [constructor|].
  destruct (Writer.Enqueue _ _ _ _ _ _ _) as [t [sid|]] eqn:Ee; [|constructor].
  destruct (ft_commit f); cbn [fst snd]; [|constructor|by eapply e_unknown].
  eapply e_known; [exact Ee|]. intros data Hd. exists i. split; [done|exact Hd].
Qed.

Lemma enqueueUnordered_effect f dr v d :
  effect f dr v d (enqueueUnordered f dr v d).1.1 (enqueueUnordered f dr v d).1.2.
Proof.
  unfold enqueueUnordered, enqueue_tx. destruct (ft_begin f || ft_enqueue f); [constructor|].
  destruct (Writer.Enqueue _ _ _ _ _ _ _) as [t [sid|]] eqn:Ee; [|constructor].
  destruct (ft_commit f); cbn [fst snd]; [|constructor|by eapply e_unknown].
  eapply e_known; [exact Ee|]. intros data Hd. exact Hd.
Qed.

Lemma enqueueRollback_effect f id d : (enqueueRollback f id d).1 = d.
Proof. unfold enqueueRollback. repeat case_match; done. Qed.

Lemma produce_effect dr f p d :
  effect f dr (pr_verifier p) d (pr_verifier (produce dr f p d).1) (produce dr f p d).2.
Proof.
  assert (forall i n, effect f dr (pr_verifier p) d (enqueueOrdered f dr i n (pr_verifier p) d).1.1
    (enqueueOrdered f dr i n (pr_verifier p) d).1.2) as Ho by (intros; apply enqueueOrdered_effect).
  pose proof (enqueueUnordered_effect f dr (pr_verifier p) d) as Hu.
  pose proof (enqueueRollback_effect f (dr_id dr) d) as Hr.
  unfold produce. destruct (pr_point p) as [|i|]; [| |constructor].
  - destruct (dr_rollback dr <? 2).
    { destruct (enqueueRollback _ _ _) as [d1 ok]. cbn in Hr. subst d1. constructor. }
    destruct (dr_kind dr <? OrderedPercent cfg).
    + destruct (dr_pair dr <? 15).
      * specialize (Ho (dr_stream dr) (default 0 (pr_sequences p !! dr_stream dr) + 1)).
        by destruct (enqueueOrdered _ _ _ _ _ _) as [[v1 d1] ok].
      * specialize (Ho (dr_stream dr) (default 0 (pr_sequences p !! dr_stream dr))).
        by destruct (enqueueOrdered _ _ _ _ _ _) as [[v1 d1] []].
    + by destruct (enqueueUnordered _ _ _ _) as [[v1 d1] ok].
  - specialize (Ho i (default 0 (pr_sequences p !! i))).
    by destruct (enqueueOrdered _ _ _ _ _ _) as [[v1 d1] []].
Qed.

Lemma observe_expected v r now :
  expected (observe uuid_Parse uuid_String parse_error sequence_error v r now) = expected v.
Proof. unfold observe, observeRecord, check_order. repeat case_match; done. Qed.

(** *** The invariant of the run *)

Record soak_inv (t0 : time) (w : world) : Prop := {
  si_reach : rtc (sys_step conf lag) (sys_init t0) (w_sys w);
  si_expected : forall id meta, expected (pr_verifier (w_producer w)) !! id = Some meta ->
    exists s0 r, rtc (sys_step conf lag) (sys_init t0) s0 /\ rtc (sys_step conf lag) s0 (w_sys w) /\
      db_outbox (sy_db s0) !! id = Some r /\ describes meta (er_data r);
}.

Lemma sys_db_same s : with_db s (sy_db s) = s.
Proof. by destruct s. Qed.

Lemma soak_inv_system t0 w s' :
  soak_inv t0 w -> sys_step conf lag (w_sys w) s' -> soak_inv t0 (MkWorld (w_producer w) s').
Proof.
  intros [Hr He] Hs. split; cbn [w_sys w_producer]; [by eapply rtc_r|].
  intros id meta Hid. destruct (He id meta Hid) as (s0 & r & H0 & H1 & Hrow & Hd).
  exists s0, r. split_and!; try done. by eapply rtc_r.
Qed.

Lemma soak_inv_verifier t0 w p :
  expected (pr_verifier p) = expected (pr_verifier (w_producer w)) ->
  soak_inv t0 w -> soak_inv t0 (MkWorld p (w_sys w)).
Proof. intros Hp [Hr He]. split; [done|]. cbn [w_producer w_sys]. by rewrite Hp. Qed.

Context (Hlag : 0 <= lag) (Hconf : forall o, valid_config (conf o)).
Context (Hsum : forall o, intervalMS (RelayConfig.PublishTimeout (conf o)) * Millisecond
                          + OrderingSafetyMargin (conf o) < 2 ^ 63).
(** The text of an identifier identifies it. *)
Context (Hparse : forall id, uuid_Parse (uuid_String id) = Some id).

Lemma enqueue_sys_step f e s t sid :
  Writer.Enqueue uuid_Parse uuid_String trace Writer.NewWriter None e (begin_tx (sy_db s) (ft_now f)) = (t, Ok sid) ->
  sys_step conf lag s (with_db s (commit_tx (sy_db s) t)).
Proof.
  intros Ht. apply s_db. replace t with (t, Ok (E := error) sid).1 by done. rewrite <- Ht. apply d_enqueue.
Qed.

Lemma effect_inv t0 w f dr p v' d' :
  soak_inv t0 w -> effect f dr (pr_verifier (w_producer w)) (sy_db (w_sys w)) v' d' ->
  expected (pr_verifier p) = expected v' ->
  soak_inv t0 (MkWorld p (with_db (w_sys w) d')).
Proof.
  intros Hw He Hp. inversion He as [Ev Ed|e t sid Ht Ev Ed|topic type key n meta t sid Ht Hm Ev Ed]; subst.
  - rewrite sys_db_same. by apply soak_inv_verifier.
  - apply (soak_inv_verifier t0 (MkWorld (w_producer w) (with_db (w_sys w) (commit_tx (sy_db (w_sys w)) t)))); [done|].
    apply soak_inv_system; [done|]. by eapply enqueue_sys_step.
  - pose proof (enqueue_sys_step _ _ _ _ _ Ht) as Hstep. pose proof (soak_inv_system _ _ _ Hw Hstep) as [Hr Hex].
    pose proof (sys_inv_database _ _ _ (sys_inv_reachable conf lag Hlag Hconf Hsum t0 _ (si_reach _ _ Hw))) as Hdb.
    split; [done|]. cbn [w_sys w_producer] in *. rewrite Hp. cbn [committed expected]. intros id m.
    rewrite lookup_insert. case_decide as E; [|by apply Hex]. intros [= <-]. subst id.
    apply Writer.Enqueue_effect in Ht; [|apply Hdb].
    destruct Ht as (_ & Ha & _ & id & r & Hid & _ & _ & Hout & _ & _ & _ & _ & _ & _ & _ & _ & Hk).
    unfold Writer.event_id in Hid. cbn [soak_event Writer.ID] in Hid.
    destruct (Writer.is_empty (uuid_String (dr_id dr))); [done|]. rewrite Hparse in Hid. injection Hid as <-.
    exists (with_db (w_sys w) (commit_tx (sy_db (w_sys w)) t)), r. split_and!; [done|done| |].
    + cbn [with_db sy_db]. unfold commit_tx. rewrite Ha, Hout. apply lookup_insert_eq.
    + apply Hm. cbn [soak_event Writer.OrderingKey Writer.Destination Writer.Sequence] in Hk.
      destruct (Writer.is_empty key); apply Hk.
Qed.

Lemma soak_inv_reachable t0 w : rtc world_step (world_init t0) w -> soak_inv t0 w.
Proof.
  revert w. apply rtc_ind_r.
  - split; [done|]. cbn. intros id meta H. by rewrite lookup_empty in H.
  - intros w1 w2 _ Hstep IH. destruct Hstep as [w _ _|w dr f _ _|w _|w r now|w s' Hs].
    + by apply soak_inv_verifier.
    + eapply effect_inv; [done|apply produce_effect|done].
    + by apply soak_inv_verifier.
    + apply soak_inv_verifier; [|done]. apply observe_expected.
    + by apply soak_inv_system.
Qed.

(** *** A drained queue *)

Lemma counted_none {A} (P : A -> bool) l : OrderingAdmin.count P l = 0 <-> forall x, x ∈ l -> P x = false.
Proof.
  unfold OrderingAdmin.count. split.
  - intros H x Hx. destruct (P x) eqn:E; [|done]. exfalso.
    assert (x ∈ filter (fun x => P x = true) l) as Hin by (by apply list_elem_of_filter).
    destruct (filter _ l); [by apply not_elem_of_nil in Hin|cbn in H; lia].
  - intros H. destruct (filter (fun x => P x = true) l) as [|x l'] eqn:E; [done|]. exfalso.
    assert (x ∈ filter (fun x => P x = true) l) as [Ht Hx]%list_elem_of_filter by (rewrite E; left).
    by rewrite (H x Hx) in Ht.
Qed.

Lemma count_status_zero d st :
  count_status d st = 0 <-> forall id r, db_outbox d !! id = Some r -> er_status r <> st.
Proof.
  unfold count_status. rewrite counted_none. setoid_rewrite bool_decide_eq_false.
  setoid_rewrite elem_of_outbox_rows. naive_solver.
Qed.

Lemma drained_delivered d now b g :
  queueState d now = (0, 0, 0, b, g) -> forall id r, db_outbox d !! id = Some r -> er_status r = Delivered.
Proof.
  intros [= Hp Hi Hd _ _] id r Hr. rewrite count_status_zero in Hp, Hi, Hd.
  specialize (Hp id r Hr). specialize (Hi id r Hr). specialize (Hd id r Hr). by destruct (er_status r).
Qed.

Lemma in_stream_at k P r :
  in_stream k P r = true -> exists n, stream_position (er_data r) = Some (k.1, k.2, n) /\ P n = true.
Proof.
  unfold in_stream, stream_position. rewrite !andb_true_iff, bool_decide_eq_true, sql_eq_true.
  intros [[-> ->] H]. destruct (ed_ordering_sequence (er_data r)) as [n|]; [|done]. by exists n.
Qed.

(** Without undelivered events no stream is blocked or has a gap. *)
Lemma drained_streams d now b g :
  db_inv d -> queueState d now = (0, 0, 0, b, g) -> b = 0 /\ g = 0.
Proof.
  intros Hinv Hq. pose proof (drained_delivered _ _ _ _ Hq) as Hall.
  assert (forall s, s ∈ stream_states d now -> os_State s = "ready"%string) as Hready.
  { intros s ([k st] & -> & Hst)%list_elem_of_fmap. apply elem_of_map_to_list in Hst. cbn [fst snd].
    assert (forall P, (forall n, P n = true -> sr_next_sequence st <= n) ->
      first_event (filter (fun r => in_stream k P r = true) (outbox_rows d)) = None) as Hnone.
    { intros P HP. destruct (filter _ (outbox_rows d)) as [|r l] eqn:E; [done|]. exfalso.
      assert (r ∈ filter (fun r => in_stream k P r = true) (outbox_rows d)) as [Hs Hr]%list_elem_of_filter
        by (rewrite E; left).
      apply elem_of_outbox_rows in Hr as [id Hr]. apply in_stream_at in Hs as (n & Hpos & Hn%HP).
      destruct (inv_cursor _ (inv_outbox _ Hinv) _ _ _ _ _ Hr Hpos) as (st' & Hst' & _ & _ & Hc).
      rewrite <- surjective_pairing, Hst in Hst'. injection Hst' as <-. rewrite (Hall id r Hr) in Hc. cbn in Hc. lia. }
    unfold orderingStateSelect. cbn [os_State]. unfold next_event, future_event.
    rewrite !Hnone; [done| |]; intros n Hn; bool_to_prop; lia. }
  injection Hq as _ _ _ <- <-. unfold count_states. rewrite !counted_none.
  split; intros s Hs; rewrite (Hready s Hs); apply bool_decide_eq_false; set_solver.
Qed.

(** * Properties *)

(** A drained queue means nothing was lost, for any relays: in every state a soak can reach,
    whatever the producer drew, whichever of its calls failed and whatever relays
    and operators did: when [queueState] counts no pending, in-flight and dead
    event, no stream is blocked or has a gap, every event the producer knows to
    be committed was delivered, and the record of every ordered one is in the
    broker's log. *)
Theorem soak_drained_complete t0 w now b g :
  rtc world_step (world_init t0) w -> queueState (sy_db (w_sys w)) now = (0, 0, 0, b, g) ->
  b = 0 /\ g = 0 /\
  forall id meta, expected (pr_verifier (w_producer w)) !! id = Some meta ->
    (exists s1 r1, rtc (sys_step conf lag) (sys_init t0) s1 /\ rtc (sys_step conf lag) s1 (w_sys w) /\
       db_outbox (sy_db s1) !! id = Some r1 /\ er_status r1 = Delivered) /\
    (ee_ordered meta = true -> exists i, ee_stream meta = orderedTopic +:+ "/" +:+ stream_key i /\
       ((orderedTopic, stream_key i), ee_sequence meta) ∈ sy_log (w_sys w)).
Proof.
  intros Hw Hq. apply soak_inv_reachable in Hw as [Hr He].
  pose proof (sys_inv_reachable conf lag Hlag Hconf Hsum t0 _ Hr) as Hinv.
  destruct (drained_streams _ _ _ _ (sys_inv_database _ _ _ Hinv) Hq) as [Hb Hg]. split_and!; [done..|].
  intros id meta Hid. destruct (He id meta Hid) as (s0 & r & H0 & H1 & Hrow & Hd).
  destruct (event_accounted conf lag t0 s0 (w_sys w) id r Hlag Hconf Hsum H0 H1 Hrow) as [Hacc Hland].
  assert ((exists s1 r1, rtc (sys_step conf lag) (sys_init t0) s1 /\ rtc (sys_step conf lag) s1 (w_sys w) /\
       db_outbox (sy_db s1) !! id = Some r1 /\ er_status r1 = Delivered) /\ landed (er_data r) (w_sys w)) as [Hdel Hl].
  { destruct Hacc as [(r' & Hr' & Hdata)|(Hl & s1 & r1 & Ha & Hb' & Hs1 & _ & Hst)].
    - pose proof (drained_delivered _ _ _ _ Hq id r' Hr') as Hst. split; [|rewrite <- Hdata; by apply Hland].
      by exists (w_sys w), r'.
    - split; [|done]. exists s1, r1. split_and!; try done. by transitivity s0. }
  split; [done|]. intros Ho. unfold describes in Hd. rewrite Ho in Hd. destruct Hd as (i & Hs & Hpos).
  exists i. split; [done|]. by apply Hl.
Qed.
End producer.

(** ** The relays the run starts are valid *)

(** The configuration of the relay with an instance name; names a relay would
    refuse stand for none. *)
Definition soak_conf (cfg : Config) (o : string) : RelayConfig.Config :=
  if is_ok (RelayConfig.Validate (relay_config cfg o)) then relay_config cfg o else relay_config cfg "soak".

Lemma soak_validate_retry cfg :
  validate cfg = Ok tt -> 1 <= RelayMaxAttempts cfg /\ 0 < RelayBaseDelay cfg <= RelayMaxDelay cfg.
Proof.
  unfold validate. intros H.
  repeat match type of H with (if ?b then Err _ else _) = _ => destruct b eqn:?; [discriminate H|] end.
  bool_to_prop. lia.
Qed.

Lemma relay_config_accepted cfg :
  validate cfg = Ok tt -> RelayConfig.Validate (relay_config cfg "soak") = Ok tt.
Proof.
  intros (Ha & Hb & Hm)%soak_validate_retry. unfold RelayConfig.Validate.
  cbn [relay_config RelayConfig.BatchSize RelayConfig.Concurrency RelayConfig.PollInterval
    RelayConfig.IdleBackoffMax RelayConfig.LeaseDuration RelayConfig.MaxAttempts RelayConfig.BaseDelay
    RelayConfig.MaxDelay].
  rewrite (proj2 (Z.ltb_ge (RelayMaxAttempts cfg) 1)) by lia.
  rewrite (proj2 (Z.leb_gt (RelayBaseDelay cfg) 0)) by lia.
  rewrite (proj2 (Z.ltb_ge (RelayMaxDelay cfg) (RelayBaseDelay cfg))) by lia.
  vm_compute. reflexivity.
Qed.

Lemma soak_conf_valid cfg : validate cfg = Ok tt -> forall o, valid_config (soak_conf cfg o).
Proof.
  intros H o. unfold soak_conf. destruct (RelayConfig.Validate (relay_config cfg o)) as [[]|] eqn:E; cbn [is_ok].
  - by apply RelayConfig.Validate_ok.
  - by apply RelayConfig.Validate_ok, relay_config_accepted.
Qed.

Lemma soak_conf_sum cfg o :
  intervalMS (RelayConfig.PublishTimeout (soak_conf cfg o)) * Millisecond
  + OrderingSafetyMargin (soak_conf cfg o) < 2 ^ 63.
Proof.
  unfold soak_conf. destruct (is_ok _); vm_compute; reflexivity.
Qed.

(** * Properties *)

(** *** Recovery *)

Lemma start_relays_count runID n started g g' :
  start_relays runID n started g = (g', None) -> length (g_children g') = (length (g_children g) + n)%nat.
Proof.
  revert g. induction n as [|n IH]; intros g; cbn [start_relays]; [intros [= <-]; lia|].
  unfold start. destruct (started n); [done|]. intros H%IH. cbn [g_children] in H. rewrite length_app in H.
  cbn in H. lia.
Qed.

Lemma stop_relays_count n exits g g' :
  stop_relays n exits g = (g', None) -> (n <= length (g_children g))%nat ->
  (length (g_children g') = length (g_children g) - n)%nat.
Proof.
  revert g. induction n as [|n IH]; intros g; cbn [stop_relays]; [intros [= <-]; lia|].
  unfold stopIndex. destruct (g_children g) as [|c l] eqn:E; [done|]. destruct (exits n); [|done].
  intros H Hn. apply IH in H; cbn [g_children] in *.
  - rewrite H, length_delete; [cbn; lia|]. apply lookup_lt_is_Some. apply Nat.mod_upper_bound. done.
  - rewrite length_delete; [cbn in *; lia|]. apply lookup_lt_is_Some. apply Nat.mod_upper_bound. done.
Qed.

Lemma poll_queue_none last polls :
  poll_queue last polls = None <-> Some (0, 0, 0, 0, 0) ∈ polls.
Proof.
  revert last. induction polls as [|[q|] polls IH]; intros last; cbn [poll_queue].
  - split; [done|]. intros H. by apply not_elem_of_nil in H.
  - case_bool_decide as E; [subst; split; [by left|done]|]. rewrite IH, elem_of_cons. naive_solver.
  - rewrite IH, elem_of_cons. naive_solver.
Qed.

(** A recovery that succeeds left the configured number of relays, counted no
    infrastructure error, and saw the queue empty. *)
Theorem recover_ok cfg rv g g' n :
  0 <= Relays cfg -> recover cfg rv g = (g', n, None) ->
  Z.of_nat (length (g_children g')) = Relays cfg /\ n = 0 /\ Some (0, 0, 0, 0, 0) ∈ rv_polls rv.
Proof.
  intros Hr. unfold recover. destruct (rv_restore rv); [done|]. destruct (rv_resume rv); [done|].
  destruct (start_relays _ _ _ _) as [g1 [|]] eqn:E1; [done|].
  destruct (stop_relays _ _ _) as [g2 [|]] eqn:E2; [done|].
  intros [= <- <- H]. apply start_relays_count in E1. apply stop_relays_count in E2; [|lia].
  split; [lia|]. split; [done|]. by apply poll_queue_none in H.
Qed.

(** *** The stages of [runSoak] *)

(** [errors.Join] *)
Definition newline : string := String (ascii_of_N 10) "".
Definition join_error (e : option string) (e' : string) : option string :=
  Some (match e with Some e => e +:+ newline +:+ e' | None => e' end).

(** What the outside does in each stage; [sg_stop] is the first checkpoint at
    which the operator's signal has arrived. *)
Record stages : Type := MkStages {
  sg_provenance : result string GitProvenance;
  sg_environment : option string;
  sg_relays : option string;
  sg_consumer : option string;
  sg_stop : option nat;
  sg_fault_errors : Z;
  sg_producer : option string;  (* an error other than the end of the context *)
  sg_live : verifier;
  sg_recovery : Z * option string;
  sg_audit : result string (list Kafka.kgo_record);
  sg_integrity : result string Z;
  sg_queue : option queue_counts;
}.

Definition with_source (cfg : Config) (source : GitProvenance) : Config :=
  {| RunID := RunID cfg; Profile := Profile cfg; Seed := Seed cfg; Duration := Duration cfg;
     RecoveryTimeout := RecoveryTimeout cfg; Warmup := Warmup cfg; Relays := Relays cfg;
     OrderedStreams := OrderedStreams cfg; OrderedPercent := OrderedPercent cfg;
     EventsPerSecond := EventsPerSecond cfg; FaultInterval := FaultInterval cfg; Faults := Faults cfg;
     PayloadBytes := PayloadBytes cfg; RelayMaxAttempts := RelayMaxAttempts cfg;
     RelayBaseDelay := RelayBaseDelay cfg; RelayMaxDelay := RelayMaxDelay cfg; AllowDirty := AllowDirty cfg;
     Source := source |}.

Section runSoak.
Context (uuid_Parse : string -> option uuid) (uuid_String : uuid -> string).
Context (parse_error sequence_error : string -> string).

Definition stopped (st : stages) (checkpoint : nat) : bool :=
  match sg_stop st with Some j => (j <=? checkpoint)%nat | None => false end.

(** [r.finish] with what the run has gathered by then. *)
Definition finish_run (st : stages) (v : verifier) (infrastructure violations : Z) (state : string)
    (prior : option string) (code : Z) : result string (string * string * Z) :=
  Ok (finish (final_result (snapshotDetails uuid_String v true) infrastructure (sg_queue st) violations)
        state prior code).

(** The verifier after the audit, the violations, the infrastructure errors and
    the error of the last stage. *)
Definition verify_stage (st : stages) : verifier * Z * Z * option string :=
  let infrastructure := sg_fault_errors st + (if not_null (sg_producer st) then 1 else 0)
                        + (sg_recovery st).1 in
  let '(v, infrastructure, prior) :=
    match sg_audit st with
    | Ok rs => (adoptAudit (sg_live st)
                  (foldl (observeForAudit uuid_Parse uuid_String parse_error sequence_error)
                     (auditClone (sg_live st)) rs), infrastructure, (sg_recovery st).2)
    | Err e => (sg_live st, infrastructure + 1, join_error (sg_recovery st).2 ("final Kafka audit: " +:+ e))
    end in
  match sg_integrity st with
  | Ok violations => (v, violations, infrastructure, prior)
  | Err e => (v, 0, infrastructure + 1, join_error prior ("final full integrity check: " +:+ e))
  end.

Definition runSoak (cfg : Config) (st : stages) : result string (string * string * Z) :=
  let! source := if bool_decide (Commit (Source cfg) = ""%string) then sg_provenance st else Ok (Source cfg) in
  let! _ := validateReleaseProvenance (with_source cfg source) in
  let failed prior := finish_run st (sg_live st) (sg_fault_errors st) 0 "failed" (Some prior) 1 in
  let aborted text := finish_run st (sg_live st) (sg_fault_errors st) 0 "aborted" (Some text) 130 in
  match sg_environment st with
  | Some e => if stopped st 0 then aborted "stopped by operator during initialization"%string
              else failed ("initialize local infrastructure: " +:+ e)
  | None =>
  match sg_relays st with
  | Some e => failed ("start relay: " +:+ e)
  | None =>
  match sg_consumer st with
  | Some e => failed e
  | None =>
  if stopped st 1 then aborted "stopped by operator during warmup"%string else
  if stopped st 2 then aborted "stopped by operator"%string else
  if stopped st 3 then aborted "stopped by operator during recovery"%string else
  if stopped st 4 then aborted "stopped by operator during final Kafka audit"%string else
  let '(v, violations, infrastructure, prior) := verify_stage st in
  finish_run st v infrastructure violations "completed" prior 0
  end end end.

(** [base.ReleaseEvidence] *)
Definition release_evidence (cfg : Config) : bool :=
  bool_decide (Profile cfg = "release"%string) && negb (Dirty (Source cfg)).

Lemma append_nonempty a c b : a +:+ String c b <> ""%string.
Proof. by destruct a. Qed.

Lemma ok_code (x : string * string * Z) : (exists y, Ok (E := string) x = Ok y /\ y.2 = 0) <-> x.2 = 0.
Proof. naive_solver. Qed.

Lemma finish_incomplete r state prior code :
  state <> "completed"%string -> (finish r state prior code).2 = code.
Proof. intros H. unfold finish. by rewrite bool_decide_false. Qed.

(** The run passes exactly when it should: a passed run was not stopped, nothing
    failed in any stage, and the audit of the whole topics found a flawless
    record of the committed events while the queue was empty and consistent. *)
Theorem soak_passes_exactly cfg st rs q :
  sg_audit st = Ok rs -> sg_queue st = Some q ->
  Forall (fun e => in_range e.2) (omap ordered_entry (first_records uuid_Parse ∅ rs)) ->
  0 <= sg_fault_errors st -> 0 <= (sg_recovery st).1 -> (sg_recovery st).2 <> Some ""%string ->
  Commit (Source cfg) <> ""%string -> validateReleaseProvenance cfg = Ok tt ->
  (exists x, runSoak cfg st = Ok x /\ x.2 = 0) <->
  sg_environment st = None /\ sg_relays st = None /\ sg_consumer st = None /\
  (forall j, sg_stop st = Some j -> (4 < j)%nat) /\ sg_fault_errors st = 0 /\ sg_producer st = None /\
  sg_recovery st = (0, None) /\ flawless uuid_Parse (expected (sg_live st)) rs /\
  sg_integrity st = Ok 0 /\ q = (0, 0, 0, 0, 0).
Proof.
  intros Ha Hq Hrange Hf Hr Hp Hc Hv. destruct q as [[[[pending inflight] dead] blocked] gaps].
  assert (forall prior state v infrastructure violations code, state <> "completed"%string -> code <> 0 ->
    ~ exists x, finish_run st v infrastructure violations state prior code = Ok x /\ x.2 = 0) as Hno.
  { intros prior state v infra viol code Hs Hcode (x & [= <-] & Hx). rewrite finish_incomplete in Hx by done. done. }
  assert (forall k, (k <= 4)%nat -> stopped st k = true ->
    ~ forall j, sg_stop st = Some j -> (4 < j)%nat) as Hstop.
  { intros k Hk Hs Hall. unfold stopped in Hs. destruct (sg_stop st) as [j|]; [|done].
    apply Nat.leb_le in Hs. specialize (Hall j eq_refl). lia. }
  unfold runSoak. rewrite bool_decide_false by done. cbn [result_bind].
  replace (with_source cfg (Source cfg)) with cfg by (by destruct cfg). rewrite Hv. cbn [result_bind].
  destruct (sg_environment st) as [e|].
  { split; [|naive_solver]. intros H. destruct (stopped st 0); by apply Hno in H. }
  destruct (sg_relays st) as [e|]; [split; [|naive_solver]; intros H; by apply Hno in H|].
  destruct (sg_consumer st) as [e|]; [split; [|naive_solver]; intros H; by apply Hno in H|].
  do 4 (match goal with |- context [stopped st ?k] => destruct (stopped st k) eqn:?;
    [split; [intros H; by apply Hno in H|intros (_ & _ & _ & H & _); exfalso; eapply (Hstop k); eauto; lia]|] end).
  assert (forall j, sg_stop st = Some j -> (4 < j)%nat) as Hns.
  { intros j Hj. unfold stopped in *. rewrite Hj in *. by apply Nat.leb_gt. }
  pose proof (fun n violations prior => soak_exit_exact uuid_Parse uuid_String parse_error sequence_error
    (sg_live st) rs n pending inflight dead blocked gaps violations prior Hrange) as Hexit.
  unfold verify_stage, finish_run. rewrite Ha, Hq.
  set (n := sg_fault_errors st + _ + _).
  assert (0 <= n) as Hn by (unfold n; destruct (not_null _); lia).
  assert (n = 0 <-> sg_fault_errors st = 0 /\ sg_producer st = None /\ (sg_recovery st).1 = 0) as Hn0
    by (unfold n; destruct (sg_producer st); cbn; split; intros; destruct_and?; try done; split_and?; try done; lia).
  destruct (sg_integrity st) as [violations|e].
  - rewrite ok_code, Hexit, Hn0 by done. destruct (sg_recovery st) as [rn re]. cbn [fst snd]. split.
    + intros (-> & Hfl & -> & -> & -> & -> & -> & -> & ? & ? & ->). by split_and!.
    + intros (_ & _ & _ & _ & ? & ? & [= -> ->] & Hfl & [= ->] & [= -> -> -> -> ->]). by split_and!.
  - assert (forall o, join_error o ("final full integrity check: " +:+ e) <> Some ""%string) as Hj.
    { intros [e'|]; [|done]. intros [= Hx]. by apply append_nonempty in Hx. }
    rewrite ok_code, Hexit by (lia || apply Hj).
    split; [by intros [? _]|by intros (_ & _ & _ & _ & _ & _ & _ & _ & ? & _)].
Qed.
End runSoak.

Definition ordered_topic (cfg : Config) : string := "emitlane-soak-ordered-" +:+ RunID cfg.
Definition unordered_topic (cfg : Config) : string := "emitlane-soak-unordered-" +:+ RunID cfg.

(** C39: A recovered soak has lost nothing. With a configuration the soak accepts
    and the relays it starts, in every state it can reach, whatever its producer
    drew, whichever calls failed and whatever relays and operators did: when
    [queueState] counts no pending, in-flight and dead event, then no stream is
    blocked or has a gap, every event the producer knows to be committed was
    delivered, and the record of every ordered one is in the broker's log. *)
Theorem soak_complete uuid_Parse uuid_String trace parse_error sequence_error cfg lag t0 w now b g :
  0 <= lag -> validate cfg = Ok tt -> (forall id, uuid_Parse (uuid_String id) = Some id) ->
  rtc (world_step uuid_Parse uuid_String trace (ordered_topic cfg) (unordered_topic cfg) cfg
         parse_error sequence_error (soak_conf cfg) lag) (world_init cfg t0) w ->
  queueState (sy_db (w_sys w)) now = (0, 0, 0, b, g) ->
  b = 0 /\ g = 0 /\
  forall id meta, expected (pr_verifier (w_producer w)) !! id = Some meta ->
    (exists s1 r1, rtc (sys_step (soak_conf cfg) lag) (sys_init t0) s1 /\
       rtc (sys_step (soak_conf cfg) lag) s1 (w_sys w) /\
       db_outbox (sy_db s1) !! id = Some r1 /\ er_status r1 = Delivered) /\
    (ee_ordered meta = true -> exists i, ee_stream meta = ordered_topic cfg +:+ "/" +:+ stream_key i /\
       ((ordered_topic cfg, stream_key i), ee_sequence meta) ∈ sy_log (w_sys w)).
Proof.
  intros Hlag Hv Hparse. apply (soak_drained_complete uuid_Parse uuid_String trace _ _ _ parse_error sequence_error);
    [done|by apply soak_conf_valid|apply soak_conf_sum|done].
Qed.

(** ** A run *)

Module Demo.
Definition cfg : Config := profile_of "quick" (90 * Second) (3 * Minute) (3 * Second) 2 100 40 (12 * Second) 256.

(** Identifiers written in unary. *)
Fixpoint unary (n : nat) : string := match n with O => "u" | S n => String "u" (unary n) end.
Definition uuid_String (id : uuid) : string := unary (N.to_nat id).
Definition uuid_Parse (t : string) : option uuid := Some (N.of_nat (pred (String.length t))).
Lemma parse_string id : uuid_Parse (uuid_String id) = Some id.
Proof.
  unfold uuid_Parse, uuid_String. replace (pred (String.length (unary (N.to_nat id)))) with (N.to_nat id).
  - by rewrite N2Nat.id.
  - generalize (N.to_nat id). intros n. induction n as [|n IH]; [done|]. cbn [unary String.length pred].
    destruct n; [done|]. cbn [unary String.length pred] in *. lia.
Qed.

Definition error_text (s : string) : string := "invalid".
#[local] Abbreviation step := (world_step uuid_Parse uuid_String (""%string, ""%string) (ordered_topic cfg)
  (unordered_topic cfg) cfg error_text error_text (soak_conf cfg) 0).
#[local] Abbreviation send dr := (produce uuid_Parse uuid_String (""%string, ""%string) (ordered_topic cfg)
  (unordered_topic cfg) cfg dr (MkFate 0 false false NoFault)).

(** A single event, and the later one of a pair. *)
Definition single : draw := MkDraw 50 10 0 50 1 0.
Definition pair : draw := MkDraw 50 10 0 10 2 0.

Definition p1 : producer := tick cfg (produce_init cfg).
Definition p2 : producer := (send single p1 (migrated 0)).1.
Definition d2 : db := (send single p1 (migrated 0)).2.

Definition o : string := instance_name (RunID cfg) 1.
Definition conf : RelayConfig.Config := soak_conf cfg o.
Definition t1 : time := Second.
Definition ok_or {A} (x : res A) (a : A) : A := match x with Ok a => a | Err _ => a end.
Definition d3 : db := ok_or (RegisterRelay d2 0 (MkPresence o "host" "v1" 0 true)) d2.
#[local] Abbreviation reconcile d := (ReconcileOrderingPartitions d t1 o (RelayConfig.OrderingLeaseDuration conf)
  (RelayConfig.PublishTimeout conf) (RelayConfig.PresenceStaleAfter conf) (RelayConfig.OrderingSafetyMargin conf)).
#[local] Abbreviation claim d := (ClaimOrdered d ∅ t1 o 10 (RelayConfig.LeaseDuration conf) (minimum_lease conf)).
Definition d4 : db := (reconcile d3).1.
Definition d5 : db := (claim d4).1.
Definition e : OutboxStore.Event := default sample_first (head (claim d4).2).
#[local] Abbreviation begin d := (BeginOrderedAttempt d t1 (OutboxStore.ID e) o (OutboxStore.OrderingEpoch e)
  (RelayConfig.MaxAttempts conf) (minimum_lease conf)).
Definition d6 : db := (begin d5).1.
Definition d7 : db := (MarkOrderedDelivered d6 t1 e o).1.

(** The pair was cut short: its second event is pending for ever. *)
Example interrupted_pair :
  let q := send pair p1 (migrated 0) in
  let d := ok_or (RegisterRelay q.2 0 (MkPresence o "host" "v1" 0 true)) q.2 in
  pr_point q.1 = Second_ 0 /\ queueState q.2 t1 = (1, 0, 0, 1, 1) /\
  (claim (reconcile d).1).2 = [] /\ map_to_list (expected (pr_verifier q.1)) <> [].
Proof. vm_compute. repeat split; discriminate. Qed.

Definition drained : world := MkWorld p2 (MkSys t1 d7 [] [((ordered_topic cfg, stream_key 0), 1)]).
Example drained_queue : queueState d7 t1 = (0, 0, 0, 0, 0).
Proof. vm_compute. reflexivity. Qed.

Lemma other s w : rtc (sys_step (soak_conf cfg) 0) (w_sys w) s -> rtc step w (MkWorld (w_producer w) s).
Proof.
  destruct w as [p s0]. cbn [w_sys w_producer]. intros H. induction H as [x|x y z H _ IH]; [done|].
  eapply rtc_l; [|exact IH]. by apply (w_other _ _ _ _ _ _ _ _ _ _ (MkWorld p x)).
Qed.

Definition pub : publication :=
  Publication o (ordered_topic cfg, stream_key 0) 1 (t1 + publish_window (soak_conf cfg) 0 o).

Lemma register_ok : RegisterRelay d2 0 (MkPresence o "host" "v1" 0 true) = Ok d3.
Proof. vm_compute. reflexivity. Qed.
Lemma reconcile_ok : reconcile d3 = (d4, Ok (ok_or (reconcile d3).2 [])).
Proof. vm_compute. reflexivity. Qed.
Lemma begin_ok : begin d5 = (d6, Ok 1).
Proof. vm_compute. reflexivity. Qed.
Lemma ack_ok : MarkOrderedDelivered d6 t1 e o = (d7, Ok tt).
Proof. vm_compute. reflexivity. Qed.
Ltac matches :=
  let r := fresh in let Hr := fresh in
  intros r Hr; vm_compute in Hr; injection Hr; intros <-; vm_compute; repeat split.
Lemma matches_5 : st_matches d5 e.
Proof. matches. Qed.
Lemma matches_6 : st_matches d6 e.
Proof. matches. Qed.

Lemma pub_fenced :
  pub = {| pb_owner := o; pb_stream := (OutboxStore.Destination e, OutboxStore.OrderingKey e);
           pb_sequence := OutboxStore.OrderingSequence e;
           pb_deadline := t1 + publish_window (soak_conf cfg) 0 o |}.
Proof. vm_compute. reflexivity. Qed.
Lemma pub_in_time : t1 < pb_deadline pub.
Proof. vm_compute. reflexivity. Qed.

Lemma land_one p t d : t < pb_deadline p ->
  sys_step (soak_conf cfg) 0 (MkSys t d [p] []) (MkSys t d [] [(pb_stream p, pb_sequence p)]).
Proof. intros H. exact (s_land (soak_conf cfg) 0 (MkSys t d [p] []) [] p [] eq_refl H). Qed.

Lemma relayed :
  rtc (sys_step (soak_conf cfg) 0) (MkSys 0 d2 [] []) (MkSys t1 d7 [] [((ordered_topic cfg, stream_key 0), 1)]).
Proof.
  apply (rtc_l _ _ (MkSys 0 d3 [] [])).
  { exact (s_db _ _ (MkSys 0 d2 [] []) d3 (d_register _ _ _ _ register_ok)). }
  apply (rtc_l _ _ (MkSys t1 d3 [] [])); [apply (s_tick _ _ (MkSys 0 d3 [] []) t1); done|].
  apply (rtc_l _ _ (MkSys t1 d4 [] [])).
  { apply (s_reconcile _ _ (MkSys t1 d3 [] []) t1 o d4 (ok_or (reconcile d3).2 []));
      [cbn [sy_clock]; lia|reflexivity|vm_compute; reflexivity|exact reconcile_ok]. }
  apply (rtc_l _ _ (MkSys t1 d5 [] [])).
  { exact (s_db _ _ (MkSys t1 d4 [] []) d5 (d_claim_ordered d4 ∅ t1 o 10 (RelayConfig.LeaseDuration conf) (minimum_lease conf))). }
  apply (rtc_l _ _ (MkSys t1 d6 [pub] [])).
  { rewrite pub_fenced. apply (s_fence _ _ (MkSys t1 d5 [] []) o e 1 d6);
      [vm_compute; discriminate|exact matches_5|exact begin_ok]. }
  apply (rtc_l _ _ (MkSys t1 d6 [] [((ordered_topic cfg, stream_key 0), 1)])).
  { exact (land_one pub t1 d6 pub_in_time). }
  apply rtc_once, (s_ack _ _ (MkSys t1 d6 [] [((ordered_topic cfg, stream_key 0), 1)]) t1 o e d7);
    [vm_compute; left|exact matches_6|exact ack_ok].
Qed.

Lemma reach_drained : rtc step (world_init cfg 0) drained.
Proof.
  apply (rtc_l _ _ (MkWorld p1 (sys_init 0))).
  { apply (w_tick _ _ _ _ _ _ _ _ _ _ (world_init cfg 0)); [reflexivity|vm_compute; discriminate]. }
  apply (rtc_l _ _ (MkWorld p2 (MkSys 0 d2 [] []))).
  { apply (w_produce _ _ _ _ _ _ _ _ _ _ (MkWorld p1 (sys_init 0)) single (MkFate 0 false false NoFault)).
    - right. vm_compute. reflexivity.
    - vm_compute. lia. }
  exact (other _ (MkWorld p2 (MkSys 0 d2 [] [])) relayed).
Qed.

Lemma soak_complete_witness :
  size (expected (pr_verifier p2)) = 1%nat /\
  forall id meta, expected (pr_verifier p2) !! id = Some meta -> ee_ordered meta = true ->
    exists i, ((ordered_topic cfg, stream_key i), ee_sequence meta) ∈ sy_log (w_sys drained).
Proof.
  split; [vm_compute; reflexivity|]. intros id meta Hid Ho.
  destruct (soak_complete uuid_Parse uuid_String (""%string, ""%string) error_text error_text cfg 0 0 drained t1 0 0
    (Z.le_refl 0) eq_refl parse_string reach_drained drained_queue) as (_ & _ & H).
  destruct (H id meta Hid) as [_ H']. destruct (H' Ho) as (i & _ & Hi). by exists i.
Defined.
End Demo.
End SoakRun.
