(* ===== verification/Lifecycle.v ===== *)
(** * The lifecycle of a relay ([relay/relay.go], [relay/ordering.go])

    [Run] registers the presence, starts the heartbeat, ordering, statistics and
    cleanup loops beside the scheduler and, once its context is cancelled and the
    scheduler has drained, runs its deferred calls: it waits for the ordering
    loop, releases the partitions and marks the presence stopped. Every call on
    the store may fail before or after it took effect; the scheduler, the other
    relays, the producers and the operators interleave freely. *)
From Stdlib Require Import ZArith String.
From stdpp Require Import base gmap strings list sorting fin_maps sets relations.
From S2P Require Import Prelude GoStrings Ordering Schema Invariant Samples OutboxStore.
From S2P Require Import OrderedStore PartitionStore Presence OrderingAdmin.
From S2P Require Import RelayConfig Relay PgStore System.

Import OrderingAdmin.

Open Scope Z_scope.

(** ** [reconcileOrdering]: the partition snapshot and its two counters *)

Record ordering_memory : Type := MkMemory {
  om_partitions : list ordering_partition;  (* r.orderingPartitions *)
  om_acquisitions : Z;
  om_rebalances : Z;
}.

(** [previous], the old snapshot by partition; a later row would win. *)
Definition previous (ps : list ordering_partition) : gmap Z ordering_partition :=
  foldl (fun m p => <[op_partition_id p := p]> m) ∅ ps.

Definition acquired (me : string) (prior : option ordering_partition) (p : ordering_partition) : bool :=
  bool_decide (op_lease_owner p = me)
  && match prior with Some q => negb (bool_decide (op_lease_owner q = me)) | None => true end.

Definition reassigned (prior : option ordering_partition) (p : ordering_partition) : bool :=
  match prior with
  | Some q => negb (bool_decide (op_desired_owner q = op_desired_owner p))
  | None => false
  end.

(** The loop over the new rows: the number acquired, and whether one moved. *)
Fixpoint compare_partitions (me : string) (old : gmap Z ordering_partition)
    (ps : list ordering_partition) (acquisitions : Z) (rebalanced : bool) : Z * bool :=
  match ps with
  | [] => (acquisitions, rebalanced)
  | p :: ps =>
      let prior := old !! op_partition_id p in
      compare_partitions me old ps
        (if acquired me prior p then acquisitions + 1 else acquisitions)
        (if reassigned prior p then true else rebalanced)
  end.

Definition reconcileOrdering (me : string) (m : ordering_memory)
    (reply : res (list ordering_partition)) : ordering_memory :=
  match reply with
  | Err _ => m
  | Ok partitions =>
      let c := compare_partitions me (previous (om_partitions m)) partitions 0 false in
      {| om_partitions := partitions;
         om_acquisitions := om_acquisitions m + c.1;
         om_rebalances := if c.2 then om_rebalances m + 1 else om_rebalances m |}
  end.

(** ** [refreshStats]: the gauges a snapshot sets *)

Record gauges : Type := MkGauges {
  ga_queue : Z * Z * Z;                (* pending, inflight, dead *)
  ga_oldest : duration;
  ga_paused : bool;
  ga_relays : Z * Z;                   (* active, stale *)
  ga_ordering : orderingStats;
  ga_snapshot : option (bool * time);  (* the last RecordStatsSnapshot *)
}.

Definition refreshStats (reply : res RelayStats) (now : time) (g : gauges) : gauges :=
  match reply with
  | Err _ =>
      {| ga_queue := ga_queue g; ga_oldest := ga_oldest g; ga_paused := ga_paused g;
         ga_relays := ga_relays g; ga_ordering := ga_ordering g; ga_snapshot := Some (false, now) |}
  | Ok st =>
      {| ga_queue := (rst_Pending st, rst_Inflight st, rst_Dead st);
         ga_oldest := rst_OldestPending st; ga_paused := rst_Paused st;
         ga_relays := (rst_RelaysActive st, rst_RelaysStale st);
         ga_ordering := rst_Ordering st; ga_snapshot := Some (true, now) |}
  end.

(** ** The process *)

(** Where [Run] is: before its registration, in the scheduler, in the deferred
    release, in the deferred [markStopped], after its return. *)
Inductive phase : Type := Starting | Running | Releasing | Stopping | Returned.

(** A background loop: not started, in its select, in a call, returned. *)
Inductive loop : Type := Idle | Waiting | Calling | Done.

#[global] Instance phase_eq_dec : EqDecision phase.
Proof. solve_decision. Defined.
#[global] Instance loop_eq_dec : EqDecision loop.
Proof. solve_decision. Defined.

Record process : Type := MkProcess {
  pc_phase : phase;
  pc_cancelled : bool;          (* runCtx.Err() != nil *)
  pc_ordering : loop;           (* Done: orderingDone is closed *)
  pc_heartbeat : loop;
  pc_stats : loop;
  pc_cleanup : loop;
  pc_memory : ordering_memory;
  pc_gauges : gauges;
  pc_failures : list string;    (* IncPresenceFailure, newest first *)
  pc_timed_out : bool;          (* the wait for orderingDone gave up *)
  pc_released : bool;           (* ReleaseOrderingPartitions succeeded *)
  pc_marked : bool;             (* MarkRelayStopped succeeded *)
}.

Definition set_phase (x : phase) (s : process) : process :=
  MkProcess x (pc_cancelled s) (pc_ordering s) (pc_heartbeat s) (pc_stats s) (pc_cleanup s)
    (pc_memory s) (pc_gauges s) (pc_failures s) (pc_timed_out s) (pc_released s) (pc_marked s).
Definition set_cancelled (s : process) : process :=
  MkProcess (pc_phase s) true (pc_ordering s) (pc_heartbeat s) (pc_stats s) (pc_cleanup s)
    (pc_memory s) (pc_gauges s) (pc_failures s) (pc_timed_out s) (pc_released s) (pc_marked s).
Definition set_ordering (x : loop) (m : ordering_memory) (s : process) : process :=
  MkProcess (pc_phase s) (pc_cancelled s) x (pc_heartbeat s) (pc_stats s) (pc_cleanup s)
    m (pc_gauges s) (pc_failures s) (pc_timed_out s) (pc_released s) (pc_marked s).
Definition set_heartbeat (x : loop) (s : process) : process :=
  MkProcess (pc_phase s) (pc_cancelled s) (pc_ordering s) x (pc_stats s) (pc_cleanup s)
    (pc_memory s) (pc_gauges s) (pc_failures s) (pc_timed_out s) (pc_released s) (pc_marked s).
Definition set_stats (x : loop) (g : gauges) (s : process) : process :=
  MkProcess (pc_phase s) (pc_cancelled s) (pc_ordering s) (pc_heartbeat s) x (pc_cleanup s)
    (pc_memory s) g (pc_failures s) (pc_timed_out s) (pc_released s) (pc_marked s).
Definition set_cleanup (x : loop) (s : process) : process :=
  MkProcess (pc_phase s) (pc_cancelled s) (pc_ordering s) (pc_heartbeat s) (pc_stats s) x
    (pc_memory s) (pc_gauges s) (pc_failures s) (pc_timed_out s) (pc_released s) (pc_marked s).
Definition IncPresenceFailure (op : string) (s : process) : process :=
  MkProcess (pc_phase s) (pc_cancelled s) (pc_ordering s) (pc_heartbeat s) (pc_stats s) (pc_cleanup s)
    (pc_memory s) (pc_gauges s) (op :: pc_failures s) (pc_timed_out s) (pc_released s) (pc_marked s).
Definition set_outcome (timed_out released marked : bool) (s : process) : process :=
  MkProcess (pc_phase s) (pc_cancelled s) (pc_ordering s) (pc_heartbeat s) (pc_stats s) (pc_cleanup s)
    (pc_memory s) (pc_gauges s) (pc_failures s) timed_out released marked.

(** The process before [Run], with the gauges it holds. *)
Definition process_init (g : gauges) : process :=
  {| pc_phase := Starting; pc_cancelled := false; pc_ordering := Idle; pc_heartbeat := Idle;
     pc_stats := Idle; pc_cleanup := Idle; pc_memory := MkMemory [] 0 0; pc_gauges := g;
     pc_failures := []; pc_timed_out := false; pc_released := false; pc_marked := false |}.

Definition ok {A} (r : res A) : bool := match r with Ok _ => true | Err _ => false end.

(** A statement that reports the new database. *)
Definition exec (d : db) (r : res db) : db * res unit :=
  match r with Ok d' => (d', Ok tt) | Err e => (d, Err e) end.

(** What the goroutines of [Run] do next. [f] is the fate of the call on the
    store, [now] the transaction's time. *)
Inductive action : Type :=
| a_cancel
| a_register (f : fault) (startedAt now : time)
| a_heartbeat_tick | a_heartbeat (f : fault) (now : time) | a_heartbeat_done
| a_ordering_tick | a_reconcile (f : fault) (now : time) | a_ordering_done
| a_stats_tick | a_stats (reply : res RelayStats) (now : time) | a_stats_done
| a_cleanup_tick | a_cleanup (f : fault) (locked : gset uuid) (now : time) | a_cleanup_done
| a_drained
| a_timeout
| a_release (f : fault) (now : time)
| a_mark (f : fault) (now : time).

Definition is_phase (x : phase) (s : process) : bool := bool_decide (pc_phase s = x).
Definition is_loop (x y : loop) : bool := bool_decide (x = y).

(** The ticker's branch of a select: a call under a live context. *)
Definition ticks (x : loop) (s : process) : bool := is_loop x Waiting && negb (pc_cancelled s).
(** The branch of the cancelled context. *)
Definition quits (x : loop) (s : process) : bool := is_loop x Waiting && pc_cancelled s.

Section run.
(** The configuration; the presence metadata of [WithPresenceInfo], defaults
    applied. *)
Context (cfg : Config) (hostname version : string).

Definition me : string := InstanceID cfg.

(** [r.presence], with [StartedAt] from the local clock. *)
Definition presence (startedAt : time) : RelayPresence :=
  MkPresence me hostname version startedAt true.

Definition cleanup_enabled : bool :=
  (0 <? Retention cfg) && (0 <? CleanupInterval cfg) && (0 <? CleanupBatch cfg).

Abbreviation reconcile_call d now :=
  (ReconcileOrderingPartitions d now me (OrderingLeaseDuration cfg) (PublishTimeout cfg)
     (PresenceStaleAfter cfg) (OrderingSafetyMargin cfg)).

(** The loops [Run] starts: the ordering and statistics loops call at once. *)
Definition start_loops (s : process) : process :=
  MkProcess Running (pc_cancelled s) Calling Waiting
    (if StatsInterval cfg <=? 0 then Done else Calling) (if cleanup_enabled then Waiting else Done)
    (pc_memory s) (pc_gauges s) (pc_failures s) (pc_timed_out s) (pc_released s) (pc_marked s).

(** The registration and the starts of [Run]. *)
Definition run_start (f : fault) (startedAt now : time) (s : process) (d : db) : process * db :=
  let r := with_fault f d (exec d (RegisterRelay d now (presence startedAt))) in
  let s := if ok r.2 then s else IncPresenceFailure "register" s in
  (start_loops s, r.1).

(** The ticker's branch of [heartbeatLoop]: its call returns. *)
Definition heartbeatLoop (f : fault) (now : time) (s : process) (d : db) : process * db :=
  let r := with_fault f d (exec d (HeartbeatRelay d now me)) in
  let s := if ok r.2 || pc_cancelled s then s else IncPresenceFailure "heartbeat" s in
  (set_heartbeat Waiting s, r.1).

Definition orderingLoop (f : fault) (now : time) (s : process) (d : db) : process * db :=
  let r := with_fault f d (reconcile_call d now) in
  (set_ordering Waiting (reconcileOrdering me (pc_memory s) r.2) s, r.1).

Definition statsLoop (reply : res RelayStats) (now : time) (s : process) (d : db) : process * db :=
  (set_stats Waiting (refreshStats reply now (pc_gauges s)) s, d).

Definition cleanupLoop (f : fault) (locked : gset uuid) (now : time) (s : process) (d : db)
  : process * db :=
  let c := CleanupDelivered d locked now (Retention cfg) (CleanupBatch cfg) in
  (set_cleanup Waiting s, (with_fault f d (c.1, Ok c.2)).1).

Definition releaseOrderingPartitions (f : fault) (now : time) (s : process) (d : db) : process * db :=
  let r := with_fault f d (ReleaseOrderingPartitions d now me (OrderingSafetyMargin cfg)) in
  (set_phase Stopping (set_outcome (pc_timed_out s) (ok r.2) (pc_marked s) s), r.1).

Definition markStopped (f : fault) (now : time) (s : process) (d : db) : process * db :=
  let r := with_fault f d (exec d (MarkRelayStopped d now me)) in
  let s := if ok r.2 then s else IncPresenceFailure "stop" s in
  (set_phase Returned (set_outcome (pc_timed_out s) (pc_released s) (ok r.2) s), r.1).

(** One step of the process on the database; [None] where it cannot happen.
    [a_drained] is the return of [runScheduler] and the [cancel()] after it. *)
Definition act (a : action) (s : process) (d : db) : option (process * db) :=
  match a with
  | a_cancel => if pc_cancelled s then None else Some (set_cancelled s, d)
  | a_register f startedAt now =>
      if is_phase Starting s then Some (run_start f startedAt now s d) else None
  | a_heartbeat_tick => if ticks (pc_heartbeat s) s then Some (set_heartbeat Calling s, d) else None
  | a_heartbeat f now =>
      if is_loop (pc_heartbeat s) Calling then Some (heartbeatLoop f now s d) else None
  | a_heartbeat_done => if quits (pc_heartbeat s) s then Some (set_heartbeat Done s, d) else None
  | a_ordering_tick =>
      if ticks (pc_ordering s) s then Some (set_ordering Calling (pc_memory s) s, d) else None
  | a_reconcile f now =>
      if is_loop (pc_ordering s) Calling then Some (orderingLoop f now s d) else None
  | a_ordering_done =>
      if quits (pc_ordering s) s then Some (set_ordering Done (pc_memory s) s, d) else None
  | a_stats_tick => if ticks (pc_stats s) s then Some (set_stats Calling (pc_gauges s) s, d) else None
  | a_stats reply now =>
      if is_loop (pc_stats s) Calling then Some (statsLoop reply now s d) else None
  | a_stats_done => if quits (pc_stats s) s then Some (set_stats Done (pc_gauges s) s, d) else None
  | a_cleanup_tick => if ticks (pc_cleanup s) s then Some (set_cleanup Calling s, d) else None
  | a_cleanup f locked now =>
      if is_loop (pc_cleanup s) Calling then Some (cleanupLoop f locked now s d) else None
  | a_cleanup_done => if quits (pc_cleanup s) s then Some (set_cleanup Done s, d) else None
  | a_drained =>
      if is_phase Running s && pc_cancelled s then Some (set_phase Releasing s, d) else None
  | a_timeout =>
      if is_phase Releasing s && negb (is_loop (pc_ordering s) Done) && negb (pc_timed_out s)
      then Some (set_outcome true (pc_released s) (pc_marked s) s, d) else None
  | a_release f now =>
      if is_phase Releasing s && (is_loop (pc_ordering s) Done || pc_timed_out s)
      then Some (releaseOrderingPartitions f now s d) else None
  | a_mark f now => if is_phase Stopping s then Some (markStopped f now s d) else None
  end.

(** ** The process in its environment *)

(** What the rest of the system does to the database: the deliveries of every
    relay, producers and operators, and the partition calls of other relays. No
    other process uses this instance's identity. *)
Inductive world_step : db -> db -> Prop :=
| w_db d d' : db_step d d' -> db_relays d' !! me = db_relays d !! me -> world_step d d'
| w_reconcile d now o L P stale M :
    o <> me -> btrim_nonempty o = true ->
    world_step d (ReconcileOrderingPartitions d now o L P stale M).1
| w_release d now o M : o <> me -> world_step d (ReleaseOrderingPartitions d now o M).1.

Record state : Type := MkState {
  st_process : process;
  st_sched : sched;
  st_db : db;
}.

(** [runScheduler] returns only with [active == 0]. *)
Inductive step : state -> state -> Prop :=
| l_act a s s' sc d d' :
    act a s d = Some (s', d') -> (a = a_drained -> sc_active sc = 0) ->
    step (MkState s sc d) (MkState s' sc d')
| l_sched s sc sc' d :
    pc_phase s = Running -> sched_step cfg sc sc' ->
    step (MkState s sc d) (MkState s sc' d)
| l_world s sc d d' : world_step d d' -> step (MkState s sc d) (MkState s sc d').

Definition start (g : gauges) (d : db) : state := MkState (process_init g) (sched_init cfg) d.

(** * Lemmas *)

(** ** The transitions of the process *)

(** The effects on the database are those of the system model. *)
Inductive own_effect : db -> db -> Prop :=
| o_same d : own_effect d d
| o_db d d' : db_step d d' -> own_effect d d'
| o_reconcile d now d' views : reconcile_call d now = (d', Ok views) -> own_effect d d'
| o_release d now d' :
    ReleaseOrderingPartitions d now me (OrderingSafetyMargin cfg) = (d', Ok tt) -> own_effect d d'.

Lemma with_fault_cases {S A} f (s : S) (r : S * res A) :
  with_fault f s r = r \/ (exists e, with_fault f s r = (s, Err e)) \/
  (exists e, with_fault f s r = (r.1, Err e)).
Proof. destruct f; eauto. Qed.

Lemma with_fault_db {S A} f (s : S) (r : S * res A) :
  (with_fault f s r).1 = s \/ (with_fault f s r).1 = r.1.
Proof. destruct f; eauto. Qed.

Lemma reconcile_effect d now : own_effect d (reconcile_call d now).1.
Proof.
  destruct (reconcile_call d now) as [d' [v|e]] eqn:E; cbn [fst].
  - exact (o_reconcile _ _ _ _ E).
  - rewrite (Reconcile_err _ _ _ _ _ _ _ _ _ E). apply o_same.
Qed.

Lemma release_effect d now :
  own_effect d (ReleaseOrderingPartitions d now me (OrderingSafetyMargin cfg)).1.
Proof.
  destruct (ReleaseOrderingPartitions _ _ _ _) as [d' [[]|e]] eqn:E; cbn [fst].
  - exact (o_release _ _ _ E).
  - rewrite (Release_err _ _ _ _ _ _ E). apply o_same.
Qed.

Lemma exec_effect d r : (forall d', r = Ok d' -> db_step d d') -> own_effect d (exec d r).1.
Proof. destruct r; simpl; intros H; [by apply o_db, H|apply o_same]. Qed.

Lemma fault_effect {A} f d (r : db * res A) : own_effect d r.1 -> own_effect d (with_fault f d r).1.
Proof. destruct (with_fault_db f d r) as [-> | ->]; eauto using own_effect. Qed.

Ltac act_cases a H :=
  destruct a; cbn [act] in H;
  unfold run_start, heartbeatLoop, orderingLoop, statsLoop, cleanupLoop, releaseOrderingPartitions,
    markStopped in H; cbv zeta in H;
  repeat (destruct_match H; try discriminate H); try injection H as <- <-.

Lemma act_effect a s d s' d' : act a s d = Some (s', d') -> own_effect d d'.
Proof.
  intros H. act_cases a H; try apply o_same; apply fault_effect;
    first [apply reconcile_effect | apply release_effect | apply exec_effect | apply o_db];
    eauto using db_step.
Qed.

(** Only reconciliation and release write the partitions. *)
Lemma act_partitions a s d s' d' :
  act a s d = Some (s', d') -> partition_inv d ->
  match a with
  | a_reconcile _ _ | a_release _ _ => True
  | _ => db_partitions d' = db_partitions d
  end.
Proof.
  intros H Hp. assert (forall A f (r : db * res A), db_partitions r.1 = db_partitions d ->
    db_partitions (with_fault f d r).1 = db_partitions d) as Hf.
  { intros A f r Hr. by destruct (with_fault_db f d r) as [-> | ->]. }
  assert (forall r, (forall d', r = Ok d' -> db_step d d') ->
    db_partitions (exec d r).1 = db_partitions d) as He.
  { intros [d1|] Hr; [|done]. exact (proj1 (db_step_frame d d1 (Hr d1 eq_refl) Hp)). }
  act_cases a H; try done; apply Hf; try (apply He; eauto using db_step).
  exact (proj1 (db_step_frame d _ (d_cleanup d locked now _ _) Hp)).
Qed.

Lemma own_effect_inv d d' :
  btrim_nonempty me = true -> own_effect d d' -> partition_inv d -> partition_inv d'.
Proof.
  intros Hme H Hp. destruct H as [d|d d' H|d now d' v H|d now d' H]; [done| | |].
  - by apply (proj1 (proj2 (proj2 (db_step_frame d d' H Hp)))).
  - pose proof (Reconcile_partition_inv d now me (OrderingLeaseDuration cfg) (PublishTimeout cfg)
      (PresenceStaleAfter cfg) (OrderingSafetyMargin cfg) Hp Hme) as Hi. by rewrite H in Hi.
  - pose proof (Release_partition_inv d now me (OrderingSafetyMargin cfg) Hp) as Hi. by rewrite H in Hi.
Qed.

(** ** Partitions leased to the instance *)

Definition holds_nothing (d : db) : Prop :=
  forall p r, db_partitions d !! p = Some r -> pr_lease_owner r <> Some me.

Lemma reconciled_owner now o leaseEnd ms M members p r :
  pr_lease_owner (reconciled now o leaseEnd ms M members p r) = pr_lease_owner r \/
  pr_lease_owner (reconciled now o leaseEnd ms M members p r) = Some o \/
  pr_lease_owner (reconciled now o leaseEnd ms M members p r) = None.
Proof. unfold reconciled. repeat case_match; simpl; auto. Qed.

Lemma world_step_inv d d' : world_step d d' -> partition_inv d -> partition_inv d'.
Proof.
  intros [? ? H _|? now o L P stale M Hne Ho|? now o M Hne] Hp.
  - by apply (proj1 (proj2 (proj2 (db_step_frame _ _ H Hp)))).
  - by apply Reconcile_partition_inv.
  - by apply Release_partition_inv.
Qed.

Lemma world_step_holds d d' :
  world_step d d' -> partition_inv d -> holds_nothing d -> holds_nothing d'.
Proof.
  intros [d0 d1 H _|d0 now o L P stale M Hne Ho|d0 now o M Hne] Hp Hn p r Hr; clear d d'.
  - rewrite (proj1 (db_step_frame _ _ H Hp)) in Hr. by eapply Hn.
  - destruct (ReconcileOrderingPartitions _ _ _ _ _ _ _) as [d1 [v|e]] eqn:E; cbn [fst] in Hr.
    + destruct (Reconcile_ok _ _ _ _ _ _ _ _ _ Hp Ho E) as (_ & Hin & Hout).
      destruct (db_partitions d0 !! p) as [r0|] eqn:E0; [|by rewrite Hout in Hr].
      rewrite (proj1 (Hin _ _ E0)) in Hr. injection Hr as <-.
      edestruct reconciled_owner as [Hx|[Hx|Hx]]; rewrite Hx; [by eapply Hn|congruence|done].
    + rewrite (Reconcile_err _ _ _ _ _ _ _ _ _ E) in Hr. by eapply Hn.
  - destruct (ReleaseOrderingPartitions _ _ _ _) as [d1 [u|e]] eqn:E; cbn [fst] in Hr.
    + apply Release_ok in E as ->. cbn [with_partitions db_partitions] in Hr.
      rewrite lookup_fmap, fmap_Some in Hr. destruct Hr as (r0 & Hr0 & ->).
      unfold release_row. case_match; [done|by eapply Hn].
    + rewrite (Release_err _ _ _ _ _ _ E) in Hr. by eapply Hn.
Qed.

Lemma release_holds d now :
  ok (ReleaseOrderingPartitions d now me (OrderingSafetyMargin cfg)).2 = true ->
  holds_nothing (ReleaseOrderingPartitions d now me (OrderingSafetyMargin cfg)).1.
Proof.
  destruct (ReleaseOrderingPartitions _ _ _ _) as [d' [u|e]] eqn:E; [|done]. intros _ p r.
  apply Release_ok in E as ->. cbn [fst with_partitions db_partitions].
  rewrite lookup_fmap, fmap_Some. intros (r0 & _ & ->) Ho. unfold release_row in Ho.
  destruct (sql_eq (pr_lease_owner r0) me) eqn:E; [done|].
  apply sql_eq_true in Ho. congruence.
Qed.

(** ** The invariant of a run *)

Definition sched_ok (sc : sched) : Prop :=
  0 <= sc_running sc /\ 0 <= sc_done sc /\ sc_active sc = sc_running sc + sc_done sc /\
  sc_active sc <= Concurrency cfg /\ PollInterval cfg <= sc_idleWait sc <= IdleBackoffMax cfg.

Definition deferred (s : process) : bool :=
  is_phase Releasing s || is_phase Stopping s || is_phase Returned s.

Record run_inv (x : state) : Prop := {
  ri_partitions : partition_inv (st_db x);
  ri_sched : sched_ok (st_sched x);
  ri_drained : deferred (st_process x) = true ->
    pc_cancelled (st_process x) = true /\ sc_active (st_sched x) = 0;
  ri_waited : pc_released (st_process x) = true -> pc_timed_out (st_process x) = false ->
    pc_ordering (st_process x) = Done /\ holds_nothing (st_db x);
  ri_phase : pc_released (st_process x) = true ->
    pc_phase (st_process x) = Stopping \/ pc_phase (st_process x) = Returned;
}.

Lemma is_phase_true x s : is_phase x s = true <-> pc_phase s = x.
Proof. apply bool_decide_eq_true. Qed.
Lemma is_loop_true x y : is_loop x y = true <-> x = y.
Proof. apply bool_decide_eq_true. Qed.

Lemma deferred_true s :
  deferred s = true <-> pc_phase s = Releasing \/ pc_phase s = Stopping \/ pc_phase s = Returned.
Proof. unfold deferred. rewrite !orb_true_iff, !is_phase_true. tauto. Qed.

Ltac process_facts :=
  repeat match goal with
  | H : (_ && _) = true |- _ => apply andb_true_iff in H as [? ?]
  | H : is_phase _ _ = true |- _ => apply is_phase_true in H
  | H : is_loop _ _ = true |- _ => apply is_loop_true in H
  | H : ticks _ _ = true |- _ => unfold ticks in H
  | H : quits _ _ = true |- _ => unfold quits in H
  | H : negb _ = true |- _ => apply negb_true_iff in H
  end.

(** The deferred calls start when the scheduler returns; a cancelled context
    stays cancelled. *)
Lemma act_deferred a s d s' d' :
  act a s d = Some (s', d') -> (deferred s = true -> pc_cancelled s = true) ->
  deferred s' = true -> pc_cancelled s' = true /\ (deferred s = true \/ a = a_drained).
Proof.
  intros H. rewrite !deferred_true. act_cases a H; process_facts;
    repeat match goal with |- context [if ?b then _ else _] => destruct b end; simpl; intuition congruence.
Qed.

(** A release that succeeds is the last write of the partitions, unless the
    wait for the ordering loop timed out. *)
Lemma act_released a s d s' d' :
  act a s d = Some (s', d') -> partition_inv d ->
  (pc_released s = true -> pc_timed_out s = false -> pc_ordering s = Done /\ holds_nothing d) ->
  (pc_released s = true -> pc_phase s = Stopping \/ pc_phase s = Returned) ->
  (pc_released s' = true -> pc_timed_out s' = false -> pc_ordering s' = Done /\ holds_nothing d') /\
  (pc_released s' = true -> pc_phase s' = Stopping \/ pc_phase s' = Returned).
Proof.
  intros H Hp Hw Hph. pose proof (act_partitions _ _ _ _ _ H Hp) as Hd.
  assert (db_partitions d' = db_partitions d -> holds_nothing d -> holds_nothing d') as Hn
    by (intros Hx Hy p r; rewrite Hx; apply Hy).
  act_cases a H; process_facts; try (specialize (Hn Hd); clear Hd;
    repeat match goal with |- context [if ?b then _ else _] => destruct b end; simpl;
    intuition congruence); simpl.
  - split; [|done]. intros Hr Ht. destruct (Hw Hr Ht). congruence.
  - split; [|by left]. intros Hr Ht. rewrite Ht, orb_false_r in *. process_facts.
    split; [done|]. destruct f; [by apply release_holds|done|done].
Qed.

Lemma run_inv_step x y :
  valid_config cfg -> IdleBackoffMax cfg < 2 ^ 62 -> run_inv x -> step x y -> run_inv y.
Proof.
  intros Hv Hmax [Hp Hs Hd Hw Hph] H.
  destruct H as [a s s' sc d d' H Ha|s sc sc' d Hrun H|s sc d d' H]; cbn [st_process st_sched st_db] in *.
  - destruct (act_released _ _ _ _ _ H Hp Hw Hph) as [Hw' Hph'].
    split; cbn [st_process st_sched st_db]; [|done| |done|done].
    + eapply own_effect_inv; [by apply vc_instance|by eapply act_effect|done].
    + intros Hs'. destruct (act_deferred _ _ _ _ _ H (fun h => proj1 (Hd h)) Hs') as [Hc [Hx| ->]];
        split; [done|by apply Hd|done|by apply Ha].
  - split; cbn [st_process st_sched st_db]; [done| | |done|done].
    + destruct Hs as (? & ? & ? & ? & ?). by eapply sched_invariant.
    + rewrite deferred_true, Hrun. naive_solver.
  - split; cbn [st_process st_sched st_db]; [by eapply world_step_inv|done|done| |done].
    intros Hr Ht. destruct (Hw Hr Ht). split; [done|]. by eapply world_step_holds.
Qed.

Lemma run_inv_start g d : valid_config cfg -> partition_inv d -> run_inv (start g d).
Proof.
  intros Hv Hp. pose proof (vc_concurrency _ Hv). pose proof (vc_poll _ Hv).
  split; simpl; [done| |done..]. unfold sched_ok. simpl. lia.
Qed.

Lemma run_inv_reachable g d x :
  valid_config cfg -> IdleBackoffMax cfg < 2 ^ 62 -> partition_inv d ->
  rtc step (start g d) x -> run_inv x.
Proof.
  intros Hv Hmax Hp. apply rtc_ind_r; [by apply run_inv_start|]. eauto using run_inv_step.
Qed.

(** ** The presence row after the stop *)

Definition marked_stopped (d : db) : Prop :=
  exists r, db_relays d !! me = Some r /\ rr_stopped_at r <> None.

Definition beats (s : process) : bool := is_loop (pc_heartbeat s) Calling || negb (pc_cancelled s).

Lemma same_but_partitions_relays d d' : same_but_partitions d d' -> db_relays d' = db_relays d.
Proof. by intros [t ->]. Qed.

Lemma Reconcile_relays d now o L P stale M :
  partition_inv d -> btrim_nonempty o = true ->
  db_relays (ReconcileOrderingPartitions d now o L P stale M).1 = db_relays d.
Proof.
  intros Hp Ho. destruct (ReconcileOrderingPartitions _ _ _ _ _ _ _) as [d1 [v|e]] eqn:E; cbn [fst].
  - apply same_but_partitions_relays. by destruct (Reconcile_ok _ _ _ _ _ _ _ _ _ Hp Ho E).
  - by rewrite (Reconcile_err _ _ _ _ _ _ _ _ _ E).
Qed.

Lemma Release_relays d now o M : db_relays (ReleaseOrderingPartitions d now o M).1 = db_relays d.
Proof.
  destruct (ReleaseOrderingPartitions _ _ _ _) as [d1 [u|e]] eqn:E; cbn [fst].
  - by rewrite (Release_ok _ _ _ _ _ _ E).
  - by rewrite (Release_err _ _ _ _ _ _ E).
Qed.

Lemma world_step_relays d d' :
  partition_inv d -> world_step d d' -> db_relays d' !! me = db_relays d !! me.
Proof.
  intros Hp H. destruct H as [d0 d1 _ H|d0 now o L P stale M _ Ho|d0 now o M _]; [done| |].
  - by rewrite Reconcile_relays.
  - by rewrite Release_relays.
Qed.

(** After the return and without a heartbeat in flight, the process no longer
    writes its presence row. *)
Lemma act_returned a s d s' d' :
  act a s d = Some (s', d') -> partition_inv d -> btrim_nonempty me = true ->
  pc_phase s = Returned -> beats s = false ->
  pc_phase s' = Returned /\ beats s' = false /\ db_relays d' = db_relays d.
Proof.
  intros H Hp Hme Hph Hb. unfold beats in *. apply orb_false_iff in Hb as [Hb Hc].
  apply negb_false_iff in Hc.
  assert (forall A f (r : db * res A), db_relays r.1 = db_relays d ->
    db_relays (with_fault f d r).1 = db_relays d) as Hf.
  { intros A f r Hr. by destruct (with_fault_db f d r) as [-> | ->]. }
  act_cases a H; process_facts; simpl; try congruence;
    repeat match goal with |- context [if ?b then _ else _] => destruct b end; simpl;
    rewrite ?Hb, ?Hc; split_and!; try done; try apply Hf.
  - by apply Reconcile_relays.
  - unfold CleanupDelivered. by case_match.
Qed.

Lemma marked_stopped_steps x y :
  valid_config cfg -> IdleBackoffMax cfg < 2 ^ 62 -> run_inv x -> rtc step x y ->
  pc_phase (st_process x) = Returned -> beats (st_process x) = false ->
  marked_stopped (st_db x) -> marked_stopped (st_db y).
Proof.
  intros Hv Hmax Hinv Hsteps. induction Hsteps as [x|x y z H Hsteps IH]; [done|].
  intros Hph Hb (r & Hr & Hs). pose proof (ri_partitions _ Hinv) as Hp.
  pose proof (run_inv_step _ _ Hv Hmax Hinv H) as Hinv'. apply IH; [done|..];
  destruct H as [a s s' sc d d' H Ha|s sc sc' d Hrun H|s sc d d' H]; cbn [st_process st_db] in *;
    try done;
    try (destruct (act_returned _ _ _ _ _ H Hp (vc_instance _ Hv) Hph Hb) as (? & ? & E); try done).
  - exists r. by rewrite E.
  - by exists r.
  - exists r. by rewrite (world_step_relays _ _ Hp H).
Qed.

(** ** The remaining work of a shutdown *)

Definition own (x y : process * db) : Prop := exists a, act a x.1 x.2 = Some y.

Definition loop_work (x : loop) : nat := match x with Calling => 2 | Waiting => 1 | Idle | Done => 0 end.

Definition work (s : process) : nat :=
  match pc_phase s with
  | Starting => 20 | Running => 4 | Releasing => 3 | Stopping => 2 | Returned => 0
  end + (if pc_timed_out s then 0 else 1)
  + loop_work (pc_ordering s) + loop_work (pc_heartbeat s)
  + loop_work (pc_stats s) + loop_work (pc_cleanup s).

Lemma act_work a s d s' d' :
  act a s d = Some (s', d') -> pc_cancelled s = true ->
  pc_cancelled s' = true /\ (work s' < work s)%nat.
Proof.
  intros H Hc. unfold work. act_cases a H; process_facts; try congruence; unfold start_loops;
    repeat match goal with |- context [if ?b then _ else _] => destruct b eqn:? end; simpl in *;
    repeat match goal with H : _ = _ |- _ => rewrite H end; simpl; split; (done || lia || congruence).
Qed.

Lemma act_progress s d :
  pc_cancelled s = true -> pc_phase s <> Returned -> exists y, own (s, d) y.
Proof.
  intros Hc Hph. unfold own. cbn [fst snd]. destruct (pc_phase s) eqn:E; [| | | |done].
  - eexists _, (a_register FailBefore 0 0). cbn [act]. unfold is_phase. by rewrite E.
  - eexists _, a_drained. cbn [act]. unfold is_phase. by rewrite E, Hc.
  - destruct (is_loop (pc_ordering s) Done || pc_timed_out s) eqn:Ew.
    + eexists _, (a_release FailBefore 0). cbn [act]. unfold is_phase. by rewrite E, Ew.
    + apply orb_false_iff in Ew as [Eo Et]. eexists _, a_timeout. cbn [act]. unfold is_phase.
      by rewrite E, Eo, Et.
  - eexists _, (a_mark FailBefore 0). cbn [act]. unfold is_phase. by rewrite E.
Qed.

Lemma work_bound s : (work s <= 30)%nat.
Proof.
  unfold work. destruct (pc_phase s), (pc_timed_out s), (pc_ordering s), (pc_heartbeat s),
    (pc_stats s), (pc_cleanup s); simpl; lia.
Qed.

Lemma own_bound n s d y :
  pc_cancelled s = true -> nsteps own n (s, d) y -> pc_cancelled y.1 = true /\ (n + work y.1 <= work s)%nat.
Proof.
  intros Hc H. remember (s, d) as x eqn:Ex. revert s d Ex Hc.
  induction H as [x|n x [s1 d1] y [a Ha] H IH]; intros s d -> Hc; [by split|].
  destruct (act_work _ _ _ _ _ Ha Hc) as [Hc1 Hw]. cbn [fst snd] in *.
  destruct (IH s1 d1 eq_refl Hc1). split; [done|lia].
Qed.

(** A sequence of steps, evaluated. *)
Fixpoint run_actions (l : list action) (x : process * db) : option (process * db) :=
  match l with
  | [] => Some x
  | a :: l => match act a x.1 x.2 with Some y => run_actions l y | None => None end
  end.

Lemma run_actions_step l sc x y :
  sc_active sc = 0 -> run_actions l x = Some y ->
  rtc step (MkState x.1 sc x.2) (MkState y.1 sc y.2).
Proof.
  intros Hsc. revert x. induction l as [|a l IH]; intros x H; simpl in H; [by simplify_eq|].
  destruct (act a x.1 x.2) as [z|] eqn:E; [|done].
  eapply rtc_l; [|by apply IH]. destruct z. by eapply l_act.
Qed.

Lemma run_actions_own l x y : run_actions l x = Some y -> nsteps own (length l) x y.
Proof.
  revert x. induction l as [|a l IH]; intros x H; simpl in *; [simplify_eq; constructor|].
  destruct (act a x.1 x.2) as [z|] eqn:E; [|done]. econstructor; [by exists a|by apply IH].
Qed.

End run.

(** ** The counters of a reconciliation *)

Lemma compare_partitions_spec me old ps n b :
  compare_partitions me old ps n b =
  (n + Z.of_nat (length (filter (fun p => acquired me (old !! op_partition_id p) p = true) ps)),
   b || existsb (fun p => reassigned (old !! op_partition_id p) p) ps).
Proof.
  revert n b. induction ps as [|p ps IH]; intros n b; simpl.
  { by rewrite Z.add_0_r, orb_false_r. }
  rewrite IH, filter_cons. f_equal.
  - case_decide as E; [rewrite E; simpl; lia|]. by rewrite (not_true_is_false _ E).
  - destruct (reassigned _ p); [by rewrite orb_true_r|]. by rewrite orb_false_l.
Qed.

Lemma previous_snoc ps q : previous (ps ++ [q]) = <[op_partition_id q := q]> (previous ps).
Proof. unfold previous. by rewrite foldl_app. Qed.

Lemma previous_lookup ps p q :
  NoDup (op_partition_id <$> ps) ->
  previous ps !! p = Some q <-> q ∈ ps /\ op_partition_id q = p.
Proof.
  induction ps as [|q0 ps IH] using rev_ind; intros Hnd.
  { unfold previous. simpl. rewrite lookup_empty, elem_of_nil. naive_solver. }
  rewrite fmap_app in Hnd. apply NoDup_app in Hnd as (Hnd & Hd & _).
  rewrite previous_snoc, lookup_insert, elem_of_app, list_elem_of_singleton.
  case_decide as E.
  - subst p. split; [intros [= <-]; auto|]. intros [[Hq| ->] Hid]; [|done].
    destruct (Hd (op_partition_id q)); [by apply list_elem_of_fmap_2|].
    rewrite Hid. simpl. by apply list_elem_of_singleton.
  - rewrite IH by done. naive_solver.
Qed.

Lemma acquired_spec me ps p :
  NoDup (op_partition_id <$> ps) ->
  acquired me (previous ps !! op_partition_id p) p = true <->
  op_lease_owner p = me /\
  ~ Exists (fun q => op_partition_id q = op_partition_id p /\ op_lease_owner q = me) ps.
Proof.
  intros Hnd. unfold acquired. rewrite andb_true_iff, bool_decide_eq_true, Exists_exists.
  apply and_iff_compat_l.
  assert (forall q, q ∈ ps /\ op_partition_id q = op_partition_id p <->
            previous ps !! op_partition_id p = Some q) as Hq by (intros q; by rewrite previous_lookup).
  destruct (previous ps !! op_partition_id p) as [q|].
  - rewrite negb_true_iff, bool_decide_eq_false. destruct (proj2 (Hq q) eq_refl). split; [|naive_solver].
    intros Hne (q' & Hin & Hid & Ho). assert (Some q = Some q') by (by apply Hq). naive_solver.
  - split; [intros _|done]. intros (q & Hin & Hid & _). assert (None = Some q) by (by apply Hq). done.
Qed.

Lemma reassigned_spec ps p :
  NoDup (op_partition_id <$> ps) ->
  reassigned (previous ps !! op_partition_id p) p = true <->
  exists q, q ∈ ps /\ op_partition_id q = op_partition_id p /\
            op_desired_owner q <> op_desired_owner p.
Proof.
  intros Hnd. unfold reassigned. destruct (previous ps !! op_partition_id p) as [q|] eqn:E.
  - rewrite negb_true_iff, bool_decide_eq_false. split.
    + apply previous_lookup in E as [? ?]; eauto.
    + intros (q' & Hin & Hid & Ho). assert (previous ps !! op_partition_id p = Some q') as E'
        by (by apply previous_lookup). congruence.
  - split; [done|]. intros (q & Hin & Hid & _). assert (previous ps !! op_partition_id p = Some q)
      as E' by (by apply previous_lookup). congruence.
Qed.

(** * Properties *)

(** The partition counters. A reconciliation that succeeds replaces the
    snapshot and adds the number of partitions the relay holds now and did not
    hold in the previous snapshot; the rebalance counter moves by one exactly
    when some partition of both snapshots changed its desired owner; a failed
    reconciliation changes nothing. *)
Theorem reconcileOrdering_counts me m ps :
  NoDup (op_partition_id <$> om_partitions m) ->
  let m' := reconcileOrdering me m (Ok ps) in
  om_partitions m' = ps /\
  om_acquisitions m' = om_acquisitions m + Z.of_nat (length (filter (fun p => op_lease_owner p = me /\
    ~ Exists (fun q => op_partition_id q = op_partition_id p /\ op_lease_owner q = me)
        (om_partitions m)) ps)) /\
  (om_rebalances m' = om_rebalances m + 1 <->
     exists p q, p ∈ ps /\ q ∈ om_partitions m /\ op_partition_id q = op_partition_id p /\
       op_desired_owner q <> op_desired_owner p) /\
  (forall e, reconcileOrdering me m (Err e) = m).
Proof.
  intros Hnd m'. unfold m'. cbn [reconcileOrdering]. cbv zeta. rewrite compare_partitions_spec.
  cbn [fst snd om_partitions om_acquisitions om_rebalances]. rewrite orb_false_l, Z.add_0_l.
  split; [done|]. split; [|split; [|done]].
  - do 3 f_equal. apply list_filter_iff. intros p. by apply acquired_spec.
  - transitivity (existsb (fun p => reassigned (previous (om_partitions m) !! op_partition_id p) p)
      ps = true); [destruct (existsb _ ps); lia|].
    rewrite existsb_exists. setoid_rewrite (reassigned_spec _ _ Hnd).
    setoid_rewrite <- list_elem_of_In. naive_solver.
Qed.

(** C19: Shutdown gives the partitions back. When [Run] has returned, its context
    is cancelled and none of its handlers is running; if the ordering loop ended
    within its ten seconds and the release succeeded, no partition is leased to
    the instance, and none is again, whatever the rest of the system does and
    whichever of its own loops still end. *)
Theorem graceful_shutdown cfg hostname version g d x :
  valid_config cfg -> IdleBackoffMax cfg < 2 ^ 62 -> partition_inv d ->
  rtc (step cfg hostname version) (start cfg g d) x ->
  pc_phase (st_process x) = Returned ->
  pc_cancelled (st_process x) = true /\ sc_running (st_sched x) = 0 /\
  (pc_timed_out (st_process x) = false -> pc_released (st_process x) = true ->
     pc_ordering (st_process x) = Done /\
     forall p r, db_partitions (st_db x) !! p = Some r -> pr_lease_owner r <> Some (InstanceID cfg)).
Proof.
  intros Hv Hmax Hp Hsteps Hph.
  destruct (run_inv_reachable _ _ _ _ _ _ Hv Hmax Hp Hsteps) as [_ (? & ? & ? & _) Hd Hw _].
  destruct Hd as [Hc Ha]; [apply deferred_true; auto|]. split_and!; [done|lia|]. auto.
Qed.

(** A stop is final. When the last deferred call marks the presence stopped
    and no heartbeat is in flight then, the instance's row says stopped in every
    later state: it is no member of the partition assignment until it is
    registered again. *)
Theorem stop_is_final cfg hostname version g d x y z now :
  valid_config cfg -> IdleBackoffMax cfg < 2 ^ 62 -> partition_inv d ->
  rtc (step cfg hostname version) (start cfg g d) x ->
  pc_heartbeat (st_process x) <> Calling ->
  act cfg hostname version (a_mark NoFault now) (st_process x) (st_db x) = Some y ->
  pc_marked y.1 = true ->
  rtc (step cfg hostname version) (MkState y.1 (st_sched x) y.2) z ->
  forall now' stale, InstanceID cfg ∉ activeOrderingMembers (st_db z) now' stale.
Proof.
  intros Hv Hmax Hp Hsteps Hb Ha Hm Hsteps' now' stale.
  pose proof (run_inv_reachable _ _ _ _ _ _ Hv Hmax Hp Hsteps) as Hinv. destruct x as [s sc d0], y as [s1 d1].
  cbn [st_process st_db st_sched fst snd] in *.
  assert (run_inv cfg (MkState s1 sc d1)) as Hinv'
    by (eapply run_inv_step; [done..|]; by eapply l_act).
  cut (marked_stopped cfg (st_db z)).
  { intros (r & Hr & Hs) (rr & Hrr & Hact)%elem_of_activeOrderingMembers.
    unfold me in Hr. rewrite Hr in Hrr. injection Hrr as <-. unfold active_member in Hact.
    destruct (rr_stopped_at r); [|done]. simpl in Hact. by rewrite andb_false_r in Hact. }
  cbn [act] in Ha. unfold markStopped in Ha. cbn [with_fault] in Ha. cbv zeta in Ha. destruct (is_phase Stopping s) eqn:Eph; [|done].
  apply is_phase_true in Eph. assert (pc_cancelled s = true) as Hc
    by (apply (ri_drained _ _ Hinv), deferred_true; auto).
  unfold MarkRelayStopped, touch_relay in Ha.
  destruct (db_relays d0 !! me cfg) as [r|] eqn:Er; cbn [exec fst snd ok] in Ha;
    injection Ha as <- <-; [|done].
  eapply marked_stopped_steps; [done|done|exact Hinv'|exact Hsteps'|done| |].
  - unfold beats. simpl. rewrite Hc, orb_false_r. by apply bool_decide_eq_false.
  - eexists. cbn [st_db with_relays db_relays]. by rewrite lookup_insert_eq.
Qed.


(** * Witnesses *)

Definition idle_gauges : gauges :=
  MkGauges (0, 0, 0) 0 false (0, 0) (MkOrderingStats 0 0 0 0 0 0 0) None.

(** Register, take the partitions, beat, and shut down. *)
Definition demo_work : list action :=
  [a_register NoFault 0 0; a_reconcile NoFault Second; a_heartbeat_tick; a_heartbeat NoFault (2 * Second)].
Definition demo_stop : list action := [a_cancel; a_ordering_done; a_drained; a_release NoFault (3 * Second)].

Definition demo_run (l : list action) : option (process * db) :=
  run_actions sample_config "host" "v1" l (process_init idle_gauges, migrated 0).

Definition held (d : db) : nat :=
  length (filter (fun kr => pr_lease_owner kr.2 = Some "relay-1"%string) (map_to_list (db_partitions d))).

Lemma demo_holds : (held <$> (snd <$> demo_run demo_work)) = Some 64%nat.
Proof. vm_compute. reflexivity. Qed.

Definition after (l : list action) : process * db :=
  default (process_init idle_gauges, migrated 0) (demo_run l).

Lemma demo_run_after l : is_Some (demo_run l) -> demo_run l = Some (after l).
Proof. unfold after. by intros [x ->]. Qed.

Definition state_after (l : list action) : state :=
  MkState (after l).1 (sched_init sample_config) (after l).2.

Lemma demo_reach l :
  is_Some (demo_run l) ->
  rtc (step sample_config "host" "v1") (start sample_config idle_gauges (migrated 0)) (state_after l).
Proof. intros H%demo_run_after. exact (run_actions_step _ _ _ _ (sched_init sample_config) _ _ eq_refl H). Qed.

Definition demo_shutdown : list action := demo_work ++ demo_stop ++ [a_mark NoFault (3 * Second)].

Lemma migrated_partition_inv : partition_inv (migrated 0).
Proof. apply inv_partitions, migrated_inv. Qed.

Lemma sample_backoff : IdleBackoffMax sample_config < 2 ^ 62.
Proof. vm_compute. reflexivity. Qed.

Lemma reconcileOrdering_counts_witness :
  let view p owner := OrderingPartitionView p owner owner None 1 None in
  let m' := reconcileOrdering "relay-1" (MkMemory [view 0 "relay-1"; view 1 "relay-2"]%string 1 0)
              (Ok [view 0 "relay-1"; view 1 "relay-1"]%string) in
  om_acquisitions m' = 2 /\ om_rebalances m' = 1.
Proof.
  intros view m'. destruct (reconcileOrdering_counts "relay-1"
    (MkMemory [view 0 "relay-1"; view 1 "relay-2"]%string 1 0)
    [view 0 "relay-1"; view 1 "relay-1"]%string) as (_ & Ha & _ & _).
  { repeat constructor; rewrite ?list_elem_of_singleton; vm_compute; set_solver. }
  split; [|vm_compute; reflexivity]. exact Ha.
Defined.

Lemma graceful_shutdown_witness :
  pc_released (after demo_shutdown).1 = true /\ sc_running (st_sched (state_after demo_shutdown)) = 0 /\
  forall p r, db_partitions (st_db (state_after demo_shutdown)) !! p = Some r ->
    pr_lease_owner r <> Some (InstanceID sample_config).
Proof.
  destruct (graceful_shutdown sample_config "host" "v1" idle_gauges (migrated 0)
    (state_after demo_shutdown) sample_config_valid sample_backoff migrated_partition_inv) as (_ & Hr & Hn).
  - apply demo_reach. vm_compute. by eexists.
  - vm_compute. reflexivity.
  - split; [vm_compute; reflexivity|]. split; [exact Hr|].
    refine (proj2 (Hn _ _)); vm_compute; reflexivity.
Defined.

(** The relay marks its presence after the partitions are given back. *)
Lemma stop_is_final_witness :
  pc_marked (after demo_shutdown).1 = true /\
  forall stale, InstanceID sample_config ∉
    activeOrderingMembers (st_db (state_after demo_shutdown)) (3 * Second) stale.
Proof.
  split; [vm_compute; reflexivity|]. intros stale.
  refine (stop_is_final sample_config "host" "v1" idle_gauges (migrated 0)
    (state_after (demo_work ++ demo_stop)) (after demo_shutdown) (state_after demo_shutdown) (3 * Second)
    sample_config_valid sample_backoff migrated_partition_inv _ _ _ _ _ (3 * Second) stale).
  - apply demo_reach. vm_compute. by eexists.
  - vm_compute. discriminate.
  - vm_compute. reflexivity.
  - vm_compute. reflexivity.
  - apply rtc_refl.
Defined.


(** A heartbeat that was in flight when the presence was marked clears the mark:
    [heartbeatLoop] is not awaited, so the row is stale only after the bound. *)
Lemma late_heartbeat_revives :
  let late := demo_work ++ [a_heartbeat_tick] ++ demo_stop
                ++ [a_mark NoFault (3 * Second); a_heartbeat NoFault (4 * Second)] in
  pc_phase (after late).1 = Returned /\ pc_marked (after late).1 = true /\
  activeOrderingMembers (after late).2 (4 * Second) (30 * Second) = ["relay-1"%string].
Proof. vm_compute. split_and!; reflexivity. Qed.
