(* ===== verification/Telemetry.v ===== *)
(** * Metrics ([telemetry/metrics.go])

    The instruments and what each method of [Metrics] does with them, as the
    list of calls on the Prometheus client. The client and its registry are not
    part of the repository: the calls are recorded, and the registry is an
    argument. Values are binary64 numbers ([Float64]), without NaN. *)
From Stdlib Require Import ZArith QArith Qround String Lqa.
From stdpp Require Import base gmap strings list sorting fin_maps sets.
From S2P Require Import Prelude Float64 Schema RelayConfig Relay.

Module Telemetry.

Open Scope Q_scope.

(** ** Instruments *)

Inductive kind : Type := Counter | Gauge | Histogram (buckets : list Q).

(** A collector: its name after the namespace, its kind and its label names. *)
Record collector : Type := MkCollector {
  co_name : string;
  co_kind : kind;
  co_labels : list string;
}.

Definition namespace : string := "emitlane".

Definition NewCounter (name : string) : collector := MkCollector name Counter [].
Definition NewGauge (name : string) : collector := MkCollector name Gauge [].
Definition NewHistogram (name : string) (buckets : list Q) : collector :=
  MkCollector name (Histogram buckets) [].
Definition NewCounterVec (name : string) (labels : list string) : collector :=
  MkCollector name Counter labels.
Definition NewGaugeVec (name : string) (labels : list string) : collector :=
  MkCollector name Gauge labels.
Definition NewHistogramVec (name : string) (buckets : list Q) (labels : list string) : collector :=
  MkCollector name (Histogram buckets) labels.

(** Bucket bounds in thousandths. *)
Definition milli (l : list Z) : list Q := (fun n => n # 1000) <$> l.
Definition ints (l : list Z) : list Q := inject_Z <$> l.

Definition statsInterval : collector := NewGauge "stats_interval_seconds".
Definition statsLastSuccess : collector := NewGauge "stats_last_success_timestamp_seconds".
Definition statsFailures : collector := NewCounter "stats_snapshot_failures_total".
Definition enqueued : collector := NewCounter "events_enqueued_total".
Definition delivered : collector := NewCounter "events_delivered_total".
Definition failed : collector := NewCounterVec "events_failed_total" ["result"%string].
Definition retried : collector := NewCounter "events_retried_total".
Definition dead : collector := NewCounter "events_dead_total".
Definition pending : collector := NewGauge "pending_events".
Definition inflight : collector := NewGauge "inflight_events".
Definition deadGauge : collector := NewGauge "dead_events".
Definition deliveryDuration : collector := NewHistogram "delivery_duration_seconds"
  (milli [5; 10; 25; 50; 100; 250; 500; 1000; 2500; 5000; 10000; 30000; 60000]%Z).
Definition publishDuration : collector := NewHistogram "publish_duration_seconds"
  (milli [1; 5; 10; 25; 50; 100; 250; 500; 1000; 2500; 5000; 10000; 30000]%Z).
Definition oldestPending : collector := NewGauge "oldest_pending_seconds".
Definition relayPaused : collector := NewGauge "relay_paused".
Definition relaysActive : collector := NewGauge "relay_instances_active".
Definition relaysStale : collector := NewGauge "relay_instances_stale".
Definition replayBatches : collector := NewCounter "replay_batches_total".
Definition replayedEvents : collector := NewCounter "replayed_events_total".
Definition adminMutations : collector := NewCounterVec "admin_mutations_total" ["action"; "result"]%string.
Definition controlFailures : collector := NewCounter "control_read_failures_total".
Definition presenceFailures : collector := NewCounterVec "relay_presence_failures_total" ["operation"%string].
Definition orderingStreams : collector := NewGauge "ordering_streams".
Definition orderingBlocked : collector := NewGauge "ordering_streams_blocked".
Definition orderingGaps : collector := NewGauge "ordering_streams_gap".
Definition orderingDeadBlocked : collector := NewGauge "ordering_streams_dead_blocked".
Definition orderingOwned : collector := NewGauge "ordering_partitions_owned".
Definition orderingHandoff : collector := NewGauge "ordering_partitions_handoff".
Definition orderingAcquisitions : collector := NewCounter "ordering_partition_acquisitions_total".
Definition orderingRebalances : collector := NewCounter "ordering_partition_rebalances_total".
Definition orderingDeliveryWait : collector := NewHistogram "ordering_delivery_wait_seconds"
  (milli [1; 5; 10; 25; 50; 100; 250; 500; 1000; 2500; 5000; 10000; 30000; 60000; 300000]%Z).
Definition orderingGapAge : collector := NewGauge "ordering_gap_age_seconds".
Definition orderingFenced : collector := NewCounterVec "ordering_fenced_attempts_total" ["operation"%string].
Definition integrityChecks : collector := NewCounterVec "integrity_checks_total" ["mode"; "result"]%string.
Definition integrityDuration : collector := NewHistogramVec "integrity_check_duration_seconds"
  (milli [5; 10; 25; 50; 100; 250; 500; 1000; 2500; 5000; 10000; 30000]%Z) ["mode"%string].
Definition consumerRecords : collector := NewCounterVec "consumer_records_total" ["consumer"; "result"]%string.
Definition consumerDuration : collector := NewHistogramVec "consumer_processing_duration_seconds"
  (milli [1; 5; 10; 25; 50; 100; 250; 500; 1000; 2500; 5000; 10000; 30000; 60000; 120000]%Z) ["consumer"%string].
Definition consumerRetries : collector := NewCounterVec "consumer_retries_total" ["consumer"%string].
Definition consumerDuplicates : collector := NewCounterVec "consumer_duplicates_total" ["consumer"%string].
Definition consumerDead : collector := NewGaugeVec "consumer_dead_events" ["consumer"%string].
Definition consumerInflight : collector := NewGaugeVec "consumer_inflight" ["consumer"%string].
Definition consumerRebalances : collector := NewCounterVec "consumer_rebalances_total" ["consumer"%string].
Definition consumerPaused : collector := NewGaugeVec "consumer_paused_partitions" ["consumer"; "reason"]%string.
Definition consumerLag : collector := NewGaugeVec "consumer_lag_records" ["consumer"; "topic"]%string.
Definition consumerWorkersActive : collector := NewGaugeVec "consumer_active_workers" ["consumer"%string].
Definition consumerWorkerCapacity : collector := NewGaugeVec "consumer_worker_capacity" ["consumer"%string].
Definition consumerBackpressure : collector :=
  NewCounterVec "consumer_backpressure_total" ["consumer"; "reason"]%string.
Definition consumerPollBatchSize : collector := NewHistogramVec "consumer_poll_batch_size"
  (ints [0; 1; 2; 4; 8; 16; 32; 64; 128]%Z) ["consumer"%string].
Definition relayWorkersActive : collector := NewGauge "relay_active_workers".
Definition relayWorkersCapacity : collector := NewGauge "relay_worker_capacity".
Definition relaySaturation : collector := NewGauge "relay_worker_saturation_ratio".
Definition relayClaimSize : collector := NewHistogram "relay_claim_size"
  (ints [0; 1; 2; 4; 8; 16; 32; 64; 128; 256]%Z).
Definition relayClaimDuration : collector := NewHistogram "relay_claim_duration_seconds"
  (milli [1; 5; 10; 25; 50; 100; 250; 500; 1000; 2500; 5000]%Z).
Definition relayBackpressure : collector := NewCounterVec "relay_backpressure_total" ["reason"%string].
Definition relayWakeups : collector := NewCounterVec "relay_wakeups_total" ["source"%string].

(** The order of registration. *)
Definition collectors : list collector :=
  [statsInterval; statsLastSuccess; statsFailures; enqueued; delivered; failed; retried; dead; pending;
   inflight; deadGauge; deliveryDuration; publishDuration; oldestPending; relayPaused; relaysActive;
   relaysStale; replayBatches; replayedEvents; adminMutations; controlFailures; presenceFailures;
   orderingStreams; orderingBlocked; orderingGaps; orderingDeadBlocked; orderingOwned; orderingHandoff;
   orderingAcquisitions; orderingRebalances; orderingDeliveryWait; orderingGapAge; orderingFenced;
   integrityChecks; integrityDuration; consumerRecords; consumerDuration; consumerRetries;
   consumerDuplicates; consumerDead; consumerInflight; consumerRebalances; consumerPaused; consumerLag;
   consumerWorkersActive; consumerWorkerCapacity; consumerBackpressure; consumerPollBatchSize;
   relayWorkersActive; relayWorkersCapacity; relaySaturation; relayClaimSize; relayClaimDuration;
   relayBackpressure; relayWakeups].

(** ** Calls on the client *)

(** [Touch] is [WithLabelValues] alone; the others act on the series. *)
Inductive prim : Type :=
| Touch (c : collector) (labels : list string)
| Inc (c : collector) (labels : list string)
| Add (c : collector) (labels : list string) (v : Q)
| Set_ (c : collector) (labels : list string) (v : Q)
| Observe (c : collector) (labels : list string) (v : Q).

(** [max(0, x)] on floats *)
Definition max0 (x : Q) : Q := if Qle_bool 0 x then x else 0.

(** [time.Duration.Seconds] *)
Definition Seconds (d : duration) : Q :=
  f64_add (f64_of_int (Z.quot d Second)) (f64_div (f64_of_int (Z.rem d Second)) (inject_Z Second)).

Fixpoint oneOf (value : string) (allowed : list string) : bool :=
  match allowed with
  | [] => false
  | candidate :: allowed => if String.eqb value candidate then true else oneOf value allowed
  end.

Definition nonempty (s : string) : bool := negb (String.eqb s "").

(** ** Construction *)

Definition actions : list string :=
  ["relay.pause"; "relay.resume"; "event.retry"; "event.replay"; "replay.batch"; "inbox.retry"]%string.
Definition operations : list string := ["register"; "heartbeat"; "stop"]%string.
Definition relay_reasons : list string :=
  ["workers_saturated"; "database_slow"; "broker_slow"; "paused"; "ordered_ownership"; "shutdown"]%string.
Definition sources : list string := ["notification"; "poll"]%string.
Definition transitions : list string := ["begin_attempt"; "retry"; "dead"; "delivered"]%string.
Definition modes : list string := ["summary"; "full"; "stream"]%string.
Definition results : list string := ["clean"; "warnings"; "violations"; "error"]%string.
Definition record_results : list string :=
  ["processed"; "duplicate"; "retry"; "dead"; "protocol_error"; "error"]%string.
Definition pause_reasons : list string := ["retry"; "dead"; "protocol"; "database"; "offset_commit"]%string.
Definition consumer_reasons : list string :=
  ["workers_saturated"; "retry_wait"; "dead"; "database_slow"; "rebalance"; "shutdown"]%string.

(** The series [NewMetrics] creates before the first observation. *)
Definition initial_series : list prim :=
  [Touch failed ["retryable"%string]; Touch failed ["permanent"%string]]
  ++ flat_map (fun action => [Touch adminMutations [action; "success"%string];
                              Touch adminMutations [action; "failure"%string]]) actions
  ++ ((fun operation => Touch presenceFailures [operation]) <$> operations)
  ++ ((fun reason => Touch relayBackpressure [reason]) <$> relay_reasons)
  ++ ((fun source => Touch relayWakeups [source]) <$> sources)
  ++ ((fun operation => Touch orderingFenced [operation]) <$> transitions)
  ++ flat_map (fun mode => Touch integrityDuration [mode]
                 :: ((fun result => Touch integrityChecks [mode; result]) <$> results)) modes.

Section registry.
(** [prometheus.Registerer]: a registration reports whether it was accepted. *)
Context {R : Type} (Register : collector -> R -> R * bool) (Unregister : collector -> R -> R).

Fixpoint register_all (registered : list collector) (cs : list collector) (reg : R) : R * bool :=
  match cs with
  | [] => (reg, true)
  | c :: cs =>
      let r := Register c reg in
      if r.2 then register_all (registered ++ [c]) cs r.1
      else (foldl (fun reg previous => Unregister previous reg) r.1 registered, false)
  end.

Definition NewMetrics (reg : R) : R * option (list prim) :=
  let r := register_all [] collectors reg in
  if r.2 then (r.1, Some initial_series) else (r.1, None).

End registry.

(** ** The methods: the calls each makes on a non-nil receiver *)

Definition SetStatsInterval (interval : duration) : list prim := [Set_ statsInterval [] (max0 (Seconds interval))].

Definition RecordStatsSnapshot (success : bool) (completedAt : time) : list prim :=
  if negb success then [Inc statsFailures []]
  else [Set_ statsLastSuccess [] (f64_div (f64_of_int completedAt) (inject_Z 1000000000))].

Definition SetRelayCapacity (active capacity : Z) : list prim :=
  let active := Z.max 0 active in
  let capacity := Z.max 0 capacity in
  [Set_ relayWorkersActive [] (f64_of_int active); Set_ relayWorkersCapacity [] (f64_of_int capacity)]
  ++ if (capacity =? 0)%Z then [Set_ relaySaturation [] 0]
     else [Set_ relaySaturation [] (f64_div (f64_of_int active) (f64_of_int capacity))].

Definition ObserveRelayClaim (size : Z) (seconds : Q) : list prim :=
  [Observe relayClaimSize [] (f64_of_int (Z.max 0 size)); Observe relayClaimDuration [] (max0 seconds)].

Definition RecordRelayBackpressure (reason : string) : list prim :=
  if oneOf reason relay_reasons then [Inc relayBackpressure [reason]] else [].

Definition IncRelayWakeup (source : string) : list prim :=
  if oneOf source sources then [Inc relayWakeups [source]] else [].

Definition ObserveConsumerRecord (consumer result : string) (seconds : Q) : list prim :=
  if negb (nonempty consumer) || negb (oneOf result record_results) then [] else
  [Inc consumerRecords [consumer; result]; Observe consumerDuration [consumer] (max0 seconds)].

Definition IncConsumerRetry (consumer : string) : list prim :=
  if nonempty consumer then [Inc consumerRetries [consumer]] else [].
Definition IncConsumerDuplicate (consumer : string) : list prim :=
  if nonempty consumer then [Inc consumerDuplicates [consumer]] else [].
Definition AddConsumerDead (consumer : string) (delta : Q) : list prim :=
  if nonempty consumer then [Add consumerDead [consumer] delta] else [].
Definition AddConsumerInflight (consumer : string) (delta : Q) : list prim :=
  if nonempty consumer then [Add consumerInflight [consumer] delta] else [].
Definition IncConsumerRebalance (consumer : string) : list prim :=
  if nonempty consumer then [Inc consumerRebalances [consumer]] else [].

Definition AddConsumerPaused (consumer reason : string) (delta : Q) : list prim :=
  if negb (nonempty consumer) || negb (oneOf reason pause_reasons) then [] else
  [Add consumerPaused [consumer; reason] delta].

Definition SetConsumerLag (consumer topic : string) (records : Q) : list prim :=
  if nonempty consumer && nonempty topic then [Set_ consumerLag [consumer; topic] (max0 records)] else [].

Definition SetConsumerCapacity (consumer : string) (active capacity : Z) : list prim :=
  if negb (nonempty consumer) then [] else
  [Set_ consumerWorkersActive [consumer] (f64_of_int (Z.max 0 active));
   Set_ consumerWorkerCapacity [consumer] (f64_of_int (Z.max 0 capacity))].

Definition AddConsumerWorker (consumer : string) (delta : Q) : list prim :=
  if nonempty consumer then [Add consumerWorkersActive [consumer] delta] else [].

Definition RecordConsumerBackpressure (consumer reason : string) : list prim :=
  if nonempty consumer && oneOf reason consumer_reasons
  then [Inc consumerBackpressure [consumer; reason]] else [].

Definition ObserveConsumerPollBatch (consumer : string) (size : Z) : list prim :=
  if nonempty consumer then [Observe consumerPollBatchSize [consumer] (f64_of_int (Z.max 0 size))] else [].

Definition IncEnqueued : list prim := [Inc enqueued []].
Definition IncDelivered : list prim := [Inc delivered []].
Definition RecordPublishFailure (permanent : bool) : list prim :=
  [Inc failed [if permanent then "permanent"%string else "retryable"%string]].
Definition IncRetried : list prim := [Inc retried []].
Definition IncDead : list prim := [Inc dead []].

Definition IncOrderingFenced (operation : string) : list prim :=
  if negb (oneOf operation transitions) then [] else [Inc orderingFenced [operation]].

Definition ObserveIntegrityCheck (mode result : string) (seconds : Q) : list prim :=
  if negb (oneOf mode modes) || negb (oneOf result results) then [] else
  [Inc integrityChecks [mode; result]; Observe integrityDuration [mode] (max0 seconds)].

Definition ObservePublish (seconds : Q) : list prim := [Observe publishDuration [] (max0 seconds)].
Definition ObserveDelivery (seconds : Q) : list prim := [Observe deliveryDuration [] (max0 seconds)].

Definition SetQueueDepth (p i d : Q) : list prim :=
  [Set_ pending [] (max0 p); Set_ inflight [] (max0 i); Set_ deadGauge [] (max0 d)].
Definition SetOldestPending (seconds : Q) : list prim := [Set_ oldestPending [] (max0 seconds)].
Definition SetRelayPaused (paused : bool) : list prim := [Set_ relayPaused [] (if paused then 1 else 0)].
Definition SetRelayInstances (active stale : Q) : list prim :=
  [Set_ relaysActive [] (max0 active); Set_ relaysStale [] (max0 stale)].

Definition RecordReplay (events : Z) : list prim :=
  if (events <=? 0)%Z then [] else [Inc replayBatches []; Add replayedEvents [] (f64_of_int events)].
Definition IncAdminMutation (action result : string) : list prim := [Inc adminMutations [action; result]].
Definition IncControlFailure : list prim := [Inc controlFailures []].
Definition IncPresenceFailure (operation : string) : list prim := [Inc presenceFailures [operation]].

Definition SetOrderingState (streams blocked gaps deadBlocked owned handoff gapAge : Q) : list prim :=
  [Set_ orderingStreams [] (max0 streams); Set_ orderingBlocked [] (max0 blocked);
   Set_ orderingGaps [] (max0 gaps); Set_ orderingDeadBlocked [] (max0 deadBlocked);
   Set_ orderingOwned [] (max0 owned); Set_ orderingHandoff [] (max0 handoff);
   Set_ orderingGapAge [] (max0 gapAge)].

Definition AddOrderingAcquisitions (count : Z) : list prim :=
  if (count <=? 0)%Z then [] else [Add orderingAcquisitions [] (f64_of_int count)].
Definition IncOrderingRebalance : list prim := [Inc orderingRebalances []].
Definition ObserveOrderingDeliveryWait (seconds : Q) : list prim :=
  [Observe orderingDeliveryWait [] (max0 seconds)].

(** One call of a method, with its arguments. *)
Inductive call : Type :=
| k_stats_interval (d : duration) | k_snapshot (ok : bool) (t : time) | k_capacity (a c : Z)
| k_claim (n : Z) (s : Q) | k_relay_backpressure (r : string) | k_wakeup (s : string)
| k_record (c r : string) (s : Q) | k_retry (c : string) | k_duplicate (c : string)
| k_consumer_dead (c : string) (v : Q) | k_consumer_inflight (c : string) (v : Q)
| k_rebalance (c : string) | k_paused (c r : string) (v : Q) | k_lag (c t : string) (v : Q)
| k_consumer_capacity (c : string) (a n : Z) | k_worker (c : string) (v : Q)
| k_consumer_backpressure (c r : string) | k_poll (c : string) (n : Z)
| k_enqueued | k_delivered | k_failure (permanent : bool) | k_retried | k_dead | k_fenced (o : string)
| k_integrity (m r : string) (s : Q) | k_publish (s : Q) | k_delivery (s : Q)
| k_depth (p i d : Q) | k_oldest (s : Q) | k_relay_paused (b : bool) | k_instances (a s : Q)
| k_replay (n : Z) | k_mutation (a r : string) | k_control | k_presence (o : string)
| k_ordering (s b g d o h a : Q) | k_acquisitions (n : Z) | k_ordering_rebalance | k_wait (s : Q).

Definition issue (k : call) : list prim :=
  match k with
  | k_stats_interval d => SetStatsInterval d
  | k_snapshot ok t => RecordStatsSnapshot ok t
  | k_capacity a c => SetRelayCapacity a c
  | k_claim n s => ObserveRelayClaim n s
  | k_relay_backpressure r => RecordRelayBackpressure r
  | k_wakeup s => IncRelayWakeup s
  | k_record c r s => ObserveConsumerRecord c r s
  | k_retry c => IncConsumerRetry c
  | k_duplicate c => IncConsumerDuplicate c
  | k_consumer_dead c v => AddConsumerDead c v
  | k_consumer_inflight c v => AddConsumerInflight c v
  | k_rebalance c => IncConsumerRebalance c
  | k_paused c r v => AddConsumerPaused c r v
  | k_lag c t v => SetConsumerLag c t v
  | k_consumer_capacity c a n => SetConsumerCapacity c a n
  | k_worker c v => AddConsumerWorker c v
  | k_consumer_backpressure c r => RecordConsumerBackpressure c r
  | k_poll c n => ObserveConsumerPollBatch c n
  | k_enqueued => IncEnqueued
  | k_delivered => IncDelivered
  | k_failure p => RecordPublishFailure p
  | k_retried => IncRetried
  | k_dead => IncDead
  | k_fenced o => IncOrderingFenced o
  | k_integrity m r s => ObserveIntegrityCheck m r s
  | k_publish s => ObservePublish s
  | k_delivery s => ObserveDelivery s
  | k_depth p i d => SetQueueDepth p i d
  | k_oldest s => SetOldestPending s
  | k_relay_paused b => SetRelayPaused b
  | k_instances a s => SetRelayInstances a s
  | k_replay n => RecordReplay n
  | k_mutation a r => IncAdminMutation a r
  | k_control => IncControlFailure
  | k_presence o => IncPresenceFailure o
  | k_ordering s b g d o h a => SetOrderingState s b g d o h a
  | k_acquisitions n => AddOrderingAcquisitions n
  | k_ordering_rebalance => IncOrderingRebalance
  | k_wait s => ObserveOrderingDeliveryWait s
  end.

(** A nil [*Metrics] is safe to call. *)
Definition record (present : bool) (ks : list call) : list prim :=
  if present then initial_series ++ flat_map issue ks else [].

(** ** The series *)

Definition prim_collector (p : prim) : collector :=
  match p with Touch c _ | Inc c _ | Add c _ _ | Set_ c _ _ | Observe c _ _ => c end.
Definition prim_labels (p : prim) : list string :=
  match p with Touch _ l | Inc _ l | Add _ l _ | Set_ _ l _ | Observe _ l _ => l end.
Definition series (p : prim) : string * list string := (co_name (prim_collector p), prim_labels p).

(** What the client accepts without a panic: as many label values as names,
    and no negative increment of a counter. *)
Definition prim_ok (p : prim) : Prop :=
  prim_collector p ∈ collectors /\
  length (prim_labels p) = length (co_labels (prim_collector p)) /\
  match p with
  | Touch c _ => co_labels c <> []
  | Inc c _ => co_kind c = Counter
  | Add c _ v => co_kind c = Gauge \/ (co_kind c = Counter /\ 0 <= v)
  | Set_ c _ _ => co_kind c = Gauge
  | Observe c _ v => (exists b, co_kind c = Histogram b) /\ 0 <= v
  end.

(** The values of each label; [C] and [T] are the configured consumers and
    topics. *)
Section families.
Context (C T : list string).

Definition families : list (collector * list (list string)) :=
  [(failed, [["retryable"; "permanent"]%string]);
   (adminMutations, [actions; ["success"; "failure"]%string]); (presenceFailures, [operations]);
   (orderingFenced, [transitions]); (integrityChecks, [modes; results]); (integrityDuration, [modes]);
   (relayBackpressure, [relay_reasons]); (relayWakeups, [sources]);
   (consumerRecords, [C; record_results]); (consumerDuration, [C]); (consumerRetries, [C]);
   (consumerDuplicates, [C]); (consumerDead, [C]); (consumerInflight, [C]); (consumerRebalances, [C]);
   (consumerPaused, [C; pause_reasons]); (consumerLag, [C; T]); (consumerWorkersActive, [C]);
   (consumerWorkerCapacity, [C]); (consumerBackpressure, [C; consumer_reasons]);
   (consumerPollBatchSize, [C])].

Fixpoint tuples (ds : list (list string)) : list (list string) :=
  match ds with
  | [] => [[]]
  | d :: ds => flat_map (fun x => cons x <$> tuples ds) d
  end.

Definition unlabelled : list collector := filter (fun c => co_labels c = []) collectors.

Definition all_series : list (string * list string) :=
  ((fun c => (co_name c, [])) <$> unlabelled)
  ++ flat_map (fun f => (fun l => (co_name f.1, l)) <$> tuples f.2) families.

(** The arguments the callers in the repository pass: configured names, and the
    literals of the two methods that do not filter. *)
Definition caller_ok (k : call) : Prop :=
  match k with
  | k_record c _ _ | k_retry c | k_duplicate c | k_consumer_dead c _ | k_consumer_inflight c _
  | k_rebalance c | k_paused c _ _ | k_consumer_capacity c _ _ | k_worker c _
  | k_consumer_backpressure c _ | k_poll c _ => c ∈ C
  | k_lag c t _ => c ∈ C /\ t ∈ T
  | k_mutation a r => a ∈ actions /\ r ∈ ["success"; "failure"]%string
  | k_presence o => o ∈ operations
  | _ => True
  end.

End families.

(** * Lemmas *)

Lemma max0_nonneg x : 0 <= max0 x.
Proof.
  unfold max0. destruct (Qle_bool 0 x) eqn:E; [by apply Qle_bool_iff|apply Qle_refl].
Qed.

Lemma f64_of_int_nonneg n : (0 <= n)%Z -> 0 <= f64_of_int n.
Proof. intros H. apply round64_nonneg. unfold Qle, inject_Z. simpl. lia. Qed.

Lemma oneOf_elem value allowed : oneOf value allowed = true <-> value ∈ allowed.
Proof.
  induction allowed as [|c l IH]; simpl; [split; [done|by intros ?%elem_of_nil]|].
  rewrite elem_of_cons. destruct (String.eqb_spec value c); [naive_solver|]. rewrite IH. naive_solver.
Qed.

Lemma elem_of_flat_map {A B} (f : A -> list B) l y : y ∈ flat_map f l <-> exists x, x ∈ l /\ y ∈ f x.
Proof. rewrite list_elem_of_In, in_flat_map. setoid_rewrite <- list_elem_of_In. done. Qed.

Lemma elem_of_tuples ds l : l ∈ tuples ds <-> Forall2 (fun x d => x ∈ d) l ds.
Proof.
  revert l. induction ds as [|d ds IH]; intros l; simpl.
  - rewrite list_elem_of_singleton. split; [intros ->; constructor|by inversion 1].
  - rewrite elem_of_flat_map. split.
    + intros (x & Hx & (l' & -> & Hl)%list_elem_of_fmap). constructor; [done|by apply IH].
    + inversion 1 as [|x ? l' ? Hx Hl]; subst. exists x. split; [done|].
      apply list_elem_of_fmap_2. by apply IH.
Qed.

Lemma length_flat_map_const {A B} (f : A -> list B) l n :
  (forall x, length (f x) = n) -> length (flat_map f l) = (length l * n)%nat.
Proof. intros H. induction l as [|x l IH]; simpl; [done|]. rewrite length_app, H, IH. done. Qed.

Lemma length_tuples ds : length (tuples ds) = foldr (fun d n => (length d * n)%nat) 1%nat ds.
Proof.
  induction ds as [|d ds IH]; simpl; [done|].
  rewrite (length_flat_map_const _ _ (length (tuples ds))); [by rewrite IH|].
  intros x. apply length_fmap.
Qed.

Ltac in_list := solve [repeat first [apply list_elem_of_here | apply list_elem_of_further]].

Ltac filters := repeat match goal with
  | H : oneOf _ _ = true |- _ => apply oneOf_elem in H
  | H : (_ || _) = false |- _ => apply orb_false_iff in H as [? ?]
  | H : (_ && _) = true |- _ => apply andb_true_iff in H as [? ?]
  | H : negb _ = false |- _ => apply negb_false_iff in H
  end.

(** The calls of one method, one by one, with the checks it has passed. *)
Ltac issue_cases k H :=
  destruct k; unfold issue, SetStatsInterval, RecordStatsSnapshot, SetRelayCapacity, ObserveRelayClaim,
    RecordRelayBackpressure, IncRelayWakeup, ObserveConsumerRecord, IncConsumerRetry, IncConsumerDuplicate,
    AddConsumerDead, AddConsumerInflight, IncConsumerRebalance, AddConsumerPaused, SetConsumerLag,
    SetConsumerCapacity, AddConsumerWorker, RecordConsumerBackpressure, ObserveConsumerPollBatch,
    IncEnqueued, IncDelivered, RecordPublishFailure, IncRetried, IncDead, IncOrderingFenced,
    ObserveIntegrityCheck, ObservePublish, ObserveDelivery, SetQueueDepth, SetOldestPending,
    SetRelayPaused, SetRelayInstances, RecordReplay, IncAdminMutation, IncControlFailure,
    IncPresenceFailure, SetOrderingState, AddOrderingAcquisitions, IncOrderingRebalance,
    ObserveOrderingDeliveryWait in H; cbv zeta in H;
  repeat (destruct_match H); filters; cbn [app] in H;
  repeat first [apply elem_of_nil in H; contradiction | apply elem_of_cons in H as [->|H]].

Lemma f64_div_nonneg x y : 0 <= x -> 0 <= y -> 0 <= f64_div x y.
Proof.
  intros Hx Hy. apply round64_nonneg. unfold Qdiv. apply Qmult_le_0_compat; [done|].
  by apply Qinv_le_0_compat.
Qed.

Lemma issue_ok k p : p ∈ issue k -> prim_ok p.
Proof.
  intros H. issue_cases k H;
    (split; [cbn [prim_collector]; in_list|]); (split; [reflexivity|]);
    cbn; try reflexivity; try (by left); try (right; split; [reflexivity|]);
    try (split; [by eexists|]); try apply max0_nonneg; try (apply f64_of_int_nonneg; lia);
    try (apply f64_of_int_nonneg; bool_to_prop; lia).
Qed.

Lemma initial_ok p : p ∈ initial_series -> prim_ok p.
Proof.
  intros H. unfold initial_series in H. cbn in H.
  repeat first [apply elem_of_nil in H; contradiction | apply elem_of_cons in H as [->|H]];
    (split; [cbn [prim_collector]; in_list|]); (split; [reflexivity|]); cbn; discriminate.
Qed.

Lemma unlabelled_series C T c :
  c ∈ collectors -> co_labels c = [] -> (co_name c, []) ∈ all_series C T.
Proof.
  intros Hc Hl. unfold all_series. apply elem_of_app. left.
  apply list_elem_of_fmap. exists c. split; [done|]. by apply list_elem_of_filter.
Qed.

Lemma family_series C T c ds l :
  (c, ds) ∈ families C T -> Forall2 (fun x d => x ∈ d) l ds -> (co_name c, l) ∈ all_series C T.
Proof.
  intros Hc Hl. unfold all_series. apply elem_of_app. right. apply elem_of_flat_map.
  exists (c, ds). split; [done|]. apply list_elem_of_fmap. exists l. split; [done|].
  by apply elem_of_tuples.
Qed.

Lemma issue_series C T k p : caller_ok C T k -> p ∈ issue k -> series p ∈ all_series C T.
Proof.
  intros Hk H. issue_cases k H; cbn [caller_ok] in Hk; unfold series; cbn [prim_collector prim_labels];
    first [ apply unlabelled_series; [in_list|reflexivity]
          | eapply family_series; [in_list|]; destruct_and?; repeat apply List.Forall2_cons; try done; in_list ].
Qed.

Lemma initial_series_allowed C T p : p ∈ initial_series -> series p ∈ all_series C T.
Proof.
  intros H. unfold initial_series in H. cbn in H.
  repeat first [apply elem_of_nil in H; contradiction | apply elem_of_cons in H as [->|H]];
    unfold series; cbn [prim_collector prim_labels];
    (eapply family_series; [in_list|]); repeat apply List.Forall2_cons; try done; in_list.
Qed.

Lemma length_all_series C T : length (all_series C T) = (78 + length C * (26 + length T))%nat.
Proof.
  unfold all_series. rewrite length_app, length_fmap.
  assert (length unlabelled = 34%nat) as -> by (vm_compute; reflexivity).
  unfold families. cbn [flat_map]. rewrite ?length_app, ?length_fmap, ?length_tuples. cbn. lia.
Qed.

(** ** Registration *)

(** What the code relies on of a registry, seen as the set of its names: a
    registration is accepted only for a new name and then adds it, a refused one
    changes nothing, and an unregistration removes the name. *)
Class RegistryLaws {R : Type} (Register : collector -> R -> R * bool)
    (Unregister : collector -> R -> R) (names : R -> gset string) : Prop := {
  register_accepted c r r' : Register c r = (r', true) ->
    co_name c ∉ names r /\ names r' = {[co_name c]} ∪ names r;
  register_refused c r r' : Register c r = (r', false) -> names r' = names r;
  unregister_names c r : names (Unregister c r) = names r ∖ {[co_name c]};
}.

Definition names_of (cs : list collector) : gset string := list_to_set (co_name <$> cs).

Section registration.
Context {R : Type} (Register : collector -> R -> R * bool) (Unregister : collector -> R -> R)
  (names : R -> gset string) {laws : RegistryLaws Register Unregister names}.

Lemma unregister_all cs r :
  names (foldl (fun reg previous => Unregister previous reg) r cs) = names r ∖ names_of cs.
Proof.
  revert r. induction cs as [|c cs IH]; intros r; simpl; [unfold names_of; set_solver|].
  rewrite IH, unregister_names. unfold names_of. cbn [fmap list_fmap list_to_set]. set_solver.
Qed.

Lemma register_all_spec base done_ cs r :
  names r = names_of done_ ∪ base -> names_of done_ ## base ->
  let r' := register_all Register Unregister done_ cs r in
  if r'.2 then names r'.1 = names_of (done_ ++ cs) ∪ base /\ names_of (done_ ++ cs) ## base
  else names r'.1 = base.
Proof.
  revert done_ r. induction cs as [|c cs IH]; intros done_ r Hr Hd; simpl.
  { by rewrite app_nil_r. }
  destruct (Register c r) as [r1 [|]] eqn:E; cbn [fst snd].
  - apply register_accepted in E as [Hnew Hr1].
    specialize (IH (done_ ++ [c]) r1). rewrite <- app_assoc in IH. cbn [app] in IH. apply IH.
    + rewrite Hr1, Hr. unfold names_of. rewrite fmap_app, list_to_set_app_L. cbn. set_solver.
    + unfold names_of in *. rewrite fmap_app, list_to_set_app_L. cbn. set_solver.
  - apply register_refused in E. rewrite unregister_all, E, Hr. set_solver.
Qed.

End registration.

Lemma f64_ratio a c : (0 <= a <= c)%Z -> (0 < c)%Z ->
  0 <= f64_div (f64_of_int a) (f64_of_int c) /\ f64_div (f64_of_int a) (f64_of_int c) <= 1.
Proof.
  intros Ha Hc.
  assert (0 <= inject_Z a) by (change 0 with (inject_Z 0); rewrite <- Zle_Qle; lia).
  assert (inject_Z a <= inject_Z c) by (rewrite <- Zle_Qle; lia).
  assert (0 <= f64_of_int a) by (apply f64_of_int_nonneg; lia).
  assert (f64_of_int a <= f64_of_int c) by (by apply round64_mono).
  assert (0 < f64_of_int c) as Hpos.
  { apply (Qlt_le_trans _ 1); [reflexivity|]. apply round64_ge; [discriminate| |].
    - change 1 with (inject_Z 1). rewrite <- Zle_Qle. lia.
    - apply (representable_int 1). lia. }
  split; [apply f64_div_nonneg; lra|]. apply round64_le.
  - apply Qle_shift_div_l; [done|]. lra.
  - apply Qle_shift_div_r; [done|]. lra.
  - apply (representable_int 1). lia.
Qed.

Lemma size_list_to_set_le {A} `{Countable A} (l : list A) :
  (size (list_to_set l : gset A) <= length l)%nat.
Proof.
  induction l as [|x l IH]; cbn [list_to_set length]; [apply Nat.eq_le_incl, size_empty|].
  rewrite size_union_alt, size_singleton.
  assert (size (list_to_set l ∖ {[x]} : gset A) <= size (list_to_set l : gset A))%nat
    by (apply subseteq_size; set_solver). lia.
Qed.

(** * Properties *)

(** Bounded telemetry. Whatever sequence of measurements the program makes,
    every call on the client names a registered instrument of the right kind with
    the right number of label values, increases counters and observes values
    only by non-negative amounts, and the number of series stays within a bound
    fixed by the configured consumers and topics; without metrics nothing is
    called. *)
Theorem metrics_bounded C T present ks :
  Forall (caller_ok C T) ks ->
  Forall prim_ok (record present ks) /\
  (size (list_to_set (series <$> record present ks) : gset (string * list string))
     <= 78 + length C * (26 + length T))%nat /\
  record false ks = [].
Proof.
  intros Hk. split_and!; [| |done].
  - apply Forall_forall. intros p Hp. unfold record in Hp. destruct present; [|by apply elem_of_nil in Hp].
    apply elem_of_app in Hp as [Hp|(k & _ & Hp)%elem_of_flat_map]; [by apply initial_ok|by eapply issue_ok].
  - transitivity (size (list_to_set (all_series C T) : gset (string * list string))).
    + apply subseteq_size. intros x. rewrite !elem_of_list_to_set.
      intros (p & -> & Hp)%list_elem_of_fmap. unfold record in Hp.
      destruct present; [|by apply elem_of_nil in Hp].
      apply elem_of_app in Hp as [Hp|(k & Hin & Hp)%elem_of_flat_map]; [by apply initial_series_allowed|].
      eapply issue_series; [|done]. by eapply Forall_forall in Hk.
    + rewrite <- length_all_series. apply size_list_to_set_le.
Qed.

(** Registration is all or nothing. With any registry, [NewMetrics] either
    adds exactly its 55 instruments, all of them new, or leaves the names of the
    registry as they were. *)
Theorem NewMetrics_atomic {R} (Register : collector -> R -> R * bool) (Unregister : collector -> R -> R)
    (names : R -> gset string) `{!RegistryLaws Register Unregister names} reg :
  let r := NewMetrics Register Unregister reg in
  match r.2 with
  | Some created => names r.1 = names_of collectors ∪ names reg /\ names_of collectors ## names reg /\
                    created = initial_series
  | None => names r.1 = names reg
  end.
Proof.
  cbv zeta. unfold NewMetrics. cbv zeta.
  pose proof (register_all_spec Register Unregister names (names reg) [] collectors reg) as H.
  destruct (register_all _ _ _ _ _) as [r' [|]]; cbn [fst snd] in *.
  - destruct H as [H1 H2]; [unfold names_of; set_solver..|]. done.
  - apply H; unfold names_of; set_solver.
Qed.

(** The saturation gauge is a ratio. In every reachable state of the relay's
    scheduler the gauge is set to a number between zero and one, rounding
    included. *)
Theorem saturation_is_ratio cfg s :
  valid_config cfg -> (0 < ControlInterval cfg)%Z -> (IdleBackoffMax cfg < 2 ^ 62)%Z ->
  rtc (sched_step cfg) (sched_init cfg) s ->
  forall v, Set_ relaySaturation [] v ∈ SetRelayCapacity (sc_active s) (Concurrency cfg) -> 0 <= v /\ v <= 1.
Proof.
  intros Hv Hc Hb Hs v Hin.
  assert (0 <= sc_active s <= Concurrency cfg)%Z as Ha.
  { destruct (sched_reachable cfg s Hv Hb Hs) as (? & ? & ? & ? & _). lia. }
  pose proof (vc_concurrency _ Hv). unfold SetRelayCapacity in Hin. cbv zeta in Hin.
  rewrite !Z.max_r in Hin by lia. destruct (Z.eqb_spec (Concurrency cfg) 0); [lia|].
  cbn [app] in Hin. rewrite !elem_of_cons, elem_of_nil in Hin.
  destruct Hin as [E|[E|[E|[]]]]; [discriminate E..|]. injection E as ->. by apply f64_ratio.
Qed.

(** * Witnesses *)

Definition sample_calls : list call :=
  [k_enqueued; k_record "orders" "processed" (1 # 4); k_lag "orders" "events" 3; k_relay_backpressure "other";
   k_mutation "relay.pause" "success"; k_replay (-2)].

Lemma metrics_bounded_witness :
  length (record true sample_calls) = 49%nat /\
  (size (list_to_set (series <$> record true sample_calls) : gset (string * list string)) <= 105)%nat.
Proof.
  split; [vm_compute; reflexivity|].
  destruct (metrics_bounded ["orders"%string] ["events"%string] true sample_calls) as (_ & H & _).
  { unfold sample_calls. repeat apply Forall_cons_2; try apply Forall_nil_2; cbn;
      try exact I; try split; in_list. }
  cbn [length Nat.add Nat.mul] in H. exact H.
Defined.

(** A registry that is the set of its names. *)
Definition set_Register (c : collector) (r : gset string) : gset string * bool :=
  if bool_decide (co_name c ∈ r) then (r, false) else ({[co_name c]} ∪ r, true).
Definition set_Unregister (c : collector) (r : gset string) : gset string := r ∖ {[co_name c]}.

#[global] Instance set_registry : RegistryLaws set_Register set_Unregister id.
Proof.
  split; unfold set_Register, set_Unregister, id; [| |done].
  - intros c r r'. case_bool_decide; naive_solver.
  - intros c r r'. case_bool_decide; naive_solver.
Qed.

Lemma NewMetrics_atomic_witness :
  (NewMetrics set_Register set_Unregister ∅).2 = Some initial_series /\
  (NewMetrics set_Register set_Unregister {[ "relay_wakeups_total"%string ]}).1
    = {[ "relay_wakeups_total"%string ]}.
Proof.
  split; [vm_compute; reflexivity|].
  pose proof (NewMetrics_atomic set_Register set_Unregister id {[ "relay_wakeups_total"%string ]}) as H.
  cbv zeta in H. destruct ((NewMetrics set_Register set_Unregister {[ "relay_wakeups_total"%string ]}).2)
    eqn:E; [vm_compute in E; discriminate E|]. exact H.
Defined.

End Telemetry.
