(* ===== verification/Notify.v ===== *)
(** * The notification listener ([storage/postgres/notify.go])

    The reconnect loop with its backoff, and the coalescing of notifications in
    the relay's one-slot wake channel. The connection is the environment: what
    it does is an argument of each attempt. *)
From Stdlib Require Import ZArith String.
From stdpp Require Import base list.
From S2P Require Import Prelude Schema.

Module Notify.

Open Scope Z_scope.

(** What a dedicated connection does in one [listenOnce]: it fails to connect
    or to listen on one of the channels, or it listens, answers some waits (with
    a notification or with nil) and then ends with an error. *)
Inductive connection : Type :=
| ConnectFails
| ListenFails
| ListenControlFails
| Listens (waits : list bool).

(** [select { case wake <- struct{}{}: default: }] on a channel of capacity
    one: the slot is full afterwards. *)
Definition notify (wake : bool) : bool := if wake then wake else true.

Fixpoint wait_loop (waits : list bool) (wake : bool) : bool :=
  match waits with
  | [] => wake
  | n :: waits => wait_loop waits (if n then notify wake else wake)
  end.

(** The result [connected] and the channel. *)
Definition listenOnce (c : connection) (wake : bool) : bool * bool :=
  match c with
  | ConnectFails | ListenFails | ListenControlFails => (false, wake)
  | Listens waits => (true, wait_loop waits wake)
  end.

Definition maxBackoff : duration := 30 * Second.

(** One iteration of [Run]: where, if anywhere, the context is found cancelled. *)
Inductive ending : Type := CancelledBefore | CancelledAfter | CancelledWaiting | GoesOn.

(** [Run]: the waits between the attempts, and the channel at the end. The
    iterations are the environment's; the loop has no other exit. *)
Fixpoint Run (backoff : duration) (its : list (connection * ending)) (wake : bool)
  : list duration * bool :=
  match its with
  | [] => ([], wake)
  | (c, e) :: its =>
      match e with
      | CancelledBefore => ([], wake)
      | _ =>
          let r := listenOnce c wake in
          match e with
          | CancelledAfter => ([], r.2)
          | _ =>
              let backoff := if r.1 then Second else backoff in
              match e with
              | CancelledWaiting => ([backoff], r.2)
              | _ =>
                  let next := if negb r.1
                              then (if maxBackoff <? backoff * 2 then maxBackoff else backoff * 2)
                              else backoff in
                  let rest := Run next its r.2 in
                  (backoff :: rest.1, rest.2)
              end
          end
      end
  end.

Definition Listener_Run (its : list (connection * ending)) : list duration * bool :=
  Run Second its false.

(** * Lemmas *)

(** The reference: after [n] failures in a row the wait is [2^n] seconds, at
    most thirty; a connection that listened starts over. *)
Definition wait_after (n : nat) : duration := Z.min maxBackoff (2 ^ Z.of_nat n * Second).

Fixpoint expected_waits (n : nat) (cs : list connection) : list duration :=
  match cs with
  | [] => []
  | Listens _ :: cs => Second :: expected_waits 0 cs
  | _ :: cs => wait_after n :: expected_waits (S n) cs
  end.

Lemma wait_after_next n :
  (if maxBackoff <? wait_after n * 2 then maxBackoff else wait_after n * 2) = wait_after (S n).
Proof.
  unfold wait_after, maxBackoff. change Second with 1000000000. rewrite Nat2Z.inj_succ, Z.pow_succ_r by lia.
  pose proof (Z.pow_pos_nonneg 2 (Z.of_nat n) ltac:(lia) ltac:(lia)).
  set (x := 2 ^ Z.of_nat n) in *. clearbody x. destruct (_ <? _) eqn:E; bool_to_prop; lia.
Qed.

Lemma wait_after_0 : wait_after 0 = Second.
Proof. reflexivity. Qed.

Lemma wait_after_bounds n : Second <= wait_after n <= maxBackoff.
Proof.
  unfold wait_after, maxBackoff. change Second with 1000000000. pose proof (Z.pow_pos_nonneg 2 (Z.of_nat n) ltac:(lia) ltac:(lia)). lia.
Qed.

Lemma Run_waits n cs wake :
  (Run (wait_after n) ((fun c => (c, GoesOn)) <$> cs) wake).1 = expected_waits n cs.
Proof.
  revert n wake. induction cs as [|c cs IH]; intros n wake; simpl; [done|].
  destruct c; simpl; rewrite ?wait_after_next, ?IH; try done.
  by rewrite <- wait_after_0, IH.
Qed.

Lemma expected_waits_bounds n cs : Forall (fun w => Second <= w <= maxBackoff) (expected_waits n cs).
Proof.
  revert n. induction cs as [|c cs IH]; intros n; simpl; [constructor|].
  destruct c; constructor; try done; try apply wait_after_bounds.
Qed.

(** The wake-ups a connection delivers. *)
Definition notified (c : connection) : bool := match c with Listens ws => existsb id ws | _ => false end.

Lemma wait_loop_spec ws wake : wait_loop ws wake = wake || existsb id ws.
Proof.
  revert wake. induction ws as [|n ws IH]; intros wake; simpl; [by rewrite orb_false_r|].
  rewrite IH. by destruct n, wake.
Qed.

Lemma listenOnce_wake c wake : (listenOnce c wake).2 = wake || notified c.
Proof. destruct c; simpl; rewrite ?orb_false_r; try done. apply wait_loop_spec. Qed.

(** * Properties *)

(** The listener's reconnects. As long as the context lives, the wait before
    each reconnect is the reference backoff: one second after a connection that
    listened, doubling with every attempt that failed in a row up to thirty
    seconds; and a notification received on any of the connections leaves the
    wake channel full, however many there were. *)
Theorem listener_reconnects cs :
  let r := Listener_Run ((fun c => (c, GoesOn)) <$> cs) in
  r.1 = expected_waits 0 cs /\ Forall (fun w => Second <= w <= 30 * Second) r.1 /\
  r.2 = existsb notified cs.
Proof.
  cbv zeta. unfold Listener_Run. rewrite <- wait_after_0, Run_waits.
  split_and!; [done|apply expected_waits_bounds|].
  assert (forall b wake, (Run b ((fun c => (c, GoesOn)) <$> cs) wake).2 = wake || existsb notified cs)
    as H; [|by rewrite H].
  induction cs as [|c cs IH]; intros b wake; simpl; [by rewrite orb_false_r|].
  by rewrite IH, listenOnce_wake, orb_assoc.
Qed.

(** A cancelled context ends the loop without another wait. *)
Theorem listener_stops b c e its wake :
  e <> GoesOn -> (length (Run b ((c, e) :: its) wake).1 <= 1)%nat.
Proof. intros He. destruct e, c; simpl; try lia; done. Qed.

Example listener_waits :
  Listener_Run ((fun c => (c, GoesOn)) <$>
    [ConnectFails; ListenFails; ConnectFails; ConnectFails; ConnectFails; ConnectFails;
     Listens [false; true; true]; ConnectFails])
  = ([Second; 2 * Second; 4 * Second; 8 * Second; 16 * Second; 30 * Second; Second; Second], true).
Proof. vm_compute. reflexivity. Qed.

End Notify.
