(* ===== verification/ConsumerRun.v ===== *)
(** * Start-up, shutdown and gauges of the managed consumer ([consumer/runtime.go])

    [Runtime.Run]: the workers it creates, the first error, the cancellation and
    the bounded wait for the workers; and the bookkeeping of the gauges that
    count blocked partitions, against the blocked partitions themselves. *)
From Stdlib Require Import ZArith QArith String Lqa.
From stdpp Require Import base gmap strings list fin_maps sets relations.
From S2P Require Import Prelude Schema InboxStore Consumer Telemetry.

Module ConsumerRun.
Import Consumer.

Open Scope Z_scope.

(** ** Gauges of blocked partitions *)

(** [consumerBackpressureReason] *)
Definition consumerBackpressureReason (reason : string) : string :=
  if String.eqb reason "retry" then "retry_wait"
  else if String.eqb reason "dead" || String.eqb reason "protocol" then "dead"
  else if String.eqb reason "database" || String.eqb reason "offset_commit" then "database_slow"
  else "workers_saturated".

Section gauges.
Context (consumer : string).

(** A partition becomes ([1]) or is no longer ([-1]) blocked for a reason. *)
Definition blocked_delta (reason : string) (delta : Q) : list Telemetry.prim :=
  Telemetry.AddConsumerPaused consumer reason delta.
Definition dead_delta (reason : string) (delta : Q) : list Telemetry.prim :=
  if String.eqb reason "dead" then Telemetry.AddConsumerDead consumer delta else [].
Definition unblocked (b : blockedPartition) : list Telemetry.prim :=
  blocked_delta (bp_reason b) (-1) ++ dead_delta (bp_reason b) (-1).

(** What [block] measures. *)
Definition block_metrics (w : worker) (partition : TopicPartition) (blocked : blockedPartition)
  : list Telemetry.prim :=
  match wk_blocked w !! partition with Some existing => unblocked existing | None => [] end
  ++ blocked_delta (bp_reason blocked) 1
  ++ Telemetry.RecordConsumerBackpressure consumer (consumerBackpressureReason (bp_reason blocked))
  ++ dead_delta (bp_reason blocked) 1.

(** The loops of [resumeDue] and [releasePartitions]: one partition after the
    other is taken out of the map. *)
Fixpoint unblock_all (m : gmap TopicPartition blockedPartition) (ks : list TopicPartition)
  : gmap TopicPartition blockedPartition * list Telemetry.prim :=
  match ks with
  | [] => (m, [])
  | k :: ks =>
      let measured := match m !! k with Some b => unblocked b | None => [] end in
      let r := unblock_all (delete k m) ks in
      (r.1, measured ++ r.2)
  end.

Definition resume_metrics (cfg : Config) (d : db) (getErr : uuid -> bool) (now : time) (w : worker)
  : list Telemetry.prim :=
  (unblock_all (wk_blocked w)
     (map_to_list (filter (fun kb => still_blocked cfg d getErr now kb.2 = false) (wk_blocked w))).*1).2.

Definition release_metrics (w : worker) (partitions : list TopicPartition) : list Telemetry.prim :=
  (unblock_all (wk_blocked w) partitions).2.

(** The operations of a worker on its blocked partitions, with what they
    measure. *)
Inductive measured (cfg : Config) : worker -> list Telemetry.prim -> Prop :=
| m_new : measured cfg newWorker []
| m_block w ps partition b : measured cfg w ps ->
    measured cfg (block w partition b) (ps ++ block_metrics w partition b)
| m_resume w ps d getErr now : measured cfg w ps ->
    measured cfg (resumeDue cfg d getErr now w) (ps ++ resume_metrics cfg d getErr now w)
| m_release w ps partitions : measured cfg w ps ->
    measured cfg (releasePartitions w (list_to_set partitions)) (ps ++ release_metrics w partitions)
| m_position w ps tp o : measured cfg w ps -> measured cfg (set_position w tp o) ps
| m_pause w ps tp : measured cfg w ps -> measured cfg (pause w tp) ps.

(** The value of a gauge that is only added to. *)
Definition delta (s : string * list string) (p : Telemetry.prim) : Q :=
  match p with
  | Telemetry.Add c l v => if bool_decide ((Telemetry.co_name c, l) = s) then v else 0
  | _ => 0
  end.
Definition gauge (s : string * list string) (ps : list Telemetry.prim) : Q :=
  foldr (fun p v => (delta s p + v)%Q) 0%Q ps.

Definition paused_gauge (reason : string) : string * list string :=
  (Telemetry.co_name Telemetry.consumerPaused, [consumer; reason]).
Definition dead_gauge : string * list string :=
  (Telemetry.co_name Telemetry.consumerDead, [consumer]).

(** The partitions blocked for a reason. *)
Definition count (reason : string) (m : gmap TopicPartition blockedPartition) : nat :=
  length (filter (fun kb => bp_reason kb.2 = reason) (map_to_list m)).

(** *** Lemmas *)

Lemma gauge_app s ps qs : (gauge s (ps ++ qs) == gauge s ps + gauge s qs)%Q.
Proof. induction ps as [|p ps IH]; simpl; [ring|]. rewrite IH. ring. Qed.

Definition one (reason : string) (b : blockedPartition) : Z := if decide (bp_reason b = reason) then 1 else 0.

Lemma count_delete reason m k b :
  m !! k = Some b -> Z.of_nat (count reason m) = one reason b + Z.of_nat (count reason (delete k m)).
Proof.
  intros Hk. unfold count. rewrite <- (map_to_list_delete m k b Hk), filter_cons. unfold one.
  cbn [snd]. case_decide; simpl; lia.
Qed.

Lemma count_insert reason m k b :
  Z.of_nat (count reason (<[k := b]> m)) = one reason b + Z.of_nat (count reason (delete k m)).
Proof.
  rewrite (count_delete reason (<[k := b]> m) k b) by (by rewrite lookup_insert_eq).
  by rewrite delete_insert_eq.
Qed.

Context (Hconsumer : consumer <> ""%string).

Lemma consumer_nonempty : Telemetry.nonempty consumer = true.
Proof. unfold Telemetry.nonempty. by destruct (String.eqb_spec consumer ""). Qed.

Lemma delta_add_paused reason r v :
  delta (paused_gauge reason) (Telemetry.Add Telemetry.consumerPaused [consumer; r] v)
  = if decide (r = reason) then v else 0%Q.
Proof.
  cbn [delta]. unfold paused_gauge. case_bool_decide as E; case_decide as E'; try done; exfalso; congruence.
Qed.

Lemma gauge_blocked_delta reason r v :
  reason ∈ Telemetry.pause_reasons ->
  (gauge (paused_gauge reason) (blocked_delta r v) == if decide (r = reason) then v else 0)%Q.
Proof.
  intros Hr. unfold blocked_delta, Telemetry.AddConsumerPaused. rewrite consumer_nonempty. cbn [negb orb].
  destruct (Telemetry.oneOf r Telemetry.pause_reasons) eqn:E; cbn [negb].
  - cbn [gauge foldr]. rewrite delta_add_paused. case_decide; ring.
  - rewrite decide_False; [done|]. intros ->. apply Telemetry.oneOf_elem in Hr. congruence.
Qed.

Lemma gauge_dead_delta reason r v : (gauge (paused_gauge reason) (dead_delta r v) == 0)%Q.
Proof.
  unfold dead_delta, Telemetry.AddConsumerDead. rewrite consumer_nonempty.
  destruct (String.eqb r "dead"); [|done]. cbn [gauge foldr delta].
  rewrite bool_decide_false; [ring|]. unfold paused_gauge. cbn. congruence.
Qed.

Lemma gauge_backpressure s r : (gauge s (Telemetry.RecordConsumerBackpressure consumer r) == 0)%Q.
Proof. unfold Telemetry.RecordConsumerBackpressure. case_match; cbn; [ring|done]. Qed.

Lemma dead_gauge_blocked r v : (gauge dead_gauge (blocked_delta r v) == 0)%Q.
Proof.
  unfold blocked_delta, Telemetry.AddConsumerPaused. case_match; [done|]. cbn [gauge foldr delta].
  rewrite bool_decide_false; [ring|]. unfold dead_gauge. cbn. congruence.
Qed.

Lemma dead_gauge_dead r v :
  (gauge dead_gauge (dead_delta r v) == if decide (r = "dead"%string) then v else 0)%Q.
Proof.
  unfold dead_delta, Telemetry.AddConsumerDead. rewrite consumer_nonempty.
  destruct (String.eqb_spec r "dead") as [->|Hr].
  - rewrite decide_True by done. cbn [gauge foldr delta]. rewrite bool_decide_true by done. ring.
  - by rewrite decide_False.
Qed.

(** A gauge [s] that follows the partitions blocked for [reason]. *)
Definition follows (s : string * list string) (reason : string) : Prop :=
  forall r v, (gauge s (blocked_delta r v ++ dead_delta r v) == if decide (r = reason) then v else 0)%Q.

Lemma paused_follows reason : reason ∈ Telemetry.pause_reasons -> follows (paused_gauge reason) reason.
Proof.
  intros Hr r v. rewrite gauge_app, gauge_blocked_delta, gauge_dead_delta by done. case_decide; ring.
Qed.

Lemma dead_follows : follows dead_gauge "dead".
Proof. intros r v. rewrite gauge_app, dead_gauge_blocked, dead_gauge_dead. case_decide; ring. Qed.

Lemma gauge_unblocked s reason b :
  follows s reason -> (gauge s (unblocked b) == - inject_Z (one reason b))%Q.
Proof.
  intros Hs. unfold unblocked, one. rewrite (Hs (bp_reason b) (-1)%Q). by case_decide.
Qed.

Lemma gauge_block s reason w k b :
  follows s reason ->
  (gauge s (block_metrics w k b) + inject_Z (Z.of_nat (count reason (wk_blocked w)))
   == inject_Z (Z.of_nat (count reason (wk_blocked (block w k b)))))%Q.
Proof.
  intros Hs. unfold block_metrics. rewrite !gauge_app, gauge_backpressure.
  pose proof (Hs (bp_reason b) 1%Q) as Hb. rewrite gauge_app in Hb.
  cbn [block wk_blocked]. rewrite count_insert. rewrite inject_Z_plus.
  assert (inject_Z (one reason b) == if decide (bp_reason b = reason) then 1 else 0)%Q as Ho
    by (unfold one; by case_decide).
  destruct (wk_blocked w !! k) as [e|] eqn:E.
  - rewrite (gauge_unblocked s reason e Hs), (count_delete reason _ k e E), inject_Z_plus. lra.
  - cbn [gauge foldr]. rewrite (delete_id _ _ E). lra.
Qed.

Lemma gauge_unblock_all s reason m ks :
  follows s reason ->
  (gauge s (unblock_all m ks).2 + inject_Z (Z.of_nat (count reason m))
   == inject_Z (Z.of_nat (count reason (unblock_all m ks).1)))%Q.
Proof.
  intros Hs. revert m. induction ks as [|k ks IH]; intros m; cbn [unblock_all fst snd]; [cbn; ring|].
  rewrite gauge_app, <- IH. destruct (m !! k) as [b|] eqn:E.
  - rewrite (gauge_unblocked s reason b Hs), (count_delete reason m k b E), inject_Z_plus. lra.
  - rewrite (delete_id _ _ E). cbn [gauge foldr]. lra.
Qed.

Lemma unblock_all_map m ks : (unblock_all m ks).1 = filter (fun kb => kb.1 ∉ ks) m.
Proof.
  revert m. induction ks as [|k ks IH]; intros m; cbn [unblock_all fst].
  - symmetry. apply map_filter_id. intros ? ? _. cbn. apply not_elem_of_nil.
  - rewrite IH. apply map_eq. intros i. apply option_eq. intros b.
    rewrite !map_lookup_filter_Some, lookup_delete_Some. cbn. rewrite not_elem_of_cons. naive_solver.
Qed.

Lemma resume_blocked cfg d getErr now w :
  (unblock_all (wk_blocked w) (map_to_list (filter (fun kb =>
     still_blocked cfg d getErr now kb.2 = false) (wk_blocked w))).*1).1
  = wk_blocked (resumeDue cfg d getErr now w).
Proof.
  rewrite unblock_all_map. cbn [resumeDue wk_blocked]. apply map_filter_ext. intros k b Hk. cbn.
  rewrite list_elem_of_fmap. split.
  - intros H. destruct (still_blocked cfg d getErr now b) eqn:E; [done|]. destruct H. exists (k, b).
    split; [done|]. apply elem_of_map_to_list, map_lookup_filter_Some. done.
  - intros H ([k' b'] & -> & Hin%elem_of_map_to_list). cbn in *.
    apply map_lookup_filter_Some in Hin as [Hin Hf]. cbn in Hf. congruence.
Qed.

Lemma release_blocked w ks :
  (unblock_all (wk_blocked w) ks).1 = wk_blocked (releasePartitions w (list_to_set ks)).
Proof.
  rewrite unblock_all_map. cbn [releasePartitions wk_blocked]. apply map_filter_ext. intros k b _. cbn.
  by rewrite elem_of_list_to_set.
Qed.

Lemma measured_follows cfg s reason w ps :
  follows s reason -> measured cfg w ps ->
  (gauge s ps == inject_Z (Z.of_nat (count reason (wk_blocked w))))%Q.
Proof.
  intros Hs H. induction H as [|w ps k b _ IH|w ps d getErr now _ IH|w ps ks _ IH|w ps tp o _ IH|w ps tp _ IH];
    [reflexivity| | | |exact IH|exact IH]; rewrite gauge_app, IH.
  - rewrite <- (gauge_block s reason w k b Hs). ring.
  - rewrite <- resume_blocked, <- (gauge_unblock_all s reason _ _ Hs). unfold resume_metrics. ring.
  - rewrite <- release_blocked, <- (gauge_unblock_all s reason _ _ Hs). unfold release_metrics. ring.
Qed.

End gauges.

(** ** [Runtime.Run] *)

(** A worker's goroutine: its source exists, it runs, its source is closed. *)
Inductive wstate : Type := WCreated | WRunning | WClosed.
#[global] Instance wstate_eq_dec : EqDecision wstate.
Proof. solve_decision. Defined.

Inductive run_result : Type :=
| CreateSource (e : error)       (* consumer: create source *)
| WorkerError (e : error)
| ContextError                   (* ctx.Err() *)
| ShutdownExceeded.

(** Where [Run] is: creating the workers, waiting for the ones created after a
    failure, in its first select, waiting after a worker's error, in its second
    select, returned. *)
Inductive run_phase : Type :=
| Creating
| CreateFailed (e : error)
| Serving
| Failing (e : error)
| Draining
| Returned (r : run_result).

Record runtime : Type := MkRuntime {
  rt_phase : run_phase;
  rt_cancelled : bool;
  rt_workers : list wstate;
  rt_errors : list error;   (* errCh, oldest first *)
  rt_active : Z;            (* the gauge AddConsumerWorker moves *)
}.

Inductive run_action : Type :=
| r_cancel                               (* the caller's context *)
| r_create (failure : option error)      (* r.factory.NewSource *)
| r_all_created
| r_begin (i : nat)                      (* the goroutine starts *)
| r_exit (i : nat) (e : option error)    (* worker.run returned; [Some] is not context.Canceled *)
| r_ctx_done | r_worker_error
| r_workers_done | r_timeout.

Section run.
Context (cfg : Config).

Definition with_phase (s : runtime) (p : run_phase) (cancelled : bool) : runtime :=
  MkRuntime p cancelled (rt_workers s) (rt_errors s) (rt_active s).

Definition all_closed (s : runtime) : bool := forallb (fun w => bool_decide (w = WClosed)) (rt_workers s).

(** [select { case errCh <- err: default: }] on a channel of capacity
    [Concurrency]. *)
Definition send_error (e : error) (errors : list error) : list error :=
  if Z.of_nat (length errors) <? Concurrency cfg then errors ++ [e] else errors.

Definition run_act (a : run_action) (s : runtime) : option runtime :=
  match a, rt_phase s with
  | r_cancel, _ => if rt_cancelled s then None else Some (with_phase s (rt_phase s) true)
  | r_create failure, Creating =>
      if Z.of_nat (length (rt_workers s)) <? Concurrency cfg then
        match failure with
        | Some e => Some (with_phase s (CreateFailed e) true)
        | None => Some (MkRuntime Creating (rt_cancelled s) (rt_workers s ++ [WCreated]) (rt_errors s)
                          (rt_active s))
        end
      else None
  | r_all_created, Creating =>
      if Z.of_nat (length (rt_workers s)) <? Concurrency cfg then None
      else Some (with_phase s Serving (rt_cancelled s))
  | r_begin i, _ =>
      match rt_workers s !! i with
      | Some WCreated => Some (MkRuntime (rt_phase s) (rt_cancelled s) (<[i := WRunning]> (rt_workers s))
                                 (rt_errors s) (rt_active s + 1))
      | _ => None
      end
  | r_exit i e, _ =>
      (* worker.run returns only ctx.Err() of a context that is done *)
      match rt_workers s !! i, rt_cancelled s with
      | Some WRunning, true =>
          Some (MkRuntime (rt_phase s) true (<[i := WClosed]> (rt_workers s))
                  (match e with Some e => send_error e (rt_errors s) | None => rt_errors s end)
                  (rt_active s - 1))
      | _, _ => None
      end
  | r_ctx_done, Serving => if rt_cancelled s then Some (with_phase s Draining true) else None
  | r_worker_error, Serving =>
      match rt_errors s with
      | e :: errors => Some (MkRuntime (Failing e) true (rt_workers s) errors (rt_active s))
      | [] => None
      end
  | r_workers_done, CreateFailed e =>
      if all_closed s then Some (with_phase s (Returned (CreateSource e)) (rt_cancelled s)) else None
  | r_workers_done, Failing e =>
      if all_closed s then Some (with_phase s (Returned (WorkerError e)) (rt_cancelled s)) else None
  | r_workers_done, Draining =>
      if all_closed s then
        Some (with_phase s (Returned (match rt_errors s with e :: _ => WorkerError e | [] => ContextError end))
                (rt_cancelled s))
      else None
  | r_timeout, Draining => Some (with_phase s (Returned ShutdownExceeded) (rt_cancelled s))
  | _, _ => None
  end.

Definition run_step (s s' : runtime) : Prop := exists a, run_act a s = Some s'.

Definition run_init : runtime := MkRuntime Creating false [] [] 0.

(** *** Lemmas *)

Definition running (ws : list wstate) : Z := Z.of_nat (length (filter (fun w => w = WRunning) ws)).

Lemma running_insert ws i w w' :
  ws !! i = Some w ->
  running (<[i := w']> ws) = running ws - (if decide (w = WRunning) then 1 else 0)
                             + (if decide (w' = WRunning) then 1 else 0).
Proof.
  unfold running. revert i. induction ws as [|x ws IH]; intros i H; [done|].
  destruct i as [|i]; simpl in H.
  - injection H as ->. change (<[0%nat := w']> (w :: ws)) with (w' :: ws).
    rewrite !filter_cons. repeat case_decide; cbn [length]; lia.
  - change (<[S i := w']> (x :: ws)) with (x :: <[i := w']> ws).
    rewrite !filter_cons. specialize (IH i H).
    destruct (decide (x = WRunning)); cbn [length]; lia.
Qed.

Lemma running_app ws w : running (ws ++ [w]) = running ws + (if decide (w = WRunning) then 1 else 0).
Proof.
  unfold running. rewrite filter_app, length_app, filter_cons, filter_nil.
  case_decide; cbn [length]; lia.
Qed.

Lemma all_closed_true s : all_closed s = true <-> Forall (fun w => w = WClosed) (rt_workers s).
Proof.
  unfold all_closed. rewrite forallb_forall, Forall_forall. setoid_rewrite <- list_elem_of_In.
  setoid_rewrite bool_decide_eq_true. done.
Qed.

Lemma all_closed_running ws : Forall (fun w => w = WClosed) ws -> running ws = 0.
Proof. induction 1 as [|w ws -> _ IH]; [done|]. unfold running in *. by rewrite filter_cons. Qed.

Definition stopping (p : run_phase) : bool := match p with Creating | Serving => false | _ => true end.

Record runtime_inv (s : runtime) : Prop := {
  ri_count : Z.of_nat (length (rt_workers s)) <= Z.max 0 (Concurrency cfg);
  ri_active : rt_active s = running (rt_workers s);
  ri_errors : Z.of_nat (length (rt_errors s)) <= Z.max 0 (Concurrency cfg);
  ri_cancelled : stopping (rt_phase s) = true -> rt_cancelled s = true;
  ri_returned : forall r, rt_phase s = Returned r -> r <> ShutdownExceeded ->
    Forall (fun w => w = WClosed) (rt_workers s);
}.

Lemma runtime_init_inv : runtime_inv run_init.
Proof. split; cbn; try done; lia. Qed.

Ltac run_cases H :=
  unfold run_act in H; repeat (destruct_match H; try discriminate H); injection H as <-;
  unfold with_phase; cbn [rt_phase rt_cancelled rt_workers rt_errors rt_active] in *.

Lemma send_error_length e errors :
  Z.of_nat (length errors) <= Z.max 0 (Concurrency cfg) ->
  Z.of_nat (length (send_error e errors)) <= Z.max 0 (Concurrency cfg).
Proof.
  intros H. unfold send_error. case_match; bool_to_prop; rewrite ?length_app; cbn [length]; lia.
Qed.

Lemma closed_no_other ws i w : Forall (fun w => w = WClosed) ws -> ws !! i = Some w -> w = WClosed.
Proof. intros H Hi. by eapply Forall_lookup_1 in H. Qed.

Lemma runtime_inv_step s s' : runtime_inv s -> run_step s s' -> runtime_inv s'.
Proof.
  intros [H1 H2 H3 H4 H5] [a H]. run_cases H; bool_to_prop;
    (split; cbn [rt_phase rt_cancelled rt_workers rt_errors rt_active stopping];
     [ rewrite ?length_app, ?length_insert; cbn [length]; lia
     | erewrite ?running_app, ?running_insert by done; rewrite ?H2; repeat case_decide; done || lia
     | first [done | by apply send_error_length
             | repeat match goal with E : rt_errors s = _ |- _ => rewrite E in *; clear E end;
               cbn [length] in *; lia]
     | first [done | by intros ? | exact H4 | intros _; by apply H4]
     | intros r' Hr' Hne; first [discriminate Hr' | by apply H5 with r'
         | injection Hr' as <-; by apply all_closed_true
         | pose proof (closed_no_other _ _ _ (H5 r' Hr' Hne) ltac:(eassumption)); done
         | done ]]).
Qed.

Lemma runtime_inv_reachable s : rtc run_step run_init s -> runtime_inv s.
Proof. apply rtc_ind_r; [apply runtime_init_inv|]. eauto using runtime_inv_step. Qed.

(** *** The remaining work of a shutdown *)

Definition worker_work (w : wstate) : nat := match w with WCreated => 2 | WRunning => 1 | WClosed => 0 end.
Definition workers_work (ws : list wstate) : nat := foldr (fun w n => (worker_work w + n)%nat) 0%nat ws.

Definition run_work (s : runtime) : nat :=
  match rt_phase s with
  | Creating => 3 | Serving => 2 | CreateFailed _ | Failing _ | Draining => 1 | Returned _ => 0
  end + 3 * (Z.to_nat (Concurrency cfg) - length (rt_workers s)) + workers_work (rt_workers s).

Lemma workers_work_insert ws i w w' :
  ws !! i = Some w -> (workers_work (<[i := w']> ws) + worker_work w = workers_work ws + worker_work w')%nat.
Proof.
  revert i. induction ws as [|x ws IH]; intros i H; [done|]. destruct i as [|i]; simpl in H.
  - injection H as ->. simpl. lia.
  - specialize (IH i H). simpl in *. lia.
Qed.

Lemma workers_work_app ws w : workers_work (ws ++ [w]) = (workers_work ws + worker_work w)%nat.
Proof. induction ws as [|x ws IH]; simpl; [lia|]. rewrite IH. lia. Qed.

Lemma run_act_work a s s' :
  run_act a s = Some s' -> rt_cancelled s = true -> rt_cancelled s' = true /\ (run_work s' < run_work s)%nat.
Proof.
  intros H Hc. unfold run_work. run_cases H; bool_to_prop; try congruence;
    rewrite ?workers_work_app, ?length_app, ?length_insert;
    try (match goal with E : rt_workers s !! ?i = Some ?w |- context [<[?i := ?w']> _] =>
      pose proof (workers_work_insert _ i w w' E) end);
    repeat match goal with E : rt_phase s = _ |- _ => rewrite E; clear E end;
    cbn [worker_work length] in *; (split; [done|lia]).
Qed.

Lemma not_closed_worker s :
  all_closed s = false -> exists i w, rt_workers s !! i = Some w /\ w <> WClosed.
Proof.
  intros H. destruct (decide (Forall (fun w => w = WClosed) (rt_workers s))) as [Hf|Hf].
  - apply all_closed_true in Hf. congruence.
  - apply not_Forall_Exists in Hf; [|apply _]. apply Exists_exists in Hf as (w & Hin & Hw).
    apply list_elem_of_lookup in Hin as [i Hi]. by exists i, w.
Qed.

Lemma run_progress s :
  rt_cancelled s = true -> (forall r, rt_phase s <> Returned r) -> exists s', run_step s s'.
Proof.
  intros Hc Hr. unfold run_step.
  assert ((exists a s', run_act a s = Some s') -> exists s' a, run_act a s = Some s') as Hswap
    by (intros (a & s' & H); eauto). apply Hswap. clear Hswap.
  destruct (all_closed s) eqn:Ea.
  - destruct (rt_phase s) eqn:E; [|exists r_workers_done; cbn; rewrite E, Ea; by eexists| |
      exists r_workers_done; cbn; rewrite E, Ea; by eexists|
      exists r_timeout; cbn; rewrite E; by eexists|by destruct (Hr r)].
    + destruct (Z.of_nat (length (rt_workers s)) <? Concurrency cfg) eqn:El.
      * exists (r_create None). cbn. rewrite E, El. by eexists.
      * exists r_all_created. cbn. rewrite E, El. by eexists.
    + exists r_ctx_done. cbn. rewrite E, Hc. by eexists.
  - destruct (not_closed_worker s Ea) as (i & w & Hi & Hw). destruct w; [| |done].
    + exists (r_begin i). cbn. rewrite Hi. destruct (rt_phase s); by eexists.
    + exists (r_exit i None). cbn. rewrite Hi, Hc. destruct (rt_phase s); by eexists.
Qed.

Lemma run_steps_bound n s s' :
  rt_cancelled s = true -> nsteps run_step n s s' ->
  rt_cancelled s' = true /\ (n + run_work s' <= run_work s)%nat.
Proof.
  intros Hc H. induction H as [s|n s s1 s' [a Ha] _ IH]; [by split|].
  destruct (run_act_work _ _ _ Ha Hc) as [Hc1 Hw]. destruct (IH Hc1). split; [done|lia].
Qed.

Lemma workers_work_le ws : (workers_work ws <= 2 * length ws)%nat.
Proof. induction ws as [|[] ws IH]; simpl; lia. Qed.

Lemma run_work_le s : runtime_inv s -> (run_work s <= 3 * Z.to_nat (Concurrency cfg) + 3)%nat.
Proof.
  intros [H1 _ _ _ _]. unfold run_work. pose proof (workers_work_le (rt_workers s)).
  destruct (rt_phase s); lia.
Qed.

End run.

(** ** Theorems *)

(** Whatever a worker blocks, resumes and releases, and in whatever order,
    the paused-partitions gauge of each reason is the number of partitions the
    worker holds blocked for that reason: a partition blocked again while it is
    blocked is counted once, under its last reason, and one released twice in a
    rebalance is taken off once. *)
Theorem paused_gauges_exact consumer cfg w ps reason :
  consumer <> ""%string -> measured consumer cfg w ps -> reason ∈ Telemetry.pause_reasons ->
  (gauge (paused_gauge consumer reason) ps
   == inject_Z (Z.of_nat (count reason (wk_blocked w))))%Q
  /\ (gauge (dead_gauge consumer) ps
      == inject_Z (Z.of_nat (count "dead" (wk_blocked w))))%Q.
Proof.
  intros Hc Hm Hr. split; eapply measured_follows; eauto using paused_follows, dead_follows.
Qed.

(** [Run] returns only after its context is cancelled and never has more than
    [Concurrency] workers; and unless it reports that the shutdown exceeded its
    time, every worker it created has closed its source and the gauge of active
    workers is back at zero, also when the creation of a later worker failed or
    a worker failed. *)
Theorem consumer_shutdown cfg s r :
  rtc (run_step cfg) run_init s -> rt_phase s = Returned r ->
  rt_cancelled s = true
  /\ Z.of_nat (length (rt_workers s)) <= Z.max 0 (Concurrency cfg)
  /\ (r <> ShutdownExceeded ->
      Forall (fun w => w = WClosed) (rt_workers s) /\ rt_active s = 0).
Proof.
  intros H%runtime_inv_reachable E. destruct H as [H1 H2 _ H4 H5].
  split; [apply H4; by rewrite E|]. split; [done|]. intros Hr. pose proof (H5 r E Hr) as Hall.
  split; [done|]. rewrite H2. by apply all_closed_running.
Qed.

(** Once the context is cancelled, [Run] takes at most [3 * Concurrency + 3]
    more steps, whatever fails meanwhile, and it cannot get stuck before it
    returns. *)
Theorem consumer_shutdown_terminates cfg s :
  rtc (run_step cfg) run_init s -> rt_cancelled s = true ->
  (forall n s', nsteps (run_step cfg) n s s' -> (n <= 3 * Z.to_nat (Concurrency cfg) + 3)%nat)
  /\ (forall s', rtc (run_step cfg) s s' -> (forall s2, ~ run_step cfg s' s2) ->
      exists r, rt_phase s' = Returned r).
Proof.
  intros H Hc. pose proof (runtime_inv_reachable cfg s H) as Hi. split.
  - intros n s' Hn. destruct (run_steps_bound cfg n s s' Hc Hn) as [_ Hb].
    pose proof (run_work_le cfg s Hi). lia.
  - intros s' [n Hn]%rtc_nsteps Hstuck. destruct (run_steps_bound cfg n s s' Hc Hn) as [Hc' _].
    destruct (rt_phase s') as [|e| |e| |r] eqn:E; [..|by exists r];
      (destruct (run_progress cfg s' Hc') as [s2 Hs2]; [by rewrite E|by destruct (Hstuck s2)]).
Qed.

(** ** Concrete runs *)

Definition pair_config : Config :=
  {| Consumer := "billing"; InstanceID := "host"; Concurrency := 2; MaxAttempts := 10;
     BaseDelay := Second; MaxDelay := 30 * Minute; Jitter := 1; HandlerTimeout := 2 * Minute;
     LeaseDuration := 30 * Second; LeaseRenewInterval := 10 * Second;
     MaintenancePoll := 250 * Millisecond; ShutdownTimeout := 10 * Second |}.

Fixpoint run_acts (l : list run_action) (s : runtime) : option runtime :=
  match l with [] => Some s | a :: l => s' ← run_act pair_config a s; run_acts l s' end.

Lemma run_acts_nsteps l s s' : run_acts l s = Some s' -> nsteps (run_step pair_config) (length l) s s'.
Proof.
  revert s. induction l as [|a l IH]; intros s H; cbn [run_acts length] in *.
  - injection H as ->. constructor.
  - destruct (run_act pair_config a s) as [s1|] eqn:E; [|done]. econstructor; [by exists a|by apply IH].
Qed.

Lemma run_acts_reach l s' : run_acts l run_init = Some s' -> rtc (run_step pair_config) run_init s'.
Proof. intros H%run_acts_nsteps. by eapply rtc_nsteps_2. Qed.

Definition blocked_for (reason : string) : blockedPartition := MkBlocked demo_record 7%N None true reason.

(** A partition blocked for a retry, then dead, a second one dead, and the first
    one named twice in a revocation: one dead partition is left. *)
Definition demo_blocks : worker :=
  releasePartitions
    (block (block (block newWorker demo_tp (blocked_for "retry")) demo_tp (blocked_for "dead"))
       (MkTopicPartition "orders" 1) (blocked_for "dead"))
    (list_to_set [demo_tp; demo_tp]).

Lemma paused_gauges_exact_witness :
  exists ps, measured "billing" pair_config demo_blocks ps /\ length ps = 11%nat
    /\ (gauge (paused_gauge "billing" "dead") ps == 1)%Q /\ (gauge (dead_gauge "billing") ps == 1)%Q.
Proof.
  assert (exists ps, length ps = 11%nat /\ measured "billing" pair_config demo_blocks ps) as (ps & Hl & Hm).
  { eexists. split; [|unfold demo_blocks; apply m_release; do 3 apply m_block; apply m_new].
    vm_compute. reflexivity. }
  exists ps. split; [exact Hm|]. split; [exact Hl|].
  destruct (paused_gauges_exact "billing" pair_config demo_blocks ps "dead" ltac:(discriminate) Hm
              ltac:(vm_compute; repeat constructor)) as [H1 H2].
  split; [rewrite H1|rewrite H2]; vm_compute; reflexivity.
Defined.

(** The second source cannot be created while the first worker runs. *)
Definition create_fails : list run_action :=
  [r_create None; r_begin 0; r_create (Some (ErrOther "no broker")); r_exit 0 None; r_workers_done].

Lemma consumer_shutdown_witness :
  let s := default run_init (run_acts create_fails run_init) in
  rt_phase s = Returned (CreateSource (ErrOther "no broker"))
  /\ Forall (fun w => w = WClosed) (rt_workers s) /\ rt_active s = 0.
Proof.
  intros s. assert (rt_phase s = Returned (CreateSource (ErrOther "no broker"))) as Hp
    by (vm_compute; reflexivity).
  split; [exact Hp|]. apply (consumer_shutdown pair_config s (CreateSource (ErrOther "no broker"))); [|exact Hp|discriminate].
  apply (run_acts_reach create_fails). vm_compute. reflexivity.
Defined.

(** Two workers, a cancellation, and a worker that does not stop in time. *)
Definition serve_two : list run_action :=
  [r_create None; r_create None; r_begin 1; r_all_created; r_begin 0; r_cancel].

Lemma consumer_shutdown_terminates_witness :
  let s := default run_init (run_acts serve_two run_init) in
  (forall n s', nsteps (run_step pair_config) n s s' -> (n <= 9)%nat)
  /\ (rt_phase <$> run_acts [r_ctx_done; r_exit 1 None; r_timeout] s) = Some (Returned ShutdownExceeded)
  /\ (rt_phase <$> run_acts [r_ctx_done; r_exit 1 None; r_exit 0 None; r_workers_done] s)
     = Some (Returned ContextError).
Proof.
  intros s. split; [|split; vm_compute; reflexivity].
  apply (consumer_shutdown_terminates pair_config s); [|vm_compute; reflexivity].
  apply (run_acts_reach serve_two). vm_compute. reflexivity.
Defined.
End ConsumerRun.
