(* ===== verification/GoFlag.v ===== *)
(** * Command-line flags

    What the commands use of Go's [flag] package: flag sets with string, bool,
    int and duration flags, [Parse], and the base-0 integer syntax of
    [strconv.ParseInt] that int flags accept. *)
From Stdlib Require Import ZArith String Ascii.
From stdpp Require Import base gmap strings list fin_maps.
From S2P Require Import Prelude GoStrings GoParse Schema GoNet.

Module GoFlag.

Open Scope Z_scope.

(** ** [strconv.ParseInt(s, 0, bits)] *)

(** The value of a digit in any base: letters of either case count from ten. *)
Definition any_digit (b : N) : option Z :=
  if between 48 57 b then Some (Z.of_N b - 48)
  else if between 97 122 b then Some (Z.of_N b - 87)
  else if between 65 90 b then Some (Z.of_N b - 55)
  else None.

Definition underscore : N := 95.

(** The digits of [ParseUint], underscores skipped. *)
Fixpoint base_digits (base acc : Z) (l : list N) : option Z :=
  match l with
  | [] => Some acc
  | b :: l =>
      if N.eqb b underscore then base_digits base acc l else
      match any_digit b with
      | Some n => if n <? base then base_digits base (base * acc + n) l else None
      | None => None
      end
  end.

(** The letter that follows a leading zero. *)
Definition base_letter (b : N) : option Z :=
  if (N.eqb b 98 || N.eqb b 66)%bool then Some 2
  else if (N.eqb b 111 || N.eqb b 79)%bool then Some 8
  else if (N.eqb b 120 || N.eqb b 88)%bool then Some 16
  else None.

(** [underscoreOK] after the sign: what was seen before, a digit (or the base
    prefix), an underscore, or something else. *)
Inductive seen : Type := SNothing | SDigit | SUnderscore | SOther.

Fixpoint underscore_loop (hex : bool) (i : seen) (l : list N) : bool :=
  match l with
  | [] => match i with SUnderscore => false | _ => true end
  | b :: l =>
      if (between 48 57 b || (hex && (between 97 102 b || between 65 70 b)))%bool
      then underscore_loop hex SDigit l
      else if N.eqb b underscore
      then match i with SDigit => underscore_loop hex SUnderscore l | _ => false end
      else match i with SUnderscore => false | _ => underscore_loop hex SOther l end
  end.

Definition underscoreOK (l : list N) : bool :=
  match l with
  | 48%N :: b :: rest =>
      match base_letter b with
      | Some base => underscore_loop (base =? 16) SDigit rest
      | None => underscore_loop false SNothing l
      end
  | _ => underscore_loop false SNothing l
  end.

Definition ParseUint0 (l : list N) : option Z :=
  match l with
  | [] => None
  | _ =>
      let value := match l with
                   | 48%N :: b :: (_ :: _) as rest =>
                       match base_letter b with
                       | Some base => base_digits base 0 (drop 2 l)
                       | None => base_digits 8 0 (drop 1 l)
                       end
                   | 48%N :: rest => base_digits 8 0 rest
                   | _ => base_digits 10 0 l
                   end in
      if bool_decide (underscore ∈ l) && negb (underscoreOK l) then None else value
  end.

Definition ParseInt0 (s : string) (bits : Z) : option Z :=
  let z := match bytes s with
           | 43%N :: l => ParseUint0 l
           | 45%N :: l => Z.opp <$> ParseUint0 l
           | l => ParseUint0 l
           end in
  match z with
  | Some z => if (- 2 ^ (bits - 1) <=? z) && (z <? 2 ^ (bits - 1)) then Some z else None
  | None => None
  end.

Example ParseInt0_samples :
  ParseInt0 "50" 64 = Some 50 /\ ParseInt0 "0x1F" 64 = Some 31 /\ ParseInt0 "-0b101" 64 = Some (-5) /\
  ParseInt0 "010" 64 = Some 8 /\ ParseInt0 "0" 64 = Some 0 /\ ParseInt0 "1_000" 64 = Some 1000 /\
  ParseInt0 "1__0" 64 = None /\ ParseInt0 "_1" 64 = None /\ ParseInt0 "0x" 64 = None /\
  ParseInt0 "09" 64 = None /\ ParseInt0 "" 64 = None /\ ParseInt0 "-" 64 = None /\
  ParseInt0 "9223372036854775808" 64 = None /\ ParseInt0 "0_7" 64 = Some 7.
Proof. by vm_compute. Qed.

(** ** Flag sets *)

Inductive value : Type :=
| VString (s : string)
| VBool (b : bool)
| VInt (n : Z)
| VDuration (d : duration).

(** The defined flags with their current values. *)
Abbreviation FlagSet := (gmap string value).

(** [Value.Set]: the kind of a flag never changes. *)
Definition set_value (old : value) (text : string) : option value :=
  match old with
  | VString _ => Some (VString text)
  | VBool _ => VBool <$> ParseBool text
  | VInt _ => VInt <$> ParseInt0 text 64
  | VDuration _ => VDuration <$> ParseDuration text
  end.

Definition is_bool (v : value) : bool := match v with VBool _ => true | _ => false end.

(** The flag's text after the dashes: [None] for an argument that ends the
    flags, [Some None] for the terminator "--". *)
Definition flag_text (arg : string) : option (option string) :=
  match arg with
  | String "-" (String "-" EmptyString) => Some None
  | String "-" (String "-" name) => Some (Some name)
  | String "-" (String c name) => Some (Some (String c name))
  | _ => None
  end.

Definition bad_syntax (text : string) : bool :=
  match text with
  | EmptyString => true
  | String c _ => Ascii.eqb c "-" || Ascii.eqb c "="
  end.

(** [name=value], split at the first [=] after the first byte. *)
Definition name_value (text : string) : string * option string :=
  match text with
  | EmptyString => (text, None)
  | String c rest =>
      match Cut "=" rest with
      | Some (name, v) => (String c name, Some v)
      | None => (text, None)
      end
  end.

(** [Parse]: the flags and the arguments left, or the error. *)
Fixpoint Parse (fs : FlagSet) (args : list string) : option (FlagSet * list string) :=
  match args with
  | [] => Some (fs, [])
  | arg :: rest =>
      match flag_text arg with
      | None => Some (fs, arg :: rest)
      | Some None => Some (fs, rest)
      | Some (Some text) =>
          if bad_syntax text then None else
          let '(name, v) := name_value text in
          match fs !! name with
          | None => None
          | Some old =>
              match v, is_bool old with
              | Some v, _ =>
                  match set_value old v with
                  | Some new => Parse (<[name := new]> fs) rest
                  | None => None
                  end
              | None, true => Parse (<[name := VBool true]> fs) rest
              | None, false =>
                  match rest with
                  | [] => None
                  | v :: rest =>
                      match set_value old v with
                      | Some new => Parse (<[name := new]> fs) rest
                      | None => None
                      end
                  end
              end
          end
      end
  end.

(** [fs.Parse(args)] with [fs.NArg() == 0]. *)
Definition parse_all (fs : FlagSet) (args : list string) : option FlagSet :=
  match Parse fs args with Some (fs', []) => Some fs' | _ => None end.

(** The pointers the definitions return. *)
Definition get_string (fs : FlagSet) (name : string) : string :=
  match fs !! name with Some (VString s) => s | _ => ""%string end.
Definition get_bool (fs : FlagSet) (name : string) : bool :=
  match fs !! name with Some (VBool b) => b | _ => false end.
Definition get_int (fs : FlagSet) (name : string) : Z :=
  match fs !! name with Some (VInt n) => n | _ => 0 end.
Definition get_duration (fs : FlagSet) (name : string) : duration :=
  match fs !! name with Some (VDuration d) => d | _ => 0 end.

(** * Lemmas *)

(** Two values of one kind. *)
Definition same_kind (v w : value) : bool :=
  match v, w with
  | VString _, VString _ | VBool _, VBool _ | VInt _, VInt _ | VDuration _, VDuration _ => true
  | _, _ => false
  end.

Lemma same_kind_refl v : same_kind v v = true.
Proof. by destruct v. Qed.
Lemma same_kind_trans u v w : same_kind u v = true -> same_kind v w = true -> same_kind u w = true.
Proof. by destruct u, v, w. Qed.

Lemma set_value_kind old text new : set_value old text = Some new -> same_kind old new = true.
Proof.
  destruct old; simpl; [by intros [= <-]|..]; intros (x & _ & ->)%fmap_Some; done.
Qed.

(** [fs'] defines the flags of [fs] with their kinds. *)
Definition extends (fs fs' : FlagSet) : Prop :=
  forall name, match fs !! name, fs' !! name with
               | Some v, Some w => same_kind v w = true
               | None, None => True
               | _, _ => False
               end.

Lemma extends_refl fs : extends fs fs.
Proof. intros name. destruct (fs !! name); [apply same_kind_refl|done]. Qed.

Lemma extends_trans fs1 fs2 fs3 : extends fs1 fs2 -> extends fs2 fs3 -> extends fs1 fs3.
Proof.
  intros H1 H2 name. specialize (H1 name). specialize (H2 name).
  destruct (fs1 !! name), (fs2 !! name), (fs3 !! name); try done. by eapply same_kind_trans.
Qed.

Lemma extends_insert fs name old new :
  fs !! name = Some old -> same_kind old new = true -> extends fs (<[name := new]> fs).
Proof.
  intros Ho Hk name'. rewrite lookup_insert. case_decide; subst; [by rewrite Ho|].
  apply extends_refl.
Qed.

(** [Parse] one argument or two at a time. *)
Lemma args_ind (P : list string -> Prop) :
  P [] -> (forall a l, P l -> (forall b l', l = b :: l' -> P l') -> P (a :: l)) -> forall l, P l.
Proof.
  intros H0 H1 l. enough (P l /\ forall b l', l = b :: l' -> P l') by tauto.
  induction l as [|a l [IH1 IH2]]; [by split|]. split; [by apply H1|]. by intros b l' [= -> ->].
Qed.

Lemma Parse_extends args : forall fs fs' rest, Parse fs args = Some (fs', rest) -> extends fs fs'.
Proof.
  induction args as [|arg args IH IH2] using args_ind; intros fs fs' rest H; cbn [Parse] in H.
  { simplify_eq. apply extends_refl. }
  destruct (flag_text arg) as [[text|]|]; [|simplify_eq; apply extends_refl..].
  destruct (bad_syntax text); [done|]. destruct (name_value text) as [name v].
  destruct (fs !! name) as [old|] eqn:E; [|done].
  destruct v as [v|].
  - destruct (set_value old v) as [new|] eqn:Es; [|done].
    eapply extends_trans; [by eapply extends_insert, set_value_kind|by eapply IH].
  - destruct (is_bool old) eqn:Eb.
    + eapply extends_trans; [eapply extends_insert; [done|]|by eapply IH]. by destruct old.
    + destruct args as [|v args]; [done|]. destruct (set_value old v) as [new|] eqn:Es; [|done].
      eapply extends_trans; [by eapply extends_insert, set_value_kind|by eapply IH2].
Qed.

(** ** Rendering *)

(** One assignment as the arguments that make it. *)
Definition render (a : string * value) : list string :=
  match a.2 with
  | VString s => [("--" +:+ a.1)%string; s]
  | VBool b => [("--" +:+ a.1 +:+ (if b then "=true" else "=false"))%string]
  | VInt _ | VDuration _ => []
  end.

Definition plain_name (name : string) : bool :=
  match name with
  | EmptyString => false
  | String c rest => negb (Ascii.eqb c "-") && negb (Ascii.eqb c "=")
                     && match Cut "=" rest with None => true | Some _ => false end
  end.

Definition renders (fs : FlagSet) (a : string * value) : Prop :=
  plain_name a.1 = true /\ exists old, fs !! a.1 = Some old /\ same_kind old a.2 = true /\
  match a.2 with VString _ | VBool _ => True | _ => False end.

Lemma Cut_app sep s t : Cut sep s = None -> Cut sep (s +:+ String sep t) = Some (s, t).
Proof.
  induction s as [|c s IH]; simpl; [by rewrite Ascii.eqb_refl|].
  destruct (Ascii.eqb c sep); [done|]. destruct (Cut sep s) as [[? ?]|]; [done|].
  intros _. by rewrite IH.
Qed.

Lemma plain_flag_text name suffix :
  plain_name name = true -> flag_text ("--" +:+ name +:+ suffix) = Some (Some (name +:+ suffix)%string).
Proof. by destruct name. Qed.

Lemma plain_syntax name suffix : plain_name name = true -> bad_syntax (name +:+ suffix) = false.
Proof.
  destruct name as [|c name]; [done|]. simpl. rewrite !andb_true_iff, !negb_true_iff.
  intros [[-> ->] _]. done.
Qed.

Lemma plain_name_value name : plain_name name = true -> name_value name = (name, None).
Proof.
  destruct name as [|c name]; [done|]. simpl. rewrite !andb_true_iff. intros [_ H].
  by destruct (Cut "=" name).
Qed.

Lemma plain_name_value_eq name v :
  plain_name name = true -> name_value (name +:+ String "=" v) = (name, Some v).
Proof.
  destruct name as [|c name]; [done|]. simpl. rewrite !andb_true_iff. intros [_ H].
  rewrite Cut_app; [done|]. by destruct (Cut "=" name).
Qed.

Lemma string_app_empty s : (s +:+ "")%string = s.
Proof. induction s as [|c s IH]; [done|]. exact (f_equal (String c) IH). Qed.

Lemma Parse_render fs a rest :
  renders fs a -> Parse fs (render a ++ rest) = Parse (<[a.1 := a.2]> fs) rest.
Proof.
  intros (Hn & old & Ho & Hk & Hv). destruct a as [name [s|b|n|d]]; cbn [fst snd] in *; try done.
  - cbn [render fst snd app Parse]. rewrite <- (string_app_empty name) at 1.
    rewrite plain_flag_text, plain_syntax, string_app_empty, plain_name_value, Ho by done.
    by destruct old.
  - cbn [render fst snd app Parse]. assert (exists v, (if b then "=true" else "=false")%string = String "=" v
      /\ ParseBool v = Some b) as (v & -> & Hp).
    { destruct b; eexists; (split; [reflexivity|reflexivity]). }
    rewrite plain_flag_text, plain_syntax, plain_name_value_eq, Ho by done.
    destruct old; try done. cbn [set_value]. by rewrite Hp.
Qed.

(** * Properties *)

(** Flags round-trip. The arguments that spell out string and bool
    assignments of defined flags are parsed back to exactly these assignments,
    the last one winning, whatever the strings are (also when they look like
    flags), and the parser then continues with the remaining arguments. *)
Theorem flags_round_trip fs l rest :
  Forall (renders fs) l ->
  Parse fs (concat (render <$> l) ++ rest) = Parse (foldl (fun fs a => <[a.1 := a.2]> fs) fs l) rest.
Proof.
  revert fs. induction l as [|a l IH]; intros fs Hl; [done|].
  inversion Hl as [|? ? Ha Hl']; subst. cbn [fmap list_fmap concat foldl]. rewrite <- app_assoc.
  rewrite Parse_render by done. apply IH.
  eapply Forall_impl; [done|]. intros b (Hn & old & Ho & Hk & Hv). split; [done|].
  destruct Ha as (_ & old' & Ho' & Hk' & _). destruct (decide (b.1 = a.1)) as [E|E].
  - exists a.2. rewrite E, lookup_insert_eq. split_and!; [done| |done].
    rewrite E in Ho. assert (old' = old) as -> by congruence.
    destruct old, a.2, b.2; done.
  - exists old. by rewrite lookup_insert_ne by done.
Qed.

End GoFlag.
