(* ===== verification/Cli.v ===== *)
(** * The command line ([cmd/emitlane])

    The commands of the [emitlane] binary, from the arguments to the call on the
    service, the verifier or the migrations, and the exit status. A command is
    one step of the schema; what it prints is recorded as the value shown. The
    long-running [run] and the [doctor] command are handed on; their logic is
    elsewhere. Parsers of UUIDs, RFC 3339 times and cursors are arguments. *)
From Stdlib Require Import ZArith String Ascii.
From stdpp Require Import base gmap strings list fin_maps.
From S2P Require Import Prelude GoStrings GoParse Schema Invariant Samples AdminTypes.
From S2P Require Import OutboxStore AdminStore Presence OrderingAdmin InboxStore InboxAdmin AdminService.
From S2P Require Import Integrity StreamInspect Http Migrate GoNet GoFlag RelayConfig.

Module Cli.
Import Admin Migrate GoFlag.

Open Scope Z_scope.
Open Scope emitlane_scope.

(** ** What a command shows and how it ends *)

Inductive report : Type :=
| RValue (json : bool) (v : Http.payload)
| RStatus (json : bool) (control : ControlState) (relays : list RelayInstance)
| RDead (events : list OutboxStore.Event)
| RPaused (paused : bool)
| RIntegrity (json : bool) (r : Integrity.Report)
| RStream (json : bool) (r : StreamInspect.StreamInspection)
| RMigrated (version : Z)
| RRolledBack
| RVersion
| RUsage.

(** [commandExit] is an error without a text that carries the exit status. *)
Inductive result : Type :=
| Printed (r : report)
| Exit (r : report) (code : Z)
| Failed (e : error)
| Handed (command : string) (args : list string).

Definition outcome : Type := schema * list (string * string) * result.

Definition with_rows (s : schema) (d : db) : schema :=
  {| sc_namespace := sc_namespace s; sc_foreign := sc_foreign s; sc_history := sc_history s;
     sc_objects := sc_objects s; sc_db := d |}.

(** The exit status of [main]. *)
Definition exit_status (r : result) : Z :=
  match r with Printed _ | Handed _ _ => 0 | Exit _ code => code | Failed _ => 1 end.

(** [int16(n)] *)
Definition int16 (n : Z) : Z := (n + 2 ^ 15) mod 2 ^ 16 - 2 ^ 15.

Definition flags (l : list (string * value)) : gmap string value := list_to_map l.

(** [relay.DefaultConfig().PresenceStaleAfter] *)
Definition staleAfter : duration := PresenceStaleAfter RelayConfig.DefaultConfig.

Section commands.
Context (json_Marshal : Cursor -> string) (json_Decode : string -> option (Cursor * string)).
Context (stream_Marshal : OrderingAdmin.OrderingStreamCursor -> string).
Context (stream_Decode : string -> option (OrderingAdmin.OrderingStreamCursor * string)).
Context (uuid_String : uuid -> string) (uuid_Parse : string -> option uuid).
Context (time_Parse : string -> option time).

(** The variable [EMITLANE_DATABASE_URL], whether a pool can be made for it,
    the role it connects as, what the outside supplies to one command, and the
    schema. *)
Context (database_url : string) (pool_ok : bool) (ro : role) (en : Http.Env) (s : schema).

Definition fail (e : error) : outcome := (s, [], Failed e).
Definition usage (text : string) : outcome := fail (ErrOther ("usage: emitlane " +:+ text)).
Definition show (r : report) : outcome := (s, [], Printed r).

(** The result of a read, or its error. *)
Definition showing {A} (x : res A) (k : A -> report) : outcome :=
  match x with Ok a => show (k a) | Err e => fail e end.

(** The result of a mutation: the rows it left, and its notifications. *)
Definition commit {A} (x : db * list (string * string) * res A) (k : A -> report) : outcome :=
  match x.2 with
  | Ok a => (with_rows s x.1.1, x.1.2, Printed (k a))
  | Err e => (with_rows s x.1.1, x.1.2, Failed e)
  end.

Definition requireDatabaseURL (k : string -> outcome) : outcome :=
  let url := TrimSpace database_url in
  if bool_decide (url = ""%string) then fail (ErrOther "EMITLANE_DATABASE_URL is required") else k url.

(** [pgxpool.New] *)
Definition open_pool (k : outcome) : outcome :=
  requireDatabaseURL (fun _ => if pool_ok then k else fail (ErrOther "database url")).

Definition requireCurrentSchema (k : outcome) : outcome :=
  match SchemaVersion ro s with
  | Err e => fail e
  | Ok v => if v =? currentSchemaVersion then k
            else fail (ErrOther "emitlane schema version is incompatible with binary version")
  end.

Definition openAdminService (k : db -> outcome) : outcome :=
  open_pool (requireCurrentSchema
    (if Service.NewService_ok staleAfter then k (sc_db s)
     else fail (ErrOther "admin: stale threshold must be positive"))).

Definition parsed (fs : gmap string value) (args : list string) (text : string)
    (k : gmap string value -> outcome) : outcome :=
  match parse_all fs args with Some fs => k fs | None => usage text end.

Definition event_id (text : string) (k : uuid -> outcome) : outcome :=
  match uuid_Parse text with
  | Some id => k id
  | None => fail (ErrOther "event-id must be a UUID")
  end.

(** [adminapi.Mutation{Actor: "cli", Reason: reason}] *)
Definition mutation (reason : string) (unordered : bool) : Mutation :=
  {| mu_Actor := "cli"; mu_Reason := reason; mu_RequestID := ""; mu_Traceparent := "";
     mu_Tracestate := ""; mu_OrderingMode := if unordered then "unordered" else "" |}.

(** ** [operations.go] *)

Definition json_flag : string * value := ("json"%string, VBool false).
Definition string_flag (name : string) : string * value := (name, VString "").

Definition statsCmd (args : list string) : outcome :=
  parsed (flags [json_flag]) args "stats [--json]" (fun fs =>
  openAdminService (fun d =>
  showing (Service.Stats_ staleAfter d (Http.en_db2 en) (Http.en_now en) (Http.en_now2 en))
    (fun v => RValue (get_bool fs "json") (Http.PStats v)))).

Definition cliTime (raw name : string) : res (option time) :=
  if is_blank raw then Ok None else
  match time_Parse raw with
  | Some t => Ok (Some t)
  | None => Err (ErrOther ("--" +:+ name +:+ " must be RFC3339"))
  end.

Definition cliEventFilter (status destination eventType fromRaw toRaw : string) (limit : Z)
    (cursorRaw : string) : res EventFilter :=
  let statuses := if is_blank status then [] else Split "," status in
  let! from := cliTime fromRaw "from" in
  let! to := cliTime toRaw "to" in
  let! cursor := DecodeCursor json_Decode cursorRaw in
  Ok {| f_Statuses := statuses; f_Destination := destination; f_EventType := eventType;
        f_CreatedFrom := from; f_CreatedTo := to; f_ReplayBatchID := None; f_Cursor := cursor;
        f_Limit := limit |}.

Definition with_filter (x : res EventFilter) (k : EventFilter -> outcome) : outcome :=
  match x with Ok f => k f | Err e => fail e end.

Definition events_flags : gmap string value :=
  flags [string_flag "status"; string_flag "destination"; string_flag "type"; string_flag "from";
         string_flag "to"; ("limit"%string, VInt DefaultPageSize); string_flag "cursor"; json_flag].

Definition eventsListCmd (args : list string) : outcome :=
  parsed events_flags args
    "events list [--status status] [--destination name] [--type type] [--json]" (fun fs =>
  with_filter (cliEventFilter (get_string fs "status") (get_string fs "destination")
                 (get_string fs "type") (get_string fs "from") (get_string fs "to")
                 (get_int fs "limit") (get_string fs "cursor")) (fun filter =>
  openAdminService (fun d =>
  showing (Service.ListEvents json_Marshal d filter)
    (fun page => RValue (get_bool fs "json") (Http.PEvents page))))).

Definition eventsInspectCmd (args : list string) : outcome :=
  match args with
  | [] => usage "events inspect <event-id> [--json] [--payload]"
  | arg :: args =>
      event_id arg (fun id =>
      parsed (flags [json_flag; ("payload"%string, VBool false)]) args
        "events inspect <event-id> [--json] [--payload]" (fun fs =>
      openAdminService (fun d =>
      showing (Service.InspectEvent d id (get_bool fs "payload"))
        (fun e => RValue (get_bool fs "json" || get_bool fs "payload") (Http.PEvent e)))))
  end.

Definition eventsCmd (args : list string) : outcome :=
  match args with
  | "list"%string :: args => eventsListCmd args
  | "inspect"%string :: args => eventsInspectCmd args
  | _ => usage "events list|inspect"
  end.

Definition relayCmd (args : list string) : outcome :=
  match args with
  | [] => usage "relay status|pause|resume"
  | "status"%string :: args =>
      parsed (flags [json_flag]) args "relay status [--json]" (fun fs =>
      openAdminService (fun d =>
      showing (Service.ControlState_ d) (fun control =>
      RStatus (get_bool fs "json") control (Service.ListRelays_ staleAfter d (Http.en_now en)))))
  | verb :: args =>
      if negb (bool_decide (verb ∈ ["pause"; "resume"]%string)) then usage "relay status|pause|resume" else
      parsed (flags [string_flag "reason"]) args ("relay " +:+ verb +:+ " --reason reason") (fun fs =>
      openAdminService (fun d =>
      commit (Service.SetPaused (Http.en_trace en) (Http.en_newV7 en) d (Http.en_now en)
                (String.eqb verb "pause") (mutation (get_string fs "reason") false))
        (fun control => RPaused (Paused control))))
  end.

Definition replayEventCmd (args : list string) : outcome :=
  match args with
  | [] => usage "replay event <event-id> --reason reason"
  | arg :: args =>
      event_id arg (fun id =>
      parsed (flags [string_flag "reason"; json_flag; ("unordered"%string, VBool false)]) args
        "replay event <event-id> --reason reason" (fun fs =>
      openAdminService (fun d =>
      commit (Service.ReplayEvent (Http.en_trace en) uuid_String (Http.en_newV7 en) d (Http.en_now en) id
                (mutation (get_string fs "reason") (get_bool fs "unordered")))
        (fun r => RValue (get_bool fs "json") (Http.PReplay r)))))
  end.

Definition replay_range_flags : gmap string value :=
  flags [string_flag "status"; string_flag "destination"; string_flag "type"; string_flag "from";
         string_flag "to"; string_flag "reason"; ("limit"%string, VInt MaxReplayBatch);
         ("execute"%string, VBool false); json_flag; ("unordered"%string, VBool false)].

Definition replayRangeCmd (args : list string) : outcome :=
  parsed replay_range_flags args "replay range [selector] --reason reason [--execute]" (fun fs =>
  with_filter (cliEventFilter (get_string fs "status") (get_string fs "destination")
                 (get_string fs "type") (get_string fs "from") (get_string fs "to")
                 (get_int fs "limit") "") (fun filter =>
  openAdminService (fun d =>
  if negb (get_bool fs "execute")
  then showing (Service.PreviewReplay d filter)
         (fun v => RValue (get_bool fs "json") (Http.PPreview v))
  else commit (Service.ReplayBatch (Http.en_trace en) uuid_String (Http.en_newV7 en) d (Http.en_now en)
                 filter (mutation (get_string fs "reason") (get_bool fs "unordered")))
         (fun r => RValue (get_bool fs "json") (Http.PReplay r))))).

Definition replayCmd (args : list string) : outcome :=
  match args with
  | "event"%string :: args => replayEventCmd args
  | "range"%string :: args => replayRangeCmd args
  | _ => usage "replay event|range"
  end.

Definition ordering_flags : gmap string value :=
  flags [string_flag "state"; string_flag "destination"; ("partition"%string, VInt (-1));
         ("blocked"%string, VBool false); ("limit"%string, VInt DefaultPageSize); string_flag "cursor";
         json_flag].

Definition orderingStreamsCmd (args : list string) : outcome :=
  parsed ordering_flags args "ordering streams [--blocked] [--json]" (fun fs =>
  match OrderingAdmin.DecodeOrderingStreamCursor stream_Decode (get_string fs "cursor") with
  | Err e => fail e
  | Ok cursor =>
      let partitionRaw := get_int fs "partition" in
      let partition := if 0 <=? partitionRaw then Some (int16 partitionRaw) else None in
      openAdminService (fun d =>
      showing (Service.ListOrderingStreams stream_Marshal d (Http.en_now en)
                 {| OrderingAdmin.sf_State := get_string fs "state";
                    OrderingAdmin.sf_Destination := get_string fs "destination";
                    OrderingAdmin.sf_Partition := partition;
                    OrderingAdmin.sf_BlockedOnly := get_bool fs "blocked";
                    OrderingAdmin.sf_Limit := get_int fs "limit";
                    OrderingAdmin.sf_Cursor := cursor |})
        (fun page => RValue (get_bool fs "json") (Http.PStreams page)))
  end).

Definition orderingInspectCmd (args : list string) : outcome :=
  let text := "ordering inspect --destination name --key key [--json]"%string in
  parsed (flags [string_flag "destination"; string_flag "key"; json_flag]) args text (fun fs =>
  if bool_decide (get_string fs "destination" = ""%string) || bool_decide (get_string fs "key" = ""%string)
  then usage text else
  openAdminService (fun d =>
  showing (Service.InspectOrderingStream d (Http.en_now en) (get_string fs "destination")
             (get_string fs "key"))
    (fun stream => RValue (get_bool fs "json") (Http.PStream stream)))).

Definition orderingPartitionsCmd (args : list string) : outcome :=
  parsed (flags [json_flag]) args "ordering partitions [--json]" (fun fs =>
  openAdminService (fun d =>
  show (RValue (get_bool fs "json")
          (Http.PPartitions (Service.ListOrderingPartitions staleAfter d (Http.en_now en)))))).

Definition orderingCmd (args : list string) : outcome :=
  match args with
  | "streams"%string :: args => orderingStreamsCmd args
  | "inspect"%string :: args => orderingInspectCmd args
  | "partitions"%string :: args => orderingPartitionsCmd args
  | _ => usage "ordering streams|inspect|partitions"
  end.

Definition auditCmd (args : list string) : outcome :=
  match args with
  | "list"%string :: args =>
      parsed (flags [string_flag "action"; ("limit"%string, VInt DefaultPageSize); string_flag "cursor";
                     json_flag]) args "audit list [--action action] [--json]" (fun fs =>
      match DecodeCursor json_Decode (get_string fs "cursor") with
      | Err e => fail e
      | Ok cursor =>
          openAdminService (fun d =>
          showing (Service.ListAudit json_Marshal d
                     {| af_Action := get_string fs "action"; af_Cursor := cursor;
                        af_Limit := get_int fs "limit" |})
            (fun page => RValue (get_bool fs "json") (Http.PAudit page)))
      end)
  | _ => usage "audit list [--action action] [--json]"
  end.

(** ** [inbox.go] *)

Definition inboxStatsCmd (args : list string) : outcome :=
  parsed (flags [string_flag "consumer"; json_flag]) args "inbox stats [--consumer name] [--json]" (fun fs =>
  openAdminService (fun d =>
  showing (Service.InboxStats d (Http.en_now en) (get_string fs "consumer"))
    (fun v => RValue (get_bool fs "json") (Http.PInboxStats v)))).

Definition inboxDeadCmd (args : list string) : outcome :=
  parsed (flags [string_flag "consumer"; ("limit"%string, VInt DefaultPageSize);
                 ("offset"%string, VInt 0); json_flag]) args
    "inbox dead [--consumer name] [--limit 50] [--offset 0] [--json]" (fun fs =>
  openAdminService (fun d =>
  showing (Service.ListDeadInbox d {| InboxAdmin.df_Consumer := get_string fs "consumer";
                                      InboxAdmin.df_Limit := get_int fs "limit";
                                      InboxAdmin.df_Offset := get_int fs "offset" |})
    (fun items => RValue (get_bool fs "json")
                    (Http.PInboxList items (get_int fs "limit") (get_int fs "offset"))))).

Definition inboxInspectCmd (args : list string) : outcome :=
  parsed (flags [string_flag "consumer"; string_flag "event-id"; json_flag]) args
    "inbox inspect --consumer name --event-id uuid [--json]" (fun fs =>
  event_id (get_string fs "event-id") (fun id =>
  openAdminService (fun d =>
  showing (Service.InspectInbox d (get_string fs "consumer") id)
    (fun e => RValue (get_bool fs "json") (Http.PInboxEvent e))))).

Definition inboxRetryCmd (args : list string) : outcome :=
  parsed (flags [string_flag "consumer"; string_flag "event-id"; string_flag "reason"]) args
    "inbox retry --consumer name --event-id uuid --reason reason" (fun fs =>
  event_id (get_string fs "event-id") (fun id =>
  openAdminService (fun d =>
  let '(d', x) := Service.RetryDeadInbox (Http.en_trace en) uuid_String d (Http.en_now en)
                    (Http.en_auditID en) (get_string fs "consumer") id
                    (mutation (get_string fs "reason") false) in
  commit (d', [], x) (fun _ => RValue false (Http.PInboxRetried (get_string fs "consumer") id))))).

Definition inboxCmd (args : list string) : outcome :=
  match args with
  | "stats"%string :: args => inboxStatsCmd args
  | "dead"%string :: args => inboxDeadCmd args
  | "inspect"%string :: args => inboxInspectCmd args
  | "retry"%string :: args => inboxRetryCmd args
  | _ => usage "inbox stats|dead|inspect|retry"
  end.

(** ** [dead.go]: without the check of the schema version *)

Definition deadCmd (args : list string) : outcome :=
  match args with
  | [] => usage "dead list|retry <event-id>"
  | verb :: args =>
      open_pool
        (if String.eqb verb "list" then
           match args with
           | [] => show (RDead (ListDead (sc_db s) 100))
           | _ => usage "dead list"
           end
         else if String.eqb verb "retry" then
           match args with
           | [] => usage "dead retry <event-id> [--reason reason]"
           | arg :: args =>
               event_id arg (fun id =>
               parsed (flags [string_flag "reason"]) args "dead retry <event-id> [--reason reason]" (fun fs =>
               if negb (Service.NewService_ok staleAfter)
               then fail (ErrOther "admin: stale threshold must be positive") else
               commit (Service.RetryDead (Http.en_trace en) uuid_String (Http.en_newV7 en) (sc_db s)
                         (Http.en_now en) id (mutation (get_string fs "reason") false))
                 (fun _ => RValue false (Http.PRetried id))))
           end
         else usage "dead list|retry <event-id>")
  end.

(** ** [integrity.go] *)

Definition openIntegrityVerifier (timeout : duration) (maxFindings : Z)
    (k : Integrity.Config -> outcome) : outcome :=
  open_pool
    (match Integrity.NewVerifier
             {| Integrity.c_MaxFindings := maxFindings; Integrity.c_StatementTimeout := timeout;
                Integrity.c_PresenceStaleAfter := Integrity.c_PresenceStaleAfter Integrity.DefaultConfig;
                Integrity.c_HandoffLongAfter := Integrity.c_HandoffLongAfter Integrity.DefaultConfig |} with
     | Ok c => k c
     | Err e => fail e
     end).

(** The report, and [commandExit] when the code is not zero. *)
Definition exiting (r : report) (code : Z) : outcome :=
  if negb (code =? 0) then (s, [], Exit r code) else show r.

Definition check_flags : list (string * value) :=
  [json_flag; ("strict"%string, VBool false); ("timeout"%string, VDuration (30 * Second));
   ("max-findings"%string, VInt Integrity.DefaultMaxFindings)].

Definition bad_limits (fs : gmap string value) : bool :=
  (get_duration fs "timeout" <=? 0) || (get_int fs "max-findings" <? 1)
  || (Integrity.MaximumMaxFindings <? get_int fs "max-findings").

Definition integrityCheckCmd (args : list string) : outcome :=
  let text := "integrity check [--full] [--json] [--strict] [--timeout 30s] [--max-findings 100]"%string in
  parsed (flags (("full"%string, VBool false) :: check_flags)) args text (fun fs =>
  if bad_limits fs then usage text else
  openIntegrityVerifier (get_duration fs "timeout") (get_int fs "max-findings") (fun cfg =>
  let mode := if get_bool fs "full" then Integrity.ModeFull else Integrity.ModeSummary in
  match Integrity.Check uuid_String (Http.en_catalog en) (sc_db s) (Http.en_now en)
          (Http.en_startedAt en) (Http.en_finishedAt en) cfg mode with
  | Err e => fail e
  | Ok r => exiting (RIntegrity (get_bool fs "json") r) (Integrity.ExitCode r (get_bool fs "strict"))
  end)).

Definition integrityStreamCmd (args : list string) : outcome :=
  let text := "integrity stream --destination name --key key [--json] [--strict] [--timeout 30s] [--max-findings 100]"%string in
  parsed (flags (string_flag "destination" :: string_flag "key" :: check_flags)) args text (fun fs =>
  if bool_decide (get_string fs "destination" = ""%string) || bool_decide (get_string fs "key" = ""%string)
     || bad_limits fs
  then usage text else
  openIntegrityVerifier (get_duration fs "timeout") (get_int fs "max-findings") (fun cfg =>
  match StreamInspect.InspectStream uuid_String (Http.en_catalog en) (sc_db s) (Http.en_now en)
          (Http.en_startedAt en) (Http.en_finishedAt en) cfg (get_string fs "destination")
          (get_string fs "key") with
  | Err e => fail e
  | Ok r => exiting (RStream (get_bool fs "json") r)
              (Integrity.ExitCode (StreamInspect.si_Report r) (get_bool fs "strict"))
  end)).

Definition integrityCmd (args : list string) : outcome :=
  match args with
  | "check"%string :: args => integrityCheckCmd args
  | "stream"%string :: args => integrityStreamCmd args
  | _ => usage "integrity check|stream"
  end.

(** ** [migrate.go], [version.go] and [main.go] *)

Definition migrateCmd (args : list string) : outcome :=
  match args with
  | [verb] =>
      open_pool
        (if String.eqb verb "up" then
           match MigrateUp (Http.en_now en) s with
           | (s', Err e) => (s', [], Failed e)
           | (s', Ok _) => match SchemaVersion ro s' with
                           | Ok v => (s', [], Printed (RMigrated v))
                           | Err e => (s', [], Failed e)
                           end
           end
         else if String.eqb verb "down" then
           match MigrateDown (Http.en_now en) s with
           | (s', Err e) => (s', [], Failed e)
           | (s', Ok _) => (s', [], Printed RRolledBack)
           end
         else usage "migrate up|down")
  | _ => usage "migrate up|down"
  end.

Definition versionCmd (args : list string) : outcome :=
  match args with [] => show RVersion | _ => usage "version" end.

Definition command (cmd : string) (args : list string) : outcome :=
  if bool_decide (cmd ∈ ["run"; "doctor"]%string) then (s, [], Handed cmd args)
  else if String.eqb cmd "migrate" then migrateCmd args
  else if String.eqb cmd "version" then versionCmd args
  else if String.eqb cmd "dead" then deadCmd args
  else if String.eqb cmd "stats" then statsCmd args
  else if String.eqb cmd "events" then eventsCmd args
  else if String.eqb cmd "relay" then relayCmd args
  else if String.eqb cmd "replay" then replayCmd args
  else if String.eqb cmd "audit" then auditCmd args
  else if String.eqb cmd "ordering" then orderingCmd args
  else if String.eqb cmd "integrity" then integrityCmd args
  else if String.eqb cmd "inbox" then inboxCmd args
  else if bool_decide (cmd ∈ ["help"; "-h"; "--help"]%string) then show RUsage
  else (s, [], Exit RUsage 2).

(** [main], on the arguments after the program's name. *)
Definition main (args : list string) : outcome :=
  match args with
  | [] => (s, [], Exit RUsage 2)
  | cmd :: args => command cmd args
  end.

End commands.

(** * Lemmas *)

Lemma with_rows_same s : with_rows s (sc_db s) = s.
Proof. by destruct s. Qed.

Section safety.
Context (json_Marshal : Cursor -> string) (json_Decode : string -> option (Cursor * string)).
Context (stream_Marshal : OrderingAdmin.OrderingStreamCursor -> string).
Context (stream_Decode : string -> option (OrderingAdmin.OrderingStreamCursor * string)).
Context (uuid_String : uuid -> string) (uuid_Parse : string -> option uuid).
Context (time_Parse : string -> option time).
Context (database_url : string) (pool_ok : bool) (ro : role) (en : Http.Env) (s : schema).

(** Nothing is written. *)
Definition reads (o : outcome) : Prop := o.1 = (s, []).

(** One audited mutation in the name of the command line, reported as done. *)
Definition cli_step (allowed : Service.request -> Prop) (o : outcome) : Prop :=
  exists q m r, allowed q /\ mu_Actor m = "cli"%string /\ o.2 = Printed r /\
    o.1.1 = with_rows s (sc_db o.1.1) /\
    Service.audited_change q (Http.en_now en) m (sc_db s) (sc_db o.1.1).

Definition safe (allowed : Service.request -> Prop) (o : outcome) : Prop :=
  reads o \/ cli_step allowed o.

Lemma safe_commit {A} (allowed : Service.request -> Prop) q m
    (x : db * list (string * string) * res A) k :
  db_inv (sc_db s) -> allowed q -> mu_Actor m = "cli"%string ->
  Service.forget x = Service.serve (Http.en_trace en) uuid_String (Http.en_newV7 en) (sc_db s)
                       (Http.en_now en) q m ->
  safe allowed (commit s x k).
Proof.
  intros Hinv Hq Hm Hx. destruct x as [[d' ns] [a|e]]; symmetry in Hx; cbn in Hx;
    apply (Service.serve_audited _ _ _ _ _ _ _ _ _ _ Hinv) in Hx.
  - right. exists q, m, (k a). done.
  - destruct Hx as [-> ->]. left. unfold commit. cbn. by rewrite with_rows_same.
Qed.

Lemma safe_pool allowed k : safe allowed k -> safe allowed (open_pool database_url pool_ok s k).
Proof. intros H. unfold open_pool, requireDatabaseURL. repeat case_match; [by left|done|by left]. Qed.

Lemma safe_service allowed k :
  safe allowed (k (sc_db s)) -> safe allowed (openAdminService database_url pool_ok ro s k).
Proof.
  intros H. apply safe_pool. unfold requireCurrentSchema. repeat case_match; try done; by left.
Qed.

Lemma safe_parsed allowed fs args text k :
  (forall fs', parse_all fs args = Some fs' -> safe allowed (k fs')) ->
  safe allowed (parsed s fs args text k).
Proof. intros H. unfold parsed. case_match; [by apply H|by left]. Qed.

Lemma safe_event_id allowed text k :
  (forall id, safe allowed (k id)) -> safe allowed (event_id uuid_Parse s text k).
Proof. intros H. unfold event_id. case_match; [apply H|by left]. Qed.

Lemma safe_filter allowed x k : (forall f, safe allowed (k f)) -> safe allowed (with_filter s x k).
Proof. intros H. unfold with_filter. case_match; [apply H|by left]. Qed.

Lemma safe_showing {A} allowed (x : res A) k : safe allowed (showing s x k).
Proof. left. unfold showing. by case_match. Qed.

Lemma safe_fail allowed e : safe allowed (fail s e).
Proof. by left. Qed.
Lemma safe_usage allowed t : safe allowed (usage s t).
Proof. by left. Qed.
Lemma safe_show allowed r : safe allowed (show s r).
Proof. by left. Qed.
Lemma safe_exiting allowed r code : safe allowed (exiting s r code).
Proof. left. unfold exiting. by case_match. Qed.

Lemma safe_verifier allowed t n k :
  (forall c, safe allowed (k c)) -> safe allowed (openIntegrityVerifier database_url pool_ok s t n k).
Proof. intros H. apply safe_pool. case_match; [apply H|by left]. Qed.

Ltac cli_safe :=
  cbv beta iota zeta;
  repeat first
    [ apply safe_usage | apply safe_fail | apply safe_show | apply safe_showing | apply safe_exiting
    | apply safe_parsed; intros ? ? | apply safe_filter; intros ? | apply safe_event_id; intros ?
    | apply safe_service | apply safe_verifier; intros ? | apply safe_pool
    | match goal with |- safe _ (if ?b then _ else _) => destruct b eqn:? end
    | match goal with |- safe _ (match ?x with Ok _ => _ | Err _ => _ end) => destruct x end ].

Lemma relayCmd_safe allowed args :
  db_inv (sc_db s) -> (forall b, allowed (Service.Pause b)) ->
  safe allowed (relayCmd database_url pool_ok ro en s args).
Proof.
  intros Hinv Hq. unfold relayCmd. destruct args as [|verb args]; [by left|].
  assert (forall v, safe allowed (if negb (bool_decide (v ∈ ["pause"; "resume"]%string))
    then usage s "relay status|pause|resume" else
    parsed s (flags [string_flag "reason"]) args ("relay " +:+ v +:+ " --reason reason") (fun fs =>
    openAdminService database_url pool_ok ro s (fun d =>
    commit s (Service.SetPaused (Http.en_trace en) (Http.en_newV7 en) d (Http.en_now en)
              (String.eqb v "pause") (mutation (get_string fs "reason") false))
      (fun control => RPaused (Paused control)))))) as Hmut.
  { intros v. cli_safe.
    by eapply (safe_commit _ (Service.Pause (String.eqb v "pause")) (mutation (get_string fs' "reason") false)). }
  repeat (destruct verb as [|[[] [] [] [] [] [] [] []] verb]; try apply Hmut); cli_safe.
Qed.

Lemma deadCmd_safe allowed args :
  db_inv (sc_db s) -> (forall id, allowed (Service.Retry id)) ->
  safe allowed (deadCmd uuid_String uuid_Parse database_url pool_ok en s args).
Proof.
  intros Hinv Hq. unfold deadCmd. destruct args as [|verb args]; [by left|].
  destruct args as [|arg args]; cli_safe.
  eapply (safe_commit _ (Service.Retry id) (mutation (get_string fs' "reason") false)); [done..| |].
  - done.
  - unfold Service.forget. cbn. by destruct (Service.RetryDead _ _ _ _ _ _ _) as [[? ?] [[]|?]].
Qed.

Lemma inboxRetryCmd_safe allowed args :
  db_inv (sc_db s) -> (forall a c id, allowed (Service.RetryInbox a c id)) ->
  safe allowed (inboxRetryCmd uuid_String uuid_Parse database_url pool_ok ro en s args).
Proof.
  intros Hinv Hq. unfold inboxRetryCmd. cli_safe.
  destruct (Service.RetryDeadInbox _ _ _ _ _ _ _ _) as [d' x] eqn:E.
  eapply (safe_commit _ (Service.RetryInbox (Http.en_auditID en) (get_string fs' "consumer") id)
            (mutation (get_string fs' "reason") false)); [done..|].
  cbn [Service.serve]. rewrite E. by destruct x as [[]|?].
Qed.

Lemma replayEventCmd_safe allowed args :
  db_inv (sc_db s) -> (forall id, allowed (Service.Replay id)) ->
  safe allowed (replayEventCmd uuid_String uuid_Parse database_url pool_ok ro en s args).
Proof.
  intros Hinv Hq. unfold replayEventCmd. destruct args as [|arg args]; cli_safe.
  by eapply (safe_commit _ (Service.Replay id)
    (mutation (get_string fs' "reason") (get_bool fs' "unordered"))).
Qed.

Lemma replayRangeCmd_safe (allowed : Service.request -> Prop) args :
  db_inv (sc_db s) ->
  (forall fs f, parse_all replay_range_flags args = Some fs -> get_bool fs "execute" = true ->
     allowed (Service.ReplayMany f)) ->
  safe allowed (replayRangeCmd json_Decode uuid_String time_Parse database_url pool_ok ro en s args).
Proof.
  intros Hinv Hq. unfold replayRangeCmd. cli_safe.
  eapply (safe_commit _ (Service.ReplayMany f)
    (mutation (get_string fs' "reason") (get_bool fs' "unordered"))); [done| |done|done].
  eapply Hq; [done|]. by apply negb_false_iff.
Qed.

(** The requests a command line may lead to: a replay of a selection only with
    [--execute]. *)
Definition requested (args : list string) (q : Service.request) : Prop :=
  match q with
  | Service.ReplayMany _ => exists rest fs, args = "replay"%string :: "range"%string :: rest /\
      parse_all replay_range_flags rest = Some fs /\ get_bool fs "execute" = true
  | _ => True
  end.

Definition run_main : list string -> outcome :=
  main json_Marshal json_Decode stream_Marshal stream_Decode uuid_String uuid_Parse time_Parse
    database_url pool_ok ro en s.

Ltac subcommand := match goal with
  | |- safe _ (match ?l with [] => _ | _ :: _ => _ end) =>
      let verb := fresh "verb" in let rest := fresh "rest" in
      destruct l as [|verb rest]; [by left|];
      repeat (destruct verb as [|[[] [] [] [] [] [] [] []] verb]; try apply safe_usage)
  end.

Lemma replayCmd_safe args rest :
  db_inv (sc_db s) -> args = "replay"%string :: rest ->
  safe (requested args)
    (replayCmd json_Decode uuid_String uuid_Parse time_Parse database_url pool_ok ro en s rest).
Proof.
  intros Hinv ->. unfold replayCmd. subcommand.
  - by apply replayEventCmd_safe.
  - apply replayRangeCmd_safe; [done|]. intros fs f Hp He. cbn. eauto.
Qed.

Lemma inboxCmd_safe args rest :
  db_inv (sc_db s) ->
  safe (requested args) (inboxCmd uuid_String uuid_Parse database_url pool_ok ro en s rest).
Proof.
  intros Hinv. unfold inboxCmd. subcommand;
    try (by apply inboxRetryCmd_safe); unfold inboxStatsCmd, inboxDeadCmd, inboxInspectCmd; cli_safe.
Qed.

Lemma migrateCmd_rows args :
  reads (migrateCmd database_url pool_ok ro en s args) \/
  exists verb, args = [verb] /\
    let o := migrateCmd database_url pool_ok ro en s args in
    o.1.2 = [] /\
    ((verb = "up"%string /\ o.1.1 = (MigrateUp (Http.en_now en) s).1) \/
     (verb = "down"%string /\ o.1.1 = (MigrateDown (Http.en_now en) s).1)).
Proof.
  unfold migrateCmd. destruct args as [|verb [|? ?]]; [by left| |by left].
  unfold open_pool, requireDatabaseURL. cbv zeta. case_match; [by left|].
  destruct pool_ok; [|by left].
  destruct (String.eqb_spec verb "up") as [->|_].
  - right. exists "up"%string. split; [done|].
    destruct (MigrateUp _ s) as [s' [u|e]]; cbn; [|by auto]. destruct (SchemaVersion ro s'); cbn; auto.
  - destruct (String.eqb_spec verb "down") as [->|_]; [|by left].
    right. exists "down"%string. split; [done|].
    destruct (MigrateDown _ s) as [s' [u|e]]; cbn; auto.
Qed.

(** The other commands only read. *)
Lemma eventsCmd_safe allowed args :
  safe allowed (eventsCmd json_Marshal json_Decode uuid_Parse time_Parse database_url pool_ok ro s args).
Proof.
  unfold eventsCmd. subcommand; unfold eventsListCmd, eventsInspectCmd; [|cli_safe].
  destruct rest; cli_safe.
Qed.

Lemma auditCmd_safe allowed args :
  safe allowed (auditCmd json_Marshal json_Decode database_url pool_ok ro s args).
Proof. unfold auditCmd. subcommand. cli_safe. Qed.

Lemma orderingCmd_safe allowed args :
  safe allowed (orderingCmd stream_Marshal stream_Decode database_url pool_ok ro en s args).
Proof.
  unfold orderingCmd. subcommand;
    unfold orderingStreamsCmd, orderingInspectCmd, orderingPartitionsCmd; cli_safe.
Qed.

Lemma integrityCmd_safe allowed args :
  safe allowed (integrityCmd uuid_String database_url pool_ok en s args).
Proof.
  unfold integrityCmd. subcommand; unfold integrityCheckCmd, integrityStreamCmd; cli_safe.
Qed.

Lemma main_safe args :
  db_inv (sc_db s) ->
  safe (requested args) (run_main args) \/
  exists verb, args = ["migrate"%string; verb] /\ (run_main args).1.2 = [] /\
    ((verb = "up"%string /\ (run_main args).1.1 = (MigrateUp (Http.en_now en) s).1) \/
     (verb = "down"%string /\ (run_main args).1.1 = (MigrateDown (Http.en_now en) s).1)).
Proof.
  intros Hinv. unfold run_main, main. destruct args as [|cmd args]; [by left; left|]. unfold command.
  destruct (bool_decide _); [by left; left|].
  destruct (String.eqb_spec cmd "migrate") as [->|_].
  { destruct (migrateCmd_rows args) as [H|(verb & -> & H)]; [by left; left|]. right. by exists verb. }
  left.
  destruct (String.eqb cmd "version"); [left; by destruct args|].
  destruct (String.eqb cmd "dead"); [by apply deadCmd_safe|].
  destruct (String.eqb cmd "stats"); [unfold statsCmd; cli_safe|].
  destruct (String.eqb cmd "events"); [apply eventsCmd_safe|].
  destruct (String.eqb cmd "relay"); [by apply relayCmd_safe|].
  destruct (String.eqb_spec cmd "replay") as [->|_]; [by apply replayCmd_safe|].
  destruct (String.eqb cmd "audit"); [apply auditCmd_safe|].
  destruct (String.eqb cmd "ordering"); [apply orderingCmd_safe|].
  destruct (String.eqb cmd "integrity"); [apply integrityCmd_safe|].
  destruct (String.eqb cmd "inbox"); [by apply inboxCmd_safe|].
  destruct (bool_decide _); by left.
Qed.

(** * Properties *)


(** The exit status of a check is the verifier's verdict: once the arguments
    are accepted and a pool is made, [integrity check] shows the report and ends
    with the exit code the verifier computes for it, strict or not. *)
Theorem integrity_check_exit args fs report cfg :
  parse_all (flags (("full"%string, VBool false) :: check_flags)) args = Some fs ->
  bad_limits fs = false -> is_blank database_url = false -> pool_ok = true ->
  Integrity.NewVerifier {| Integrity.c_MaxFindings := get_int fs "max-findings";
    Integrity.c_StatementTimeout := get_duration fs "timeout";
    Integrity.c_PresenceStaleAfter := 30 * Second; Integrity.c_HandoffLongAfter := 30 * Second |} = Ok cfg ->
  Integrity.Check uuid_String (Http.en_catalog en) (sc_db s) (Http.en_now en) (Http.en_startedAt en)
    (Http.en_finishedAt en) cfg
    (if get_bool fs "full" then Integrity.ModeFull else Integrity.ModeSummary) = Ok report ->
  let o := run_main ("integrity"%string :: "check"%string :: args) in
  o.1 = (s, []) /\ exit_status o.2 = Integrity.ExitCode report (get_bool fs "strict").
Proof.
  intros Hfs Hl Hu Hp Hn Hc. cbv zeta.
  change (run_main ("integrity"%string :: "check"%string :: args))
    with (integrityCheckCmd uuid_String database_url pool_ok en s args).
  unfold integrityCheckCmd, parsed. cbv zeta. rewrite Hfs, Hl.
  unfold openIntegrityVerifier, open_pool, requireDatabaseURL.
  unfold is_blank in Hu. cbv zeta. rewrite Hu, Hp.
  cbn [Integrity.DefaultConfig Integrity.c_PresenceStaleAfter Integrity.c_HandoffLongAfter].
  rewrite Hn, Hc. unfold exiting.
  destruct (Z.eqb_spec (Integrity.ExitCode report (get_bool fs "strict")) 0) as [E|E]; cbn; by rewrite ?E.
Qed.

End safety.

(** * Witnesses *)

Definition sample_main (s : schema) (args : list string) : outcome :=
  main (fun _ => ""%string) (fun _ => None) (fun _ => ""%string) (fun _ => None) (fun _ => "id"%string)
    (fun t => Z.to_N <$> Atoi t) (fun _ => None) "postgres://localhost" true owner Http.sample_env s args.

Definition sample_schema : schema := at_ 4 false sample_db.

Definition pause_args : list string := ["relay"; "pause"; "--reason"; "maintenance"]%string.


(** Without [--execute] a range is only previewed; an old schema is refused. *)
Example replay_range_previews :
  exit_status (sample_main sample_schema ["replay"; "range"; "--status=delivered"]%string).2 = 0 /\
  exit_status (sample_main (at_ 3 false sample_db) pause_args).2 = 1 /\
  exit_status (sample_main sample_schema ["relay"; "pause"; "now"]%string).2 = 1 /\
  exit_status (sample_main sample_schema ["unknown"]%string).2 = 2.
Proof. split_and!; vm_compute; reflexivity. Qed.

(** [--partition] is truncated to 16 bits before the service checks its range:
    65536 lists partition 0 instead of being refused like 64. *)
Example partition_truncated :
  sample_main sample_schema ["ordering"; "streams"; "--partition"; "65536"]%string
  = sample_main sample_schema ["ordering"; "streams"; "--partition"; "0"]%string /\
  exit_status (sample_main sample_schema ["ordering"; "streams"; "--partition"; "65536"]%string).2 = 0 /\
  exit_status (sample_main sample_schema ["ordering"; "streams"; "--partition"; "64"]%string).2 = 1.
Proof. split_and!; vm_compute; reflexivity. Qed.

End Cli.
