(* ===== verification/Daemon.v ===== *)
(** * The relay process ([cmd/emitlane/run.go])

    [runCmd] opens what the relay needs in order, stops at the first failure
    with the deferred calls undone in reverse order, runs the HTTP servers and
    the relay in one [errgroup] and waits for all of them. *)
From Stdlib Require Import ZArith String.
From stdpp Require Import base gmap strings list fin_maps sets relations.
From S2P Require Import Prelude GoStrings GoParse GoNet Schema RelayConfig KafkaSecurity AdminTypes.
From S2P Require Import AdminService Http Migrate Kafka ConfigLoad Telemetry.

Module Daemon.
Import Migrate ConfigLoad.

Open Scope Z_scope.
Open Scope emitlane_scope.

Inductive resource : Type := Signals | Pool | KafkaClient.
#[global] Instance resource_eq_dec : EqDecision resource.
Proof. solve_decision. Defined.

(** What a start-up does to them; [Deferred r] registers the call that closes
    [r] when the function returns. *)
Inductive effect : Type := Opened (r : resource) | Deferred (r : resource) | Closed (r : resource).

(** A step of the start-up: its effects and its result. *)
Definition start (A : Type) : Type := list effect * result string A.
Definition ret {A} (a : A) : start A := ([], Ok a).
Definition lift {A} (r : result string A) : start A := ([], r).
Definition emit (l : list effect) : start unit := (l, Ok tt).
Definition bind {A B} (m : start A) (k : A -> start B) : start B :=
  match m.2 with
  | Ok a => (m.1 ++ (k a).1, (k a).2)
  | Err e => (m.1, Err e)
  end.

#[local] Notation "'let$' x := m 'in' k" := (bind m (fun x => k))
  (at level 200, x pattern, m at level 100, k at level 200).

(** The deferred calls, last registered first. *)
Definition deferred (l : list effect) : list effect :=
  Closed <$> reverse (omap (fun e => match e with Deferred r => Some r | _ => None end) l).

Inductive level : Type := LevelDebug | LevelInfo | LevelWarn | LevelError.

(** [newLogger] *)
Definition newLogger (l : string) : level :=
  if String.eqb l "debug" then LevelDebug
  else if String.eqb l "warn" then LevelWarn
  else if String.eqb l "error" then LevelError
  else LevelInfo.

Record pool_config : Type := MkPoolConfig {
  pc_url : string;
  pc_MaxConns : Z;
  pc_MinConns : Z;
  pc_MaxConnLifetime : duration;
}.

(** The process once everything is constructed. *)
Record running : Type := MkRunning {
  rn_level : level;
  rn_pool : pool_config;
  rn_metrics : list Telemetry.prim;
  rn_publisher : Kafka.Publisher;
  rn_relay : RelayConfig.Config;
  rn_admin : option Http.HTTPConfig;
}.

Section runCmd.
(** The environment, [strconv.Quote], the generated instance identifier, the
    file system and the Kafka client's constructor. *)
Context (env : gmap string string) (quote : string -> string) (newID : string).
Context (fs : filesystem) (pem_ok : list N -> bool) (key_pair_ok : list N -> list N -> bool).
Context (NewClient : list Kafka.kgo_opt -> option string).
(** [pgxpool]: whether the URL parses, a pool can be made and answers. *)
Context (ParseConfig : string -> bool) (NewWithConfig : pool_config -> bool) (pool_ping : bool).
(** What [postgres.SchemaVersion] reads, and the metrics registry. *)
Context (version : res Z).
Context {R : Type} (Register : Telemetry.collector -> R -> R * bool).
Context (Unregister : Telemetry.collector -> R -> R) (reg : R).

Definition newPool (cfg : ConfigLoad.Config) : start pool_config :=
  let p := MkPoolConfig (DatabaseURL cfg) (DBMaxConns cfg) (DBMinConns cfg) (DBMaxConnLifetime cfg) in
  if negb (ParseConfig (DatabaseURL cfg)) then lift (Err "database url"%string)
  else if negb (NewWithConfig p) then lift (Err "connect postgres"%string)
  else let$ _ := emit [Opened Pool] in
       if pool_ping then ret p
       else let$ _ := emit [Closed Pool] in lift (Err "ping postgres"%string).

Definition requireCurrentSchema : result string unit :=
  match version with
  | Err _ => Err "read emitlane schema version"%string
  | Ok v => if v =? currentSchemaVersion then Ok tt
            else Err "emitlane schema version is incompatible with binary version"%string
  end.

(** [kafka.Config] as [runCmd] fills it in. *)
Definition kafka_config (cfg : ConfigLoad.Config) : Kafka.Config :=
  {| Kafka.Brokers := KafkaBrokers cfg; Kafka.cfg_ClientID := KafkaClientID cfg;
     Kafka.PublishTimeout := RelayConfig.PublishTimeout (Relay_ cfg);
     Kafka.AutoCreateTopics := AutoCreateTopics cfg; Kafka.Security := KafkaSecurity_ cfg |}.

Definition admin_config (cfg : ConfigLoad.Config) : Http.HTTPConfig :=
  Http.MkHTTPConfig (Addr (Admin cfg)) (Token (Admin cfg)) (ExposePayload (Admin cfg)).

(** The administrative server of an enabled configuration. *)
Definition new_admin (cfg : ConfigLoad.Config) : result string (option Http.HTTPConfig) :=
  if negb (Enabled (Admin cfg)) then Ok None
  else if negb (Service.NewService_ok (RelayConfig.PresenceStaleAfter (Relay_ cfg)))
  then Err "admin: stale threshold must be > 0"%string
  else if negb (Http.NewHTTPServer_ok (admin_config cfg)) then Err "admin: address is required"%string
  else Ok (Some (admin_config cfg)).

(** [runCmd] up to the [errgroup]. *)
Definition start_up (args : list string) : start running :=
  if negb (length args =? 0)%nat then lift (Err "usage: emitlane run"%string) else
  let$ cfg := lift (Load env quote newID) in
  let$ _ := emit [Opened Signals; Deferred Signals] in
  let$ pool := newPool cfg in
  let$ _ := emit [Deferred Pool] in
  let$ _ := lift requireCurrentSchema in
  let$ metrics := lift (match (Telemetry.NewMetrics Register Unregister reg).2 with
                        | Some m => Ok m | None => Err "metrics"%string end) in
  let$ pub := lift (Kafka.NewPublisher fs pem_ok key_pair_ok NewClient (kafka_config cfg)) in
  let$ _ := emit [Opened KafkaClient; Deferred KafkaClient] in
  let$ relay := lift (match New_config newID (Relay_ cfg) with
                      | Ok c => Ok c | Err e => Err (error_text e) end) in
  let$ admin := lift (new_admin cfg) in
  ret (MkRunning (newLogger (LogLevel cfg)) pool metrics pub relay admin).
End runCmd.

(** ** The probes *)

Definition healthz : Z * string := (200, "ok"%string).

(** [GET /readyz]; [kafka] is what [Publisher.Ping] reports. *)
Definition readyz (pool_ping : bool) (version : res Z) (kafka : option string) : Z * string :=
  if negb pool_ping then (503, "postgres unavailable"%string) else
  match requireCurrentSchema version with
  | Err _ => (503, "emitlane schema unavailable"%string)
  | Ok _ => match kafka with
            | Some _ => (503, "kafka unavailable"%string)
            | None => (200, "ok"%string)
            end
  end.

(** ** The group of goroutines *)

(** The two goroutines of a server: [ListenAndServe] and the one that waits for
    the group's context and calls [Shutdown]. *)
Inductive stop_state : Type := Waiting | Stopping | Stopped.
#[global] Instance stop_state_eq_dec : EqDecision stop_state.
Proof. solve_decision. Defined.
Record server : Type := MkServer { sv_serving : bool; sv_stop : stop_state }.

Record group : Type := MkGroup {
  g_probes : server;
  g_admin : option server;
  g_relaying : bool;               (* in rly.Run *)
  g_signalled : bool;              (* SIGINT or SIGTERM arrived *)
  g_err : option string;           (* the first error; it cancels the group's context *)
}.

Inductive server_action : Type :=
| v_serve (e : option string)      (* ListenAndServe returned; [None] is ErrServerClosed *)
| v_shutdown                       (* Shutdown is called *)
| v_shut (e : option string).      (* Shutdown returned *)

Inductive group_action : Type :=
| x_signal
| x_probes (a : server_action)
| x_admin (a : server_action)
| x_relay (e : option string).     (* rly.Run returned *)

(** [gctx.Done()] *)
Definition cancelled (g : group) : bool := g_signalled g || not_null (g_err g).

(** The server's next state and what the goroutine that ended returns. *)
Definition server_act (a : server_action) (cancelled : bool) (v : server) : option (server * option string) :=
  match a with
  | v_serve e =>
      (* ErrServerClosed only after Shutdown was called *)
      if sv_serving v && (not_null e || negb (bool_decide (sv_stop v = Waiting)))
      then Some (MkServer false (sv_stop v), e) else None
  | v_shutdown =>
      if cancelled && bool_decide (sv_stop v = Waiting) then Some (MkServer (sv_serving v) Stopping, None)
      else None
  | v_shut e =>
      if bool_decide (sv_stop v = Stopping) then Some (MkServer (sv_serving v) Stopped, e) else None
  end.

(** [errgroup]: the first error is kept. *)
Definition first_error (old e : option string) : option string :=
  match old with Some _ => old | None => e end.

Definition group_act (a : group_action) (g : group) : option group :=
  match a with
  | x_signal => if g_signalled g then None
                else Some (MkGroup (g_probes g) (g_admin g) (g_relaying g) true (g_err g))
  | x_probes a =>
      r ← server_act a (cancelled g) (g_probes g);
      Some (MkGroup r.1 (g_admin g) (g_relaying g) (g_signalled g) (first_error (g_err g) r.2))
  | x_admin a =>
      v ← g_admin g; r ← server_act a (cancelled g) v;
      Some (MkGroup (g_probes g) (Some r.1) (g_relaying g) (g_signalled g) (first_error (g_err g) r.2))
  | x_relay e =>
      (* it returns when its context is done, or with an error *)
      if g_relaying g && (cancelled g || not_null e)
      then Some (MkGroup (g_probes g) (g_admin g) false (g_signalled g) (first_error (g_err g) e))
      else None
  end.

Definition group_step (g g' : group) : Prop := exists a, group_act a g = Some g'.

Definition new_server : server := MkServer true Waiting.
Definition group_init (admin : bool) : group :=
  MkGroup new_server (if admin then Some new_server else None) true false None.

Definition server_done (v : server) : bool := negb (sv_serving v) && bool_decide (sv_stop v = Stopped).
(** [g.Wait] returns [g_err]. *)
Definition group_done (g : group) : bool :=
  server_done (g_probes g) && from_option server_done true (g_admin g) && negb (g_relaying g).

(** *** Lemmas *)

Definition server_work (v : server) : nat :=
  ((if sv_serving v then 1 else 0) + match sv_stop v with Waiting => 2 | Stopping => 1 | Stopped => 0 end)%nat.
Definition group_work (g : group) : nat :=
  (server_work (g_probes g) + from_option server_work 0 (g_admin g) + (if g_relaying g then 1 else 0)
  + (if g_signalled g then 0 else 1))%nat.

Lemma server_act_work a c v v' e :
  server_act a c v = Some (v', e) -> (server_work v' < server_work v)%nat.
Proof.
  unfold server_act, server_work. intros H. destruct a; destruct_match H; [|done|..|done| |done];
    simplify_eq; bool_to_prop; cbn [sv_serving sv_stop]; destruct (sv_serving v), (sv_stop v); try done; lia.
Qed.

Lemma group_act_work a g g' : group_act a g = Some g' -> (group_work g' < group_work g)%nat.
Proof.
  unfold group_act, group_work. intros H. destruct a as [|a|a|e].
  - destruct_match H; simplify_eq. cbn. lia.
  - destruct (server_act a _ _) as [[v e]|] eqn:E; simplify_eq/=. apply server_act_work in E. lia.
  - destruct (g_admin g) as [v|]; simplify_eq/=.
    destruct (server_act a _ _) as [[v' e]|] eqn:E; simplify_eq/=. apply server_act_work in E. lia.
  - destruct_match H; simplify_eq. bool_to_prop. cbn. destruct (g_relaying g); [lia|done].
Qed.

Lemma server_progress v :
  server_done v = false -> exists a r, server_act a true v = Some r.
Proof.
  unfold server_done. intros H. destruct v as [[] []]; cbn in *; try done.
  - by exists v_shutdown; eexists.
  - by exists (v_shut None); eexists.
  - by exists (v_serve None); eexists.
  - by exists v_shutdown; eexists.
  - by exists (v_shut None); eexists.
Qed.

Lemma group_progress g : cancelled g = true -> group_done g = false -> exists g', group_step g g'.
Proof.
  intros Hc Hd. unfold group_step.
  assert ((exists a g', group_act a g = Some g') -> exists g' a, group_act a g = Some g') as Hswap
    by naive_solver. apply Hswap. clear Hswap.
  unfold group_done in Hd. apply andb_false_iff in Hd as [[Hd|Hd]%andb_false_iff|Hd].
  - destruct (server_progress _ Hd) as (a & r & Ha). exists (x_probes a). cbn. rewrite Hc, Ha. by eexists.
  - destruct (g_admin g) as [v|] eqn:E; [|done]. destruct (server_progress _ Hd) as (a & r & Ha).
    exists (x_admin a). cbn. rewrite E. cbn. rewrite Hc, Ha. by eexists.
  - exists (x_relay None). cbn. apply negb_false_iff in Hd. rewrite Hd, Hc. by eexists.
Qed.

(** Nothing shuts down before the group's context is done. *)
Definition server_inv (c : bool) (v : server) : Prop :=
  (sv_stop v <> Waiting -> c = true) /\ (sv_serving v = false -> c = true).
Definition group_inv (g : group) : Prop :=
  server_inv (cancelled g) (g_probes g) /\
  (forall v, g_admin g = Some v -> server_inv (cancelled g) v) /\
  (g_relaying g = false -> cancelled g = true).

Lemma server_inv_mono c c' v : (c = true -> c' = true) -> server_inv c v -> server_inv c' v.
Proof. intros H [H1 H2]. split; auto. Qed.

Lemma server_act_inv a c v v' e c' :
  server_inv c v -> server_act a c v = Some (v', e) -> (c = true -> c' = true) ->
  (e <> None -> c' = true) -> server_inv c' v'.
Proof.
  intros [H1 H2] H Hc He. unfold server_act in H.
  destruct a; destruct_match H; [|done|..|done| |done]; simplify_eq; bool_to_prop.
  - split; cbn [sv_stop sv_serving]; [auto|]. intros _.
    match goal with H : _ || _ = true |- _ => apply orb_true_iff in H as [Hx|Hx] end;
      [apply He; by destruct e|].
    apply Hc, H1. intros Hs. rewrite bool_decide_true in Hx; done.
  - split; cbn [sv_stop sv_serving]; auto.
  - split; cbn [sv_stop sv_serving]; [|auto]. intros _. apply Hc, H1. congruence.
Qed.

Lemma first_error_cancels g e p ad r sg :
  let g' := MkGroup p ad r sg (first_error (g_err g) e) in
  sg = g_signalled g -> (cancelled g = true -> cancelled g' = true) /\ (e <> None -> cancelled g' = true).
Proof.
  intros g' ->. unfold g', cancelled, first_error. cbn. destruct (g_signalled g), (g_err g), e; done.
Qed.

Lemma group_act_cancelled a g g' : group_act a g = Some g' -> cancelled g = true -> cancelled g' = true.
Proof.
  intros H Hc. unfold group_act in H. destruct a as [|a|a|e].
  - by destruct_match H; simplify_eq.
  - destruct (server_act a _ _) as [[v e]|]; simplify_eq/=.
    exact (proj1 (first_error_cancels g e v (g_admin g) (g_relaying g) _ eq_refl) Hc).
  - destruct (g_admin g) as [v0|]; simplify_eq/=. destruct (server_act a _ _) as [[v e]|]; simplify_eq/=.
    exact (proj1 (first_error_cancels g e (g_probes g) (Some v) (g_relaying g) _ eq_refl) Hc).
  - destruct_match H; simplify_eq. exact (proj1 (first_error_cancels g e (g_probes g) (g_admin g) false _ eq_refl) Hc).
Qed.

Lemma group_cancel_step g g' : group_inv g -> group_step g g' -> group_inv g'.
Proof.
  intros (Hp & Ha & Hr) [a H]. unfold group_act in H. destruct a as [|a|a|e].
  - destruct_match H; simplify_eq. assert (forall v, server_inv (cancelled g) v -> server_inv true v)
      as Hm by (intros v; by apply server_inv_mono). split_and!; cbn; auto.
  - destruct (server_act a _ _) as [[v e]|] eqn:E; simplify_eq/=.
    destruct (first_error_cancels g e v (g_admin g) (g_relaying g) _ eq_refl) as [Hc He].
    split_and!; cbn [g_probes g_admin g_relaying]; [by eapply server_act_inv| |auto].
    intros v0 Hv0. eapply server_inv_mono; [exact Hc|auto].
  - destruct (g_admin g) as [v0|] eqn:Ev; simplify_eq/=.
    destruct (server_act a _ _) as [[v e]|] eqn:E; simplify_eq/=.
    destruct (first_error_cancels g e (g_probes g) (Some v) (g_relaying g) _ eq_refl) as [Hc He].
    split_and!; cbn [g_probes g_admin g_relaying]; [by eapply server_inv_mono| |auto].
    intros v1 [= <-]. eapply server_act_inv; [by apply Ha|exact E|done|done].
  - destruct_match H; simplify_eq. bool_to_prop.
    destruct (first_error_cancels g e (g_probes g) (g_admin g) false _ eq_refl) as [Hc He].
    split_and!; cbn [g_probes g_admin g_relaying]; [by eapply server_inv_mono| |].
    + intros v0 Hv0. eapply server_inv_mono; [exact Hc|auto].
    + intros _. match goal with H : _ || _ = true |- _ => apply orb_true_iff in H as [Hx|Hx] end;
        [by apply Hc|]. apply He. by destruct e.
Qed.

Lemma group_cancel_reachable admin g : rtc group_step (group_init admin) g -> group_inv g.
Proof.
  apply rtc_ind_r; [|eauto using group_cancel_step]. unfold group_init. split_and!; cbn; try done.
  by intros v; destruct admin; intros [= <-].
Qed.

(** *** Bracketing *)

(** The resources open after a trace, most recent first; [None] when something is
    closed that is not the most recent one. *)
Fixpoint open_after (l : list effect) (stack : list resource) : option (list resource) :=
  match l with
  | [] => Some stack
  | Opened r :: l => open_after l (r :: stack)
  | Deferred _ :: l => open_after l stack
  | Closed r :: l =>
      match stack with
      | r' :: stack => if decide (r = r') then open_after l stack else None
      | [] => None
      end
  end.

Lemma open_after_app l1 l2 st :
  open_after (l1 ++ l2) st = open_after l1 st ≫= open_after l2.
Proof.
  revert st. induction l1 as [|[r|r|r] l1 IH]; intros st; cbn; auto.
  destruct st as [|r' st]; [done|]. by case_decide.
Qed.

(** *** Configuration errors come first *)

Lemma or_default_id x d : 0 < x -> or_default x d = x.
Proof. intros H. unfold or_default. by destruct (Z.eqb_spec x 0); [lia|]. Qed.

Lemma New_config_validated newID c : RelayConfig.Validate c = Ok tt -> New_config newID c = Ok c.
Proof.
  intros H. unfold New_config.
  assert (0 < IdleBackoffMax c /\ 0 < ControlInterval c /\ 0 < HeartbeatInterval c /\
    0 < PresenceStaleAfter c /\ 0 < OrderingRebalanceInterval c /\ 0 < OrderingLeaseDuration c /\
    0 < OrderingSafetyMargin c /\ InstanceID c <> ""%string) as (H1 & H2 & H3 & H4 & H5 & H6 & H7 & H8).
  { unfold RelayConfig.Validate, config_err in H. repeat (destruct_match H; [done|]). bool_to_prop.
    split_and!; try lia. intros He. by rewrite He in *. }
  rewrite !or_default_id by done. rewrite bool_decide_false by done.
  destruct c. cbn in *. by rewrite H.
Qed.

(** Trimming removes no colon. *)
Lemma space_len_colon l : colon ∉ take (space_len l) l.
Proof.
  unfold space_len, colon. repeat case_match; cbn [take]; intros Hin; rewrite ?elem_of_cons, ?elem_of_nil in Hin;
    repeat match goal with H : _ \/ _ |- _ => destruct H as [H|H] end; subst;
    cbn in *; rewrite ?andb_false_r in *; cbn in *; done.
Qed.

Lemma trim_with_keeps f b fuel l :
  (forall l, b ∉ take (f l) l) -> b ∈ l -> b ∈ trim_with f fuel l.
Proof.
  intros Hf. revert l. induction fuel as [|fuel IH]; intros l Hl; cbn; [done|].
  destruct (f l) as [|n] eqn:E; [done|]. apply IH.
  rewrite <- (take_drop (S n) l) in Hl. apply elem_of_app in Hl as [Hl|Hl]; [|done].
  destruct (Hf l). by rewrite E.
Qed.

Lemma space_len_rev_colon l : colon ∉ take (space_len_rev l) l.
Proof.
  assert (forall n, space_len (reverse (take n l)) = n -> colon ∉ take n l) as Hn.
  { intros n Hn Hin. apply (space_len_colon (reverse (take n l))). rewrite Hn, take_ge.
    - by rewrite elem_of_reverse.
    - rewrite length_reverse, length_take. lia. }
  unfold space_len_rev. case_match eqn:H1; [|case_match eqn:H2; [|case_match eqn:H3]].
  - destruct l as [|b l]; [apply not_elem_of_nil|]. apply (Hn 1%nat).
    change (reverse (take 1 (b :: l))) with [b]. change (take 1 (b :: l)) with [b] in H1.
    unfold space_len in *. destruct (between 9 13 b || (b =? 32)%N); [done|discriminate H1].
  - apply Hn. by apply Nat.eqb_eq.
  - apply Hn. by apply Nat.eqb_eq.
  - cbn. apply not_elem_of_nil.
Qed.

Lemma colon_not_blank s : colon ∈ bytes s -> is_blank s = false.
Proof.
  intros H. apply bool_decide_eq_false. intros He.
  assert (colon ∈ bytes (TrimSpace s)) as Hin; [|rewrite He in Hin; by apply elem_of_nil in Hin].
  rewrite bytes_TrimSpace. unfold trim_right, trim_left. rewrite elem_of_reverse.
  apply trim_with_keeps; [apply space_len_rev_colon|]. rewrite elem_of_reverse.
  by apply trim_with_keeps; [apply space_len_colon|].
Qed.

Lemma SplitHostPort_colon s r : SplitHostPort s = Some r -> colon ∈ bytes s.
Proof.
  unfold SplitHostPort, last_index_byte. destruct (index_byte colon (reverse (bytes s))) as [i|] eqn:E; [|done].
  intros _. apply elem_of_reverse. revert i E. generalize (reverse (bytes s)).
  induction l as [|b l IH]; intros i E; cbn in E; [done|]. destruct (N.eqb_spec b colon) as [->|]; [left|].
  right. destruct (index_byte colon l) eqn:E'; [by eapply IH|done].
Qed.

Lemma new_admin_accepted c :
  ConfigLoad.accepted c ->
  new_admin c = Ok (if Enabled (Admin c) then Some (admin_config c) else None).
Proof.
  intros [_ _ _ _ _ _ _ Hr Ha]. unfold new_admin. destruct (Enabled (Admin c)) eqn:E; [|done]. cbn [negb].
  pose proof (vc_presence _ (Validate_ok _ Hr)) as Hp. unfold Service.NewService_ok.
  rewrite (proj2 (Z.ltb_lt _ _)) by lia. cbn [negb]. unfold Http.NewHTTPServer_ok. cbn [admin_config Http.hc_Addr].
  destruct (ValidateAdmin_guarded _ Ha E) as ((host & port & Hs & _) & _).
  by rewrite colon_not_blank by (by eapply SplitHostPort_colon).
Qed.

Lemma kafka_config_accepted c :
  ConfigLoad.accepted c -> Forall (fun b => b <> ""%string /\ TrimSpace b = b) (KafkaBrokers c) ->
  Kafka.Validate (kafka_config c) = Ok tt.
Proof.
  intros [_ Hb _ _ _ _ Hs Hr _] Hall. unfold Kafka.Validate. cbn [kafka_config Kafka.Brokers Kafka.PublishTimeout Kafka.Security].
  destruct (KafkaBrokers c) as [|b l] eqn:E; [done|]. rewrite <- E in *. clear Hb.
  replace (length (KafkaBrokers c) =? 0)%nat with false by (by rewrite E).
  replace (existsb Kafka.blank (KafkaBrokers c)) with false.
  - pose proof (vc_publish _ (Validate_ok _ Hr)) as Hp.
    by rewrite (proj2 (Z.leb_gt _ _)) by lia.
  - symmetry. apply not_true_iff_false. intros (x & Hx & Hbl)%existsb_exists.
    rewrite Forall_forall in Hall. destruct (Hall x) as [Hne Ht]; [by apply list_elem_of_In|].
    unfold Kafka.blank in Hbl. rewrite Ht in Hbl. by apply bool_decide_eq_true in Hbl.
Qed.

Section outcomes.
Context (env : gmap string string) (quote : string -> string) (newID : string).
Context (fs : filesystem) (pem_ok : list N -> bool) (key_pair_ok : list N -> list N -> bool).
Context (NewClient : list Kafka.kgo_opt -> option string).
Context (ParseConfig : string -> bool) (NewWithConfig : pool_config -> bool) (pool_ping : bool).
Context (version : res Z).
Context {R : Type} (Register : Telemetry.collector -> R -> R * bool).
Context (Unregister : Telemetry.collector -> R -> R) (reg : R).

#[local] Abbreviation started := (start_up env quote newID fs pem_ok key_pair_ok NewClient ParseConfig
  NewWithConfig pool_ping version Register Unregister reg).

(** The two ways [runCmd] returns: with the effects of its whole run and its
    error. *)
Inductive returns (args : list string) : list effect -> option string -> Prop :=
| r_refused l e : started args = (l, Err e) -> returns args (l ++ deferred l) (Some e)
| r_served l r g : started args = (l, Ok r) ->
    rtc group_step (group_init (not_null (rn_admin r))) g -> group_done g = true ->
    returns args (l ++ deferred l) (g_err g).

Lemma start_up_ok args l r :
  started args = (l, Ok r) ->
  args = [] /\ pool_ping = true /\ version = Ok currentSchemaVersion /\
  (exists cfg, Load env quote newID = Ok cfg /\ not_null (rn_admin r) = Enabled (Admin cfg)) /\
  l = [Opened Signals; Deferred Signals; Opened Pool; Deferred Pool; Opened KafkaClient; Deferred KafkaClient].
Proof.
  unfold start_up. destruct (length args =? 0)%nat eqn:Ea; [|done]. cbn [negb].
  apply Nat.eqb_eq, nil_length_inv in Ea as ->.
  unfold bind at 1. destruct (Load env quote newID) as [cfg|] eqn:El; [|done]. cbn [lift fst snd].
  apply Load_accepted in El as Hacc. destruct Hacc as [Hacc _].
  unfold newPool. destruct (ParseConfig _); [|done]. cbn [negb].
  destruct (NewWithConfig _); [|done]. cbn [negb]. destruct pool_ping; [|done].
  unfold requireCurrentSchema. destruct version as [v|]; [|done].
  destruct (Z.eqb_spec v currentSchemaVersion) as [->|]; [|done].
  destruct (Telemetry.NewMetrics _ _ _) as [reg' [m|]]; [|done]. cbn [snd].
  destruct (Kafka.NewPublisher _ _ _ _ _) as [pub|]; [|done].
  rewrite (New_config_validated _ _ (acc_relay _ Hacc)), (new_admin_accepted _ Hacc).
  intros [= <- <-]. split_and!; try done. exists cfg. split; [done|]. cbn [rn_admin].
  by destruct (Enabled (Admin cfg)).
Qed.

Lemma start_up_trace args l r :
  started args = (l, r) -> open_after (l ++ deferred l) [] = Some [].
Proof.
  unfold start_up. destruct (length args =? 0)%nat; [|by intros [= <- <-]]. cbn [negb].
  unfold bind at 1. destruct (Load env quote newID) as [cfg|] eqn:El; [|by intros [= <- <-]].
  apply Load_accepted in El as [Hacc _]. cbn [lift fst snd].
  unfold newPool. destruct (ParseConfig _); [|by intros [= <- <-]]. cbn [negb].
  destruct (NewWithConfig _); [|by intros [= <- <-]]. cbn [negb].
  destruct pool_ping; [|by intros [= <- <-]].
  destruct (requireCurrentSchema version) as [[]|]; [|by intros [= <- <-]].
  destruct (Telemetry.NewMetrics _ _ _) as [reg' [m|]]; [|by intros [= <- <-]]. cbn [snd].
  destruct (Kafka.NewPublisher _ _ _ _ _) as [pub|]; [|by intros [= <- <-]].
  rewrite (New_config_validated _ _ (acc_relay _ Hacc)), (new_admin_accepted _ Hacc). by intros [= <- <-].
Qed.

(** * Properties *)


(** Configuration errors come before effects. With a configuration that [Load]
    accepts, [run] starts exactly when the outside world lets it: the pool can
    be made and answers, the schema is current, the metrics register, the TLS
    files of the Kafka client can be used and the client can be made. *)
Theorem start_exact cfg :
  Load env quote newID = Ok cfg ->
  is_ok (started []).2 =
    ParseConfig (DatabaseURL cfg)
    && NewWithConfig (MkPoolConfig (DatabaseURL cfg) (DBMaxConns cfg) (DBMinConns cfg) (DBMaxConnLifetime cfg))
    && pool_ping && is_ok (requireCurrentSchema version)
    && not_null (Telemetry.NewMetrics Register Unregister reg).2
    && match newClientSecurity fs pem_ok key_pair_ok (KafkaSecurity_ cfg) with
       | Ok security => negb (not_null (NewClient (Kafka.publisher_options (kafka_config cfg) security)))
       | Err _ => false
       end.
Proof.
  intros Hl. destruct (Load_accepted _ _ _ _ Hl) as [Hacc Hb]. unfold start_up. cbn [length Nat.eqb negb].
  rewrite Hl. unfold bind at 1. cbn [lift fst snd].
  unfold newPool. destruct (ParseConfig _); [|done]. cbn [negb andb].
  destruct (NewWithConfig _); [|done]. cbn [negb andb]. destruct pool_ping; [|done]. cbn [andb].
  destruct (requireCurrentSchema version) as [[]|]; [|done]. cbn [is_ok andb].
  destruct (Telemetry.NewMetrics _ _ _) as [reg' [m|]]; [|done]. cbn [snd not_null andb].
  unfold Kafka.NewPublisher. rewrite (kafka_config_accepted _ Hacc Hb). cbn [result_bind].
  change (Kafka.Security (kafka_config cfg)) with (KafkaSecurity_ cfg).
  destruct (newClientSecurity fs pem_ok key_pair_ok (KafkaSecurity_ cfg)) as [sec|]; [|done].
  cbn [result_bind]. destruct (NewClient _); [done|].
  by rewrite (New_config_validated _ _ (acc_relay _ Hacc)), (new_admin_accepted _ Hacc).
Qed.
End outcomes.

(** Once a signal arrived, a server failed or the relay returned an error, the
    group makes at most eight more steps, whatever its members return, and it
    cannot get stuck before all of them have ended. *)
Theorem group_stops g :
  cancelled g = true ->
  (forall n g', nsteps group_step n g g' -> (n <= 8)%nat) /\
  (forall g', rtc group_step g g' -> (forall g2, ~ group_step g' g2) -> group_done g' = true).
Proof.
  intros Hc. split.
  - assert (forall n g g', nsteps group_step n g g' -> (n + group_work g' <= group_work g)%nat) as Hn.
    { intros n x y H. induction H as [|n x y z [a Ha] _ IH]; [lia|]. apply group_act_work in Ha. lia. }
    intros n g' H%Hn. assert (group_work g <= 8)%nat; [|lia]. unfold group_work, server_work.
    destruct (g_admin g) as [[[] []]|], (g_probes g) as [[] []], (g_relaying g), (g_signalled g); cbn; lia.
  - intros g' Hr Hstuck. destruct (group_done g') eqn:Hd; [done|].
    assert (cancelled g' = true) as Hc'.
    { clear Hstuck Hd. revert g' Hr. apply rtc_ind_r; [done|]. intros x y _ [a Ha] Hx.
      by eapply group_act_cancelled. }
    destruct (group_progress g' Hc' Hd) as [g2 H2]. by destruct (Hstuck g2).
Qed.

(** [/readyz] answers 200 exactly when the database answers, its schema is this
    binary's, and Kafka answers. *)
Theorem readyz_exact ping version kafka :
  (readyz ping version kafka).1 = 200 <-> ping = true /\ version = Ok currentSchemaVersion /\ kafka = None.
Proof.
  unfold readyz, requireCurrentSchema. destruct ping, version as [v|], kafka; cbn; try naive_solver;
    destruct (Z.eqb_spec v currentSchemaVersion) as [->|]; cbn; naive_solver.
Qed.

(** ** Examples *)

Definition quiet_env : gmap string string :=
  <["EMITLANE_ADMIN_ENABLED"%string := "true"%string]> minimal_env.
#[local] Abbreviation example_start ping version := (start_up quiet_env (fun s => s) "host-1" demo_fs
  (fun _ => true) (fun _ _ => true) (fun _ => None) (fun _ => true) (fun _ => true) ping version
  (fun _ r => (r, true)) (fun _ r => r) tt).
#[local] Abbreviation example_returns ping version := (returns quiet_env (fun s => s) "host-1" demo_fs
  (fun _ => true) (fun _ _ => true) (fun _ => None) (fun _ => true) (fun _ => true) ping version
  (fun _ r => (r, true)) (fun _ r => r) tt).

Fixpoint group_acts (l : list group_action) (g : group) : option group :=
  match l with [] => Some g | a :: l => g' ← group_act a g; group_acts l g' end.

Lemma group_acts_reach l g g' : group_acts l g = Some g' -> rtc group_step g g'.
Proof.
  revert g. induction l as [|a l IH]; intros g H; cbn [group_acts] in H; [by simplify_eq|].
  destruct (group_act a g) as [g1|] eqn:E; [|done]. eapply rtc_l; [by exists a|by apply IH].
Qed.

(** A signal, both servers shut down, the relay returns. *)
Definition orderly : list group_action :=
  [x_signal; x_probes v_shutdown; x_admin v_shutdown; x_probes (v_serve None); x_relay None;
   x_admin (v_shut None); x_admin (v_serve None); x_probes (v_shut None)].


(** An old schema: the pool is closed again and nothing else was opened. *)
Lemma start_exact_witness :
  is_ok (example_start true (Ok 3) []).2 = false /\
  (example_start true (Ok 3) []).1 = [Opened Signals; Deferred Signals; Opened Pool; Deferred Pool].
Proof.
  split; [|vm_compute; reflexivity].
  destruct (Load quiet_env (fun s => s) "host-1") as [cfg|] eqn:E; [|vm_compute in E; discriminate].
  rewrite (start_exact quiet_env (fun s => s) "host-1" _ _ _ _ _ _ _ _ _ _ _ cfg E).
  vm_compute in E. injection E as <-. vm_compute. reflexivity.
Defined.

(** The probe server cannot listen: the relay and the admin server are stopped. *)
Lemma group_stops_witness :
  let g := default (group_init true) (group_acts [x_probes (v_serve (Some "address in use"%string))] (group_init true)) in
  cancelled g = true /\ (forall n g', nsteps group_step n g g' -> (n <= 8)%nat).
Proof.
  intros g. assert (cancelled g = true) as Hc by (vm_compute; reflexivity). split; [exact Hc|].
  exact (proj1 (group_stops g Hc)).
Defined.
End Daemon.
