(* ===== verification/Doctor.v ===== *)
(** * The doctor ([cmd/emitlane/doctor.go])

    Every check of [doctorCmd] as a function of the environment, the database,
    the privileges of its role and the answers of the servers, with the probes
    and privilege queries of [storage/postgres/migrate.go], and what a passed
    doctor says about [emitlane run]. *)
From Stdlib Require Import ZArith String.
From stdpp Require Import base gmap strings list fin_maps sets.
From S2P Require Import Prelude GoStrings GoParse GoNet Schema Invariant RelayConfig KafkaSecurity AdminTypes.
From S2P Require Import AdminService Http Migrate Kafka ConfigLoad Telemetry Daemon.

Module Doctor.
Import Migrate ConfigLoad.

Open Scope Z_scope.
Open Scope emitlane_scope.

(** ** Privileges *)

(** [has_table_privilege] raises an error for a table that does not exist and
    for a role that may not use the schema it looks in. *)
Definition has_table_privilege (s : schema) (r : role) (table privilege : string) : res bool :=
  fail_if negb (ro_usage r) with ErrOther "permission denied";
  fail_if negb (table_exists s table) with ErrOther "relation does not exist";
  Ok (holds r table privilege).
Definition has_schema_privilege (s : schema) (r : role) : res bool :=
  fail_if negb (sc_namespace s) with ErrOther "schema does not exist";
  Ok (ro_usage r).

Record RelayPrivileges : Type := MkRelayPrivileges {
  SchemaUsage : bool; Select : bool; Update : bool; Delete : bool;
}.
Record OperabilityPrivileges : Type := MkOperabilityPrivileges {
  ControlSelect : bool; ControlUpdate : bool;
  PresenceSelect : bool; PresenceInsert : bool; PresenceUpdate : bool;
  OutboxInsert : bool; AuditSelect : bool; AuditInsert : bool;
}.
Record OrderingPrivileges : Type := MkOrderingPrivileges {
  StreamsSelect : bool; StreamsInsert : bool; StreamsUpdate : bool;
  PartitionsSelect : bool; PartitionsUpdate : bool;
}.

Definition CheckRelayPrivileges (s : schema) (r : role) : res RelayPrivileges :=
  let! usage := has_schema_privilege s r in
  let! select := has_table_privilege s r "outbox_events" "SELECT" in
  let! update := has_table_privilege s r "outbox_events" "UPDATE" in
  let! delete := has_table_privilege s r "outbox_events" "DELETE" in
  Ok (MkRelayPrivileges usage select update delete).

Definition CheckOperabilityPrivileges (s : schema) (r : role) : res OperabilityPrivileges :=
  let! cs := has_table_privilege s r "runtime_control" "SELECT" in
  let! cu := has_table_privilege s r "runtime_control" "UPDATE" in
  let! ps := has_table_privilege s r "relay_instances" "SELECT" in
  let! pi := has_table_privilege s r "relay_instances" "INSERT" in
  let! pu := has_table_privilege s r "relay_instances" "UPDATE" in
  let! oi := has_table_privilege s r "outbox_events" "INSERT" in
  let! asl := has_table_privilege s r "admin_audit_log" "SELECT" in
  let! ai := has_table_privilege s r "admin_audit_log" "INSERT" in
  Ok (MkOperabilityPrivileges cs cu ps pi pu oi asl ai).

Definition CheckOrderingPrivileges (s : schema) (r : role) : res OrderingPrivileges :=
  let! ss := has_table_privilege s r "ordering_streams" "SELECT" in
  let! si := has_table_privilege s r "ordering_streams" "INSERT" in
  let! su := has_table_privilege s r "ordering_streams" "UPDATE" in
  let! ps := has_table_privilege s r "ordering_partitions" "SELECT" in
  let! pu := has_table_privilege s r "ordering_partitions" "UPDATE" in
  Ok (MkOrderingPrivileges ss si su ps pu).

(** [if !ok { missing = append(missing, text) }] *)
Definition unless (ok : bool) (text : string) : list string := if ok then [] else [text].

Definition relay_missing (p : RelayPrivileges) : list string :=
  unless (SchemaUsage p) "USAGE on schema emitlane"
  ++ unless (Select p) "SELECT on emitlane.outbox_events"
  ++ unless (Update p) "UPDATE on emitlane.outbox_events".

Definition operability_missing (adminEnabled : bool) (p : OperabilityPrivileges) : list string :=
  unless (ControlSelect p) "SELECT runtime_control"
  ++ unless (PresenceSelect p && PresenceInsert p && PresenceUpdate p) "SELECT/INSERT/UPDATE relay_instances"
  ++ (if adminEnabled then
        unless (ControlUpdate p) "UPDATE runtime_control"
        ++ unless (OutboxInsert p) "INSERT outbox_events"
        ++ unless (AuditSelect p && AuditInsert p) "SELECT/INSERT admin_audit_log"
      else []).

Definition ordering_missing (p : OrderingPrivileges) : list string :=
  unless (StreamsSelect p && StreamsInsert p && StreamsUpdate p) "SELECT/INSERT/UPDATE ordering_streams"
  ++ unless (PartitionsSelect p && PartitionsUpdate p) "SELECT/UPDATE ordering_partitions".

(** A privilege check fails on an error of its query and on anything missing. *)
Definition privilege_check {A} (name : string) (p : res A) (missing : A -> list string) : list string :=
  match p with
  | Err _ => [name]
  | Ok p => if bool_decide (missing p = []) then [] else [name]
  end.

Definition doctor_privileges (adminEnabled : bool) (s : schema) (r : role) : list string :=
  privilege_check "relay database permissions" (CheckRelayPrivileges s r) relay_missing
  ++ privilege_check "v0.2 runtime database permissions" (CheckOperabilityPrivileges s r)
       (operability_missing adminEnabled)
  ++ privilege_check "v0.3 ordering database permissions" (CheckOrderingPrivileges s r) ordering_missing.

(** ** Notifications *)

(** One dedicated connection: whether it opens, whether [LISTEN] and [NOTIFY]
    succeed, and what it waits for; [None] is an error or the timeout. *)
Record session : Type := MkSession {
  se_connect : bool;
  se_listen : bool;
  se_notify : bool;
  se_wait : option string;
}.

(** [PingListenNotify] and [PingControlNotify]: the channel and the word their
    errors add. *)
Definition ping_notify (channel word : string) (c : session) : result string unit :=
  fail_if negb (se_connect c) with "connect"%string;
  fail_if negb (se_listen c) with "LISTEN" +:+ word;
  fail_if negb (se_notify c) with "NOTIFY" +:+ word;
  match se_wait c with
  | None => Err ("wait for" +:+ word +:+ " notification")
  | Some n => if String.eqb n channel then Ok tt else Err ("unexpected" +:+ word +:+ " notification")
  end.
Definition PingListenNotify : session -> result string unit := ping_notify "emitlane_events" "".
Definition PingControlNotify : session -> result string unit := ping_notify "emitlane_control" " control".

(** ** [doctorCmd] *)

(** [check(name, err, detail)] *)
Definition check_ok (name : string) (ok : bool) : list string := unless ok name.

(** The names of all checks on the database, for a pool whose queries fail. *)
Definition database_checks : list string :=
  ["EmitLane schema"%string]
  ++ RequiredIndexes ++ ((fun t => "table " +:+ t) <$> RequiredTables)
  ++ ((fun c => "outbox_events." +:+ c) <$> doctor_columns)
  ++ ((fun tc => tc.1 +:+ "." +:+ tc.2) <$> RequiredConstraints)
  ++ ["ordering partition seed"; "runtime control singleton"; "relay database permissions";
      "v0.2 runtime database permissions"; "v0.3 ordering database permissions"]%string.

Section doctor.
Context (env : gmap string string) (quote : string -> string) (newID : string).
Context (fs : filesystem) (pem_ok : list N -> bool) (key_pair_ok : list N -> list N -> bool).
Context (NewClient : list Kafka.kgo_opt -> option string) (ErrorForCode : Z -> option kafka_error).
(** Whether [pgxpool.New] makes a pool and whether its queries reach the server. *)
Context (pool_ok reach : bool) (s : schema) (r : role) (events control : session).
Context (kafka_ping : option kafka_error).

Definition doctor_kafka (cfg : ConfigLoad.Config) : Kafka.Config :=
  {| Kafka.Brokers := KafkaBrokers cfg; Kafka.cfg_ClientID := "emitlane-doctor";
     Kafka.PublishTimeout := 5 * Second; Kafka.AutoCreateTopics := false;
     Kafka.Security := KafkaSecurity_ cfg |}.

Definition kafka_check (cfg : result string ConfigLoad.Config) : bool :=
  match cfg with
  | Err _ => false
  | Ok cfg =>
      match Kafka.NewPublisher fs pem_ok key_pair_ok NewClient (doctor_kafka cfg) with
      | Err _ => false
      | Ok pub => negb (not_null (Kafka.Ping ErrorForCode (Some pub) kafka_ping))
      end
  end.

(** The checks that need a pool. The zero configuration has no admin API. *)
Definition pool_checks (cfg : result string ConfigLoad.Config) : list string :=
  let adminEnabled := match cfg with Ok c => Enabled (Admin c) | Err _ => false end in
  (if reach then doctor_schema r s ++ doctor_privileges adminEnabled s r else database_checks)
  ++ check_ok "LISTEN/NOTIFY" (is_ok (PingListenNotify events))
  ++ check_ok "control LISTEN/NOTIFY" (is_ok (PingControlNotify control)).

(** The names of the failed checks, in the order they are printed. *)
Definition doctor_failed : list string :=
  let cfg := Load env quote newID in
  let pool := negb (is_empty (TrimSpace (Getenv env "EMITLANE_DATABASE_URL"))) && pool_ok in
  check_ok "configuration" (is_ok cfg)
  ++ check_ok "PostgreSQL connection" (pool && reach)
  ++ (if pool then pool_checks cfg else [])
  ++ check_ok "Kafka broker connectivity" (kafka_check cfg).

Definition doctorCmd (args : list string) : result string unit :=
  fail_if negb (length args =? 0)%nat with "usage: emitlane doctor"%string;
  fail_if negb (length doctor_failed =? 0)%nat with Itoa (Z.of_nat (length doctor_failed)) +:+ " critical check(s) failed";
  Ok tt.

(** * Lemmas *)

Lemma unless_nil ok text : unless ok text = [] <-> ok = true.
Proof. by destruct ok. Qed.

Lemma Load_database cfg :
  Load env quote newID = Ok cfg -> is_empty (TrimSpace (Getenv env "EMITLANE_DATABASE_URL")) = false.
Proof.
  intros H. pose proof (acc_database _ (proj1 (Load_accepted _ _ _ _ H))) as Hd.
  unfold Load in H. run_binds H. injection H as <-. by apply bool_decide_eq_false.
Qed.

Lemma doctor_failed_nil :
  doctor_failed = [] <-> exists cfg, Load env quote newID = Ok cfg /\ pool_ok = true /\ reach = true /\
    doctor_schema r s = [] /\ doctor_privileges (Enabled (Admin cfg)) s r = [] /\
    is_ok (PingListenNotify events) = true /\ is_ok (PingControlNotify control) = true /\
    kafka_check (Ok cfg) = true.
Proof.
  unfold doctor_failed, check_ok. rewrite !app_nil, !unless_nil.
  destruct (Load env quote newID) as [cfg|e] eqn:El; [|naive_solver].
  rewrite (Load_database _ El). cbn [is_ok negb andb]. rewrite andb_true_iff.
  unfold pool_checks, check_ok. destruct pool_ok, reach; rewrite ?app_nil, ?unless_nil; try naive_solver.
Qed.
End doctor.

(** The privileges the doctor asks for. *)
Definition required (adminEnabled : bool) : list (string * string) :=
  [("outbox_events", "SELECT"); ("outbox_events", "UPDATE"); ("runtime_control", "SELECT");
   ("relay_instances", "SELECT"); ("relay_instances", "INSERT"); ("relay_instances", "UPDATE");
   ("ordering_streams", "SELECT"); ("ordering_streams", "INSERT"); ("ordering_streams", "UPDATE");
   ("ordering_partitions", "SELECT"); ("ordering_partitions", "UPDATE")]%string
  ++ (if adminEnabled then [("runtime_control", "UPDATE"); ("outbox_events", "INSERT");
                            ("admin_audit_log", "SELECT"); ("admin_audit_log", "INSERT")]%string else []).

Lemma privilege_check_nil {A} name (p : res A) missing :
  privilege_check name p missing = [] <-> exists a, p = Ok a /\ missing a = [].
Proof.
  unfold privilege_check. destruct p as [a|e]; [|naive_solver]. case_bool_decide; naive_solver.
Qed.

Lemma failing_nil {A} (ok : A -> bool) l : failing ok l = [] <-> Forall (fun x => ok x = true) l.
Proof.
  unfold failing. rewrite Forall_forall. split.
  - intros H x Hx. destruct (ok x) eqn:E; [done|]. exfalso.
    eapply not_elem_of_nil. rewrite <- H. by apply list_elem_of_filter.
  - intros H. destruct (filter _ l) as [|x l'] eqn:E; [done|]. exfalso.
    assert (x ∈ filter (fun x => ok x = false) l) as [Hf Hx]%list_elem_of_filter by (rewrite E; left).
    rewrite (H x Hx) in Hf. done.
Qed.

Lemma SchemaVersion_read r s v :
  (exists h, sc_history s = Some h /\ validateVersions h = Ok v) ->
  ro_usage r = true -> holds r "schema_migrations" "SELECT" = true -> SchemaVersion r s = Ok v.
Proof.
  intros (h & Hh & Hv) Hu Hs. unfold SchemaVersion, TableExists, readable, holds_any, table_privileges.
  change (table_exists s "schema_migrations") with (not_null (sc_history s)). cbn [existsb].
  by rewrite Hs, Hu, Hh.
Qed.

Lemma Forall_andb {A} (p q : A -> bool) l :
  Forall (fun x => p x && q x = true) l <-> Forall (fun x => p x = true) l /\ Forall (fun x => q x = true) l.
Proof. rewrite <- Forall_and. apply Forall_iff. intros x. apply andb_true_iff. Qed.

(** What the doctor needs of the database, and what it needs to see it. *)
Definition complete (s : schema) : Prop :=
  sc_namespace s = true /\ (exists h, sc_history s = Some h /\ validateVersions h = Ok currentSchemaVersion) /\
  Forall (fun i => IndexExists s i = true) RequiredIndexes /\
  Forall (fun t => table_exists s t = true) RequiredTables /\
  Forall (fun c => bool_decide (("outbox_events"%string, c) ∈ ob_columns (sc_objects s)) = true) doctor_columns /\
  Forall (fun tc => bool_decide (tc ∈ ob_constraints (sc_objects s)) = true) RequiredConstraints /\
  size (db_partitions (sc_db s)) = 64%nat /\ db_control (sc_db s) <> None.

Definition seeing (r : role) : Prop :=
  ro_usage r = true /\ holds r "schema_migrations" "SELECT" = true /\
  Forall (fun t => holds_any r t table_privileges = true) RequiredTables /\
  holds_any r "outbox_events" ["SELECT"; "INSERT"; "UPDATE"; "REFERENCES"]%string = true /\
  Forall (fun tc => holds_any r tc.1 (tail table_privileges) = true) RequiredConstraints /\
  holds r "ordering_partitions" "SELECT" = true /\ holds r "runtime_control" "SELECT" = true.

Lemma validate_none : validateVersions ∅ <> Ok currentSchemaVersion.
Proof. by vm_compute. Qed.

Lemma doctor_version_nil r s :
  doctor_version r s = [] <->
  ro_usage r = true /\ sc_namespace s = true /\ holds r "schema_migrations" "SELECT" = true /\
  exists h, sc_history s = Some h /\ validateVersions h = Ok currentSchemaVersion.
Proof.
  unfold doctor_version, SchemaExists, SchemaVersion, TableExists, readable.
  change (table_exists s "schema_migrations") with (not_null (sc_history s)).
  destruct (ro_usage r), (sc_namespace s); cbn [andb negb]; try naive_solver.
  unfold holds_any, table_privileges. cbn [existsb].
  destruct (holds r "schema_migrations" "SELECT"); cbn [orb andb negb]; [|].
  - destruct (sc_history s) as [h|]; simpl; [|naive_solver].
    assert ((exists h', Some h = Some h' /\ validateVersions h' = Ok currentSchemaVersion) <->
      validateVersions h = Ok currentSchemaVersion) as -> by (split; [by intros (? & [= <-] & ?)|by eauto]).
    destruct (validateVersions h) as [v|]; [|split; [done|by intros (_ & _ & _ & ?)]].
    destruct (Z.eqb_spec v currentSchemaVersion) as [->|Hn]; [done|].
    split; [done|intros (_ & _ & _ & [= ?]); contradiction].
  - split; [|naive_solver]. by destruct (_ && not_null _).
Qed.

Lemma ex_ok {E A} (x : A) (P : A -> Prop) : (exists a, Ok (E := E) x = Ok a /\ P a) <-> P x.
Proof. naive_solver. Qed.

Lemma seed_nil (p : res unit) (n : nat) :
  (match (let! _ := p in Ok (Z.of_nat n)) with
   | Ok n => if n =? 64 then [] else ["ordering partition seed"%string]
   | Err _ => ["ordering partition seed"%string]
   end = []) <-> p = Ok tt /\ n = 64%nat.
Proof.
  destruct p as [[]|]; cbn [result_bind]; [|naive_solver].
  destruct (Z.eqb_spec (Z.of_nat n) 64); split; try done; [intros _; split; [done|lia]|intros [_ ->]; done].
Qed.

Lemma control_nil {A} (p : res unit) (c : option A) :
  (match (let! _ := p in Ok (not_null c)) with Ok true => [] | _ => ["runtime control singleton"%string] end = [])
  <-> p = Ok tt /\ c <> None.
Proof. destruct p as [[]|], c; cbn; naive_solver. Qed.

Lemma readable_table_ok r s t :
  readable_table r s t = Ok tt <-> table_exists s t = true /\ ro_usage r = true /\ holds r t "SELECT" = true.
Proof. unfold readable_table, readable. destruct (table_exists s t), (ro_usage r), (holds r t "SELECT"); cbn; naive_solver. Qed.

Lemma Forall_const {A} (P : Prop) (Q : A -> Prop) x l :
  Forall (fun y => P /\ Q y) (x :: l) <-> P /\ Forall Q (x :: l).
Proof. rewrite Forall_and, !Forall_cons. split; [tauto|]. intros [HP HQ]. split; [split; [done|]|done]. by apply Forall_true. Qed.

Lemma columns_seen r s :
  Forall (fun c => ColumnExists r s "outbox_events" c = true) doctor_columns <->
  holds_any r "outbox_events" ["SELECT"; "INSERT"; "UPDATE"; "REFERENCES"]%string = true /\
  Forall (fun c => bool_decide (("outbox_events"%string, c) ∈ ob_columns (sc_objects s)) = true) doctor_columns.
Proof.
  unfold doctor_columns. rewrite <- Forall_const. apply Forall_iff. intros c. apply andb_true_iff.
Qed.

Lemma fmap_nil_iff {A B} (f : A -> B) l : f <$> l = [] <-> l = [].
Proof. split; [apply fmap_nil_inv|by intros ->]. Qed.

(** The doctor finds a complete schema complete exactly for a role that can see
    all of it. *)
Lemma doctor_schema_nil r s : doctor_schema r s = [] <-> complete s /\ seeing r.
Proof.
  unfold doctor_schema. rewrite !app_nil, !fmap_nil_iff, !failing_nil, doctor_version_nil, columns_seen.
  unfold TableExists, ConstraintExists. rewrite !Forall_andb.
  unfold OrderingPartitionCount, RuntimeControlExists. rewrite seed_nil, control_nil, !readable_table_ok.
  assert (Forall (fun t => table_exists s t = true) RequiredTables ->
    table_exists s "ordering_partitions" = true /\ table_exists s "runtime_control" = true) as Ht.
  { rewrite Forall_forall. intros H. split; apply H; unfold RequiredTables; set_solver. }
  assert (Forall (fun tc : string * string => bool_decide ((tc.1, tc.2) ∈ ob_constraints (sc_objects s)) = true)
      RequiredConstraints <->
    Forall (fun tc => bool_decide (tc ∈ ob_constraints (sc_objects s)) = true) RequiredConstraints) as ->.
  { apply Forall_iff. by intros []. }
  unfold complete, seeing. tauto.
Qed.

Lemma privileges_exact adminEnabled s r :
  sc_namespace s = true -> Forall (fun t => table_exists s t = true) RequiredTables -> ro_usage r = true ->
  doctor_privileges adminEnabled s r = [] <-> Forall (fun g => holds r g.1 g.2 = true) (required adminEnabled).
Proof.
  intros Hs Ht Hu. unfold RequiredTables in Ht. rewrite !Forall_cons in Ht.
  destruct Ht as (T1 & _ & T2 & T3 & T4 & T5 & T6 & _).
  unfold doctor_privileges. rewrite !app_nil, !privilege_check_nil.
  unfold CheckRelayPrivileges, CheckOperabilityPrivileges, CheckOrderingPrivileges.
  unfold has_schema_privilege, has_table_privilege. rewrite Hs, Hu, T1, T2, T3, T4, T5, T6.
  cbn [negb result_bind]. rewrite !ex_ok.
  unfold relay_missing, operability_missing, ordering_missing, required. rewrite !app_nil, !unless_nil.
  cbn [SchemaUsage Select Update ControlSelect PresenceSelect PresenceInsert PresenceUpdate StreamsSelect
       StreamsInsert StreamsUpdate PartitionsSelect PartitionsUpdate].
  rewrite !andb_true_iff. rewrite Forall_app, !Forall_cons.
  destruct adminEnabled; rewrite ?app_nil, ?unless_nil;
    cbn [ControlUpdate OutboxInsert AuditSelect AuditInsert fst snd];
    rewrite ?andb_true_iff, ?Forall_cons, ?Forall_nil; cbn [fst snd]; tauto.
Qed.

(** What a role needs for the doctor to pass: besides the privileges it asks
    for, those without which the catalog hides parts of the schema. *)
Definition role_ready (adminEnabled : bool) (r : role) : Prop :=
  ro_usage r = true /\ holds r "schema_migrations" "SELECT" = true /\
  Forall (fun g => holds r g.1 g.2 = true) (required adminEnabled) /\
  holds_any r "inbox_events" (tail table_privileges) = true /\
  holds_any r "admin_audit_log" table_privileges = true.

Lemma holds_any_intro r t p ps : holds r t p = true -> p ∈ ps -> holds_any r t ps = true.
Proof. intros H Hp. apply existsb_exists. exists p. by rewrite <- list_elem_of_In. Qed.

Lemma holds_any_tail r t : holds_any r t (tail table_privileges) = true -> holds_any r t table_privileges = true.
Proof. unfold holds_any. cbn [existsb table_privileges tail]. intros ->. apply orb_true_r. Qed.

(** Membership in a list of constants. *)
Ltac listed :=
  try match goal with b : bool |- _ => destruct b end; apply (bool_decide_unpack _); vm_compute; exact I.

Lemma role_ready_split adminEnabled r :
  role_ready adminEnabled r <->
  seeing r /\ Forall (fun g => holds r g.1 g.2 = true) (required adminEnabled).
Proof.
  split.
  - intros (Hu & Hm & Hr & Hi & Ha). split; [|done].
    assert (forall t p, (t, p) ∈ required adminEnabled -> holds r t p = true) as Hh.
    { intros t p. rewrite Forall_forall in Hr. apply (Hr (t, p)). }
    assert (forall t, (t, "UPDATE"%string) ∈ required adminEnabled ->
      holds_any r t (tail table_privileges) = true) as Hup.
    { intros t H. apply (holds_any_intro _ _ "UPDATE"); [by apply Hh|listed]. }
    assert (forall t, (t, "SELECT"%string) ∈ required adminEnabled -> holds_any r t table_privileges = true) as Hse.
    { intros t H. apply (holds_any_intro _ _ "SELECT"); [by apply Hh|listed]. }
    split_and!; [done|done| | | | |].
    + unfold RequiredTables. rewrite !Forall_cons, Forall_nil. 
      split_and!; first [done|apply Hse; listed|by apply holds_any_tail].
    + apply (holds_any_intro _ _ "SELECT"); [apply Hh|]; listed.
    + unfold RequiredConstraints. rewrite !Forall_cons, Forall_nil. cbn [fst]. 
      split_and!; first [done|apply Hup; listed].
    + apply Hh. listed.
    + apply Hh. listed.
  - intros [(Hu & Hm & Ht & _ & Hc & _) Hr]. rewrite Forall_forall in Ht. rewrite Forall_forall in Hc. split_and!; try done.
    + apply (Hc ("inbox_events", "inbox_status_check")%string). listed.
    + apply Ht. listed.
Qed.

(** * Properties *)

Section properties.
Context (env : gmap string string) (quote : string -> string) (newID : string).
Context (fs : filesystem) (pem_ok : list N -> bool) (key_pair_ok : list N -> list N -> bool).
Context (NewClient : list Kafka.kgo_opt -> option string) (ErrorForCode : Z -> option kafka_error).
Context (pool_ok reach : bool) (s : schema) (r : role) (events control : session).
Context (kafka_ping : option kafka_error).

#[local] Abbreviation doctor := (doctorCmd env quote newID fs pem_ok key_pair_ok NewClient ErrorForCode
  pool_ok reach s r events control kafka_ping).

Lemma doctor_passes :
  doctor [] = Ok tt <-> doctor_failed env quote newID fs pem_ok key_pair_ok NewClient ErrorForCode pool_ok reach
    s r events control kafka_ping = [].
Proof. unfold doctorCmd. by destruct (doctor_failed _ _ _ _ _ _ _ _ _ _ _ _ _ _ _). Qed.

(** C22: The doctor is exact. It exits 0 exactly when the configuration is
    accepted, the database answers, its schema is complete, seeded and at this
    binary's version, the role holds every privilege the relay (and an enabled
    admin API) needs and can see the whole schema, a notification comes back on
    both channels, and Kafka answers a client with the configured security. *)
Theorem doctor_exact :
  doctor [] = Ok tt <->
  exists cfg, Load env quote newID = Ok cfg /\ pool_ok = true /\ reach = true /\
    complete s /\ role_ready (Enabled (Admin cfg)) r /\
    PingListenNotify events = Ok tt /\ PingControlNotify control = Ok tt /\
    (exists pub, Kafka.NewPublisher fs pem_ok key_pair_ok NewClient (doctor_kafka cfg) = Ok pub /\
       Kafka.Ping ErrorForCode (Some pub) kafka_ping = None).
Proof.
  assert (forall x : result string unit, is_ok x = true <-> x = Ok tt) as Hok by (by intros [[]|]).
  assert (forall cfg, kafka_check fs pem_ok key_pair_ok NewClient ErrorForCode kafka_ping (Ok cfg) = true <->
    exists pub, Kafka.NewPublisher fs pem_ok key_pair_ok NewClient (doctor_kafka cfg) = Ok pub /\
      Kafka.Ping ErrorForCode (Some pub) kafka_ping = None) as Hk.
  { intros cfg. unfold kafka_check. destruct (Kafka.NewPublisher _ _ _ _ _) as [pub|]; [|naive_solver].
    destruct (Kafka.Ping _ _ _) eqn:E; naive_solver. }
  rewrite doctor_passes, doctor_failed_nil. f_equiv. intros cfg.
  rewrite Hk, !Hok, doctor_schema_nil, role_ready_split.
  split; [intros (H1 & H2 & H3 & [H4 H5] & H6)|intros (H1 & H2 & H3 & H4 & (H5 & H6) & H7)];
    rewrite (privileges_exact _ s r (proj1 H4) (proj1 (proj2 (proj2 (proj2 H4)))) (proj1 H5)) in *; tauto.
Qed.

(** What a passed doctor is worth. If the doctor passed, [emitlane run] in the
    same environment starts as soon as a pool, the metrics and a Kafka client
    can be made: the configuration, the schema version and the security files
    are in order. *)
Theorem doctor_predicts_start {R : Type} Register Unregister (reg : R) ParseConfig NewWithConfig :
  doctor [] = Ok tt ->
  (forall url, ParseConfig url = true) -> (forall p, NewWithConfig p = true) ->
  not_null (Telemetry.NewMetrics Register Unregister reg).2 = true ->
  (forall opts, NewClient opts = None) ->
  is_ok (Daemon.start_up env quote newID fs pem_ok key_pair_ok NewClient ParseConfig NewWithConfig reach
    (SchemaVersion r s) Register Unregister reg []).2 = true.
Proof.
  intros Hd Hpc Hnc Hm Hc. apply doctor_passes, doctor_failed_nil in Hd as (cfg & Hl & _ & -> & Hs & _ & _ & _ & Hk).
  apply doctor_schema_nil in Hs as [(_ & Hv & _) (Hu & Hsm & _)]. apply (SchemaVersion_read r) in Hv; [|done..].
  rewrite (Daemon.start_exact _ _ _ _ _ _ _ _ _ _ _ _ _ _ cfg Hl), Hpc, Hnc, Hm, Hv. cbn [andb].
  unfold kafka_check, Kafka.NewPublisher in Hk.
  destruct (Kafka.Validate _) as [[]|]; [|done]. cbn [result_bind] in Hk.
  change (Kafka.Security (doctor_kafka cfg)) with (KafkaSecurity_ cfg) in Hk.
  destruct (newClientSecurity fs pem_ok key_pair_ok (KafkaSecurity_ cfg)) as [sec|]; [|done].
  by rewrite Hc.
Qed.
End properties.

(** ** The roles of the documentation *)

(** The grants [docs/QUICKSTART.md] gives the relay. *)
Definition documented_relay : role :=
  MkRole true (list_to_set
    [("outbox_events", "SELECT"); ("outbox_events", "UPDATE"); ("outbox_events", "DELETE");
     ("ordering_streams", "SELECT"); ("ordering_streams", "UPDATE");
     ("ordering_partitions", "SELECT"); ("ordering_partitions", "UPDATE"); ("runtime_control", "SELECT");
     ("relay_instances", "SELECT"); ("relay_instances", "INSERT"); ("relay_instances", "UPDATE")]%string).

(** The catalog hides the migration history from that role, so it reads version
    0 from every schema and [run] never starts. *)
Theorem documented_relay_refused {R : Type} env quote newID fs pem_ok key_pair_ok NewClient ParseConfig
    NewWithConfig pool_ping s Register Unregister (reg : R) args :
  SchemaVersion documented_relay s = Ok 0 /\
  is_ok (Daemon.start_up env quote newID fs pem_ok key_pair_ok NewClient ParseConfig NewWithConfig pool_ping
    (SchemaVersion documented_relay s) Register Unregister reg args).2 = false.
Proof.
  assert (SchemaVersion documented_relay s = Ok 0) as Hv.
  { unfold SchemaVersion, TableExists.
    by replace (holds_any documented_relay "schema_migrations" table_privileges) with false by (vm_compute; reflexivity). }
  split; [done|]. rewrite Hv. destruct (Daemon.start_up _ _ _ _ _ _ _ _ _ _ _ _ _ _ _) as [l [x|e]] eqn:E; [|done].
  apply Daemon.start_up_ok in E as (_ & _ & H & _). discriminate H.
Qed.

(** ** A fresh installation *)

Definition answers (channel : string) : session := MkSession true true true (Some channel).
Definition installed : schema := (MigrateUp 7 fresh).1.

#[local] Abbreviation example r := (doctorCmd Daemon.quiet_env (fun s => s) "host-1" demo_fs (fun _ => true)
  (fun _ _ => true) (fun _ => None) (fun _ => None) true true installed r (answers "emitlane_events")
  (answers "emitlane_control") None []).

Lemma installed_passes : example owner = Ok tt.
Proof. vm_compute. reflexivity. Qed.

(** Without [UPDATE] on the partitions the relay could not hold any. *)
Lemma missing_privilege_fails :
  example (MkRole true (ro_granted owner ∖ {[("ordering_partitions", "UPDATE")%string]}))
  = Err "1 critical check(s) failed"%string.
Proof. vm_compute. reflexivity. Qed.

Lemma doctor_predicts_start_witness :
  is_ok (Daemon.start_up Daemon.quiet_env (fun s => s) "host-1" demo_fs (fun _ => true) (fun _ _ => true)
    (fun _ => None) (fun _ => true) (fun _ => true) true (SchemaVersion owner installed)
    (fun _ r => (r, true)) (fun _ r => r) tt []).2 = true.
Proof.
  apply (doctor_predicts_start Daemon.quiet_env (fun s => s) "host-1" demo_fs (fun _ => true) (fun _ _ => true)
    (fun _ => None) (fun _ => None) true true installed owner (answers "emitlane_events")
    (answers "emitlane_control") None (fun _ r => (r, true)) (fun _ r => r) tt);
    [exact installed_passes|reflexivity..|vm_compute; reflexivity|reflexivity].
Defined.
End Doctor.
