(* ===== verification/Compare.v ===== *)
(** * Comparing benchmark runs ([benchmarks/cmd/emitlane-bench/compare.go])

    The runs of two result files are grouped by scenario and relay count,
    averaged, and compared; a row says whether the environments of all its runs
    agree. Numbers are binary64 ([Float64]); the JSON codec and the printed form
    of its values are arguments. *)
From Stdlib Require Import ZArith QArith String Ascii.
From stdpp Require Import base gmap strings list sorting fin_maps pretty.
From S2P Require Import Prelude GoStrings Float64 GoFlag Ordering PartitionStore.

Module Compare.
Import GoFlag.

#[local] Open Scope Z_scope.
#[local] Open Scope emitlane_scope.

Record comparisonMachine : Type := MkMachine { mc_OS : string; mc_Arch : string; mc_GoVersion : string }.
#[global] Instance comparisonMachine_eq_dec : EqDecision comparisonMachine.
Proof. solve_decision. Defined.

Section compare.
(** A JSON value, and [fmt.Sprint] of it. *)
Context {V : Type} (Sprint : V -> string).

(** A nil map is [None]. *)
Abbreviation json_map := (option (gmap string V)).
Definition lookup_json (m : json_map) (k : string) : option V := m ≫= fun m => m !! k.

Record comparisonRun : Type := MkRun {
  Scenario : string;
  RelayInstances : Z;
  EventsPerSecond : Q;
  LatencyP50Millis : Q;
  LatencyP95Millis : Q;
  LatencyP99Millis : Q;
  MemoryBytes : Z;
  GoVersion : string;
  OS : string;
  Arch : string;
  EmitLaneCommit : string;
  GitDirty : option bool;
  Seed : option Z;
  ValidReleaseEvidence : option bool;
  Machine : comparisonMachine;
  PostgreSQL : json_map;
  Kafka : json_map;
  PayloadSize : Z;
  Configuration : json_map;
}.

Record comparisonDocument : Type := MkDocument {
  d_Runs : list comparisonRun;
  d_EmitLaneCommit : string;
  d_BaselineCommit : string;
  d_GitDirty : option bool;
  d_Seed : option Z;
  d_ValidReleaseEvidence : option bool;
  d_Machine : comparisonMachine;
  d_PostgreSQL : json_map;
  d_Kafka : json_map;
  d_PayloadSize : Z;
  d_Configuration : json_map;
}.

Record comparisonProvenance : Type := MkProvenance {
  p_EmitLaneCommit : string;
  p_GitDirty : option bool;
  p_Seed : option Z;
  p_ValidReleaseEvidence : option bool;
  p_Machine : comparisonMachine;
  p_PostgreSQL : json_map;
  p_Kafka : json_map;
  p_PayloadSize : Z;
  p_Configuration : json_map;
}.

Record comparisonSummary : Type := MkSummary {
  s_Scenario : string;
  s_RelayInstances : Z;
  s_RunCount : Z;
  s_Throughput : Q;
  s_LatencyP50 : Q;
  s_LatencyP95 : Q;
  s_LatencyP99 : Q;
  s_MemoryBytes : Q;
  s_Provenance : comparisonProvenance;
  s_MetadataDifferences : list string;
}.

Record comparisonRow : Type := MkRow {
  Baseline : comparisonSummary;
  Candidate : comparisonSummary;
  ThroughputDeltaPercent : Q;
  P95DeltaPercent : Q;
  P99DeltaPercent : Q;
  EnvironmentCompatible : bool;
  EnvironmentDifferences : list string;
  EvidenceIssues : list string;
}.

Definition is_empty (s : string) : bool := bool_decide (s = ""%string).
Definition or_else {A} (x y : option A) : option A := match x with Some _ => x | None => y end.
Definition or_string (x y : string) : string := if is_empty x then y else x.

(** ** Provenance *)

Definition provenance (run : comparisonRun) : comparisonProvenance :=
  let m := Machine run in
  {| p_EmitLaneCommit := EmitLaneCommit run; p_GitDirty := GitDirty run; p_Seed := Seed run;
     p_ValidReleaseEvidence := ValidReleaseEvidence run;
     p_Machine := {| mc_OS := or_string (OS run) (mc_OS m); mc_Arch := or_string (Arch run) (mc_Arch m);
                     mc_GoVersion := or_string (GoVersion run) (mc_GoVersion m) |};
     p_PostgreSQL := PostgreSQL run; p_Kafka := Kafka run; p_PayloadSize := PayloadSize run;
     p_Configuration := Configuration run |}.

Definition inheritComparisonProvenance (run : comparisonRun) (d : comparisonDocument) : comparisonRun :=
  {| Scenario := Scenario run; RelayInstances := RelayInstances run;
     EventsPerSecond := EventsPerSecond run; LatencyP50Millis := LatencyP50Millis run;
     LatencyP95Millis := LatencyP95Millis run; LatencyP99Millis := LatencyP99Millis run;
     MemoryBytes := MemoryBytes run; GoVersion := GoVersion run; OS := OS run; Arch := Arch run;
     EmitLaneCommit := or_string (EmitLaneCommit run) (or_string (d_EmitLaneCommit d) (d_BaselineCommit d));
     GitDirty := or_else (GitDirty run) (d_GitDirty d); Seed := or_else (Seed run) (d_Seed d);
     ValidReleaseEvidence := or_else (ValidReleaseEvidence run) (d_ValidReleaseEvidence d);
     Machine := if bool_decide (Machine run = MkMachine "" "" "") then d_Machine d else Machine run;
     PostgreSQL := or_else (PostgreSQL run) (d_PostgreSQL d); Kafka := or_else (Kafka run) (d_Kafka d);
     PayloadSize := if PayloadSize run =? 0 then d_PayloadSize d else PayloadSize run;
     Configuration := or_else (Configuration run) (d_Configuration d) |}.

(** One field of the environment in two runs: missing, different or the same. *)
Definition field_difference (name baseline candidate : string) : list string :=
  if existsb (fun s => is_empty s || String.eqb s "0") [baseline; candidate] then [name +:+ " missing"]
  else if String.eqb baseline candidate then []
  else [name +:+ ": baseline=" +:+ baseline +:+ " candidate=" +:+ candidate].

Definition json_difference (name key : string) (left right : json_map) : list string :=
  match lookup_json left key, lookup_json right key with
  | Some l, Some r =>
      if String.eqb (Sprint l) (Sprint r) then []
      else [name +:+ "." +:+ key +:+ ": baseline=" +:+ Sprint l +:+ " candidate=" +:+ Sprint r]
  | _, _ => [name +:+ "." +:+ key +:+ " missing"]
  end.

(** The compared fields: the machine and the payload, then entries of the maps. *)
Definition text_fields (p : comparisonProvenance) : list (string * string) :=
  [("go_version", mc_GoVersion (p_Machine p)); ("os", mc_OS (p_Machine p));
   ("arch", mc_Arch (p_Machine p)); ("payload_size", Itoa (p_PayloadSize p))]%string.
Definition json_fields (p : comparisonProvenance) : list (string * string * json_map) :=
  [("postgresql", "version", p_PostgreSQL p); ("postgresql", "fsync", p_PostgreSQL p);
   ("postgresql", "full_page_writes", p_PostgreSQL p); ("postgresql", "synchronous_commit", p_PostgreSQL p);
   ("kafka", "version", p_Kafka p); ("kafka", "broker_count", p_Kafka p); ("kafka", "required_acks", p_Kafka p);
   ("configuration", "batch_size", p_Configuration p); ("configuration", "concurrency", p_Configuration p);
   ("configuration", "poll_interval", p_Configuration p);
   ("configuration", "lease_duration", p_Configuration p);
   ("configuration", "publish_timeout", p_Configuration p)]%string.

Definition environmentDifferences (baseline candidate : comparisonProvenance) : list string :=
  concat (zip_with (fun b c => field_difference b.1 b.2 c.2) (text_fields baseline) (text_fields candidate))
  ++ concat (zip_with (fun b c => json_difference b.1.1 b.1.2 b.2 c.2) (json_fields baseline) (json_fields candidate)).

Definition evidenceIssues (label : string) (p : comparisonProvenance) : list string :=
  (if is_empty (p_EmitLaneCommit p) then [label +:+ " commit missing"] else [])
  ++ match p_GitDirty p with
     | None => [label +:+ " git_dirty missing"]
     | Some dirty => if dirty then [label +:+ " run is dirty"] else []
     end
  ++ (if negb (not_null (p_Seed p)) then [label +:+ " seed missing"] else [])
  ++ match p_ValidReleaseEvidence p with
     | None => [label +:+ " valid_release_evidence missing"]
     | Some valid => if valid then [] else [label +:+ " is not valid release evidence"]
     end.

(** ** Summaries *)

Fixpoint unique_loop (seen : gset string) (l : list string) : list string :=
  match l with
  | [] => []
  | v :: l => if decide (v ∈ seen) then unique_loop seen l else v :: unique_loop ({[v]} ∪ seen) l
  end.
Definition uniqueStrings (values : list string) : list string := unique_loop ∅ values.

Definition run_key (scenario : string) (instances : Z) : string := scenario +:+ "/" +:+ Itoa instances.

(** One round of the first loop; a missing entry is the zero summary. *)
Definition add_run (totals : gmap string comparisonSummary) (run : comparisonRun) : gmap string comparisonSummary :=
  let key := run_key (Scenario run) (RelayInstances run) in
  let item := totals !! key in
  let num (f : comparisonSummary -> Q) (x : Q) : Q := f64_add (from_option f 0%Q item) x in
  <[key := {| s_Scenario := Scenario run; s_RelayInstances := RelayInstances run;
              s_RunCount := from_option s_RunCount 0 item + 1;
              s_Throughput := num s_Throughput (EventsPerSecond run);
              s_LatencyP50 := num s_LatencyP50 (LatencyP50Millis run);
              s_LatencyP95 := num s_LatencyP95 (LatencyP95Millis run);
              s_LatencyP99 := num s_LatencyP99 (LatencyP99Millis run);
              s_MemoryBytes := num s_MemoryBytes (f64_of_int (MemoryBytes run));
              s_Provenance := from_option s_Provenance (provenance run) item;
              s_MetadataDifferences :=
                match item with
                | None => []
                | Some i => s_MetadataDifferences i ++ environmentDifferences (s_Provenance i) (provenance run)
                end |}]> totals.

Definition mean (item : comparisonSummary) : comparisonSummary :=
  let count := f64_of_int (s_RunCount item) in
  {| s_Scenario := s_Scenario item; s_RelayInstances := s_RelayInstances item; s_RunCount := s_RunCount item;
     s_Throughput := f64_div (s_Throughput item) count; s_LatencyP50 := f64_div (s_LatencyP50 item) count;
     s_LatencyP95 := f64_div (s_LatencyP95 item) count; s_LatencyP99 := f64_div (s_LatencyP99 item) count;
     s_MemoryBytes := f64_div (s_MemoryBytes item) count; s_Provenance := s_Provenance item;
     s_MetadataDifferences := uniqueStrings (s_MetadataDifferences item) |}.

Definition summarizeRuns (runs : list comparisonRun) : gmap string comparisonSummary :=
  mean <$> foldl add_run ∅ runs.

Definition percentDelta (baseline candidate : Q) : Q :=
  if Qeq_bool baseline 0 then 0%Q
  else f64_mul (f64_div (f64_sub candidate baseline) baseline) 100.

(** ** Rows *)

Definition row_of (base current : comparisonSummary) : comparisonRow :=
  let differences := uniqueStrings (s_MetadataDifferences base ++ s_MetadataDifferences current
    ++ environmentDifferences (s_Provenance base) (s_Provenance current)) in
  {| Baseline := base; Candidate := current;
     ThroughputDeltaPercent := percentDelta (s_Throughput base) (s_Throughput current);
     P95DeltaPercent := percentDelta (s_LatencyP95 base) (s_LatencyP95 current);
     P99DeltaPercent := percentDelta (s_LatencyP99 base) (s_LatencyP99 current);
     EnvironmentCompatible := (length differences =? 0)%nat;
     EnvironmentDifferences := differences;
     EvidenceIssues := evidenceIssues "baseline" (s_Provenance base)
                       ++ evidenceIssues "candidate" (s_Provenance current) |}.

(** The order of [sort.Slice]: not after. *)
Definition row_le (r1 r2 : comparisonRow) : Prop :=
  let b1 := Baseline r1 in let b2 := Baseline r2 in
  if String.eqb (s_Scenario b1) (s_Scenario b2) then s_RelayInstances b1 <= s_RelayInstances b2
  else string_le (s_Scenario b1) (s_Scenario b2).
#[global] Instance row_le_dec : RelDecision row_le.
Proof. intros r1 r2. unfold row_le. case_match; apply _. Defined.

(** The loop over the baseline's map, in the order [keys] the runtime visits it. *)
Definition rows_in (order : list (string * comparisonSummary)) (candidate : gmap string comparisonSummary)
  : list comparisonRow :=
  omap (fun kb => row_of kb.2 <$> candidate !! kb.1) order.

Definition compareRuns (baseline candidate : list comparisonRun) : list comparisonRow :=
  merge_sort row_le (rows_in (map_to_list (summarizeRuns baseline)) (summarizeRuns candidate)).

(** [loadComparisonRuns]; [raw] is what [os.ReadFile] returns, the two decoders
    are [json.Unmarshal] at the two types. *)
Definition loadComparisonRuns (Unmarshal_document : string -> option comparisonDocument)
    (Unmarshal_run : string -> option comparisonRun) (raw : result string string)
  : result string (list comparisonRun) :=
  let! raw := raw in
  let single :=
    match Unmarshal_run raw with
    | None => Err "json"%string
    | Some run => if is_empty (Scenario run) then Err "benchmark JSON has no scenario or runs"%string
                  else Ok [run]
    end in
  match Unmarshal_document raw with
  | Some d => if (length (d_Runs d) =? 0)%nat then single
              else Ok ((fun run => inheritComparisonProvenance run d) <$> d_Runs d)
  | None => single
  end.

Definition compare_flags : gmap string value :=
  {[ "baseline"%string := VString ""; "candidate"%string := VString "" ]}.

(** [runCompare]: the rows it prints. Positional arguments are ignored. *)
Definition runCompare Unmarshal_document Unmarshal_run (ReadFile : string -> result string string)
    (args : list string) : result string (list comparisonRow) :=
  match Parse compare_flags args with
  | None => Err "flag"%string
  | Some (fs, _) =>
      fail_if is_empty (get_string fs "baseline") || is_empty (get_string fs "candidate")
        with "compare requires --baseline and --candidate"%string;
      let! baseline := loadComparisonRuns Unmarshal_document Unmarshal_run (ReadFile (get_string fs "baseline")) in
      let! candidate := loadComparisonRuns Unmarshal_document Unmarshal_run (ReadFile (get_string fs "candidate")) in
      Ok (compareRuns baseline candidate)
  end.

(** * Lemmas *)

(** ** Keys *)

Fixpoint has_slash (s : string) : bool :=
  match s with EmptyString => false | String c s => Ascii.eqb c "/"%char || has_slash s end.

Lemma has_slash_app a b : has_slash (a +:+ b) = has_slash a || has_slash b.
Proof.
  induction a as [|c a IH]; [done|]. change (String c a +:+ b) with (String c (a +:+ b)).
  cbn [has_slash]. by rewrite IH, orb_assoc.
Qed.

Lemma split_last_slash a b x y :
  has_slash x = false -> has_slash y = false ->
  a +:+ String "/"%char x = b +:+ String "/"%char y -> a = b /\ x = y.
Proof.
  intros Hx Hy. revert b. induction a as [|c a IH]; intros [|d b] H; cbn in H.
  - by simplify_eq.
  - injection H as <- ->. by rewrite has_slash_app, orb_true_r in Hx.
  - injection H as -> <-. by rewrite has_slash_app, orb_true_r in Hy.
  - injection H as -> H. destruct (IH b H) as [-> ->]. done.
Qed.

Lemma pretty_go_no_slash n s : has_slash s = false -> has_slash (pretty_N_go n s) = false.
Proof.
  revert s. induction (N.lt_wf_0 n) as [n _ IH]. intros s Hs.
  destruct (decide (n = 0%N)) as [->|Hn]; [by rewrite pretty_N_go_0|].
  rewrite pretty_N_go_step by lia. apply IH; [apply N.div_lt; lia|]. cbn. rewrite Hs, orb_false_r.
  unfold pretty_N_char. by repeat case_match.
Qed.

Lemma Itoa_no_slash z : has_slash (Itoa z) = false.
Proof.
  assert (forall p, has_slash (pretty (N.pos p)) = false) as Hp.
  { intros p. unfold pretty, pretty_N. case_decide; [done|]. by apply pretty_go_no_slash. }
  destruct z as [|p|p]; [done|exact (Hp p)|exact (Hp p)].
Qed.

Lemma run_key_inj s1 n1 s2 n2 : run_key s1 n1 = run_key s2 n2 -> s1 = s2 /\ n1 = n2.
Proof.
  unfold run_key. intros H. apply split_last_slash in H as [-> H]; [|apply Itoa_no_slash..].
  split; [done|]. by apply (inj pretty) in H.
Qed.

(** ** The groups *)

Lemma concat_singleton {A} (f : comparisonRun -> list A) r : concat (f <$> [r]) = f r.
Proof. apply app_nil_r. Qed.

Definition group (k : string) (runs : list comparisonRun) : list comparisonRun :=
  filter (fun run => run_key (Scenario run) (RelayInstances run) = k) runs.

(** What the loop keeps of a group. *)
Definition totalled (k : string) (runs : list comparisonRun) (item : option comparisonSummary) : Prop :=
  match group k runs, item with
  | [], None => True
  | run :: rest, Some i =>
      run_key (s_Scenario i) (s_RelayInstances i) = k /\ s_RunCount i = Z.of_nat (length (run :: rest)) /\
      s_Provenance i = provenance run /\
      s_MetadataDifferences i = concat ((fun r => environmentDifferences (provenance run) (provenance r)) <$> rest)
  | _, _ => False
  end.

Lemma add_run_totalled k runs run totals :
  totalled k runs (totals !! k) -> totalled k (runs ++ [run]) (add_run totals run !! k).
Proof.
  unfold totalled, add_run, group. rewrite filter_app, filter_cons, filter_nil.
  destruct (decide (run_key (Scenario run) (RelayInstances run) = k)) as [E|E].
  - rewrite E, lookup_insert_eq. destruct (filter _ runs) as [|r0 rest], (totals !! k) as [i|]; try done;
      cbn [app from_option s_Scenario s_RelayInstances s_RunCount s_Provenance s_MetadataDifferences length].
    intros (_ & Hc & Hp & Hd). split_and!; [done| |done|].
    + rewrite Hc, length_app. cbn [length]. lia.
    + by rewrite Hd, Hp, fmap_app, concat_app, concat_singleton.
  - rewrite lookup_insert_ne, app_nil_r by done. done.
Qed.

Lemma totals_spec k runs : totalled k runs (foldl add_run ∅ runs !! k).
Proof.
  induction runs as [|run runs IH] using rev_ind; [done|]. rewrite foldl_snoc. by apply add_run_totalled.
Qed.

Definition summarized (k : string) (runs : list comparisonRun) (i : comparisonSummary) : Prop :=
  run_key (s_Scenario i) (s_RelayInstances i) = k /\
  exists run rest, group k runs = run :: rest /\ s_Provenance i = provenance run /\
    s_MetadataDifferences i = uniqueStrings (concat ((fun r =>
      environmentDifferences (provenance run) (provenance r)) <$> rest)).

Lemma summarize_lookup k runs i : summarizeRuns runs !! k = Some i -> summarized k runs i.
Proof.
  unfold summarizeRuns. rewrite lookup_fmap. pose proof (totals_spec k runs) as H.
  unfold totalled in H. destruct (foldl add_run ∅ runs !! k) as [t|]; [|done]. intros [= <-].
  destruct (group k runs) as [|run rest] eqn:E; [done|]. destruct H as (Hk & _ & Hp & Hd).
  split; [done|]. exists run, rest. cbn. by rewrite Hd.
Qed.

Lemma summarize_is_Some k runs : is_Some (summarizeRuns runs !! k) <-> group k runs <> [].
Proof.
  unfold summarizeRuns. rewrite lookup_fmap, fmap_is_Some. pose proof (totals_spec k runs) as H.
  unfold totalled in H. destruct (foldl add_run ∅ runs !! k), (group k runs); split; try done; by intros [].
Qed.

(** ** Environments *)

(** The values a run's environment is judged by, unless one is missing. *)
Definition text_value (f : string * string) : option string :=
  if is_empty f.2 || String.eqb f.2 "0" then None else Some f.2.
Definition json_value (f : string * string * json_map) : option string := Sprint <$> lookup_json f.2 f.1.2.
Definition fingerprint (p : comparisonProvenance) : option (list string) :=
  mapM id ((text_value <$> text_fields p) ++ (json_value <$> json_fields p)).

Lemma field_difference_nil n b c :
  field_difference n b c = [] <-> exists v, text_value (n, b) = Some v /\ text_value (n, c) = Some v.
Proof.
  unfold field_difference, text_value. cbn [existsb fst snd].
  destruct (is_empty b || String.eqb b "0"), (is_empty c || String.eqb c "0"); cbn; try naive_solver.
  destruct (String.eqb_spec b c); naive_solver.
Qed.

Lemma json_difference_nil n k l r :
  json_difference n k l r = [] <-> exists v, json_value (n, k, l) = Some v /\ json_value (n, k, r) = Some v.
Proof.
  unfold json_difference, json_value. cbn [fst snd].
  destruct (lookup_json l k) as [v|], (lookup_json r k) as [w|]; cbn; [|naive_solver..].
  destruct (String.eqb_spec (Sprint v) (Sprint w)) as [->|Hne]; (split; [|intros (x & H1 & H2)]);
    [eauto|done|done|congruence].
Qed.

Lemma mapM_id_agree (xs ys : list (option string)) :
  length xs = length ys ->
  (Forall2 (fun x y => exists v, x = Some v /\ y = Some v) xs ys <->
   exists f, mapM id xs = Some f /\ mapM id ys = Some f).
Proof.
  revert ys. induction xs as [|x xs IH]; intros [|y ys] Hl; cbn [length] in Hl; try done.
  - split; [intros _; by exists []|intros _; constructor].
  - injection Hl as Hl. rewrite Forall2_cons, IH by done. cbn. split.
    + intros ((v & -> & ->) & f & H1 & H2). exists (v :: f). cbn. by rewrite H1, H2.
    + intros (f & H1 & H2). destruct x as [v|]; [|done]. destruct y as [w|]; [|done]. cbn in *.
      destruct (mapM id xs) as [f1|]; [|done]. destruct (mapM id ys) as [f2|]; [|done].
      cbn in H1, H2. injection H1 as H1. injection H2 as H2. rewrite <- H1 in H2. injection H2 as -> ->. split; eexists; by split.
Qed.

Lemma concat_nil_Forall {A} (ls : list (list A)) : concat ls = [] <-> Forall (fun l => l = []) ls.
Proof.
  induction ls as [|l ls IH]; cbn; [by split|]. by rewrite app_nil, IH, Forall_cons.
Qed.

(** Two runs have no differences exactly when their fingerprints are complete
    and equal. *)
Lemma environment_agree p q :
  environmentDifferences p q = [] <-> exists f, fingerprint p = Some f /\ fingerprint q = Some f.
Proof.
  unfold environmentDifferences, fingerprint. rewrite app_nil, !concat_nil_Forall.
  rewrite <- mapM_id_agree by done.
  unfold text_fields, json_fields. cbn [zip_with fmap list_fmap app fst snd].
  rewrite !Forall_cons, !Forall2_cons, !field_difference_nil, !json_difference_nil.
  rewrite Forall_nil, Forall2_nil. tauto.
Qed.

Lemma unique_loop_nil l seen : (forall v, v ∈ l -> v ∉ seen) -> unique_loop seen l = [] <-> l = [].
Proof.
  intros H. destruct l as [|v l]; [done|]. cbn. rewrite decide_False; [done|]. apply H. left.
Qed.

Lemma uniqueStrings_nil l : uniqueStrings l = [] <-> l = [].
Proof. apply unique_loop_nil. set_solver. Qed.

(** A group agrees with its first run. *)
Lemma group_agrees run rest :
  concat ((fun r => environmentDifferences (provenance run) (provenance r)) <$> rest) = [] <->
  Forall (fun r => exists f, fingerprint (provenance run) = Some f /\ fingerprint (provenance r) = Some f) rest.
Proof.
  rewrite concat_nil_Forall, Forall_fmap. apply Forall_iff. intros r. apply environment_agree.
Qed.

(** * Properties *)

(** The row of a key: both files have runs under it. *)
Lemma rows_exact baseline candidate row :
  row ∈ compareRuns baseline candidate <->
  exists k b c, summarizeRuns baseline !! k = Some b /\ summarizeRuns candidate !! k = Some c /\ row = row_of b c.
Proof.
  unfold compareRuns, rows_in. rewrite merge_sort_Permutation, list_elem_of_omap. split.
  - intros ([k b] & Hb%elem_of_map_to_list & Hr). cbn in Hr. apply fmap_Some in Hr as (c & Hc & ->). eauto 10.
  - intros (k & b & c & Hb & Hc & ->). exists (k, b). rewrite elem_of_map_to_list. cbn. by rewrite Hc.
Qed.

(** The order of the rows. *)
Lemma row_le_spec r1 r2 :
  row_le r1 r2 <->
  (s_Scenario (Baseline r1) = s_Scenario (Baseline r2) /\
   s_RelayInstances (Baseline r1) <= s_RelayInstances (Baseline r2)) \/
  String.ltb (s_Scenario (Baseline r1)) (s_Scenario (Baseline r2)) = true.
Proof.
  unfold row_le, string_le. destruct (String.eqb_spec (s_Scenario (Baseline r1)) (s_Scenario (Baseline r2))) as [E|E].
  - rewrite E, string_ltb_irrefl. naive_solver.
  - destruct (string_ltb_total (s_Scenario (Baseline r1)) (s_Scenario (Baseline r2))) as [H|[H|H]]; [done| |].
    + destruct (String.ltb (s_Scenario (Baseline r2)) _) eqn:H2; [|naive_solver].
      pose proof (string_ltb_trans _ _ _ H H2) as H3. by rewrite string_ltb_irrefl in H3.
    + destruct (String.ltb (s_Scenario (Baseline r1)) _) eqn:H2; [|naive_solver].
      pose proof (string_ltb_trans _ _ _ H H2) as H3. by rewrite string_ltb_irrefl in H3.
Qed.

#[global] Instance row_le_trans : Transitive row_le.
Proof.
  intros r1 r2 r3. rewrite !row_le_spec. intros [[E1 H1]|H1] [[E2 H2]|H2].
  - left. split; [congruence|lia].
  - right. by rewrite E1.
  - right. by rewrite <- E2.
  - right. by eapply string_ltb_trans.
Qed.

#[global] Instance row_le_total : Total row_le.
Proof.
  intros r1 r2. rewrite !row_le_spec.
  destruct (string_ltb_total (s_Scenario (Baseline r1)) (s_Scenario (Baseline r2))) as [H|[H|H]]; [|tauto..].
  rewrite H. destruct (Z.le_ge_cases (s_RelayInstances (Baseline r1)) (s_RelayInstances (Baseline r2))); tauto.
Qed.

(** Rows of the same scenario and relay count are the same row. *)
Lemma row_le_antisym baseline candidate r1 r2 :
  r1 ∈ compareRuns baseline candidate -> r2 ∈ compareRuns baseline candidate ->
  row_le r1 r2 -> row_le r2 r1 -> r1 = r2.
Proof.
  intros (k1 & b1 & c1 & Hb1 & Hc1 & ->)%rows_exact (k2 & b2 & c2 & Hb2 & Hc2 & ->)%rows_exact.
  rewrite !row_le_spec. cbn [Baseline row_of].
  destruct (summarize_lookup _ _ _ Hb1) as [<- _], (summarize_lookup _ _ _ Hb2) as [<- _].
  intros [[E1 H1]|H1] [[E2 H2]|H2].
  - assert (s_RelayInstances b1 = s_RelayInstances b2) as E3 by lia. rewrite E1, E3 in Hb1, Hc1. congruence.
  - by rewrite E1, string_ltb_irrefl in H2.
  - by rewrite E2, string_ltb_irrefl in H1.
  - pose proof (string_ltb_trans _ _ _ H1 H2) as H3. by rewrite string_ltb_irrefl in H3.
Qed.

(** Whatever order the runtime iterates the map in, and however an unstable
    sort arranges equal rows, the rows come out the same. *)
Theorem comparison_deterministic baseline candidate order rows :
  order ≡ₚ map_to_list (summarizeRuns baseline) ->
  rows ≡ₚ rows_in order (summarizeRuns candidate) -> StronglySorted row_le rows ->
  rows = compareRuns baseline candidate.
Proof.
  intros Ho Hr Hs. assert (rows ≡ₚ compareRuns baseline candidate) as Hp.
  { rewrite Hr. unfold compareRuns. rewrite merge_sort_Permutation. unfold rows_in. by rewrite Ho. }
  apply (StronglySorted_unique_strong row_le); [|done|by apply StronglySorted_merge_sort; apply _|done].
  intros r1 r2 H1 H2. apply (row_le_antisym baseline candidate); [by rewrite <- Hp|done].
Qed.

(** Compatible means comparable. The comparison has a row for exactly the
    scenarios and relay counts both files ran; and it calls the environment of a
    row compatible exactly when every one of its runs, in both files, records
    all the compared settings and they are all equal. *)
Theorem comparison_exact baseline candidate :
  (forall s n, (exists row, row ∈ compareRuns baseline candidate /\ s_Scenario (Baseline row) = s /\
                 s_RelayInstances (Baseline row) = n) <->
     group (run_key s n) baseline <> [] /\ group (run_key s n) candidate <> []) /\
  (forall row, row ∈ compareRuns baseline candidate ->
     let k := run_key (s_Scenario (Baseline row)) (s_RelayInstances (Baseline row)) in
     EnvironmentCompatible row = true <->
     exists f, Forall (fun r => fingerprint (provenance r) = Some f) (group k baseline ++ group k candidate)).
Proof.
  split.
  - intros s n. rewrite <- !summarize_is_Some. split.
    + intros (row & (k & b & c & Hb & Hc & ->)%rows_exact & <- & <-).
      destruct (summarize_lookup _ _ _ Hb) as [Hk _]. cbn. rewrite Hk, Hb, Hc. by split.
    + intros [[b Hb] [c Hc]]. exists (row_of b c). split; [apply rows_exact; by eauto 10|].
      destruct (summarize_lookup _ _ _ Hb) as [Hk _]. by apply run_key_inj in Hk.
  - intros row (k & b & c & Hb & Hc & ->)%rows_exact. cbn zeta.
    destruct (summarize_lookup _ _ _ Hb) as (Hk & rb & lb & Gb & Pb & Db).
    destruct (summarize_lookup _ _ _ Hc) as (_ & rc & lc & Gc & Pc & Dc).
    change (s_Scenario (Baseline (row_of b c))) with (s_Scenario b).
    change (s_RelayInstances (Baseline (row_of b c))) with (s_RelayInstances b). rewrite Hk, Gb, Gc.
    unfold row_of. cbn [EnvironmentCompatible]. rewrite Nat.eqb_eq, length_zero_iff_nil, uniqueStrings_nil, !app_nil.
    rewrite Db, Dc, Pb, Pc, !uniqueStrings_nil, !group_agrees, environment_agree.
    rewrite !Forall_forall. setoid_rewrite Forall_app. setoid_rewrite Forall_cons. setoid_rewrite Forall_forall.
    split.
    + intros (Hlb & Hlc & f & Hfb & Hfc). exists f. split_and!; [done| |done|].
      * intros r Hr. destruct (Hlb r Hr) as (f' & ? & ?). congruence.
      * intros r Hr. destruct (Hlc r Hr) as (f' & ? & ?). congruence.
    + intros (f & (Hfb & Hlb) & Hfc & Hlc). split_and!; eauto.
Qed.
End compare.

(** ** Two files *)

Definition settings : option (gmap string string) :=
  Some (list_to_map ((fun k => (k, "1"%string)) <$>
    ["version"; "fsync"; "full_page_writes"; "synchronous_commit"; "broker_count"; "required_acks";
     "batch_size"; "concurrency"; "poll_interval"; "lease_duration"; "publish_timeout"]%string)).

Definition run (go : string) (dirty : bool) : @comparisonRun string :=
  {| Scenario := "throughput"; RelayInstances := 2; EventsPerSecond := 100; LatencyP50Millis := 1;
     LatencyP95Millis := 2; LatencyP99Millis := 3; MemoryBytes := 1024; GoVersion := go; OS := "linux";
     Arch := "amd64"; EmitLaneCommit := "c0ffee"; GitDirty := Some dirty; Seed := Some 1;
     ValidReleaseEvidence := Some (negb dirty); Machine := MkMachine "" "" ""; PostgreSQL := settings;
     Kafka := settings; PayloadSize := 256; Configuration := settings |}.

#[local] Abbreviation compare := (compareRuns (fun v => v)).

(** One run with another toolchain makes the whole row incompatible. *)
Example toolchain_noticed :
  EnvironmentCompatible <$> compare [run "1.24" false; run "1.24" false] [run "1.24" false] = [true] /\
  EnvironmentCompatible <$> compare [run "1.24" false; run "1.23" false] [run "1.24" false] = [false].
Proof. split; vm_compute; reflexivity. Qed.

(** The evidence is judged by the first run of a group only: a dirty first run
    is reported, a dirty second run is averaged in without an issue. *)
Example later_dirty_run_unnoticed :
  EvidenceIssues <$> compare [run "1.24" true; run "1.24" false] [run "1.24" false]
    = [["baseline run is dirty"; "baseline is not valid release evidence"]%string] /\
  EvidenceIssues <$> compare [run "1.24" false; run "1.24" true] [run "1.24" false] = [[]].
Proof. split; vm_compute; reflexivity. Qed.
End Compare.
